(* ===== verification/_CoqProject ===== *)
-Q . S2P
Prelude.v
StdMap.v
Utils.v
Text.v
Dump.v
Gnutls.v
Stream.v
Udp.v
Sender.v
EndpointSend.v
Context.v
Connection.v
Flush.v
Lifetime.v
Traffic.v
Endpoint.v
Network.v
Threads.v
Setup.v
Teardown.v
Reactor.v
Whole.v
Tables.v
Speedtest.v
