(* ===== verification/Prelude.v ===== *)
(** * oxen-libquic: a verification development

    oxen-libquic is a C++ library that runs QUIC (by way of ngtcp2) over UDP sockets on a libevent
    loop.  An application makes a [Network], asks it for an [Endpoint] per local address, and
    listens or connects on it; each [Connection] carries bidirectional [Stream]s.  Data flows

      Stream::send -> user_buffers -> Connection::flush_streams -> ngtcp2 -> send_buffer
        -> Connection::send -> Endpoint::send_packets -> UDPSocket::send -> kernel

    and back through UDPSocket::receive -> Endpoint::handle_packet -> ngtcp2 -> the callbacks of
    Connection -> the application.  All of this runs on the event loop thread; other threads hand
    jobs to it through [Network::call].

    ** Files, and what they model

    - Prelude.v (this file): machine integers as [Z] with explicit wrap-around, the [outcome] monad
      (value, failed assertion, undefined behaviour, exception, out of fuel), computations with the
      trace of the calls they make, tactics, list lemmas.
    - StdMap.v: [std::map] as a strictly sorted association list.
    - Utils.v: include/quic/utils.hpp, src/utils.cpp, include/quic/opt.hpp, src/internal.hpp.
      Modules [Literals], [Cid] (connection ids), [Addr] (addresses as the bytes of the
      sockaddr_storage; addresses and paths also as objects with the pointers they hold), [Io] (io_result); the class [NgtcpConsts] of ngtcp2's constants.
    - Text.v: the text forms of connection ids and addresses (src/utils.cpp) and the address parser
      of the command line programs (tests/utils.hpp).
    - Dump.v: the rest of the formatting in src/utils.cpp: buffer_printer, Path::to_string,
      io_result::str, logger_config, and numeric_host.
    - Gnutls.v: src/gnutls_crypto.cpp, include/quic/gnutls_crypto.hpp.  Module [Tls]: [datum], and
      credentials and sessions as the calls they make into GnuTLS.
    - Stream.v: src/stream.cpp, include/quic/stream.hpp.  Module [Strm]: the record [Stream] and
      its operations; module [Chunks]: [send_chunks] and the acknowledgement loop, whose
      destructors queue further chunks.
    - Udp.v: src/udp.cpp, include/quic/udp.hpp.  Module [Udp]: receiving (recvmmsg and recvmsg),
      sending in the three build modes (GSO, sendmmsg, sendmsg), writeability callbacks.  System
      calls are lists of answers.
    - Sender.v: the interface between the socket and its users: classes [Sender] and [SenderLaws],
      and the instance for the socket of Udp.v over any kernel that keeps to its documentation.
    - EndpointSend.v: Endpoint::send_packets and send_or_queue_packet, against [Sender].
    - Context.v: src/context.cpp, include/quic/context.hpp (options of listen and connect).
    - Connection.v: src/connection.cpp.  Class [Ngtcp2] (the operations of ngtcp2 a connection
      calls); module [Conn]: the record [Connection], streams waiting for an id, the callbacks
      registered with ngtcp2, the parameters of init, the retransmission timer.
    - Flush.v: Connection::flush_streams, send and on_io_ready.  Module [Flush]: the loop with its
      list of streams, the iterator to its last element (with its validity), the offset into the
      send buffer, the batch of packets and the flag of the timer updater.
    - Lifetime.v: a connection from its creation on, as one system (module [Life]) of the
      application's calls, ngtcp2's callbacks, flushes, resends and the socket, with observers
      of what was queued, handed over and finished.
    - Traffic.v: any number of connections and one-shot packets that share a socket (module [Traf]): the io trigger,
      the callbacks that wait for a writeable socket, connections that are made and destroyed.
    - Endpoint.v: src/endpoint.cpp, include/quic/endpoint.hpp.  Class [Ngtcp2Ep]; module [Ep]: the
      tables of connections and of draining connections, dispatch of packets, connect, accept,
      close, drain, timeouts, version negotiation.
    - Network.v: src/network.cpp, include/quic/network.hpp.  Module [Net]: the job queue as steps of
      interleaved threads, with the frame of [close] while its caller is in it; shutdown and the destructor.
    - Threads.v: application threads, the job queue and stream objects as one system (module [Thr]): [Stream::send],
      [close] and [send_chunks] called from any thread.
    - Setup.v: the constructors and destructors of UDPSocket, Endpoint and Network as system and
      libevent calls (module [Setup]), Network::endpoint over them, the callbacks and events of
      Connection::init, and connections with the TLS sessions of Gnutls.v.
    - Teardown.v: the destructors of Stream, Connection and Endpoint with the members they destroy and the order
      of it (module [Teardown]), the constructor of Connection with its unwinding, and who holds what when.
    - Reactor.v: the handlers the event loop runs (module [React]): the socket became readable,
      a connection's io trigger or retransmission timer fired, a graceful close over real
      endpoints.
    - Whole.v: an endpoint over its whole life, as one system of all its handlers (module [Wh]), and the
      simulation of it by the system of Traffic.v.
    - Tables.v: the tables of connections and of draining connections agree over every run of Whole.v.
    - Speedtest.v: tests/speedtest-server.cpp and tests/speedtest-client.cpp as users of the library.  Module [Sum]: the
      checksum; module [Server]: the data callback with its table of streams; module [Client]: data made from a random
      generator, the chunk callback over its ring of buffers, and the judgement of the answer.

    ** What the theorems show

    - The whole life of a connection: on every stream ngtcp2 is given exactly the bytes queued, in
      order, with FIN at most once and last; the wire and the batch hold exactly the packets
      ngtcp2 finished; no reachable state is stuck.
    - The same for any number of connections on one socket, and, by a simulation, for every connection of an
      endpoint in every state it can reach: nothing is lost, duplicated or mixed up between connections,
      and each waits for the socket exactly while it has packets left.
    - Ownership: events, descriptors, ngtcp2 connections and TLS sessions are acquired and released exactly
      once from construction to destruction; which failed constructor leaves what allocated; what the
      application is told of the streams of a connection that goes away.
    - Whole endpoints: received packets are demultiplexed, so that each connection behaves as if
      it were alone, and packets of strangers do not disturb the connections of an endpoint that
      listens; the packets the retransmission timer leads to; a graceful close gives each live
      connection of every endpoint one close packet, its own, sent, waiting or failed.
    - Streams: what is queued, in flight and acknowledged refines an append-only history with an
      offset; [pending] is exactly the unsent bytes; [send_chunks] keeps its promise on the number
      of chunks in flight, and that a circular buffer of so many containers is enough; the end of a
      stream is signalled once.
    - Packets: GSO batches are equivalent to sending packets one by one; [send_packets] keeps
      exactly the unsent packets; a flush neither loses, duplicates nor reorders packets, hands
      stream data to ngtcp2 in order and without gaps, never overruns its buffers or uses a dangling
      iterator, terminates, and leaves a resend callback exactly when packets are left.
    - Connections: the stream table invariant under every operation; streams that wait for an id
      are served in order, as many as there are ids; what flow control credit is given back; the result of each
      callback on each branch; the timer.
    - Endpoints: a packet touches only the connection it is for; in every state of Whole.v the tables
      agree, so that only draining connections are removed by a timeout; new ids are fresh and the search
      for them ends; closing and draining; one readable socket takes a bounded number of datagrams in
      both builds of the receiving code.
    - Addresses and text: the storage of an address is well formed however it was made, a path points to
      its own addresses whatever was copied, assigned or destroyed, equality is compatible with the hash, printing followed by parsing gives the address back, and a
      buffer can be read back from its dump.
    - Network: jobs run once and in order under every interleaving and no wakeup is lost; shutdown
      is scheduled once.  For the destructor on a thread other than the loop's, for user jobs while the loop
      has not been told to exit, and for a [close] that has returned, every schedule of the remaining steps ends
      (each step of [loop_step] lowers [weight]) and what is then the case is stated.
    - Threads: calls on streams take effect in each thread's order, up to the first on a stream that was
      destroyed; chunks keep their order on the event loop's thread, and can lose it on others.
    - The speed test: the checksum by words is that by bytes; the server answers a stream once, if its first piece
      holds the eight bytes of the size and no later piece is empty; the client's ring of buffers is never overwritten too
      early; a stream that has data to send ends with an answer the client accepts.
    - Construction: sockets, endpoints, credentials and sessions are made by stated sequences of
      calls; which failures are reported how, and what is left open when a constructor throws;
      libevent is set up once.
    - Behaviour that departs from the comments or is undefined is proved as such: see the theorems
      [close_reads_dangling_reference], [check_timeouts_outcomes], [retransmit_missed_expiry],
      [close_packet_padded], [connect_tls_failure], [close_conns_erases_current],
      [drain_time_collision], [dead_socket_stalls], [acknowledge_all_reads_empty_front],
      [receive_never_reports_ecn], [queued_packet_callback_not_called], [cid_hash_short_ids_differ],
      [local_addr_port_throws], [fin_lost_when_congested], [creds_from_memory_fail],
      [endpoint_lifecycle], [network_endpoint_requests], [wsa_send_is_recv], [foreign_chunks_reordered], [queued_calls_outcome],
      [receive_credit_balance] (the bytes of the last frame of a stream), [writeable_outcome] (a connection
      destroyed while its resend callback waits) and [stream_destruction] (a stream destroyed in the
      middle of [send_chunks]).

    ** Parameters and bounds

    ngtcp2, GnuTLS, libevent and the kernel are not part of the repository.  ngtcp2 is a state type
    with the operations of the classes [Ngtcp2], [Ngtcp2Ep] and [Ngtcp2Expiry]; what is relied on is
    stated as hypotheses ([writev_ok], [quantum_ok], [grants_fresh_ids], [read_keeps_id],
    [close_written], [writes_fit], [reads_by_callbacks]: reading a packet changes the connection only through the
    callbacks registered for it, of which [read_ok] is a consequence (Tables.v), and [ntop_ok] for inet_ntop and
    inet_pton) and met by toy instances in the worked examples.  The time, the path and the packet information that ngtcp2 is
    given with a packet are taken to be part of the packet and of the state of ngtcp2.  Random connection ids are inputs: the
    search for an unused id and the acceptance of connections ask that the first draws, one more than there are
    connections and packets, are different ids of 20 bytes ([fresh_draws]); over the whole life of an endpoint the ids that
    were filed are taken not to be filed again ([new_ids]), since its callbacks are named by them (class [Naming]).
    Whole.v takes the endpoint to hold the only reference to its connections, so that one that leaves the table
    is destroyed.  When sending, the kernel is a function of the call and the messages
    ([kernel_ok]); when sockets, endpoints and event loops are made, the results of system and libevent
    calls are a function of the call ([events_made]: libevent has memory for an event).  GnuTLS is the
    result of each call, with the file system and what [path = NULL] comes to as further parameters.
    User callbacks are numbers; running one is an effect.  The hash of GnuTLS and the random generator of the
    speed test are the classes [Hasher] (with [HasherLaws]: data may be hashed in pieces, a digest has 32 bytes) and [Rng].

    Loops that are not structural carry fuel, and the theorems say how much is enough: the
    acknowledgement loop one iteration per acknowledged byte and queued buffer ([ack_fuel]); the
    flush loop one per packet of the send quantum and per stream ([flush_fuel]); the search for an
    unused id one more draw than there are connections; receiving is bounded by the number of
    answered system calls.

    ** Not modelled

    Time, randomness and the contents of packets are inputs.  Of the Windows code only [init_wsa_bs]
    is modelled; the log statements are left out, and so are the unit tests, the plain test client and server, and the option
    tables of the speed test programs, which only call the library and CLI11; the global [sent_counter], which is only ever written, is kept with the connection.
    Destroying a Network on its own loop thread, where it would join itself, is not modelled.  The handlers of
    Endpoint.v and Whole.v drop the endpoint's reference to a connection; what its destructor does then, if
    no one else holds one, is in Teardown.v ([delete_and_release]) and not in the state of Whole.v.  A stream that
    the application holds longer than its connection is only followed up to the end of the connection: every
    operation on it after that goes through a dangling reference.  In Speedtest.v the client's
    stream is used on the event loop; what can go wrong because the program calls [send_chunks] on its main thread is shown
    for streams in general in Threads.v. *)
From stdpp Require Export base numbers list fin_maps gmap.
From Stdlib Require Export ZArith Lia.

Declare Scope quic_scope.
Delimit Scope quic_scope with quic.
Open Scope Z_scope.
Open Scope quic_scope.

(** ** Machine integers

    A w-bit unsigned value is a [Z] in [0, 2^w); conversions to it wrap.  [swrap] is the
    two's-complement conversion to a signed type (implementation-defined before C++20, and
    this on every platform the library builds for). *)
Module Width.
Definition wrap (w z : Z) : Z := z mod 2 ^ w.
Definition swrap (w z : Z) : Z := (z + 2 ^ (w - 1)) mod 2 ^ w - 2 ^ (w - 1).
Definition u8 (z : Z) : Z := wrap 8 z.
Definition u16 (z : Z) : Z := wrap 16 z.
Definition u64 (z : Z) : Z := wrap 64 z.
Definition i32 (z : Z) : Z := swrap 32 z.
Definition i64 (z : Z) : Z := swrap 64 z.

Definition is_u8 (z : Z) : Prop := 0 <= z < 2 ^ 8.
Definition is_u16 (z : Z) : Prop := 0 <= z < 2 ^ 16.
Definition is_u64 (z : Z) : Prop := 0 <= z < 2 ^ 64.

Lemma wrap_small w z : 0 <= z < 2 ^ w -> wrap w z = z.
Proof. intros H. unfold wrap. by apply Z.mod_small. Qed.

Lemma wrap_bound w z : 0 <= w -> 0 <= wrap w z < 2 ^ w.
Proof. intros H. unfold wrap. apply Z.mod_pos_bound. lia. Qed.

Lemma u64_small z : is_u64 z -> u64 z = z.
Proof. apply wrap_small. Qed.

Lemma u64_bound z : is_u64 (u64 z).
Proof. apply wrap_bound. lia. Qed.

Lemma u16_small z : is_u16 z -> u16 z = z.
Proof. apply wrap_small. Qed.

Lemma u64_sub a b : 0 <= b <= a -> a < 2 ^ 64 -> u64 (a - b) = a - b.
Proof. intros. apply u64_small. unfold is_u64. lia. Qed.

Lemma u64_add_u64 a b : u64 (a + u64 b) = u64 (a + b).
Proof. unfold u64, wrap. by rewrite Z.add_mod_idemp_r. Qed.

Lemma u8_bound z : is_u8 (u8 z).
Proof. apply wrap_bound. lia. Qed.

Lemma i64_small z : - 2 ^ 63 <= z < 2 ^ 63 -> i64 z = z.
Proof. intros Hz. unfold i64, swrap. rewrite Z.mod_small by lia. lia. Qed.

Lemma i32_small z : - 2 ^ 31 <= z < 2 ^ 31 -> i32 z = z.
Proof.
  intros H. unfold i32, swrap.
  change (2 ^ (32 - 1)) with (2 ^ 31). rewrite Z.mod_small; lia.
Qed.
End Width.
Export Width.

Create HintDb quic.
#[export] Hint Resolve u64_bound : quic.

(** ** Outcomes

    What running a piece of C++ can come to: a value, a failed [assert] (the debug build's
    behaviour), undefined behaviour, an exception, or, for a loop run with a bound, more
    iterations than the bound allows. *)
Inductive exn :=
  | out_of_range
  | invalid_argument
  | logic_error
  | length_error
  | runtime_error
  | system_error (code : Z).

Inductive outcome (A : Type) :=
  | Ok (a : A)
  | AssertFail
  | Undefined
  | Throw (e : exn)
  | OutOfFuel.
Arguments Ok {A} a.
Arguments AssertFail {A}.
Arguments Undefined {A}.
Arguments Throw {A} e.
Arguments OutOfFuel {A}.

#[export] Instance exn_eq_dec : EqDecision exn.
Proof. solve_decision. Defined.

Definition obind {A B} (c : outcome A) (k : A -> outcome B) : outcome B :=
  match c with
  | Ok a => k a
  | AssertFail => AssertFail
  | Undefined => Undefined
  | Throw e => Throw e
  | OutOfFuel => OutOfFuel
  end.

Notation "'let*' x ':=' c 'in' k" := (obind c (fun x => k))
  (at level 10, x pattern, c at level 100, k at level 200) : quic_scope.

(** [assert(b); k] in a debug build. *)
Definition assert_then {A} (b : bool) (k : outcome A) : outcome A :=
  if b then k else AssertFail.

Lemma ok_test {A} (o : outcome A) (p : A -> bool) :
  match o with Ok a => p a | _ => false end = true -> exists a, o = Ok a /\ p a = true.
Proof. destruct o; try done. eauto. Qed.
Lemma obind_ok {A B} (c : outcome A) (k : A -> outcome B) r :
  obind c k = Ok r <-> exists a, c = Ok a /\ k a = Ok r.
Proof. destruct c; simpl; naive_solver. Qed.

Lemma obind_assoc {A B D} (c : outcome A) (f : A -> outcome B) (g : B -> outcome D) :
  obind (obind c f) g = obind c (fun a => obind (f a) g).
Proof. by destruct c. Qed.

Lemma assert_then_ok {A} b (k : outcome A) r :
  assert_then b k = Ok r <-> b = true /\ k = Ok r.
Proof. destruct b; simpl; naive_solver. Qed.

(** ** Computations that make calls

    A constructor that makes library or system calls: the calls it made, in order, and what it came
    to.  The calls are kept also when an exception ends it. *)
Definition traced (E A : Type) : Type := list E * outcome A.
Definition tret {E A} (a : A) : traced E A := ([], Ok a).
Definition tlift {E A} (o : outcome A) : traced E A := ([], o).
Definition tdo {E} (e : E) : traced E unit := ([e], Ok tt).
Definition tbind {E A B} (c : traced E A) (k : A -> traced E B) : traced E B :=
  match c.2 with
  | Ok a => let '(t, r) := k a in (c.1 ++ t, r)
  | AssertFail => (c.1, AssertFail)
  | Undefined => (c.1, Undefined)
  | Throw e => (c.1, Throw e)
  | OutOfFuel => (c.1, OutOfFuel)
  end.
Notation "'let!' x ':=' c 'in' k" := (tbind c (fun x => k))
  (at level 10, x pattern, c at level 100, k at level 200) : quic_scope.

Lemma tbind_lift {E A B} (a : A) (k : A -> traced E B) : tbind (tlift (Ok a)) k = k a.
Proof. unfold tbind, tlift. simpl. by destruct (k a). Qed.

Lemma tbind_ret {E A B} (a : A) (k : A -> traced E B) : tbind (tret a) k = k a.
Proof. apply tbind_lift. Qed.

Lemma tbind_assoc {E A B D} (c : traced E A) (f : A -> traced E B) (g : B -> traced E D) :
  tbind (tbind c f) g = tbind c (fun a => tbind (f a) g).
Proof.
  unfold tbind. destruct c as [t [a| | | |]]; cbn; try done. destruct (f a) as [t1 [b| | | |]]; cbn; try done.
  destruct (g b) as [t2 r]. by rewrite app_assoc.
Qed.

Lemma tbind_ok {E A B} (c : traced E A) (k : A -> traced E B) b :
  (tbind c k).2 = Ok b <-> exists a, c.2 = Ok a /\ (k a).2 = Ok b.
Proof.
  unfold tbind. destruct c as [t [a| | | |]]; cbn; [|naive_solver..]. destruct (k a) as [t' r] eqn:Hk; cbn. split.
  - intros ->. exists a. by rewrite Hk.
  - intros (a' & [= <-] & H). by rewrite Hk in H.
Qed.

(** A plan of calls; [fails] tells which calls end it, and with what exception. *)
Fixpoint run_calls {E} (fails : E -> option exn) (l : list E) : traced E unit :=
  match l with
  | [] => tret tt
  | c :: l' =>
      match fails c with
      | Some x => ([c], Throw x)
      | None => let '(t, r) := run_calls fails l' in (c :: t, r)
      end
  end.

Lemma run_calls_ok {E} (fails : E -> option exn) l :
  (forall c, c ∈ l -> fails c = None) -> run_calls fails l = (l, Ok tt).
Proof.
  induction l as [|c l IH]; intros H; [done|]. simpl. rewrite H by left.
  rewrite IH; [done|]. intros c' Hc'. apply H. by right.
Qed.

Lemma run_calls_throw {E} (fails : E -> option exn) a c b x :
  (forall c', c' ∈ a -> fails c' = None) -> fails c = Some x -> run_calls fails (a ++ c :: b) = (a ++ [c], Throw x).
Proof.
  intros Ha Hc. induction a as [|c' a IH]; simpl; [by rewrite Hc|]. rewrite Ha by left.
  rewrite IH; [done|]. intros c'' ?. apply Ha. by right.
Qed.

(** A run of a plan either goes through, or stops at the first call that fails. *)
Lemma run_calls_cases {E} (fails : E -> option exn) l :
  ((forall c, c ∈ l -> fails c = None) /\ run_calls fails l = (l, Ok tt)) \/
  (exists a c b x, l = a ++ c :: b /\ (forall c', c' ∈ a -> fails c' = None) /\ fails c = Some x /\
     run_calls fails l = (a ++ [c], Throw x)).
Proof.
  induction l as [|c l IH]; [left; split; [by intros c ?%not_elem_of_nil|done]|].
  destruct (fails c) as [x|] eqn:E1.
  { right. exists [], c, l, x. split_and!; [done|by intros c' ?%not_elem_of_nil|done|]. simpl. by rewrite E1. }
  destruct IH as [[H1 H2]|(a & c' & b & x & -> & H1 & H2 & H3)].
  - left. split; [by intros c' [->|?]%elem_of_cons; auto|]. simpl. by rewrite E1, H2.
  - right. exists (c :: a), c', b, x. split_and!; [done|by intros c'' [->|?]%elem_of_cons; auto|done|].
    simpl. by rewrite E1, H3.
Qed.

(** ** Tactics *)

(** Turn boolean comparisons in the context and the goal into propositions. *)
Ltac bools :=
  repeat match goal with
  | H : (_ =? _) = true |- _ => apply Z.eqb_eq in H
  | H : (_ =? _) = false |- _ => apply Z.eqb_neq in H
  | H : (_ <? _) = true |- _ => apply Z.ltb_lt in H
  | H : (_ <? _) = false |- _ => apply Z.ltb_ge in H
  | H : (_ <=? _) = true |- _ => apply Z.leb_le in H
  | H : (_ <=? _) = false |- _ => apply Z.leb_gt in H
  | H : _ && _ = true |- _ => apply andb_true_iff in H as [? ?]
  | H : _ || _ = false |- _ => apply orb_false_iff in H as [? ?]
  | H : negb _ = true |- _ => apply negb_true_iff in H
  | H : negb _ = false |- _ => apply negb_false_iff in H
  end.

(** Case analysis on the first boolean test or match of the goal. *)
Ltac split_if :=
  match goal with
  | |- context [if ?b then _ else _] => destruct b eqn:?
  end.

(** ** Sums of sizes *)
Definition zlen {A} (l : list A) : Z := Z.of_nat (length l).
Definition zsum (l : list Z) : Z := foldr Z.add 0 l.

Lemma zlen_nonneg {A} (l : list A) : 0 <= zlen l.
Proof. unfold zlen. lia. Qed.
#[export] Hint Resolve zlen_nonneg : quic.

Lemma zlen_app {A} (l k : list A) : zlen (l ++ k) = zlen l + zlen k.
Proof. unfold zlen. rewrite length_app. lia. Qed.

Lemma zlen_cons {A} (x : A) l : zlen (x :: l) = 1 + zlen l.
Proof. unfold zlen. simpl. lia. Qed.

Lemma zsum_app l k : zsum (l ++ k) = zsum l + zsum k.
Proof. induction l; simpl; [done|]. unfold zsum in *. simpl. lia. Qed.

Lemma zsum_nonneg l : Forall (fun z => 0 <= z) l -> 0 <= zsum l.
Proof. induction 1; unfold zsum in *; simpl; lia. Qed.

Lemma zlen_concat {A} (ls : list (list A)) : zlen (concat ls) = zsum (map zlen ls).
Proof. induction ls as [|l ls IH]; [done|]. simpl. rewrite zlen_app, IH. done. Qed.

(** Signed-offset take and drop: a negative count is 0, as for an empty range. *)
Definition ztake {A} (n : Z) (l : list A) : list A := take (Z.to_nat n) l.
Definition zdrop {A} (n : Z) (l : list A) : list A := drop (Z.to_nat n) l.

Lemma zlen_zdrop {A} n (l : list A) : 0 <= n <= zlen l -> zlen (zdrop n l) = zlen l - n.
Proof. unfold zlen, zdrop. rewrite length_drop. lia. Qed.

Lemma zlen_ztake {A} n (l : list A) : 0 <= n <= zlen l -> zlen (ztake n l) = n.
Proof. unfold zlen, ztake. rewrite length_take. lia. Qed.

Lemma ztake_zdrop {A} n (l : list A) : ztake n l ++ zdrop n l = l.
Proof. apply take_drop. Qed.

Lemma zdrop_0 {A} (l : list A) : zdrop 0 l = l.
Proof. done. Qed.

Lemma ztake_0 {A} (l : list A) : ztake 0 l = [].
Proof. done. Qed.

Lemma zdrop_app_ge {A} n (l k : list A) : zlen l <= n -> zdrop n (l ++ k) = zdrop (n - zlen l) k.
Proof.
  intros H. unfold zdrop, zlen in *. rewrite drop_app_ge by lia. f_equal. lia.
Qed.

Lemma zdrop_app_le {A} n (l k : list A) :
  0 <= n <= zlen l -> zdrop n (l ++ k) = zdrop n l ++ k.
Proof. intros H. unfold zdrop, zlen in *. rewrite drop_app_le; [done|lia]. Qed.

Lemma ztake_app_le {A} n (l k : list A) : n <= zlen l -> ztake n (l ++ k) = ztake n l.
Proof. intros H. unfold ztake, zlen in *. rewrite take_app_le; [done|lia]. Qed.

Lemma ztake_app_ge {A} n (l k : list A) :
  zlen l <= n -> ztake n (l ++ k) = l ++ ztake (n - zlen l) k.
Proof.
  intros H. unfold ztake, zlen in *. rewrite take_app_ge by lia. do 2 f_equal. lia.
Qed.

Lemma zdrop_zdrop {A} n m (l : list A) : 0 <= n -> 0 <= m -> zdrop n (zdrop m l) = zdrop (m + n) l.
Proof. intros. unfold zdrop. rewrite drop_drop. f_equal. lia. Qed.

Lemma ztake_add {A} n m (l : list A) : 0 <= n -> 0 <= m -> ztake (n + m) l = ztake n l ++ ztake m (zdrop n l).
Proof. intros. unfold ztake, zdrop. rewrite take_take_drop. f_equal. lia. Qed.
