(* ===== verification/StdMap.v ===== *)
(** * std::map as a strictly sorted association list

    [Connection::streams] (keyed by stream id) and [Endpoint::draining] (keyed by time point)
    are [std::map]s: iteration is in key order, [emplace] keeps an existing entry, [operator[]]
    followed by an assignment replaces it.  Each is modelled by the list of its entries in
    iteration order. *)
From S2P Require Import Prelude.

Section map_ops.
Context {V : Type}.
Implicit Types (m : list (Z * V)) (k : Z) (v : V).

(** [m.find(k)]: the value, or nothing for [m.end()]. *)
Fixpoint map_find k m : option V :=
  match m with
  | [] => None
  | (k', v) :: m' => if k =? k' then Some v else map_find k m'
  end.

(** [m[k] = v]. *)
Fixpoint map_assign k v m : list (Z * V) :=
  match m with
  | [] => [(k, v)]
  | (k', v') :: m' =>
      if k =? k' then (k, v) :: m'
      else if k <? k' then (k, v) :: (k', v') :: m'
      else (k', v') :: map_assign k v m'
  end.

(** [m.emplace(k, v)]: an existing entry is kept; the flag is the [.second] of the result. *)
Definition map_emplace k v m : list (Z * V) * bool :=
  match map_find k m with
  | Some _ => (m, false)
  | None => (map_assign k v m, true)
  end.

(** [m.erase(it)] for the entry with key [k]. *)
Fixpoint map_erase k m : list (Z * V) :=
  match m with
  | [] => []
  | (k', v) :: m' => if k =? k' then m' else (k', v) :: map_erase k m'
  end.

(** Changing an entry in place through a reference to it. *)
Definition map_update k (f : V -> V) m : list (Z * V) :=
  map (fun e => if e.1 =? k then (e.1, f e.2) else e) m.

Definition map_keys m : list Z := map fst m.

(** The representation invariant: keys strictly increase. *)
Inductive sorted_keys : list (Z * V) -> Prop :=
  | sorted_nil : sorted_keys []
  | sorted_cons k v m :
      Forall (fun e => k < e.1) m -> sorted_keys m -> sorted_keys ((k, v) :: m).
End map_ops.

Create HintDb stdmap.
#[export] Hint Constructors sorted_keys : stdmap.

Section map_facts.
Context {V : Type}.
Implicit Types (m : list (Z * V)) (k : Z) (v : V).

Lemma map_find_assign_eq k v m : map_find k (map_assign k v m) = Some v.
Proof.
  induction m as [|[k' v'] m IH]; simpl; [by rewrite Z.eqb_refl|].
  destruct (k =? k') eqn:E; simpl; [by rewrite Z.eqb_refl|].
  destruct (k <? k'); simpl; [by rewrite Z.eqb_refl|]. by rewrite E.
Qed.

Lemma map_find_assign_ne k k' v m : k <> k' -> map_find k' (map_assign k v m) = map_find k' m.
Proof.
  intros Hne. induction m as [|[k1 v1] m IH]; simpl.
  { assert (k' =? k = false) as -> by lia. done. }
  destruct (k =? k1) eqn:E; bools; simpl.
  { subst k1. assert (k' =? k = false) as -> by lia. done. }
  destruct (k <? k1); simpl; [|by rewrite IH].
  assert (k' =? k = false) as -> by lia. done.
Qed.

Lemma map_find_erase_ne k k' m : k <> k' -> map_find k' (map_erase k m) = map_find k' m.
Proof.
  intros Hne. induction m as [|[k1 v1] m IH]; simpl; [done|].
  destruct (k =? k1) eqn:E; bools; simpl; [|by rewrite IH].
  subst k1. assert (k' =? k = false) as -> by lia. done.
Qed.

Lemma map_find_lt_None k m : Forall (fun e => k < e.1) m -> map_find k m = None.
Proof.
  induction 1 as [|[k1 v1] m Hlt _ IH]; simpl in *; [done|].
  assert (k =? k1 = false) as -> by lia. done.
Qed.

Lemma map_find_erase_eq k m : sorted_keys m -> map_find k (map_erase k m) = None.
Proof.
  induction 1 as [|k1 v1 m Hall Hs IH]; simpl; [done|].
  destruct (k =? k1) eqn:E; bools; simpl.
  - subst. by apply map_find_lt_None.
  - by rewrite (proj2 (Z.eqb_neq _ _)) by done.
Qed.

Lemma Forall_assign (P : Z -> Prop) k v m :
  P k -> Forall (fun e => P e.1) m -> Forall (fun e => P e.1) (map_assign k v m).
Proof.
  intros Hk. induction 1 as [|[k1 v1] m H1 Hm IH]; simpl; [by constructor|].
  destruct (k =? k1); [by constructor|]. destruct (k <? k1); by repeat constructor.
Qed.

Lemma Forall_erase (P : Z * V -> Prop) k m : Forall P m -> Forall P (map_erase k m).
Proof.
  induction 1 as [|[k1 v1] m H1 Hm IH]; simpl; [done|]. destruct (k =? k1); by try constructor.
Qed.

Lemma sorted_assign k v m : sorted_keys m -> sorted_keys (map_assign k v m).
Proof.
  induction 1 as [|k1 v1 m Hall Hs IH]; simpl; [by repeat constructor|].
  destruct (k =? k1) eqn:E1; bools; [subst; by constructor|].
  destruct (k <? k1) eqn:E2; bools.
  - constructor; [|by constructor]. constructor; [done|].
    eapply Forall_impl; [exact Hall|]. simpl. lia.
  - constructor; [|done]. apply (Forall_assign (fun z => k1 < z)); [lia|done].
Qed.

Lemma sorted_erase k m : sorted_keys m -> sorted_keys (map_erase k m).
Proof.
  induction 1 as [|k1 v1 m Hall Hs IH]; simpl; [constructor|].
  destruct (k =? k1); [done|]. constructor; [by apply Forall_erase|done].
Qed.

Lemma sorted_emplace k v m : sorted_keys m -> sorted_keys (map_emplace k v m).1.
Proof. intros. unfold map_emplace. destruct (map_find k m); [done|by apply sorted_assign]. Qed.

Lemma map_keys_update k f m : map_keys (map_update k f m) = map_keys m.
Proof.
  unfold map_keys, map_update. rewrite map_map. apply map_ext. intros [k' v']. simpl.
  by destruct (k' =? k).
Qed.

Lemma Forall_update (P : Z -> Prop) k f m :
  Forall (fun e => P e.1) m -> Forall (fun e => P e.1) (map_update k f m).
Proof.
  induction 1 as [|[k1 v1] m H1 Hm IH]; simpl; [constructor|].
  constructor; [|done]. by destruct (k1 =? k).
Qed.

Lemma sorted_update k f m : sorted_keys m -> sorted_keys (map_update k f m).
Proof.
  induction 1 as [|k1 v1 m Hall Hs IH]; [constructor|].
  unfold map_update. simpl. destruct (k1 =? k); simpl;
    (constructor; [by apply (Forall_update (fun z => k1 < z))|done]).
Qed.

Lemma map_find_update_eq k f m : map_find k (map_update k f m) = f <$> map_find k m.
Proof.
  induction m as [|[k1 v1] m IH]; simpl; [done|].
  rewrite (Z.eqb_sym k1 k). destruct (k =? k1) eqn:E; simpl; by rewrite E.
Qed.

Lemma map_find_update_ne k k' f m : k <> k' -> map_find k' (map_update k f m) = map_find k' m.
Proof.
  intros Hne. induction m as [|[k1 v1] m IH]; simpl; [done|].
  destruct (k1 =? k) eqn:E; bools; simpl.
  - subst. assert (k' =? k = false) as -> by lia. done.
  - by rewrite IH.
Qed.

Lemma map_find_In k v m : map_find k m = Some v -> (k, v) ∈ m.
Proof.
  induction m as [|[k1 v1] m IH]; simpl; [done|].
  destruct (k =? k1) eqn:E; intros H; bools; simplify_eq; [by left|right; auto].
Qed.

Lemma map_find_elem k v m : sorted_keys m -> (k, v) ∈ m -> map_find k m = Some v.
Proof.
  induction 1 as [|k1 v1 m Hall Hs IH]; simpl; [by intros ?%not_elem_of_nil|].
  intros [[= -> ->]|Hin]%elem_of_cons; [by rewrite Z.eqb_refl|].
  rewrite Forall_forall in Hall. specialize (Hall _ Hin). simpl in Hall.
  rewrite (proj2 (Z.eqb_neq _ _)) by lia. auto.
Qed.

Lemma map_find_keys k m : is_Some (map_find k m) <-> k ∈ map_keys m.
Proof.
  induction m as [|[k1 v1] m IH]; simpl.
  - split; [by intros []|by intros ?%not_elem_of_nil].
  - destruct (k =? k1) eqn:E; bools.
    + subst. split; [left|eauto].
    + rewrite IH, elem_of_cons. naive_solver.
Qed.

Lemma map_assign_length_new k v m : map_find k m = None -> length (map_assign k v m) = S (length m).
Proof.
  induction m as [|[k1 v1] m IH]; simpl; [done|].
  destruct (k =? k1) eqn:E; [done|]. intros H. destruct (k <? k1); simpl; [done|]. by rewrite IH.
Qed.

Lemma map_find_map_update k k' f m v :
  map_find k' (map_update k f m) = Some v ->
  exists v', map_find k' m = Some v' /\ (v = v' \/ v = f v').
Proof.
  destruct (decide (k = k')) as [<-|Hne].
  - rewrite map_find_update_eq. destruct (map_find k m); simpl; naive_solver.
  - rewrite map_find_update_ne by done. eauto.
Qed.
End map_facts.

#[export] Hint Resolve sorted_assign sorted_erase sorted_emplace sorted_update : stdmap.
