(* ===== verification/Utils.v ===== *)
(** * Constants, addresses, connection ids and io results

    Models include/quic/utils.hpp and the parts of src/utils.cpp the other components use.
    Memory that the code reinterprets is kept as bytes: a [sockaddr_storage] is its 128 bytes,
    a connection id its fixed array and a length. *)
From S2P Require Import Prelude.

(** ** Decimal and binary prefixes *)
Module Literals.
Definition lit_k (x : Z) : Z := u64 (x * 1000).
Definition lit_M (x : Z) : Z := u64 (u64 (x * 1000) * lit_k 1).
Definition lit_G (x : Z) : Z := u64 (u64 (x * 1000) * lit_M 1).
Definition lit_T (x : Z) : Z := u64 (u64 (x * 1000) * lit_G 1).
Definition lit_ki (x : Z) : Z := u64 (x * 1024).
Definition lit_Mi (x : Z) : Z := u64 (u64 (x * 1024) * lit_ki 1).
Definition lit_Gi (x : Z) : Z := u64 (u64 (x * 1024) * lit_Mi 1).
Definition lit_Ti (x : Z) : Z := u64 (u64 (x * 1024) * lit_Gi 1).
End Literals.
Export Literals.

(** ** Constants *)
Definition DEFAULT_MAX_BIDI_STREAMS : Z := 32.
Definition DATAGRAM_BATCH_SIZE : nat := 24.
Definition MAX_RECEIVE_PER_LOOP : Z := 64.
Definition STREAM_ERROR_EXCEPTION : Z := Z.shiftl 1 62 - 2.
Definition STREAM_ERROR_CONNECTION_EXPIRED : Z := Z.shiftl 1 62 + 1.

(** errno values and address families of the Linux ABI. *)
Definition EINTR : Z := 4.
Definition EBADF : Z := 9.
Definition EAGAIN : Z := 11.
Definition EWOULDBLOCK : Z := 11.
Definition AF_INET : Z := 2.
Definition AF_INET6 : Z := 10.
Definition sizeof_sockaddr_storage : Z := 128.
Definition sizeof_sockaddr_in : Z := 16.
Definition sizeof_sockaddr_in6 : Z := 28.

(** How packets are sent (CMake option LIBQUIC_SEND). *)
Inductive send_mode := SEND_GSO | SEND_SENDMMSG | SEND_SENDMSG.

Definition MAX_BATCH (mode : send_mode) : nat :=
  match mode with
  | SEND_GSO | SEND_SENDMMSG => DATAGRAM_BATCH_SIZE
  | SEND_SENDMSG => 1
  end.

(** The constants of the ngtcp2 headers the library is compiled against. *)
Class NgtcpConsts := {
  NGTCP2_MAX_CIDLEN : Z;
  NGTCP2_MAX_PMTUD_UDP_PAYLOAD_SIZE : Z;
  NGTCP2_ERR_CALLBACK_FAILURE : Z;
  NGTCP2_ERR_STREAM_DATA_BLOCKED : Z;
  NGTCP2_ERR_STREAM_SHUT_WR : Z;
  NGTCP2_ERR_CLOSING : Z;
  NGTCP2_ERR_WRITE_MORE : Z;
  NGTCP2_ERR_DRAINING : Z;
  NGTCP2_ERR_PROTO : Z;
  NGTCP2_ERR_DROP_CONN : Z;
  NGTCP2_ERR_CRYPTO : Z;
  NGTCP2_ERR_IDLE_CLOSE : Z;
  NGTCP2_ERR_HANDSHAKE_TIMEOUT : Z;
  NGTCP2_ERR_VERSION_NEGOTIATION : Z;
  NGTCP2_NO_ERROR : Z;
  NGTCP2_PROTO_VER_MIN : Z;
  NGTCP2_PROTO_VER_MAX : Z;
  NGTCP2_PKT_INITIAL : Z;
  NGTCP2_PKT_0RTT : Z;
  NGTCP2_STREAM_DATA_FLAG_FIN : Z;
}.

(** Sample values, used in the worked examples only: the codes that comments of
    connection.cpp quote, and distinct negative numbers for the others. *)
Definition ngtcp2_consts : NgtcpConsts := {|
  NGTCP2_MAX_CIDLEN := 20;
  NGTCP2_MAX_PMTUD_UDP_PAYLOAD_SIZE := 1452;
  NGTCP2_ERR_CALLBACK_FAILURE := -502;
  NGTCP2_ERR_STREAM_DATA_BLOCKED := -210;
  NGTCP2_ERR_STREAM_SHUT_WR := -221;
  NGTCP2_ERR_CLOSING := -230;
  NGTCP2_ERR_WRITE_MORE := -240;
  NGTCP2_ERR_DRAINING := -231;
  NGTCP2_ERR_PROTO := -203;
  NGTCP2_ERR_DROP_CONN := -242;
  NGTCP2_ERR_CRYPTO := -215;
  NGTCP2_ERR_IDLE_CLOSE := -250;
  NGTCP2_ERR_HANDSHAKE_TIMEOUT := -248;
  NGTCP2_ERR_VERSION_NEGOTIATION := -245;
  NGTCP2_NO_ERROR := 0;
  NGTCP2_PROTO_VER_MIN := 1;
  NGTCP2_PROTO_VER_MAX := 1;
  NGTCP2_PKT_INITIAL := 16;
  NGTCP2_PKT_0RTT := 17;
  NGTCP2_STREAM_DATA_FLAG_FIN := 1;
|}.

(** The size of a buffer for one datagram. *)
Definition max_payload_size `{NgtcpConsts} : Z := NGTCP2_MAX_PMTUD_UDP_PAYLOAD_SIZE.

Inductive Direction := OUTBOUND | INBOUND.
#[export] Instance Direction_eq_dec : EqDecision Direction.
Proof. solve_decision. Defined.

(** ** Bytes in memory *)

(** Little-endian value of the bytes at an address (the host order of every supported CPU). *)
Fixpoint le_load (l : list Z) : Z :=
  match l with
  | [] => 0
  | b :: l' => b + 2 ^ 8 * le_load l'
  end.

Definition sub_bytes (off len : nat) (l : list Z) : list Z := take len (drop off l).

Definition bytes_eqb (a b : list Z) : bool := bool_decide (a = b).

(** [memmove(dst, src, n)] for [n] bytes of [src] onto the front of [dst]. *)
Definition memmove (dst src : list Z) (n : nat) : list Z := take n src ++ drop n dst.

Lemma memmove_length dst src n :
  (n <= length src)%nat -> (n <= length dst)%nat -> length (memmove dst src n) = length dst.
Proof. intros. unfold memmove. rewrite length_app, length_take, length_drop. lia. Qed.

Lemma le_load_inj a b :
  length a = length b -> Forall is_u8 a -> Forall is_u8 b -> le_load a = le_load b -> a = b.
Proof.
  revert b. induction a as [|x a IH]; intros [|y b] Hl Ha Hb H; simplify_eq/=; [done|].
  inversion Ha as [|? ? Hx Ha']; inversion Hb as [|? ? Hy Hb']; subst.
  unfold is_u8 in *. change (2 ^ 8) with 256 in *.
  assert (x = y) as -> by lia. f_equal. apply IH; try done. lia.
Qed.

(** ** ConnectionID *)
Module Cid.
Record ConnectionID := mkCID { data : list Z; datalen : Z }.

Section cid.
Context `{NgtcpConsts}.

(** [ConnectionID(const uint8_t* cid, size_t length)]: [fresh] is what the uninitialised
    array holds before the copy. *)
Definition ConnectionID_copy (fresh cid : list Z) (length : Z) : outcome ConnectionID :=
  assert_then (length <=? NGTCP2_MAX_CIDLEN)
    (Ok (mkCID (memmove fresh cid (Z.to_nat length)) length)).

(** [ConnectionID::random]: [rnd] is what [gnutls_rnd] wrote. *)
Definition ConnectionID_random (rnd : list Z) : ConnectionID := mkCID rnd NGTCP2_MAX_CIDLEN.
End cid.

(** [operator==]. *)
Definition ConnectionID_eqb (a b : ConnectionID) : bool :=
  (datalen a =? datalen b)
  && bytes_eqb (take (Z.to_nat (datalen a)) (data a)) (take (Z.to_nat (datalen a)) (data b)).

(** [std::hash<ConnectionID>]: the first [size_t] of the array. *)
Definition ConnectionID_hash (c : ConnectionID) : Z := le_load (take 8 (data c)).
End Cid.
Import Cid.

Lemma ConnectionID_eqb_spec a b :
  ConnectionID_eqb a b = true <->
  datalen a = datalen b /\
  take (Z.to_nat (datalen a)) (data a) = take (Z.to_nat (datalen a)) (data b).
Proof.
  unfold ConnectionID_eqb, bytes_eqb. rewrite andb_true_iff, Z.eqb_eq, bool_decide_eq_true. done.
Qed.

(** Equal connection ids hash alike once they are at least as long as the [size_t] the
    hash reads, which every id generated by [ConnectionID::random] is. *)
Theorem cid_hash_compatible (a b : ConnectionID) :
  8 <= datalen a -> ConnectionID_eqb a b = true -> ConnectionID_hash a = ConnectionID_hash b.
Proof.
  intros Hl [_ Hd]%ConnectionID_eqb_spec. unfold ConnectionID_hash. f_equal.
  transitivity (take 8 (take (Z.to_nat (datalen a)) (data a))).
  - rewrite take_take. f_equal. lia.
  - rewrite Hd, take_take. f_equal. lia.
Qed.

Lemma cid_hash_compatible_witness :
  ConnectionID_hash (mkCID [1;2;3;4;5;6;7;8;9;10] 8) = ConnectionID_hash (mkCID [1;2;3;4;5;6;7;8;0;0] 8).
Proof. apply cid_hash_compatible; [simpl; lia | vm_compute; reflexivity]. Defined.

(** For a shorter id the hash also reads bytes that [operator==] ignores and that the
    copying constructor leaves uninitialised: the same 4-byte id copied twice can hash to two
    values. *)
Theorem cid_hash_short_ids_differ `{NgtcpConsts} :
  4 <= NGTCP2_MAX_CIDLEN ->
  exists a b, ConnectionID_copy (replicate 20 0) [1;2;3;4] 4 = Ok a /\
    ConnectionID_copy (replicate 20 255) [1;2;3;4] 4 = Ok b /\
    ConnectionID_eqb a b = true /\ ConnectionID_hash a <> ConnectionID_hash b.
Proof.
  intros Hmax. unfold ConnectionID_copy. rewrite (proj2 (Z.leb_le _ _)) by done. simpl.
  do 2 eexists. split_and!; [done..|]. vm_compute. congruence.
Qed.

Lemma cid_hash_short_ids_differ_witness :
  exists a b, @ConnectionID_copy ngtcp2_consts (replicate 20 0) [1;2;3;4] 4 = Ok a /\
    @ConnectionID_copy ngtcp2_consts (replicate 20 255) [1;2;3;4] 4 = Ok b /\
    ConnectionID_eqb a b = true /\ ConnectionID_hash a <> ConnectionID_hash b.
Proof. apply (@cid_hash_short_ids_differ ngtcp2_consts). simpl. lia. Defined.

(** ** Address and Path *)
Module Addr.
(** [_sock_addr] as its bytes, and [_addr.addrlen]. *)
Record Address := mkAddress { sock_addr : list Z; addrlen : Z }.

(** The fields of sockaddr_in and sockaddr_in6 at their offsets. *)
Definition ss_family (a : Address) : Z := le_load (sub_bytes 0 2 (sock_addr a)).
Definition sin_port (a : Address) : Z := le_load (sub_bytes 2 2 (sock_addr a)).
Definition sin_addr (a : Address) : list Z := sub_bytes 4 4 (sock_addr a).
Definition sin6_addr (a : Address) : list Z := sub_bytes 8 16 (sock_addr a).

Definition is_ipv4 (a : Address) : bool := (addrlen a =? sizeof_sockaddr_in) && (ss_family a =? AF_INET).
Definition is_ipv6 (a : Address) : bool := (addrlen a =? sizeof_sockaddr_in6) && (ss_family a =? AF_INET6).

(** Byte swap of a 16-bit value: [oxenc::big_to_host] and [host_to_big] on a little-endian host. *)
Definition swap16 (v : Z) : Z := v mod 256 * 256 + v / 256 mod 256.

Definition Address_port (a : Address) : outcome Z :=
  assert_then (is_ipv4 a || is_ipv6 a) (Ok (swap16 (sin_port a))).

Definition Address_eqb (a b : Address) : bool :=
  if is_ipv4 a && is_ipv4 b then (sin_port a =? sin_port b) && bytes_eqb (sin_addr a) (sin_addr b)
  else if is_ipv6 a && is_ipv6 b then (sin_port a =? sin_port b) && bytes_eqb (sin6_addr a) (sin6_addr b)
  else false.

(** Writing bytes at an offset of the storage. *)
Definition store_at (off : nat) (bs l : list Z) : list Z := take off l ++ bs ++ drop (off + length bs) l.

Definition zero_storage : list Z := replicate 128 0.

(** [Address()]: [::]:0. *)
Definition Address_default : Address := mkAddress (store_at 0 [AF_INET6; 0] zero_storage) sizeof_sockaddr_in6.

(** [Address(const sockaddr* s, socklen_t n)]. *)
Definition Address_sockaddr (s : list Z) (n : Z) : outcome Address :=
  if (sizeof_sockaddr_storage <? n) || (zlen s <? n) then Undefined
  else Ok (mkAddress (memmove zero_storage s (Z.to_nat n)) n).

(** [Address(const sockaddr* s)], [Address(const sockaddr_in* s)] and [Address(const sockaddr_in6* s)]: the
    length goes with the family, or with the type. *)
Definition sockaddr_len (s : list Z) : Z :=
  if le_load (sub_bytes 0 2 s) =? AF_INET then sizeof_sockaddr_in else sizeof_sockaddr_in6.
Definition Address_of_sockaddr (s : list Z) : outcome Address := Address_sockaddr s (sockaddr_len s).
Definition Address_of_sockaddr_in (s : list Z) : outcome Address := Address_sockaddr s sizeof_sockaddr_in.
Definition Address_of_sockaddr_in6 (s : list Z) : outcome Address := Address_sockaddr s sizeof_sockaddr_in6.

(** [operator=(const sockaddr* s)]: the bytes beyond the new length keep their old values. *)
Definition Address_assign_sockaddr (a : Address) (s : list Z) : outcome Address :=
  let n := sockaddr_len s in
  if zlen s <? n then Undefined else Ok (mkAddress (memmove (sock_addr a) s (Z.to_nat n)) n).

(** [_copy_internals], by which the copy constructor and the copy assignment work. *)
Definition copy_internals (a obj : Address) : Address :=
  mkAddress (memmove (sock_addr a) (sock_addr obj) 128) (addrlen obj).

(** [update_socklen], and the accessors with their preconditions. *)
Definition update_socklen (a : Address) (len : Z) : Address := mkAddress (sock_addr a) len.
Definition in4 (a : Address) : outcome (list Z) := assert_then (is_ipv4 a) (Ok (sub_bytes 0 16 (sock_addr a))).
Definition in6 (a : Address) : outcome (list Z) := assert_then (is_ipv6 a) (Ok (sub_bytes 0 28 (sock_addr a))).

Section from_string.
(** [inet_pton(af, src, dst)]: its return value and the bytes it stores. *)
Variable inet_pton : Z -> list Z -> Z * list Z.

(** The two bytes of a port in network order. *)
Definition port_bytes (port : Z) : list Z := [port / 256; port mod 256].

(** [Address(const std::string& addr, uint16_t port)].  The empty-string branch falls through
    to the parsing below it; the [std::system_error] of the last line is built but not thrown. *)
Definition Address_string (addr : list Z) (port : Z) : outcome Address :=
  let st0 := if bool_decide (addr = []) then store_at 2 (port_bytes port) zero_storage else zero_storage in
  let '(st, len, rv) :=
    if bool_decide (58 ∈ addr) then
      let st1 := store_at 2 (port_bytes port) (store_at 0 [AF_INET6; 0] st0) in
      let '(rv, bs) := inet_pton AF_INET6 addr in
      (store_at 8 bs st1, sizeof_sockaddr_in6, rv)
    else
      let st1 := store_at 2 (port_bytes port) (store_at 0 [AF_INET; 0] st0) in
      let '(rv, bs) := inet_pton AF_INET addr in
      (store_at 4 bs st1, sizeof_sockaddr_in, rv) in
  if rv =? 0 then Throw invalid_argument else Ok (mkAddress st len).

(** [opt::local_addr(uint16_t port)]. *)
Definition local_addr_port (port : Z) : outcome Address := Address_string [] port.
End from_string.

Section hashing.
(** [std::hash<std::string_view>] and [std::hash<uint16_t>]. *)
Variable hash_sv : list Z -> Z.
Variable hash_u16 : Z -> Z.

Definition inverse_golden_ratio : Z := 0x9e3779b97f4a7c15.

Definition Address_hash (a : Address) : outcome Z :=
  let* addr_data := (if is_ipv4 a then Ok (sin_addr a) else assert_then (is_ipv6 a) (Ok (sin6_addr a))) in
  let h := hash_sv addr_data in
  Ok (Z.lxor h (u64 (hash_u16 (sin_port a) + inverse_golden_ratio
                     + u64 (Z.shiftl h 6) + Z.shiftr h 2))).
End hashing.

Record Path := mkPath { local : Address; remote : Address }.

(** ** Address and Path objects

    ngtcp2 is given pointers into [Address] objects: [_addr] of an address points to a [_sock_addr], and the [_path]
    of a [Path] holds copies of the [_addr] of its two members.  So objects have a place here: an address is an object
    of its own or a member of a path. *)
Inductive side := Local | Remote.
Inductive loc := Own (n : nat) | Member (path : nat) (s : side).
#[global] Instance side_eq_dec : EqDecision side.
Proof. solve_decision. Defined.
#[global] Instance loc_eq_dec : EqDecision loc.
Proof. solve_decision. Defined.
#[global] Program Instance loc_countable : Countable loc :=
  inj_countable' (fun x => match x with Own n => inl n | Member i s => inr (i, bool_decide (s = Local)) end)
    (fun y => match y with inl n => Own n | inr (i, b) => Member i (if b : bool then Local else Remote) end) _.
Next Obligation. by intros [n|i []]. Qed.

(** [ngtcp2_addr]: the object whose [_sock_addr] it points to, and the length; an [Address] object; the objects
    that exist, with the [_path] of each path. *)
Record ngtcp2_addr := mkNA { na_addr : loc; na_len : Z }.
Record addr_obj := mkAO { ao_storage : list Z; ao_addr : ngtcp2_addr }.
Record objs := mkObjs { o_addrs : gmap loc addr_obj; o_paths : gmap nat (ngtcp2_addr * ngtcp2_addr) }.

Definition ao_value (o : addr_obj) : Address := mkAddress (ao_storage o) (na_len (ao_addr o)).
Definition set_addr (x : loc) (o : addr_obj) (m : objs) : objs := mkObjs (<[x := o]> (o_addrs m)) (o_paths m).
Definition set_path (i : nat) (v : ngtcp2_addr * ngtcp2_addr) (m : objs) : objs := mkObjs (o_addrs m) (<[i := v]> (o_paths m)).

(** The default member initialisers, and storage and length being set by what constructs or assigns from elsewhere. *)
Definition addr_init (x : loc) : addr_obj := mkAO zero_storage (mkNA x 0).
Definition with_value (o : addr_obj) (v : Address) : addr_obj := mkAO (sock_addr v) (mkNA (na_addr (ao_addr o)) (addrlen v)).
Definition Address_construct (x : loc) (v : Address) (m : objs) : objs := set_addr x (with_value (addr_init x) v) m.

(** [_copy_internals] on objects, the copy constructor and the copy assignment. *)
Definition copy_internals_obj (o obj : addr_obj) : addr_obj :=
  mkAO (memmove (ao_storage o) (ao_storage obj) 128) (mkNA (na_addr (ao_addr o)) (na_len (ao_addr obj))).
Definition Address_copy (x y : loc) (m : objs) : outcome objs :=
  match o_addrs m !! y with
  | Some obj => Ok (set_addr x (copy_internals_obj (addr_init x) obj) m)
  | None => Undefined
  end.
Definition Address_assign (x y : loc) (m : objs) : outcome objs :=
  match o_addrs m !! x, o_addrs m !! y with
  | Some o, Some obj => Ok (set_addr x (copy_internals_obj o obj) m)
  | _, _ => Undefined
  end.

(** The [_addr] of both members, as [_path{local, remote, nullptr}] and the assignments to [_path] copy them. *)
Definition member_addrs (i : nat) (m : objs) : outcome (ngtcp2_addr * ngtcp2_addr) :=
  match o_addrs m !! Member i Local, o_addrs m !! Member i Remote with
  | Some l, Some r => Ok (ao_addr l, ao_addr r)
  | _, _ => Undefined
  end.

(** The constructors of path [i], and its assignment from path [j]. *)
Definition Path_default (i : nat) (m : objs) : outcome objs :=
  let m2 := Address_construct (Member i Remote) Address_default (Address_construct (Member i Local) Address_default m) in
  let* v := member_addrs i m2 in Ok (set_path i v m2).
Definition Path_new (i : nat) (l r : loc) (m : objs) : outcome objs :=
  let* m1 := Address_copy (Member i Local) l m in
  let* m2 := Address_copy (Member i Remote) r m1 in
  let* v := member_addrs i m2 in Ok (set_path i v m2).
Definition Path_copy (i j : nat) (m : objs) : outcome objs := Path_new i (Member j Local) (Member j Remote) m.
Definition Path_assign (i j : nat) (m : objs) : outcome objs :=
  let* m1 := Address_assign (Member i Local) (Member j Local) m in
  let* m2 := Address_assign (Member i Remote) (Member j Remote) m1 in
  let* v := member_addrs i m2 in Ok (set_path i v m2).

(** The end of an address, and of a path with its members. *)
Definition Address_destroy (n : nat) (m : objs) : objs := mkObjs (base.delete (Own n) (o_addrs m)) (o_paths m).
Definition Path_destroy (i : nat) (m : objs) : objs :=
  mkObjs (base.delete (Member i Remote) (base.delete (Member i Local) (o_addrs m))) (base.delete i (o_paths m)).
End Addr.
Import Addr.

Lemma is_ipv4_not_ipv6 a : is_ipv4 a = true -> is_ipv6 a = false.
Proof.
  unfold is_ipv4, is_ipv6. intros H. bools. rewrite H. done.
Qed.

Lemma Address_eqb_spec a b :
  Address_eqb a b = true <->
  (is_ipv4 a = true /\ is_ipv4 b = true /\ sin_port a = sin_port b /\ sin_addr a = sin_addr b) \/
  (is_ipv6 a = true /\ is_ipv6 b = true /\ sin_port a = sin_port b /\ sin6_addr a = sin6_addr b).
Proof.
  pose proof (is_ipv4_not_ipv6 a) as Ha. pose proof (is_ipv4_not_ipv6 b) as Hb.
  unfold Address_eqb, bytes_eqb.
  destruct (is_ipv4 a), (is_ipv4 b), (is_ipv6 a), (is_ipv6 b); simpl;
    rewrite ?andb_true_iff, ?Z.eqb_eq, ?bool_decide_eq_true; intuition congruence.
Qed.

Lemma Address_eqb_refl a : is_ipv4 a || is_ipv6 a = true -> Address_eqb a a = true.
Proof. rewrite Address_eqb_spec, orb_true_iff. naive_solver. Qed.

Lemma Address_eqb_sym a b : Address_eqb a b = Address_eqb b a.
Proof. apply eq_true_iff_eq. rewrite !Address_eqb_spec. intuition congruence. Qed.

Lemma Address_eqb_trans a b c :
  Address_eqb a b = true -> Address_eqb b c = true -> Address_eqb a c = true.
Proof.
  rewrite !Address_eqb_spec. pose proof (is_ipv4_not_ipv6 b).
  intros [(?&?&?&?)|(?&?&?&?)] [(?&?&?&?)|(?&?&?&?)]; intuition congruence.
Qed.

Lemma Address_eqb_hash hash_sv hash_u16 a b :
  Address_eqb a b = true ->
  is_ipv4 a = is_ipv4 b /\ Address_hash hash_sv hash_u16 a = Address_hash hash_sv hash_u16 b.
Proof.
  rewrite Address_eqb_spec. unfold Address_hash.
  pose proof (is_ipv4_not_ipv6 a) as Ha. pose proof (is_ipv4_not_ipv6 b) as Hb.
  intros [(E1&E2&E3&E4)|(E1&E2&E3&E4)]; rewrite E1, E2, E3, E4.
  - done.
  - assert (is_ipv4 a = false) as -> by (destruct (is_ipv4 a); [rewrite Ha in E1|]; done).
    assert (is_ipv4 b = false) as -> by (destruct (is_ipv4 b); [rewrite Hb in E2|]; done). done.
Qed.

(** On addresses of either family [operator==] is an equivalence, it never identifies the
    two families, and equal addresses have the same [std::hash] value: what
    [std::unordered_map<Address, ...>] requires of its keys. *)
Theorem address_key_laws (hash_sv : list Z -> Z) (hash_u16 : Z -> Z) :
  (forall a, is_ipv4 a || is_ipv6 a = true -> Address_eqb a a = true) /\
  (forall a b, Address_eqb a b = Address_eqb b a) /\
  (forall a b c, Address_eqb a b = true -> Address_eqb b c = true -> Address_eqb a c = true) /\
  (forall a b, Address_eqb a b = true ->
     is_ipv4 a = is_ipv4 b /\ Address_hash hash_sv hash_u16 a = Address_hash hash_sv hash_u16 b).
Proof.
  split_and!; eauto using Address_eqb_refl, Address_eqb_sym, Address_eqb_trans, Address_eqb_hash.
Qed.

(** The port survives the two byte swaps. *)
Lemma swap16_port_bytes port : 0 <= port < 2 ^ 16 -> swap16 (le_load (port_bytes port)) = port.
Proof.
  intros H. unfold swap16, port_bytes, le_load.
  change (2 ^ 8) with 256. change (2 ^ 16) with 65536 in H.
  rewrite Z.mul_0_r, Z.add_0_r.
  pose proof (Z.div_mod port 256). pose proof (Z.mod_pos_bound port 256).
  assert (0 <= port / 256 < 256) by (split; [apply Z.div_pos|apply Z.div_lt_upper_bound]; lia).
  replace (port / 256 + 256 * (port mod 256)) with (port / 256 + port mod 256 * 256) by lia.
  rewrite Z.mod_add, Z.div_add by lia.
  rewrite (Z.mod_small (port / 256)), (Z.div_small (port / 256)) by lia.
  rewrite Z.add_0_l, Z.mod_mod by lia. lia.
Qed.

Lemma sub_bytes_store_after off len off' bs l :
  (off + len <= off' <= length l)%nat -> sub_bytes off len (store_at off' bs l) = sub_bytes off len l.
Proof.
  intros H. unfold sub_bytes, store_at.
  rewrite drop_app_le by (rewrite length_take; lia).
  rewrite take_app_le by (rewrite length_drop, length_take; lia).
  rewrite <- (take_drop off' l) at 2.
  rewrite (drop_app_le (take off' l)) by (rewrite length_take; lia).
  rewrite (take_app_le (drop off (take off' l))) by (rewrite length_drop, length_take; lia). done.
Qed.

(** The header bytes of an address built by [Address_string]. *)
Lemma string_header fam port (st0 bs : list Z) off len :
  0 <= port < 2 ^ 16 -> st0 = zero_storage \/ st0 = store_at 2 (port_bytes port) zero_storage ->
  (4 <= off <= 128)%nat ->
  let a := mkAddress (store_at off bs (store_at 2 (port_bytes port) (store_at 0 [fam; 0] st0))) len in
  ss_family a = fam /\ swap16 (sin_port a) = port.
Proof.
  intros Hp Hst Hoff. simpl. unfold ss_family, sin_port. cbn [sock_addr].
  rewrite (sub_bytes_store_after 0 2 off), (sub_bytes_store_after 2 2 off)
    by (destruct Hst as [-> | ->]; simpl; lia).
  split.
  - destruct Hst as [-> | ->]; simpl; lia.
  - etransitivity; [|by apply swap16_port_bytes]. done.
Qed.

(** *** Every address is 128 bytes *)

Definition addr_wf (a : Address) : Prop := length (sock_addr a) = 128%nat /\ Forall is_u8 (sock_addr a).

Definition addr_size (af : Z) : nat := if af =? AF_INET then 4%nat else 16%nat.

(** Every way to get an address; the arguments are bytes, as [inet_pton] documents of what it stores. *)
Inductive built (inet_pton : Z -> list Z -> Z * list Z) : Address -> Prop :=
  | built_default : built inet_pton Address_default
  | built_sockaddr s n a : Forall is_u8 s -> Address_sockaddr s n = Ok a -> 0 <= n -> built inet_pton a
  | built_string t port a :
      is_u16 port -> (forall af, let bs := (inet_pton af t).2 in
        Forall is_u8 bs /\ (length bs <= addr_size af)%nat) ->
      Address_string inet_pton t port = Ok a -> built inet_pton a
  | built_assign a s a' : built inet_pton a -> Forall is_u8 s -> Address_assign_sockaddr a s = Ok a' -> built inet_pton a'
  | built_copy a obj : built inet_pton a -> built inet_pton obj -> built inet_pton (copy_internals a obj)
  | built_socklen a len : built inet_pton a -> built inet_pton (update_socklen a len).

Lemma store_at_wf off bs (l : list Z) :
  (off + length bs <= length l)%nat -> Forall is_u8 bs -> Forall is_u8 l ->
  length (store_at off bs l) = length l /\ Forall is_u8 (store_at off bs l).
Proof.
  intros Hl Hb HF. unfold store_at. rewrite !length_app, length_take, length_drop. split; [lia|].
  rewrite !Forall_app. split_and!; [by apply Forall_take|done|by apply Forall_drop].
Qed.

Lemma memmove_wf (dst src : list Z) n :
  (n <= length src)%nat -> (n <= length dst)%nat -> Forall is_u8 dst -> Forall is_u8 src ->
  length (memmove dst src n) = length dst /\ Forall is_u8 (memmove dst src n).
Proof.
  intros H1 H2 Hd Hs. unfold memmove. rewrite length_app, length_take, length_drop. split; [lia|].
  rewrite Forall_app. split; [by apply Forall_take|by apply Forall_drop].
Qed.

Lemma zero_storage_wf : length zero_storage = 128%nat /\ Forall is_u8 zero_storage.
Proof. split; [done|]. apply Forall_replicate. unfold is_u8. lia. Qed.

Lemma port_bytes_u8 port : is_u16 port -> Forall is_u8 (port_bytes port).
Proof.
  unfold is_u16, is_u8, port_bytes. intros H. repeat constructor; try (apply Z.mod_pos_bound; lia); [apply Z.div_pos|]; try lia.
  apply Z.div_lt_upper_bound; lia.
Qed.

Lemma header_wf fam port (st0 : list Z) :
  0 <= fam < 256 -> is_u16 port -> length st0 = 128%nat /\ Forall is_u8 st0 ->
  let st := store_at 2 (port_bytes port) (store_at 0 [fam; 0] st0) in length st = 128%nat /\ Forall is_u8 st.
Proof.
  intros Hf Hp [Hl HF]. destruct (store_at_wf 0 [fam; 0] st0) as [Hl1 HF1];
    [simpl; lia|repeat constructor; unfold is_u8; lia|done|].
  destruct (store_at_wf 2 (port_bytes port) (store_at 0 [fam; 0] st0)) as [Hl2 HF2];
    [rewrite Hl1; simpl; lia|by apply port_bytes_u8|done|]. cbn zeta. split; [congruence|done].
Qed.

Lemma address_string_wf inet_pton t port a :
  is_u16 port -> (forall af, let bs := (inet_pton af t).2 in
    Forall is_u8 bs /\ (length bs <= addr_size af)%nat) ->
  Address_string inet_pton t port = Ok a -> addr_wf a.
Proof.
  intros Hp Hpton. unfold Address_string. set (st0 := if bool_decide (t = []) then _ else _).
  assert (length st0 = 128%nat /\ Forall is_u8 st0) as Hst0.
  { unfold st0. destruct zero_storage_wf as [Hl HF]. case_bool_decide; [|done].
    destruct (store_at_wf 2 (port_bytes port) zero_storage); [simpl; lia|by apply port_bytes_u8|done|]. split; [congruence|done]. }
  clearbody st0. destruct (bool_decide (58 ∈ t)).
  - specialize (Hpton AF_INET6). destruct (inet_pton AF_INET6 t) as [rv bs]. cbn in Hpton. destruct Hpton as [Hb Hbl].
    destruct (rv =? 0); [done|]. intros [= <-]. destruct (header_wf AF_INET6 port st0) as [Hl HF]; [done..|].
    destruct (store_at_wf 8 bs _ ltac:(rewrite Hl; lia) Hb HF) as [Hl' HF']. split; cbn [sock_addr]; [congruence|done].
  - specialize (Hpton AF_INET). destruct (inet_pton AF_INET t) as [rv bs]. cbn in Hpton. destruct Hpton as [Hb Hbl].
    destruct (rv =? 0); [done|]. intros [= <-]. destruct (header_wf AF_INET port st0) as [Hl HF]; [done..|].
    destruct (store_at_wf 4 bs _ ltac:(rewrite Hl; lia) Hb HF) as [Hl' HF']. split; cbn [sock_addr]; [congruence|done].
Qed.

(** However an address was made (default, from a sockaddr, from text, by assignment or by copy), its storage is 128
    bytes, each a byte value. *)
Lemma built_wf (inet_pton : Z -> list Z -> Z * list Z) (a : Address) : built inet_pton a -> addr_wf a.
Proof.
  induction 1 as [|s n a Hs Ha Hn|t port a Hp Hpton Ha|a s a' Hb [IHl IHF] Hs Ha|a obj Hb [IHl IHF] Ho [IHl' IHF']|a len Hb IH].
  - split; [done|]. apply (store_at_wf 0 [AF_INET6; 0] zero_storage); [simpl; lia| |apply zero_storage_wf].
    repeat constructor; unfold is_u8, AF_INET6; lia.
  - unfold Address_sockaddr in Ha. destruct ((_ <? n) || (_ <? n)) eqn:E; [done|]. bools. injection Ha as <-.
    destruct zero_storage_wf as [Hl HF]. unfold sizeof_sockaddr_storage, zlen in *.
    destruct (memmove_wf zero_storage s (Z.to_nat n)) as [H1 H2]; [lia|rewrite Hl; lia|done..|]. split; cbn [sock_addr copy_internals]; [congruence|done].
  - by eapply address_string_wf.
  - unfold Address_assign_sockaddr in Ha. destruct (_ <? _) eqn:E; [done|]. bools. injection Ha as <-.
    assert (0 <= sockaddr_len s <= 28) by (unfold sockaddr_len, sizeof_sockaddr_in, sizeof_sockaddr_in6; split_if; lia).
    unfold zlen in *. destruct (memmove_wf (sock_addr a) s (Z.to_nat (sockaddr_len s))) as [H1 H2]; [lia|lia|done..|].
    split; cbn [sock_addr copy_internals]; [congruence|done].
  - destruct (memmove_wf (sock_addr a) (sock_addr obj) 128) as [H1 H2]; [lia|lia|done..|]. split; cbn [sock_addr copy_internals]; [congruence|done].
  - exact IH.
Qed.

Lemma copy_internals_wf a obj : addr_wf a -> addr_wf obj -> copy_internals a obj = obj.
Proof.
  intros [Ha _] [Ho _]. destruct obj as [o n]. unfold copy_internals, memmove. cbn [sock_addr addrlen] in *. f_equal.
  by rewrite take_ge, drop_ge, app_nil_r by lia.
Qed.

Lemma default_wf : addr_wf Address_default.
Proof. apply (built_wf (fun _ _ => (0, []))). constructor. Qed.

(** *** What ngtcp2 reads through a path *)

Definition ng_reads (a : ngtcp2_addr) (m : objs) : option (list Z) :=
  o ← o_addrs m !! na_addr a; Some (ztake (na_len a) (ao_storage o)).
Definition path_reads (i : nat) (m : objs) : option (list Z * list Z) :=
  v ← o_paths m !! i; l ← ng_reads v.1 m; r ← ng_reads v.2 m; Some (l, r).

(** What happens to objects; the label is the object that is made, changed or destroyed.  [os_set] is an assignment from
    a sockaddr, a write through the [sockaddr*] of the address, or [update_socklen]. *)
Inductive obj_step (inet_pton : Z -> list Z -> Z * list Z) : nat + nat -> objs -> objs -> Prop :=
  | os_new n v m : o_addrs m !! Own n = None -> built inet_pton v -> obj_step inet_pton (inl n) m (Address_construct (Own n) v m)
  | os_copy n y m m' : o_addrs m !! Own n = None -> Address_copy (Own n) y m = Ok m' -> obj_step inet_pton (inl n) m m'
  | os_assign n y m m' : Address_assign (Own n) y m = Ok m' -> obj_step inet_pton (inl n) m m'
  | os_set n o v m :
      o_addrs m !! Own n = Some o -> built inet_pton v -> obj_step inet_pton (inl n) m (set_addr (Own n) (with_value o v) m)
  | os_destroy n m : obj_step inet_pton (inl n) m (Address_destroy n m)
  | os_path_default i m m' : o_paths m !! i = None -> Path_default i m = Ok m' -> obj_step inet_pton (inr i) m m'
  | os_path_new i l r m m' : o_paths m !! i = None -> Path_new i l r m = Ok m' -> obj_step inet_pton (inr i) m m'
  | os_path_copy i j m m' : o_paths m !! i = None -> Path_copy i j m = Ok m' -> obj_step inet_pton (inr i) m m'
  | os_path_assign i j m m' : Path_assign i j m = Ok m' -> obj_step inet_pton (inr i) m m'
  | os_path_destroy i m : obj_step inet_pton (inr i) m (Path_destroy i m).

(** Every address points to itself, and every path's view is that of its own members. *)
Definition addrs_inv (m : objs) : Prop :=
  forall x o, o_addrs m !! x = Some o -> na_addr (ao_addr o) = x /\ addr_wf (ao_value o).
Definition paths_inv (m : objs) : Prop :=
  forall i v, o_paths m !! i = Some v -> member_addrs i m = Ok v.

Lemma addrs_inv_set x o m : addrs_inv m -> na_addr (ao_addr o) = x -> addr_wf (ao_value o) -> addrs_inv (set_addr x o m).
Proof. intros Hi Hx Ho y o'. cbn. intros [[<- <-]|[_ ?]]%lookup_insert_Some; [done|]. by apply Hi. Qed.

Lemma addr_init_wf x : addr_wf (ao_value (addr_init x)).
Proof. exact zero_storage_wf. Qed.

(** What a copy of an address is: the same value, in its own place. *)
Lemma copy_obj x o obj :
  na_addr (ao_addr o) = x -> addr_wf (ao_value o) -> addr_wf (ao_value obj) ->
  copy_internals_obj o obj = mkAO (ao_storage obj) (mkNA x (na_len (ao_addr obj))).
Proof.
  intros <- Ho Hobj. pose proof (copy_internals_wf _ _ Ho Hobj) as Hc. unfold copy_internals_obj. f_equal.
  by apply (f_equal sock_addr) in Hc.
Qed.

Lemma Address_copy_inv x y m m' :
  addrs_inv m -> Address_copy x y m = Ok m' ->
  addrs_inv m' /\ exists obj, o_addrs m !! y = Some obj /\ m' = set_addr x (mkAO (ao_storage obj) (mkNA x (na_len (ao_addr obj)))) m.
Proof.
  intros Hi. unfold Address_copy. destruct (o_addrs m !! y) as [obj|] eqn:Hy; [|done]. intros [= <-].
  destruct (Hi _ _ Hy) as [_ Hw]. rewrite (copy_obj x) by (done || apply addr_init_wf). split; [|by exists obj]. by apply addrs_inv_set.
Qed.

Lemma Address_assign_inv x y m m' :
  addrs_inv m -> Address_assign x y m = Ok m' ->
  addrs_inv m' /\ exists obj, o_addrs m !! y = Some obj /\ m' = set_addr x (mkAO (ao_storage obj) (mkNA x (na_len (ao_addr obj)))) m.
Proof.
  intros Hi. unfold Address_assign. destruct (o_addrs m !! x) as [o|] eqn:Hx; [|done]. destruct (o_addrs m !! y) as [obj|] eqn:Hy; [|done].
  intros [= <-]. destruct (Hi _ _ Hx) as [Hp Ho]. destruct (Hi _ _ Hy) as [_ Hw]. rewrite (copy_obj x) by done.
  split; [|by exists obj]. by apply addrs_inv_set.
Qed.

(** An address with the value of [obj], in the place [x]; what is read through an address of its own. *)
Definition placed_at (x : loc) (obj : addr_obj) : addr_obj := mkAO (ao_storage obj) (mkNA x (na_len (ao_addr obj))).
Definition own_bytes (o : addr_obj) : list Z := ztake (na_len (ao_addr o)) (ao_storage o).

(** A path that was made or assigned: its members hold the values of [lo] and [ro], and [_path] is the view of its members. *)
Definition placed (i : nat) (lo ro : addr_obj) (m : objs) : objs :=
  set_path i (mkNA (Member i Local) (na_len (ao_addr lo)), mkNA (Member i Remote) (na_len (ao_addr ro)))
    (set_addr (Member i Remote) (placed_at (Member i Remote) ro) (set_addr (Member i Local) (placed_at (Member i Local) lo) m)).

Lemma placed_members i lo ro m :
  let m2 := set_addr (Member i Remote) (placed_at (Member i Remote) ro) (set_addr (Member i Local) (placed_at (Member i Local) lo) m) in
  (let* v := member_addrs i m2 in Ok (set_path i v m2)) = Ok (placed i lo ro m).
Proof. cbn zeta. unfold member_addrs. cbn [o_addrs set_addr]. by rewrite lookup_insert_ne, !lookup_insert_eq by done. Qed.

Lemma Path_new_placed i l r m m' :
  addrs_inv m -> Path_new i l r m = Ok m' ->
  exists lo ro, o_addrs m !! l = Some lo /\ (r <> Member i Local -> o_addrs m !! r = Some ro) /\ addrs_inv m' /\ m' = placed i lo ro m.
Proof.
  intros Hi. unfold Path_new. intros (m1 & H1 & (m2 & H2 & H3)%obind_ok)%obind_ok.
  destruct (Address_copy_inv _ _ _ _ Hi H1) as (Hi1 & lo & Hl & ->). destruct (Address_copy_inv _ _ _ _ Hi1 H2) as (Hi2 & ro & Hr & ->).
  exists lo, ro. assert (Ok m' = Ok (placed i lo ro m)) as Hm by (rewrite <- H3; exact (placed_members i lo ro m)). injection Hm as ->. split_and!; [done| |exact Hi2|done].
  intros Hne. cbn in Hr. by rewrite lookup_insert_ne in Hr by done.
Qed.

Lemma Path_assign_placed i j m m' :
  addrs_inv m -> Path_assign i j m = Ok m' ->
  exists lo ro, o_addrs m !! Member j Local = Some lo /\ o_addrs m !! Member j Remote = Some ro /\ addrs_inv m' /\ m' = placed i lo ro m.
Proof.
  intros Hi. unfold Path_assign. intros (m1 & H1 & (m2 & H2 & H3)%obind_ok)%obind_ok.
  destruct (Address_assign_inv _ _ _ _ Hi H1) as (Hi1 & lo & Hl & ->). destruct (Address_assign_inv _ _ _ _ Hi1 H2) as (Hi2 & ro & Hr & ->).
  exists lo, ro. assert (Ok m' = Ok (placed i lo ro m)) as Hm by (rewrite <- H3; exact (placed_members i lo ro m)). injection Hm as ->. cbn in Hr. rewrite lookup_insert_ne in Hr by done.
  split_and!; [done|done|exact Hi2|done].
Qed.

Lemma Path_default_placed i m m' :
  addrs_inv m -> Path_default i m = Ok m' -> exists lo ro, addrs_inv m' /\ m' = placed i lo ro m.
Proof.
  intros Hi. unfold Path_default, Address_construct.
  set (lo := with_value (addr_init (Member i Local)) Address_default). set (ro := with_value (addr_init (Member i Remote)) Address_default).
  intros H. exists lo, ro.
  assert (Ok m' = Ok (placed i lo ro m)) as Hm by (rewrite <- H; exact (placed_members i lo ro m)). injection Hm as ->. split; [|done].
  apply (addrs_inv_set _ (placed_at (Member i Remote) ro)); [|done|exact default_wf].
  apply (addrs_inv_set _ (placed_at (Member i Local) lo)); [done..|exact default_wf].
Qed.

(** Objects that are not members of [i] and were not touched are as before. *)
Lemma reads_frame i m m' :
  paths_inv m -> o_paths m' !! i = o_paths m !! i -> (forall s, o_addrs m' !! Member i s = o_addrs m !! Member i s) -> addrs_inv m ->
  path_reads i m' = path_reads i m /\ member_addrs i m' = member_addrs i m.
Proof.
  intros Hp Ei Es Hi. split; [|unfold member_addrs; by rewrite !Es]. unfold path_reads. rewrite Ei.
  destruct (o_paths m !! i) as [v|] eqn:Hv; [|done]. specialize (Hp _ _ Hv). unfold member_addrs in Hp.
  destruct (o_addrs m !! Member i Local) as [l|] eqn:Hl; [|done]. destruct (o_addrs m !! Member i Remote) as [r|] eqn:Hr; [|done].
  injection Hp as <-. cbn. unfold ng_reads. by rewrite (proj1 (Hi _ _ Hl)), (proj1 (Hi _ _ Hr)), !Es.
Qed.

Lemma path_reads_own i m v :
  addrs_inv m -> paths_inv m -> o_paths m !! i = Some v ->
  exists l r, o_addrs m !! Member i Local = Some l /\ o_addrs m !! Member i Remote = Some r /\
    na_addr v.1 = Member i Local /\ na_addr v.2 = Member i Remote /\ path_reads i m = Some (own_bytes l, own_bytes r).
Proof.
  intros Hi Hp Hv. pose proof (Hp _ _ Hv) as Hm. unfold member_addrs in Hm.
  destruct (o_addrs m !! Member i Local) as [l|] eqn:Hl; [|done]. destruct (o_addrs m !! Member i Remote) as [r|] eqn:Hr; [|done].
  injection Hm as <-. exists l, r. destruct (Hi _ _ Hl) as [El _]. destruct (Hi _ _ Hr) as [Er _]. split_and!; try done.
  unfold path_reads, ng_reads. rewrite Hv. cbn. by rewrite El, Er, Hl, Hr.
Qed.

Lemma placed_reads i lo ro m : path_reads i (placed i lo ro m) = Some (own_bytes lo, own_bytes ro).
Proof.
  unfold path_reads, ng_reads, placed. cbn [o_paths set_path]. rewrite lookup_insert_eq. cbn [mbind option_bind fst snd na_addr o_addrs set_addr set_path].
  rewrite (lookup_insert_ne _ (Member i Remote) (Member i Local)) by done. by rewrite !lookup_insert_eq.
Qed.

Lemma placed_inv i lo ro m : paths_inv m -> paths_inv (placed i lo ro m).
Proof.
  intros Hp j v. cbn. intros [[<- <-]|[Hne Hv]]%lookup_insert_Some.
  - unfold member_addrs. cbn [o_addrs set_path set_addr placed]. rewrite (lookup_insert_ne _ (Member i Remote) (Member i Local)) by done. by rewrite !lookup_insert_eq.
  - apply Hp in Hv. unfold member_addrs in *. cbn. by rewrite !lookup_insert_ne by congruence.
Qed.

Section view.
Context (inet_pton : Z -> list Z -> Z * list Z).

(** One step: the invariants hold again, and only the path that the step is about may have changed. *)
Lemma obj_step_inv t m m' :
  addrs_inv m -> paths_inv m -> obj_step inet_pton t m m' ->
  addrs_inv m' /\ paths_inv m' /\ (forall i, t <> inr i -> path_reads i m' = path_reads i m).
Proof.
  intros Hi Hp Hst.
  assert (forall n o, na_addr (ao_addr o) = Own n -> addr_wf (ao_value o) ->
    addrs_inv (set_addr (Own n) o m) /\ paths_inv (set_addr (Own n) o m) /\
    (forall i : nat, @inl nat nat n <> inr i -> path_reads i (set_addr (Own n) o m) = path_reads i m)) as Hset.
  { intros n o Ho Hw. assert (forall i s, o_addrs (set_addr (Own n) o m) !! Member i s = o_addrs m !! Member i s) as Es
      by (intros i s; cbn; by apply lookup_insert_ne).
    split_and!; [by apply addrs_inv_set| |]; intros i.
    - intros v Hv. destruct (reads_frame i m (set_addr (Own n) o m) Hp) as [_ ->]; [done|apply Es|done|by apply Hp].
    - intros _. apply reads_frame; [done..|apply Es|done]. }
  assert (forall i lo ro, addrs_inv (placed i lo ro m) -> addrs_inv (placed i lo ro m) /\ paths_inv (placed i lo ro m) /\
    (forall j : nat, @inr nat nat i <> inr j -> path_reads j (placed i lo ro m) = path_reads j m)) as Hplaced.
  { intros i lo ro Hai. split_and!; [done|by apply placed_inv|]. intros j Hne. apply reads_frame; [done|cbn|intros s; cbn|done].
    - apply lookup_insert_ne. congruence.
    - by rewrite !lookup_insert_ne by congruence. }
  destruct Hst as [n v m Hn Hb|n y m m' Hn Hc|n y m m' Hc|n o v m Hn Hb|n m|i m m' Hn Hc|i l r m m' Hn Hc|i j m m' Hn Hc|i j m m' Hc|i m].
  - apply Hset; [done|]. exact (built_wf inet_pton v Hb).
  - destruct (Address_copy_inv _ _ _ _ Hi Hc) as (_ & obj & Hy & ->). apply Hset; [done|]. by apply (Hi _ _ Hy).
  - destruct (Address_assign_inv _ _ _ _ Hi Hc) as (_ & obj & Hy & ->). apply Hset; [done|]. by apply (Hi _ _ Hy).
  - apply Hset; [by apply (Hi _ _ Hn)|]. exact (built_wf inet_pton v Hb).
  - split_and!.
    + intros x o. cbn. intros [_ Ho]%lookup_delete_Some. by apply Hi.
    + intros i v Hv. apply Hp in Hv. unfold member_addrs in *. cbn. by rewrite !lookup_delete_ne by done.
    + intros i _. apply reads_frame; [done..| |done]. intros s. cbn. by rewrite lookup_delete_ne.
  - destruct (Path_default_placed _ _ _ Hi Hc) as (lo & ro & Hai & ->). by apply Hplaced.
  - destruct (Path_new_placed _ _ _ _ _ Hi Hc) as (lo & ro & _ & _ & Hai & ->). by apply Hplaced.
  - destruct (Path_new_placed _ _ _ _ _ Hi Hc) as (lo & ro & _ & _ & Hai & ->). by apply Hplaced.
  - destruct (Path_assign_placed _ _ _ _ Hi Hc) as (lo & ro & _ & _ & Hai & ->). by apply Hplaced.
  - split_and!.
    + intros x o. cbn. intros [_ [_ Ho]%lookup_delete_Some]%lookup_delete_Some. by apply Hi.
    + intros j v. cbn. intros [Hne Hv]%lookup_delete_Some. apply Hp in Hv. unfold member_addrs in *. cbn. by rewrite !lookup_delete_ne by congruence.
    + intros j Hne. apply reads_frame; [done|cbn; apply lookup_delete_ne; congruence| |done]. intros s. cbn. by rewrite !lookup_delete_ne by congruence.
Qed.

Definition any_step (m m' : objs) : Prop := exists t, obj_step inet_pton t m m'.
Lemma objs_reachable m : rtc any_step (mkObjs ∅ ∅) m -> addrs_inv m /\ paths_inv m.
Proof.
  intros Hr. assert (addrs_inv (mkObjs ∅ ∅) /\ paths_inv (mkObjs ∅ ∅)) as Hi by (split; intros ? ?; cbn; by rewrite lookup_empty).
  revert Hi. induction Hr as [|m1 m2 m3 [t Hst] _ IH]; [done|]. intros [Hi Hp]. apply IH.
  by destruct (obj_step_inv _ _ _ Hi Hp Hst) as (? & ? & _).
Qed.

End view.


(** Assigning a sockaddr makes the address equal to one constructed from it, whatever it held
    before. *)
Lemma sub_memmove off len (dst src : list Z) n :
  (off + len <= n)%nat -> (n <= length src)%nat -> sub_bytes off len (memmove dst src n) = sub_bytes off len src.
Proof.
  intros H1 H2. unfold sub_bytes, memmove. rewrite drop_app_le by (rewrite length_take; lia).
  rewrite take_app_le by (rewrite length_drop, length_take; lia).
  rewrite <- (take_drop n src) at 2. rewrite (drop_app_le (take n src)) by (rewrite length_take; lia).
  rewrite (take_app_le (drop off (take n src))) by (rewrite length_drop, length_take; lia). done.
Qed.

Theorem address_assign_like_new (a a' b : Address) (s : list Z) :
  Address_assign_sockaddr a s = Ok a' -> Address_of_sockaddr s = Ok b -> is_ipv4 b || is_ipv6 b = true ->
  Address_eqb a' b = true.
Proof.
  unfold Address_assign_sockaddr, Address_of_sockaddr, Address_sockaddr.
  destruct (zlen s <? sockaddr_len s) eqn:E; [done|]. rewrite orb_false_r.
  destruct (sizeof_sockaddr_storage <? sockaddr_len s) eqn:E2; [done|]. intros [= <-] [= <-].
  assert (sockaddr_len s = 16 \/ sockaddr_len s = 28) as Hn
    by (unfold sockaddr_len, sizeof_sockaddr_in, sizeof_sockaddr_in6; split_if; auto).
  bools. unfold zlen in E. rewrite orb_true_iff, Address_eqb_spec. unfold is_ipv4, is_ipv6, ss_family, sin_port, sin_addr, sin6_addr.
  cbn [addrlen sock_addr]. rewrite !(sub_memmove 0 2), !(sub_memmove 2 2), !(sub_memmove 4 4) by lia.
  intros [H|H]; [by left|right]. split_and!; try done.
  assert (sockaddr_len s = 28) as E28 by (bools; done). rewrite !(sub_memmove 8 16) by lia. done.
Qed.

Lemma address_assign_like_new_witness :
  let s := [2; 0; 21; 124; 127; 0; 0; 1] ++ replicate 8 0 in
  exists a' b, Address_assign_sockaddr Address_default s = Ok a' /\ Address_of_sockaddr s = Ok b /\ Address_eqb a' b = true.
Proof.
  intros s. do 2 eexists. split; [reflexivity|]. split; [reflexivity|].
  apply (address_assign_like_new Address_default _ _ s); reflexivity.
Defined.

(** Building an address from text.  A text with a colon gives an IPv6 address, one without
    an IPv4 address, [port()] gives back the port, and a text [inet_pton] refuses (it returns 0)
    throws. *)
Theorem address_from_string (inet_pton : Z -> list Z -> Z * list Z) (addr : list Z) (port : Z) :
  0 <= port < 2 ^ 16 ->
  let v6 := bool_decide (58 ∈ addr) in
  let rv := (inet_pton (if v6 then AF_INET6 else AF_INET) addr).1 in
  (rv = 0 -> Address_string inet_pton addr port = Throw invalid_argument) /\
  (rv <> 0 -> exists a, Address_string inet_pton addr port = Ok a /\
     is_ipv6 a = v6 /\ is_ipv4 a = negb v6 /\ Address_port a = Ok port).
Proof.
  intros Hp. simpl. unfold Address_string.
  set (st0 := if bool_decide (addr = []) then _ else _).
  assert (st0 = zero_storage \/ st0 = store_at 2 (port_bytes port) zero_storage) as Hst
    by (unfold st0; destruct (bool_decide (addr = [])); auto).
  clearbody st0.
  destruct (bool_decide (58 ∈ addr)); destruct (inet_pton _ addr) as [rv bs]; simpl;
    (split; intros Hrv; [by subst|]); rewrite (proj2 (Z.eqb_neq _ _)) by done;
    (eexists; split; [reflexivity|]); unfold is_ipv4, is_ipv6, Address_port;
    [ edestruct (string_header AF_INET6 port st0 bs 8 sizeof_sockaddr_in6) as [Hf Hs]
    | edestruct (string_header AF_INET port st0 bs 4 sizeof_sockaddr_in) as [Hf Hs] ]; try done; try lia;
    rewrite ?Hf; unfold is_ipv4, is_ipv6; rewrite Hf, Hs; done.
Qed.

Lemma address_from_string_witness :
  let pton := fun (af : Z) (s : list Z) => (1, [127; 0; 0; 1]) in
  ((pton AF_INET [49; 46; 49]).1 = 0 -> Address_string pton [49; 46; 49] 5500 = Throw invalid_argument) /\
  ((pton AF_INET [49; 46; 49]).1 <> 0 -> exists a, Address_string pton [49; 46; 49] 5500 = Ok a /\
     is_ipv6 a = false /\ is_ipv4 a = true /\ Address_port a = Ok 5500).
Proof.
  intros pton. apply (address_from_string pton [49; 46; 49] 5500). lia.
Defined.

(** [opt::local_addr] built from a port alone always throws, since [inet_pton] refuses the
    empty text; the comment of the constructor it calls promises the IPv6 any-address. *)
Theorem local_addr_port_throws (inet_pton : Z -> list Z -> Z * list Z) (port : Z) :
  (inet_pton AF_INET []).1 = 0 -> local_addr_port inet_pton port = Throw invalid_argument.
Proof.
  unfold local_addr_port, Address_string. simpl.
  destruct (inet_pton AF_INET []) as [rv bs]; simpl. by intros ->.
Qed.

Lemma local_addr_port_throws_witness :
  local_addr_port (fun af s => if bool_decide (s = []) then (0, []) else (1, [127; 0; 0; 1])) 5500
  = Throw invalid_argument.
Proof. apply local_addr_port_throws. reflexivity. Defined.

(** ** io_result *)
Module Io.
Record io_result := mkIO { error_code : Z; is_ngtcp2 : bool }.

(** [io_result{errno}] and [io_result::ngtcp2(err)]. *)
Definition io_errno (e : Z) : io_result := mkIO e false.
Definition io_ngtcp2 (e : Z) : io_result := mkIO e true.

Definition success (r : io_result) : bool := error_code r =? 0.
Definition failure (r : io_result) : bool := negb (success r).
Definition blocked `{NgtcpConsts} (r : io_result) : bool :=
  if is_ngtcp2 r then error_code r =? NGTCP2_ERR_STREAM_DATA_BLOCKED
  else (error_code r =? EAGAIN) || (error_code r =? EWOULDBLOCK).
End Io.
Import Io.

Lemma blocked_failure `{NgtcpConsts} r :
  is_ngtcp2 r = false -> blocked r = true -> failure r = true.
Proof.
  intros Hn. unfold blocked, failure, success, EAGAIN, EWOULDBLOCK. rewrite Hn.
  intros [Hb|Hb]%orb_true_iff; bools; by rewrite Hb.
Qed.

Lemma blocked_EAGAIN `{NgtcpConsts} : blocked (io_errno EAGAIN) = true.
Proof. done. Qed.
