(* ===== verification/Text.v ===== *)
(** * Text forms of addresses and connection ids

    Models [ConnectionID::to_string] and [Address::to_string] of src/utils.cpp and the parser
    [parse_addr] of tests/utils.hpp that the command line programs use.  Texts are lists of
    character codes. *)
From S2P Require Import Prelude Utils.
Import Cid Addr.

Module Text.
(** ** Numbers *)

(** fmt's decimal formatting of an unsigned value; [fuel] bounds the number of digits. *)
Fixpoint fmt_dec (fuel : nat) (n : Z) : list Z :=
  match fuel with
  | O => []
  | S fuel' => if n <? 10 then [48 + n] else fmt_dec fuel' (n / 10) ++ [48 + n mod 10]
  end.

(** [{:02x}] of a byte. *)
Definition hex_digit (n : Z) : Z := if n <? 10 then 48 + n else 87 + n.
Definition fmt_02x (b : Z) : list Z := [hex_digit (b / 16); hex_digit (b mod 16)].

(** [ConnectionID::to_string]. *)
Definition ConnectionID_to_string (c : ConnectionID) : list Z :=
  concat (map fmt_02x (take (Z.to_nat (datalen c)) (data c))).

Definition is_digit (c : Z) : bool := (48 <=? c) && (c <=? 57).

(** The value of a run of digits, as [std::from_chars] accumulates it. *)
Definition digits_value (ds : list Z) : Z := fold_left (fun v c => v * 10 + (c - 48)) ds 0.

(** [parse_int<uint16_t>(str, value)] in base 10. *)
Definition parse_int_u16 (str : list Z) : option Z :=
  if negb (bool_decide (str = [])) && forallb is_digit str && (digits_value str <? 2 ^ 16)
  then Some (digits_value str) else None.

(** ** Addresses *)

Section ntop.
(** [inet_ntop(af, bytes)]: the text. *)
Variable inet_ntop : Z -> list Z -> list Z.

(** [Address::to_string]. *)
Definition Address_to_string (a : Address) : outcome (list Z) :=
  if is_ipv6 a then
    let* port := Address_port a in
    Ok ([91] ++ inet_ntop AF_INET6 (sin6_addr a) ++ [93; 58] ++ fmt_dec 5 port)
  else
    let* port := Address_port a in
    Ok (inet_ntop AF_INET (sin_addr a) ++ [58] ++ fmt_dec 5 port).
End ntop.

(** The longest suffix of digits, and what comes before it. *)
Fixpoint span_digits (l : list Z) : list Z * list Z :=
  match l with
  | c :: l' => if is_digit c then let '(d, r) := span_digits l' in (c :: d, r) else ([], l)
  | [] => ([], [])
  end.
Definition split_port (addr : list Z) : list Z * list Z :=
  let '(d, r) := span_digits (reverse addr) in (reverse r, reverse d).

Definition ipv4_char (c : Z) : bool := is_digit c || (c =? 46).
Definition ipv6_char (c : Z) : bool := is_digit c || ((97 <=? c) && (c <=? 102)) || (c =? 58) || (c =? 46).

(** [parse_addr].  [before] ends at [find_last_not_of] the digits. *)
Definition parse_addr (addr : list Z) (default_port : option Z) : outcome (list Z * Z) :=
  let '(before, digits) := split_port addr in
  let* (addr, port) :=
    if negb (bool_decide (digits = [])) && bool_decide (last before = Some 58) then
      match parse_int_u16 digits with
      | None => Throw invalid_argument
      | Some p => Ok (take (length before - 1) before, p)
      end
    else match default_port with
    | Some p => Ok (addr, p)
    | None => Throw invalid_argument
    end in
  let had_sq_brackets := bool_decide (head addr = Some 91) && bool_decide (last addr = Some 93) in
  let addr := if had_sq_brackets then take (length addr - 2) (drop 1 addr) else addr in
  if negb (forallb ipv4_char addr) && negb (forallb ipv6_char addr) then Throw invalid_argument
  else if negb (forallb ipv4_char addr) && negb had_sq_brackets then Throw invalid_argument
  else Ok (if bool_decide (addr = []) then [58; 58] else addr, port).
End Text.
Export Text.

(** ** Decimal numbers survive printing and parsing *)

Lemma digits_value_app a c : digits_value (a ++ [c]) = digits_value a * 10 + (c - 48).
Proof. unfold digits_value. by rewrite fold_left_app. Qed.

Lemma fmt_dec_spec fuel n :
  0 <= n < 10 ^ Z.of_nat fuel -> (0 < fuel)%nat ->
  fmt_dec fuel n <> [] /\ forallb is_digit (fmt_dec fuel n) = true /\ digits_value (fmt_dec fuel n) = n.
Proof.
  revert n. induction fuel as [|fuel IH]; intros n Hn Hf; [lia|]. cbn [fmt_dec].
  destruct (n <? 10) eqn:E; bools.
  { split_and!; [done| |unfold digits_value; simpl; lia]. simpl. unfold is_digit.
    rewrite !(proj2 (Z.leb_le _ _)) by lia. done. }
  assert (0 < fuel)%nat by (destruct fuel; [simpl in Hn; lia|lia]).
  rewrite Nat2Z.inj_succ, Z.pow_succ_r in Hn by lia.
  destruct (IH (n / 10)) as (H1 & H2 & H3); [split; [apply Z.div_pos; lia|apply Z.div_lt_upper_bound; lia]|done|].
  pose proof (Z.mod_pos_bound n 10). pose proof (Z.div_mod n 10).
  split_and!.
  - by destruct (fmt_dec fuel (n / 10)).
  - rewrite forallb_app, H2. simpl. unfold is_digit. rewrite !(proj2 (Z.leb_le _ _)) by lia. done.
  - rewrite digits_value_app, H3. lia.
Qed.

Lemma parse_int_fmt_dec p : 0 <= p < 2 ^ 16 -> parse_int_u16 (fmt_dec 5 p) = Some p.
Proof.
  intros Hp. destruct (fmt_dec_spec 5 p) as (H1 & H2 & H3); [change (10 ^ Z.of_nat 5) with 100000; lia|lia|].
  unfold parse_int_u16. rewrite bool_decide_false, H2, H3, (proj2 (Z.ltb_lt _ _)) by (done || lia). done.
Qed.

Lemma span_digits_app d c r :
  forallb is_digit d = true -> is_digit c = false -> span_digits (d ++ c :: r) = (d, c :: r).
Proof.
  intros Hd Hc. induction d as [|x d IH]; simpl in *; [by rewrite Hc|]. bools. rewrite H. by rewrite IH.
Qed.

Lemma forallb_reverse {A} (f : A -> bool) l : forallb f (reverse l) = forallb f l.
Proof.
  induction l as [|x l IH]; [done|]. rewrite reverse_cons, forallb_app, IH. simpl. rewrite andb_true_r. apply andb_comm.
Qed.

Lemma split_port_app b c d :
  forallb is_digit d = true -> is_digit c = false -> split_port (b ++ c :: d) = (b ++ [c], d).
Proof.
  intros Hd Hc. unfold split_port. rewrite reverse_app, reverse_cons, <- app_assoc. cbn [app].
  rewrite span_digits_app by (by rewrite ?forallb_reverse).
  rewrite reverse_cons, !reverse_involutive. done.
Qed.

(** Parsing a text [t:port] with a valid port. *)
Lemma parse_addr_with_port t port dp :
  0 <= port < 2 ^ 16 ->
  let had := bool_decide (head t = Some 91) && bool_decide (last t = Some 93) in
  let t' := if had then take (length t - 2) (drop 1 t) else t in
  t' <> [] -> forallb ipv6_char t' = true -> forallb ipv4_char t' = true \/ had = true ->
  parse_addr (t ++ [58] ++ fmt_dec 5 port) dp = Ok (t', port).
Proof.
  intros Hp had t' Hne H6 H4. unfold parse_addr.
  destruct (fmt_dec_spec 5 port) as (D1 & D2 & _); [change (10 ^ Z.of_nat 5) with 100000; lia|lia|].
  cbn [app]. rewrite split_port_app by done.
  rewrite bool_decide_false, last_snoc, bool_decide_true, parse_int_fmt_dec by done. cbn [negb andb obind].
  rewrite length_app, Nat.add_sub, take_app_length. fold had. fold t'. rewrite H6, andb_false_r.
  rewrite (bool_decide_false (t' = [])) by done.
  destruct H4 as [-> | ->]; cbn [negb andb]; [done|]. by rewrite andb_false_r.
Qed.

(** ** Addresses survive printing and parsing *)

Lemma sub_bytes_store_eq off bs l :
  (off <= length l)%nat -> sub_bytes off (length bs) (store_at off bs l) = bs.
Proof.
  intros H. unfold sub_bytes, store_at. rewrite drop_app_ge by (rewrite length_take; lia).
  rewrite length_take, Nat.min_l, Nat.sub_diag by lia. apply take_app_length.
Qed.

Lemma sub_bytes_u8 off len l : Forall is_u8 l -> Forall is_u8 (sub_bytes off len l).
Proof. intros H. unfold sub_bytes. by apply Forall_take, Forall_drop. Qed.

Lemma swap16_bound v : 0 <= swap16 v < 2 ^ 16.
Proof.
  unfold swap16. pose proof (Z.mod_pos_bound v 256). pose proof (Z.mod_pos_bound (v / 256) 256). lia.
Qed.

Lemma swap16_inj a b : 0 <= a < 2 ^ 16 -> 0 <= b < 2 ^ 16 -> swap16 a = swap16 b -> a = b.
Proof.
  intros Ha Hb. unfold swap16.
  rewrite (Z.mod_small (a / 256)), (Z.mod_small (b / 256))
    by (split; [apply Z.div_pos; lia|apply Z.div_lt_upper_bound; lia]).
  pose proof (Z.mod_pos_bound a 256). pose proof (Z.mod_pos_bound b 256).
  pose proof (Z.div_mod a 256). pose proof (Z.div_mod b 256).
  assert (0 <= a / 256 < 256) by (split; [apply Z.div_pos; lia|apply Z.div_lt_upper_bound; lia]).
  assert (0 <= b / 256 < 256) by (split; [apply Z.div_pos; lia|apply Z.div_lt_upper_bound; lia]).
  intros E. assert (a mod 256 = b mod 256) by lia. lia.
Qed.

Lemma le_load_2_bound x y : is_u8 x -> is_u8 y -> 0 <= le_load [x; y] < 2 ^ 16.
Proof. unfold is_u8. simpl. lia. Qed.

Lemma sin_port_bound a : addr_wf a -> 0 <= sin_port a < 2 ^ 16.
Proof.
  intros [Hl HF]. unfold sin_port, sub_bytes. destruct (sock_addr a) as [|b0 [|b1 [|x [|y l]]]]; try (by simpl in Hl; lia).
  inversion HF as [|? ? _ HF1]. inversion HF1 as [|? ? _ HF2]. inversion HF2 as [|? ? Hx HF3]. inversion HF3 as [|? ? Hy _].
  subst. by apply le_load_2_bound.
Qed.

(** What POSIX documents of inet_ntop and inet_pton: the characters of the texts, and that parsing
    undoes printing. *)
Definition ntop_ok (inet_ntop : Z -> list Z -> list Z) (inet_pton : Z -> list Z -> Z * list Z) : Prop :=
  (forall bs, length bs = 4%nat -> Forall is_u8 bs -> let t := inet_ntop AF_INET bs in
     t <> [] /\ forallb ipv4_char t = true /\ inet_pton AF_INET t = (1, bs)) /\
  (forall bs, length bs = 16%nat -> Forall is_u8 bs -> let t := inet_ntop AF_INET6 bs in
     58 ∈ t /\ forallb ipv6_char t = true /\ inet_pton AF_INET6 t = (1, bs)).

Lemma ipv4_chars t : forallb ipv4_char t = true -> 58 ∉ t /\ head t <> Some 91 /\ forallb ipv6_char t = true.
Proof.
  induction t as [|c t IH]; simpl; [intros _; split_and!; [apply not_elem_of_nil|done..]|].
  intros Hc. bools. destruct IH as (I1 & _ & I3); [done|].
  assert (c <> 58 /\ c <> 91 /\ ipv6_char c = true) as (C1 & C2 & C3).
  { unfold ipv4_char, ipv6_char, is_digit in *. apply orb_true_iff in H as [H|H]; bools; [|subst; done].
    rewrite !(proj2 (Z.leb_le _ _)) by lia. split_and!; [lia..|done]. }
  rewrite C3, I3, elem_of_cons. split_and!; [|congruence|done]. intros [?|?]; congruence.
Qed.

(** The address built from the printed parts equals the original. *)
Lemma reparse_equal a fam off len len' bs :
  addr_wf a -> ss_family a = fam -> addrlen a = len' ->
  (4 <= off <= 128)%nat -> bs = sub_bytes off len (sock_addr a) -> length bs = len ->
  ((fam = AF_INET /\ off = 4%nat /\ len = 4%nat /\ len' = sizeof_sockaddr_in) \/
   (fam = AF_INET6 /\ off = 8%nat /\ len = 16%nat /\ len' = sizeof_sockaddr_in6)) ->
  Address_eqb (mkAddress (store_at off bs (store_at 2 (port_bytes (swap16 (sin_port a))) (store_at 0 [fam; 0] zero_storage))) len') a = true.
Proof.
  intros Hwf Hfam Hlen Hoff Hbs Hl Hcase.
  destruct (string_header fam (swap16 (sin_port a)) zero_storage bs off len' (swap16_bound _)) as [Hf Hs]; [by left|done|].
  set (a' := mkAddress _ len') in *.
  assert (sub_bytes off len (sock_addr a') = bs) as Hb'.
  { subst len. apply sub_bytes_store_eq. destruct Hcase as [(_ & -> & _)|(_ & -> & _)]; vm_compute; lia. }
  assert (sin_port a' = sin_port a) as Hport.
  { apply swap16_inj; [|by apply sin_port_bound|done]. unfold sin_port, a'. cbn [sock_addr].
    rewrite sub_bytes_store_after by (split; [lia|]; destruct Hcase as [(_ & -> & _)|(_ & -> & _)]; vm_compute; lia).
    pose proof (swap16_bound (sin_port a)) as Hsb. revert Hsb. generalize (swap16 (sin_port a)). intros p Hp.
    change (sub_bytes 2 2 (store_at 2 (port_bytes p) (store_at 0 [fam; 0] zero_storage))) with (port_bytes p).
    apply le_load_2_bound; unfold is_u8; [split; [apply Z.div_pos; lia|apply Z.div_lt_upper_bound; lia]|].
    apply Z.mod_pos_bound. lia. }
  apply Address_eqb_spec. unfold is_ipv4, is_ipv6, sin_addr, sin6_addr. change (addrlen a') with len'. rewrite Hf, Hfam, Hlen.
  destruct Hcase as [(-> & -> & -> & ->)|(-> & -> & -> & ->)]; [left|right]; (split_and!; [done..|congruence]).
Qed.

(** What the parser makes of the two printed forms. *)
Lemma parse_printed_v6 t port :
  0 <= port < 2 ^ 16 -> t <> [] -> forallb ipv6_char t = true ->
  parse_addr ([91] ++ t ++ [93; 58] ++ fmt_dec 5 port) None = Ok (t, port).
Proof.
  intros Hport Hne H6.
  replace ([91] ++ t ++ [93; 58] ++ fmt_dec 5 port)
    with (([91] ++ t ++ [93]) ++ [58] ++ fmt_dec 5 port) by (by rewrite <- !app_assoc).
  assert (bool_decide (head ([91] ++ t ++ [93]) = Some 91) && bool_decide (last ([91] ++ t ++ [93]) = Some 93) = true) as Hhad.
  { rewrite app_assoc, last_snoc. done. }
  assert (take (length ([91] ++ t ++ [93]) - 2) (drop 1 ([91] ++ t ++ [93])) = t) as Ht.
  { cbn [app drop]. rewrite length_cons, length_app. cbn [length].
    replace (S (length t + 1) - 2)%nat with (length t) by lia. apply take_app_length. }
  pose proof (parse_addr_with_port ([91] ++ t ++ [93]) port None Hport) as Hp.
  cbn zeta in Hp. rewrite Hhad, Ht in Hp. apply Hp; auto.
Qed.

Lemma parse_printed_v4 t port :
  0 <= port < 2 ^ 16 -> t <> [] -> forallb ipv4_char t = true ->
  parse_addr (t ++ [58] ++ fmt_dec 5 port) None = Ok (t, port).
Proof.
  intros Hport Hne H4. destruct (ipv4_chars t H4) as (_ & C2 & C3).
  pose proof (parse_addr_with_port t port None Hport) as Hp. cbn zeta in Hp.
  rewrite (bool_decide_false (head t = Some 91)) in Hp by done. cbn [andb] in Hp. apply Hp; auto.
Qed.

(** C35: printing an address and parsing the text gives the address back: the parser recovers the
    port and the numeric text (without the brackets of IPv6), and the address built from them
    compares equal to the original. *)
Theorem address_text_roundtrip (inet_ntop : Z -> list Z -> list Z) (inet_pton : Z -> list Z -> Z * list Z) (a : Address) :
  ntop_ok inet_ntop inet_pton -> addr_wf a -> is_ipv4 a || is_ipv6 a = true ->
  exists s t port a', Address_to_string inet_ntop a = Ok s /\ parse_addr s None = Ok (t, port) /\
    Address_port a = Ok port /\ Address_string inet_pton t port = Ok a' /\ Address_eqb a' a = true.
Proof.
  intros [H4 H6] Hwf Hip. pose proof (swap16_bound (sin_port a)) as Hport.
  unfold Address_to_string, Address_port. rewrite Hip. cbn [assert_then obind].
  destruct (is_ipv6 a) eqn:E6.
  - unfold is_ipv6 in E6. bools.
    assert (length (sin6_addr a) = 16%nat) as Hl.
    { unfold sin6_addr, sub_bytes. rewrite length_take, length_drop. destruct Hwf as [-> _]. done. }
    destruct (H6 _ Hl (sub_bytes_u8 _ _ _ (proj2 Hwf))) as (T1 & T2 & T3). set (t := inet_ntop AF_INET6 (sin6_addr a)) in *.
    assert (t <> []) as Hne by (intros E; rewrite E in T1; by apply not_elem_of_nil in T1).
    eexists _, t, _, _. split_and!; [reflexivity|by apply parse_printed_v6|reflexivity| |].
    + unfold Address_string. rewrite (bool_decide_false (t = [])), bool_decide_true, T3 by done. reflexivity.
    + eapply (reparse_equal a AF_INET6 8 16); try done; [lia|by right].
  - rewrite orb_false_r in Hip. unfold is_ipv4 in Hip. bools.
    assert (length (sin_addr a) = 4%nat) as Hl.
    { unfold sin_addr, sub_bytes. rewrite length_take, length_drop. destruct Hwf as [-> _]. done. }
    destruct (H4 _ Hl (sub_bytes_u8 _ _ _ (proj2 Hwf))) as (T1 & T2 & T3). set (t := inet_ntop AF_INET (sin_addr a)) in *.
    destruct (ipv4_chars t T2) as (C1 & _ & _).
    eexists _, t, _, _. split_and!; [reflexivity|by apply parse_printed_v4|reflexivity| |].
    + unfold Address_string. rewrite (bool_decide_false (t = [])), (bool_decide_false (58 ∈ t)), T3 by done. reflexivity.
    + eapply (reparse_equal a AF_INET 4 4); try done; [lia|by left].
Qed.

(** *** A concrete inet_ntop and inet_pton

    Dotted decimal for IPv4, eight groups of four hexadecimal digits for IPv6. *)
Fixpoint join_dec (bs : list Z) : list Z :=
  match bs with
  | [] => []
  | [b] => fmt_dec 3 b
  | b :: bs' => fmt_dec 3 b ++ 46 :: join_dec bs'
  end.

(** Numbers separated by dots; [acc] is the number being read. *)
Fixpoint split_dec (acc : Z) (t : list Z) : list Z :=
  match t with
  | [] => [acc]
  | c :: t' => if c =? 46 then acc :: split_dec 0 t' else split_dec (acc * 10 + (c - 48)) t'
  end.

Fixpoint join_hex (bs : list Z) : list Z :=
  match bs with
  | x :: y :: bs' => fmt_02x x ++ fmt_02x y ++ [58] ++ join_hex bs'
  | _ => []
  end.

Definition unhex (c : Z) : Z := if c <? 58 then c - 48 else c - 87.

Fixpoint read_hex (t : list Z) : list Z :=
  match t with
  | a :: b :: c :: d :: _ :: t' => [unhex a * 16 + unhex b; unhex c * 16 + unhex d] ++ read_hex t'
  | _ => []
  end.

(** The last group has no separator. *)
Definition plain_ntop (af : Z) (bs : list Z) : list Z :=
  if af =? AF_INET then join_dec bs else removelast (join_hex bs).
Definition plain_pton (af : Z) (t : list Z) : Z * list Z :=
  if af =? AF_INET then (1, split_dec 0 t) else (1, read_hex (t ++ [58])).

Lemma split_dec_digits acc d t :
  forallb is_digit d = true -> split_dec acc (d ++ t) = split_dec (fold_left (fun v c => v * 10 + (c - 48)) d acc) t.
Proof.
  revert acc. induction d as [|c d IH]; intros acc H; [done|]. simpl in H. bools. cbn [app split_dec fold_left].
  destruct (c =? 46) eqn:E; bools; [subst; done|]. by apply IH.
Qed.

Lemma digits_ipv4 d : forallb is_digit d = true -> forallb ipv4_char d = true.
Proof.
  induction d as [|c d IH]; [done|]. simpl. intros H. bools. unfold ipv4_char at 1. rewrite H. by apply IH.
Qed.

Lemma fmt_byte b : is_u8 b ->
  fmt_dec 3 b <> [] /\ forallb is_digit (fmt_dec 3 b) = true /\ digits_value (fmt_dec 3 b) = b.
Proof. unfold is_u8. intros. apply fmt_dec_spec; [change (10 ^ Z.of_nat 3) with 1000; lia|lia]. Qed.

Lemma join_dec_spec bs :
  bs <> [] -> Forall is_u8 bs ->
  join_dec bs <> [] /\ forallb ipv4_char (join_dec bs) = true /\ split_dec 0 (join_dec bs) = bs.
Proof.
  intros Hne HF. induction HF as [|b bs Hb HF IH]; [done|]. destruct (fmt_byte b Hb) as (F1 & F2 & F3).
  destruct bs as [|b' bs].
  - cbn [join_dec]. split_and!; [done|by apply digits_ipv4|]. rewrite <- (app_nil_r (fmt_dec 3 b)), split_dec_digits by done.
    simpl. by f_equal.
  - change (join_dec (b :: b' :: bs)) with (fmt_dec 3 b ++ 46 :: join_dec (b' :: bs)). destruct IH as (I1 & I2 & I3); [done|].
    set (j := join_dec (b' :: bs)) in *. clearbody j. split_and!.
    + by destruct (fmt_dec 3 b).
    + rewrite forallb_app, digits_ipv4 by done. cbn [forallb]. rewrite I2. done.
    + rewrite split_dec_digits by done. cbn [split_dec]. rewrite Z.eqb_refl, I3. by f_equal.
Qed.

Lemma hex_digit_spec n : 0 <= n < 16 -> ipv6_char (hex_digit n) = true /\ unhex (hex_digit n) = n.
Proof.
  intros H. unfold hex_digit, unhex, ipv6_char, is_digit. destruct (n <? 10) eqn:E; bools.
  - rewrite !(proj2 (Z.leb_le _ _)), (proj2 (Z.ltb_lt _ _)) by lia. split; [done|lia].
  - rewrite (proj2 (Z.ltb_ge _ _)), (proj2 (Z.leb_gt (87 + n) 57)), !(proj2 (Z.leb_le _ _)) by lia. split; [done|lia].
Qed.

Lemma byte_nibbles x : is_u8 x -> 0 <= x / 16 < 16 /\ 0 <= x mod 16 < 16 /\ x / 16 * 16 + x mod 16 = x.
Proof.
  unfold is_u8. intros H. pose proof (Z.mod_pos_bound x 16). pose proof (Z.div_mod x 16).
  assert (0 <= x / 16) by (apply Z.div_pos; lia). assert (x / 16 < 16) by (apply Z.div_lt_upper_bound; lia). lia.
Qed.

Lemma join_hex_spec n bs :
  length bs = (2 * n)%nat -> Forall is_u8 bs ->
  forallb ipv6_char (join_hex bs) = true /\ read_hex (join_hex bs) = bs /\
  ((0 < n)%nat -> last (join_hex bs) = Some 58).
Proof.
  revert bs. induction n as [|n IH]; intros bs Hl HF.
  { destruct bs; [|simpl in Hl; lia]. split_and!; [done..|lia]. }
  destruct bs as [|x [|y bs]]; [simpl in Hl; lia..|].
  inversion HF as [|? ? Hx HF1]; subst. inversion HF1 as [|? ? Hy HF2]; subst.
  destruct (IH bs) as (I1 & I2 & I3); [simpl in Hl; lia|done|].
  destruct (byte_nibbles x Hx) as (X1 & X2 & X3). destruct (byte_nibbles y Hy) as (Y1 & Y2 & Y3).
  destruct (hex_digit_spec _ X1) as [P1 Q1]. destruct (hex_digit_spec _ X2) as [P2 Q2].
  destruct (hex_digit_spec _ Y1) as [P3 Q3]. destruct (hex_digit_spec _ Y2) as [P4 Q4].
  cbn [join_hex fmt_02x app]. split_and!.
  - cbn [forallb]. rewrite P1, P2, P3, P4, I1. done.
  - cbn [read_hex app]. rewrite Q1, Q2, Q3, Q4, X3, Y3, I2. done.
  - intros _. destruct n as [|n]; [destruct bs; [done|simpl in Hl; lia]|].
    rewrite !last_cons, I3 by lia. done.
Qed.

Lemma plain_ok : ntop_ok plain_ntop plain_pton.
Proof.
  split; intros bs Hl HF; cbn zeta.
  - destruct (join_dec_spec bs) as (J1 & J2 & J3); [by intros ->|done|].
    split_and!; [done..|]. unfold plain_pton, plain_ntop. rewrite Z.eqb_refl. by rewrite J3.
  - destruct (join_hex_spec 8 bs) as (J1 & J2 & J3); [done..|]. specialize (J3 ltac:(lia)).
    unfold plain_pton, plain_ntop. change (AF_INET6 =? AF_INET) with false. cbn iota.
    apply last_Some in J3 as [u Hu]. rewrite Hu, removelast_last, <- Hu.
    rewrite J2. split_and!; [|by rewrite Hu, forallb_app in J1; bools|done].
    destruct bs as [|x [|y [|z bs]]]; [simpl in Hl; lia..|].
    assert (u = [hex_digit (x/16); hex_digit (x mod 16); hex_digit (y/16); hex_digit (y mod 16); 58] ++ drop 5 u) as ->.
    { destruct bs as [|z' bs]; [simpl in Hl; lia|]. cbn [join_hex fmt_02x app] in Hu.
      destruct u as [|? [|? [|? [|? [|? u]]]]]; cbn [app] in Hu; simplify_eq. done. }
    rewrite elem_of_app, !elem_of_cons. auto 10.
Qed.

Lemma address_text_roundtrip_witness :
  let a := mkAddress (store_at 8 (replicate 15 0 ++ [1]) (store_at 2 [21; 124] (store_at 0 [AF_INET6; 0] zero_storage)))
             sizeof_sockaddr_in6 in
  exists s t port a', Address_to_string plain_ntop a = Ok s /\ parse_addr s None = Ok (t, port) /\
    Address_port a = Ok port /\ Address_string plain_pton t port = Ok a' /\ Address_eqb a' a = true.
Proof.
  intros a. apply (address_text_roundtrip plain_ntop plain_pton a plain_ok).
  - split; [reflexivity|]. apply Forall_forall. intros x Hx. unfold is_u8. vm_compute in Hx. set_unfold in Hx.
    repeat (destruct Hx as [->|Hx]; [lia|]). done.
  - reflexivity.
Defined.

(** ** Connection ids *)

Lemma hex_bytes_inj xs ys :
  Forall is_u8 xs -> Forall is_u8 ys -> concat (map fmt_02x xs) = concat (map fmt_02x ys) -> xs = ys.
Proof.
  intros Hx. revert ys. induction Hx as [|x xs Hx HF IH]; intros ys Hy E; destruct Hy as [|y ys Hy HF']; try done.
  cbn [map concat fmt_02x app] in E.
  destruct (byte_nibbles x Hx) as (X1 & X2 & X3). destruct (byte_nibbles y Hy) as (Y1 & Y2 & Y3).
  destruct (hex_digit_spec _ X1) as [_ Q1]. destruct (hex_digit_spec _ X2) as [_ Q2].
  destruct (hex_digit_spec _ Y1) as [_ Q3]. destruct (hex_digit_spec _ Y2) as [_ Q4].
  injection E as E1 E2 E3. f_equal; [congruence|by apply IH].
Qed.

Definition cid_wf (c : ConnectionID) : Prop :=
  0 <= datalen c <= Z.of_nat (length (data c)) /\ Forall is_u8 (data c).

(** Two connection ids print alike exactly when they compare equal. *)
Theorem cid_text_injective (a b : ConnectionID) :
  cid_wf a -> cid_wf b ->
  ConnectionID_to_string a = ConnectionID_to_string b <-> ConnectionID_eqb a b = true.
Proof.
  intros [La Fa] [Lb Fb]. rewrite ConnectionID_eqb_spec. unfold ConnectionID_to_string. split.
  - intros E. apply hex_bytes_inj in E; [|by apply Forall_take..].
    assert (datalen a = datalen b) as Hd.
    { apply (f_equal length) in E. rewrite !length_take in E. lia. }
    split; [done|]. by rewrite E, Hd.
  - intros [Hd E]. by rewrite <- Hd, E.
Qed.

Lemma cid_text_injective_witness :
  ConnectionID_to_string (mkCID [255; 1; 9] 2) = ConnectionID_to_string (mkCID [255; 1; 7] 2) <->
  ConnectionID_eqb (mkCID [255; 1; 9] 2) (mkCID [255; 1; 7] 2) = true.
Proof.
  apply cid_text_injective; (split; [simpl; lia|]); repeat (constructor; [unfold is_u8; lia|]); constructor.
Defined.
