(* ===== verification/Dump.v ===== *)
(** * Dumps of buffers, printed paths and log set-up

    Models [buffer_printer::to_string], [Path::to_string], [io_result::str] and [logger_config] of
    src/utils.cpp, [numeric_host] of include/quic/utils.hpp and [setup_logging] of tests/utils.hpp.
    Texts are lists of character codes; characters outside ASCII are their UTF-8 bytes. *)
From S2P Require Import Prelude Utils Text.
Import Cid Addr Io.

Module Dump.
(** fmt's hexadecimal formatting; [fuel] bounds the number of digits. *)
Fixpoint fmt_hex (fuel : nat) (n : Z) : list Z :=
  match fuel with
  | O => []
  | S fuel' => if n <? 16 then [hex_digit n] else fmt_hex fuel' (n / 16) ++ [hex_digit (n mod 16)]
  end.
(** [{:#x}] and [{:04x}] of a [size_t]. *)
Definition fmt_alt_hex (n : Z) : list Z := [48; 120] ++ fmt_hex 16 n.
Definition fmt_04x (n : Z) : list Z :=
  let d := fmt_hex 16 n in replicate (4 - length d) 48 ++ d.

Definition utf8_bar : list Z := [0xE2; 0x94; 0x83].      (* U+2503 *)
Definition utf8_empty : list Z := [0xE2; 0x88; 0x85].    (* U+2205 *)
Definition utf8_dot : list Z := [0xC2; 0xB7].            (* U+00B7 *)

(** The hexadecimal columns of a line: the loop over [j], for the bytes from [k] on. *)
Fixpoint hex_cols (todo j : nat) (bs : list Z) : list Z :=
  match todo with
  | O => []
  | S todo' =>
      (if (j mod 4 =? 0)%nat then [32] else []) ++
      (match bs with [] => [32; 32] | b :: _ => fmt_02x b end) ++
      hex_cols todo' (S j) (tail bs)
  end.

(** One character of the text column; [char] is signed. *)
Definition printable (b : Z) : list Z :=
  let c := swrap 8 b in
  if c =? 0 then utf8_empty
  else if (c <? 0x20) || (0x7e <? c) then utf8_dot
  else [c].

Definition dump_line (i : Z) (bs : list Z) : list Z :=
  [10] ++ fmt_04x i ++ [32] ++ hex_cols 32 0 bs ++ [32; 32] ++ utf8_bar ++ concat (map printable bs) ++ utf8_bar.

(** The loop over [i]. *)
Fixpoint dump_lines (fuel : nat) (i : Z) (b : list Z) : list Z :=
  match fuel with
  | O => []
  | S fuel' =>
      match b with
      | [] => []
      | _ => dump_line i (take 32 b) ++ dump_lines fuel' (i + 32) (drop 32 b)
      end
  end.

(** "Buffer[" and " bytes]:". *)
Definition txt_buffer : list Z := [66; 117; 102; 102; 101; 114; 91].
Definition txt_bytes : list Z := [32; 98; 121; 116; 101; 115; 93; 58].

(** [buffer_printer::to_string]. *)
Definition dump_header (n : Z) : list Z := txt_buffer ++ fmt_dec 20 n ++ [47] ++ fmt_alt_hex n ++ txt_bytes.
Definition buffer_printer_to_string (b : list Z) : list Z :=
  dump_header (zlen b) ++ dump_lines (length b) 0 b.

(** [Path::to_string]: both addresses between braces, with an arrow. *)
Definition utf8_arrow : list Z := [0xE2; 0x9E; 0x99].
Definition Path_to_string (inet_ntop : Z -> list Z -> list Z) (p : Path) : outcome (list Z) :=
  let* l := Address_to_string inet_ntop (local p) in
  let* r := Address_to_string inet_ntop (remote p) in
  Ok ([123] ++ l ++ [32] ++ utf8_arrow ++ [32] ++ r ++ [125]).

(** [io_result::str]: which library's text of the code. *)
Definition io_result_str (ngtcp2_strerror strerror : Z -> list Z) (r : io_result) : list Z :=
  if is_ngtcp2 r then ngtcp2_strerror (error_code r) else strerror (error_code r).

(** [numeric_host_family] and [numeric_host]. *)
Definition numeric_host_family (inet_pton : Z -> list Z -> Z * list Z) (hostname : list Z) (family : Z) : bool :=
  (inet_pton family hostname).1 =? 1.
Definition numeric_host (inet_pton : Z -> list Z -> Z * list Z) (hostname : list Z) : bool :=
  numeric_host_family inet_pton hostname AF_INET || numeric_host_family inet_pton hostname AF_INET6.

(** ** Logging *)
Inductive log_type := TPrint | TSystem | TFile.
Record logger := mkLogger { run_once : bool; sinks : list (log_type * list Z); level : option Z }.

(** [logger_config]: only the first call has an effect. *)
Definition logger_config (out : list Z) (type : log_type) (reset : Z) (l : logger) : logger :=
  if run_once l then l else mkLogger true (sinks l ++ [(type, out)]) (Some reset).

(** The text before the first NUL of a buffer. *)
Fixpoint c_string (l : list Z) : list Z :=
  match l with
  | [] => []
  | c :: l' => if c =? 0 then [] else c :: c_string l'
  end.

(** [log_printer], what ngtcp2 logs with: [formatted] is the text [vsnprintf] is to write, or None if it fails.  At most
    2047 characters of it go into the zeroed buffer. *)
Definition log_printer (formatted : option (list Z)) : option (list Z) :=
  match formatted with
  | None => None
  | Some s => Some (c_string (memmove (replicate 2048 0) (take 2047 s) (length (take 2047 s))))
  end.
End Dump.
Export Dump.

(** ** Reading a dump back *)

(** The columns of [m] bytes, and the text after the columns. *)
Fixpoint read_cols (todo j m : nat) (t : list Z) : list Z * list Z :=
  match todo with
  | O => ([], t)
  | S todo' =>
      let t := if (j mod 4 =? 0)%nat then drop 1 t else t in
      match m with
      | O => read_cols todo' (S j) O (drop 2 t)
      | S m' => let '(bs, r) := read_cols todo' (S j) m' (drop 2 t) in
                (unhex (default 0 (t !! 0%nat)) * 16 + unhex (default 0 (t !! 1%nat)) :: bs, r)
      end
  end.

(** The lines of [n] bytes from offset [i] on. *)
Fixpoint read_lines (fuel : nat) (i : Z) (n : nat) (t : list Z) : list Z :=
  match fuel, n with
  | S fuel', S _ =>
      let '(bs, r) := read_cols 32 0 (min 32 n) (drop (2 + length (fmt_04x i)) t) in
      bs ++ read_lines fuel' (i + 32) (n - 32) (drop (8 + length (concat (map printable bs))) r)
  | _, _ => []
  end.

(** The size is in the header. *)
Definition read_dump (t : list Z) : list Z :=
  let n := digits_value (span_digits (drop (length txt_buffer) t)).1 in
  read_lines (Z.to_nat n) 0 (Z.to_nat n) (drop (length (dump_header n)) t).

Lemma read_hex_cols todo j bs rest :
  (length bs <= todo)%nat -> Forall is_u8 bs ->
  read_cols todo j (length bs) (hex_cols todo j bs ++ rest) = (bs, rest).
Proof.
  revert j bs. induction todo as [|todo IH]; intros j bs Hl HF; cbn [hex_cols read_cols].
  { destruct bs; [done|simpl in Hl; lia]. }
  assert (forall p t, (if (j mod 4 =? 0)%nat then drop 1 (((if (j mod 4 =? 0)%nat then [32] else []) ++ p) ++ t)
    else ((if (j mod 4 =? 0)%nat then [32] else []) ++ p) ++ t) = p ++ t) as Hsp by (intros p t; by destruct (j mod 4 =? 0)%nat).
  rewrite Hsp. destruct bs as [|b bs].
  - cbn [length tail app drop]. exact (IH (S j) [] ltac:(simpl; lia) HF).
  - cbn [length tail]. inversion HF as [|? ? Hb HF']; subst. unfold fmt_02x. cbn [app drop].
    rewrite drop_0, (IH (S j) bs) by (simpl in Hl; lia || done). cbn.
    destruct (byte_nibbles b Hb) as (B1 & B2 & B3). destruct (hex_digit_spec _ B1) as [_ ->]. destruct (hex_digit_spec _ B2) as [_ ->].
    by rewrite B3.
Qed.

Lemma drop_app_exact {A} (l k : list A) n : n = length l -> drop n (l ++ k) = k.
Proof. intros ->. apply drop_app_length. Qed.

Lemma read_dump_lines fuel i b :
  (length b <= fuel)%nat -> Forall is_u8 b -> read_lines fuel i (length b) (dump_lines fuel i b) = b.
Proof.
  revert i b. induction fuel as [|fuel IH]; intros i b Hl HF; [destruct b; [done|simpl in Hl; lia]|].
  destruct b as [|x b']; [done|]. set (b := x :: b') in *. cbn [dump_lines].
  assert (length b = S (length b')) as Hlen by done.
  change (read_lines (S fuel) i (length b) ?t) with
    (let '(bs, r) := read_cols 32 0 (min 32 (length b)) (drop (2 + length (fmt_04x i)) t) in
     bs ++ read_lines fuel (i + 32) (length b - 32) (drop (8 + length (concat (map printable bs))) r)).
  change (match b with [] => [] | _ :: _ => ?k end) with k.
  unfold dump_line. rewrite <- !app_assoc, (app_assoc [10]), (app_assoc ([10] ++ fmt_04x i)).
  rewrite drop_app_exact by (rewrite !length_app; simpl; lia).
  rewrite <- length_take, read_hex_cols by (rewrite ?length_take; lia || by apply Forall_take).
  rewrite (app_assoc [32; 32]), (app_assoc ([32; 32] ++ utf8_bar)), (app_assoc (([32; 32] ++ utf8_bar) ++ _)).
  rewrite drop_app_exact by (rewrite !length_app; simpl; lia).
  rewrite <- length_drop, IH by (rewrite ?length_drop; lia || by apply Forall_drop).
  apply take_drop.
Qed.

(** A dump loses nothing: the printed text of a buffer can be read back to the buffer, for every
    length and content (the size from the header, the bytes from the hexadecimal columns,
    however the text column renders them). *)
Theorem buffer_dump_roundtrip (b : list Z) :
  Forall is_u8 b -> zlen b < 2 ^ 64 -> read_dump (buffer_printer_to_string b) = b.
Proof.
  intros HF Hl. pose proof (zlen_nonneg b) as Hn. unfold read_dump, buffer_printer_to_string.
  destruct (fmt_dec_spec 20 (zlen b)) as (_ & D2 & D3);
    [change (10 ^ Z.of_nat 20) with 100000000000000000000; change (2 ^ 64) with 18446744073709551616 in Hl; lia|lia|].
  assert (digits_value (span_digits (drop (length txt_buffer) (dump_header (zlen b) ++ dump_lines (length b) 0 b))).1 = zlen b) as ->.
  { unfold dump_header. rewrite <- !app_assoc, drop_app_length.
    change ([47] ++ ?t) with (47 :: t). rewrite span_digits_app by done. exact D3. }
  rewrite drop_app_length. unfold zlen. rewrite Nat2Z.id. by apply read_dump_lines.
Qed.

Lemma buffer_dump_roundtrip_witness : read_dump (buffer_printer_to_string [0; 65; 200; 10]) = [0; 65; 200; 10].
Proof.
  apply buffer_dump_roundtrip; [|vm_compute; reflexivity]. repeat (constructor; [unfold is_u8; lia|]). constructor.
Defined.

(** "Buffer[2/0x2 bytes]:", a line break, "0000  00c8", padding, and the text column. *)
Example dump_example : take 33 (buffer_printer_to_string [0; 200]) =
  [66; 117; 102; 102; 101; 114; 91; 50; 47; 48; 120; 50; 32; 98; 121; 116; 101; 115; 93; 58;
   10; 48; 48; 48; 48; 32; 32; 48; 48; 99; 56; 32; 32].
Proof. reflexivity. Qed.

(** The text column holds printable ASCII and three symbols only: a dump cannot contain control
    characters of the buffer. *)
Theorem dump_text_printable (b : Z) :
  is_u8 b -> printable b = utf8_empty \/ printable b = utf8_dot \/ (printable b = [b] /\ 0x20 <= b <= 0x7e).
Proof.
  intros Hb. unfold is_u8 in Hb. unfold printable. set (c := swrap 8 b).
  assert (c = b \/ c = b - 256) as Hc.
  { unfold c, swrap. change (2 ^ (8 - 1)) with 128. change (2 ^ 8) with 256 in *.
    destruct (decide (b < 128)); [left; rewrite Z.mod_small; lia|right].
    rewrite <- (Z.mod_add _ (-1)) by lia. rewrite Z.mod_small; lia. }
  destruct (c =? 0); [by left|]. destruct ((c <? 0x20) || (0x7e <? c)) eqn:E; [by right; left|]. bools.
  right. right. destruct Hc as [->|Hc]; [split; [done|lia]|lia].
Qed.

Lemma dump_text_printable_witness :
  printable 65 = utf8_empty \/ printable 65 = utf8_dot \/ (printable 65 = [65] /\ 0x20 <= 65 <= 0x7e).
Proof. apply dump_text_printable. unfold is_u8. lia. Defined.

(** However often logging is configured, there is one sink, and the level is that of the first call. *)
Theorem logger_config_once (calls : list (list Z * log_type * Z)) :
  let l := fold_left (fun l c => logger_config c.1.1 c.1.2 c.2 l) calls (mkLogger false [] None) in
  sinks l = match calls with [] => [] | c :: _ => [(c.1.2, c.1.1)] end /\
  level l = snd <$> head calls.
Proof.
  destruct calls as [|c calls]; [done|]. cbn. set (l := mkLogger true _ _).
  assert (forall cs, fold_left (fun l c => logger_config c.1.1 c.1.2 c.2 l) cs l = l) as ->; [|done].
  induction cs as [|c' cs IH]; [done|]. exact IH.
Qed.

(** ** Messages of ngtcp2 *)

Lemma c_string_app l r : 0 ∉ l -> c_string (l ++ 0 :: r) = l.
Proof.
  induction l as [|c l IH]; [done|]. intros [Hc Hl]%not_elem_of_cons. cbn. rewrite (proj2 (Z.eqb_neq c 0)) by done. by rewrite IH.
Qed.

(** A message without NULs is logged, cut to 2047 characters. *)
Lemma log_printer_cuts (s : list Z) : 0 ∉ s -> log_printer (Some s) = Some (take 2047 s).
Proof.
  intros Hs. unfold log_printer, memmove. rewrite take_ge by done. f_equal. pose proof (length_take_le s 2047) as Hl.
  assert (length (take 2047 s) <= 2047)%nat as Hle by (rewrite length_take; lia).
  destruct (drop (length (take 2047 s)) (replicate 2048 0)) as [|z r] eqn:E.
  - apply (f_equal length) in E. rewrite length_drop, length_replicate in E. cbn in E. lia.
  - rewrite drop_replicate in E. destruct (2048 - length (take 2047 s))%nat; [done|]. cbn in E. injection E as <- _.
    apply c_string_app. intros Hin%elem_of_take. destruct Hin as (i & Hi & _). apply Hs. by eapply list_elem_of_lookup_2.
Qed.
