(* ===== verification/Gnutls.v ===== *)
(** * TLS credentials and sessions

    Models src/gnutls_crypto.cpp, include/quic/gnutls_crypto.hpp and include/quic/crypto.hpp:
    the [datum] that holds a key or certificate, the constructors and destructors of
    [GNUTLSCreds] and [GNUTLSSession], and the dispatch of the handshake hook.

    GnuTLS is a parameter: the result of each call, as a function of the call.  What the code
    does to it is the list of calls it makes, which is kept also when an exception ends the
    function. *)
From S2P Require Import Prelude Utils Text.

Inductive x509_fmt := FMT_DER | FMT_PEM.
#[export] Instance x509_fmt_eq_dec : EqDecision x509_fmt.
Proof. solve_decision. Defined.

(** The calls into GnuTLS and ngtcp2's crypto helpers. *)
Inductive tls_call :=
  | CAllocateCredentials                          (* gnutls_certificate_allocate_credentials *)
  | CSetTrustMem (f : x509_fmt)                   (* gnutls_certificate_set_x509_trust_mem *)
  | CSetTrustFile (path : list Z) (f : x509_fmt)  (* gnutls_certificate_set_x509_trust_file *)
  | CSetKeyMem (f : x509_fmt)                     (* gnutls_certificate_set_x509_key_mem *)
  | CSetKeyFile (cert key : list Z) (f : x509_fmt) (* gnutls_certificate_set_x509_key_file *)
  | CFreeCredentials                              (* gnutls_certificate_free_credentials *)
  | CInit (client : bool)                         (* gnutls_init *)
  | CSetDefaultPriority                           (* gnutls_set_default_priority *)
  | CConfigureClient                              (* ngtcp2_crypto_gnutls_configure_client_session *)
  | CConfigureServer                              (* ngtcp2_crypto_gnutls_configure_server_session *)
  | CSetPtr                                       (* gnutls_session_set_ptr *)
  | CSetCredentials                               (* gnutls_credentials_set *)
  | CSetServerName                                (* gnutls_server_name_set *)
  | CSetHook                                      (* gnutls_handshake_set_hook_function *)
  | CDeinit.                                      (* gnutls_deinit *)
#[export] Instance tls_call_eq_dec : EqDecision tls_call.
Proof. solve_decision. Defined.

(** A computation with the calls it made. *)
Definition tls : Type -> Type := traced tls_call.

(** ** The standard library's part *)

(** [std::string]s are lists of character codes.  [str_tolower] in the C locale. *)
Definition tolower (c : Z) : Z := if (65 <=? c) && (c <=? 90) then c + 32 else c.
Definition str_tolower (s : list Z) : list Z := map tolower s.

(** The part of [l] after its last [sep], if there is one. *)
Fixpoint after_last (sep : Z) (l : list Z) : option (list Z) :=
  match l with
  | [] => None
  | c :: l' => match after_last sep l' with
               | Some r => Some r
               | None => if c =? sep then Some l' else None
               end
  end.

(** [std::filesystem::path::extension]: from the last dot of the filename on, unless that dot is
    its first character or the filename is [..]. *)
Definition path_filename (p : list Z) : list Z := default p (after_last 47 p).
Definition path_extension (p : list Z) : list Z :=
  let f := path_filename p in
  match after_last 46 f with
  | None => []
  | Some e => if bool_decide (f = 46 :: e) || bool_decide (f = [46; 46]) then [] else 46 :: e
  end.

Definition dot_pem : list Z := [46; 112; 101; 109].
Definition five_dashes : list Z := [45; 45; 45; 45; 45].

Module Tls.
(** What [datum::mem.data] points to: nothing, or the characters of the constructor's parameter,
    which is gone when the constructor has returned. *)
Inductive mem_ptr := MNull | MDangling.

Record datum := mkDatum { d_path : list Z; d_data : mem_ptr; d_size : Z; d_format : x509_fmt; d_from_mem : bool }.
Definition datum_default : datum := mkDatum [] MNull 0 FMT_DER false.

(** [datum::operator=], also used by the copy constructor.  A copy of no bytes is taken to do
    nothing. *)
Definition datum_assign (d other : datum) : outcome datum :=
  if d_size other =? 0 then Ok (mkDatum (d_path other) (d_data d) (d_size other) (d_format other) (d_from_mem other))
  else Undefined.
Definition datum_copy (other : datum) : outcome datum := datum_assign datum_default other.

(** [datum::operator bool]. *)
Definition datum_bool (d : datum) : bool := negb (bool_decide (d_path d = [])) || negb (d_size d =? 0).

Section crypto.
(** [std::filesystem::exists]; what [path = NULL] comes to, a [std::string] made from a null
    pointer (undefined, and an exception in some libraries); the results of the calls. *)
Variable fs_exists : list Z -> bool.
Variable string_of_null : outcome (list Z).
Variable rv : tls_call -> Z.

(** [datum(std::string input)]. *)
Definition datum_new (input : list Z) : outcome datum :=
  if fs_exists input then
    Ok (mkDatum input MNull 0 (if bool_decide (str_tolower (path_extension input) = dot_pem) then FMT_PEM else FMT_DER) false)
  else
    let* path := string_of_null in
    Ok (mkDatum path MDangling (u8 (zlen input))
          (if bool_decide (take 5 input = five_dashes) then FMT_PEM else FMT_DER) true).

(** A call and its result; a call that is given a datum reads the memory it points to. *)
Definition tcall (c : tls_call) : tls Z := ([c], Ok (rv c)).
Definition check_call (c : tls_call) (e : exn) : tls unit :=
  let! r := tcall c in if r <? 0 then tlift (Throw e) else tret tt.
Definition read_datum (d : datum) : tls unit :=
  match d_data d with MDangling => tlift Undefined | MNull => tret tt end.

(** ** Credentials *)

(** [GNUTLSCreds::GNUTLSCreds]. *)
Definition GNUTLSCreds_new (local_key local_cert remote_cert ca_arg : list Z) : tls unit :=
  let! lkey := tlift (datum_new local_key) in
  let! lcert := tlift (datum_new local_cert) in
  let! rcert := tlift (if bool_decide (remote_cert = []) then Ok datum_default
                       else let* d := datum_new remote_cert in datum_assign datum_default d) in
  let! ca := tlift (let ca := datum_default in
                    if bool_decide (ca_arg = []) then Ok ca
                    else let* d := datum_copy ca in datum_assign ca d) in
  let! _ := check_call CAllocateCredentials runtime_error in
  let! _ :=
    if datum_bool ca then
      if d_from_mem ca then
        let! _ := read_datum ca in check_call (CSetTrustMem (d_format ca)) invalid_argument
      else check_call (CSetTrustFile (d_path ca) (d_format ca)) invalid_argument
    else tret tt in
  if d_from_mem lcert then
    let! _ := read_datum lcert in
    let! _ := read_datum lkey in
    check_call (CSetKeyMem (d_format lkey)) invalid_argument
  else check_call (CSetKeyFile (d_path lcert) (d_path lkey) (d_format lkey)) invalid_argument.

Definition GNUTLSCreds_make (remote_key remote_cert local_cert ca : list Z) : tls unit :=
  GNUTLSCreds_new remote_key remote_cert local_cert ca.

(** [GNUTLSCreds::~GNUTLSCreds]. *)
Definition GNUTLSCreds_destroy : tls unit := tdo CFreeCredentials.

(** ** Sessions *)

(** [GNUTLSSession::set_tls_hook_functions] and the constructor. *)
Definition set_tls_hook_functions : tls unit := tdo CSetHook.
Definition GNUTLSSession_new (is_client : bool) : tls unit :=
  let! _ := check_call (CInit is_client) runtime_error in
  let! _ := check_call CSetDefaultPriority runtime_error in
  let! _ := check_call (if is_client then CConfigureClient else CConfigureServer) runtime_error in
  let! _ := tdo CSetPtr in
  let! _ := check_call CSetCredentials runtime_error in
  let! _ := if is_client then check_call CSetServerName runtime_error else tret tt in
  set_tls_hook_functions.

(** [GNUTLSSession::~GNUTLSSession]. *)
Definition GNUTLSSession_destroy : tls unit := tdo CDeinit.

(** [GNUTLSCreds::make_session]. *)
Definition make_session (is_client : bool) : tls unit := GNUTLSSession_new is_client.
End crypto.

(** ** The handshake hook *)

(** The arguments of the hook, and the two policies of the credentials. *)
Record hook_args := mkHook { h_htype : Z; h_when : Z; h_incoming : Z; h_msg : list Z }.
Record policies := mkPolicies { client_tls_policy : option (hook_args -> Z); server_tls_policy : option (hook_args -> Z) }.

(** [GNUTLSSession::do_tls_callback], and [gnutls_callback_wrapper], for the session of the
    connection the GnuTLS session points to. *)
Definition do_tls_callback (is_client : bool) (p : policies) (a : hook_args) : Z :=
  match is_client, client_tls_policy p, server_tls_policy p with
  | true, Some f, _ => f a
  | false, _, Some f => f a
  | _, _, _ => 0
  end.
Definition gnutls_callback_wrapper (tls_session : option (bool * policies)) (a : hook_args) : outcome Z :=
  match tls_session with
  | None => AssertFail
  | Some (is_client, p) => Ok (do_tls_callback is_client p a)
  end.
End Tls.
Export Tls.

(** ** Credentials *)

(** The certificate authority's datum stays the default one: the constructor copies it from itself. *)
Lemma ca_stays_default (ca_arg : list Z) :
  (let ca := datum_default in
   if bool_decide (ca_arg = []) then Ok ca else let* d := datum_copy ca in datum_assign ca d) = Ok datum_default.
Proof. cbn zeta. by case_bool_decide. Qed.

Section creds.
Variable fs_exists : list Z -> bool.
Variable string_of_null : outcome (list Z).
Variable rv : tls_call -> Z.

Lemma datum_new_file p :
  fs_exists p = true -> exists f, datum_new fs_exists string_of_null p = Ok (mkDatum p MNull 0 f false) /\
    f = if bool_decide (str_tolower (path_extension p) = dot_pem) then FMT_PEM else FMT_DER.
Proof. intros H. unfold datum_new. rewrite H. eauto. Qed.

Lemma datum_new_mem p d : fs_exists p = false -> datum_new fs_exists string_of_null p = Ok d ->
  d_from_mem d = true /\ d_data d = MDangling /\ d_size d = u8 (zlen p).
Proof. intros H. unfold datum_new. rewrite H. destruct string_of_null; by intros [= <-]. Qed.

(** Credentials from files: the constructor allocates, hands GnuTLS the certificate and key
    files with the format of the key's extension, and reports each failure by its exception;
    no other call is made, whatever certificate authority was asked for, and when the key is
    refused the allocated credentials are not freed. *)
Theorem creds_from_files (key cert remote ca : list Z) :
  fs_exists key = true -> fs_exists cert = true -> (remote = [] \/ fs_exists remote = true) ->
  let f := if bool_decide (str_tolower (path_extension key) = dot_pem) then FMT_PEM else FMT_DER in
  GNUTLSCreds_make fs_exists string_of_null rv key cert remote ca =
    if rv CAllocateCredentials <? 0 then ([CAllocateCredentials], Throw runtime_error)
    else if rv (CSetKeyFile cert key f) <? 0
         then ([CAllocateCredentials; CSetKeyFile cert key f], Throw invalid_argument)
         else ([CAllocateCredentials; CSetKeyFile cert key f], Ok tt).
Proof.
  intros Hk Hc Hr f. unfold GNUTLSCreds_make, GNUTLSCreds_new. rewrite ca_stays_default.
  destruct (datum_new_file key Hk) as (fk & -> & Hfk). fold f in Hfk. subst fk.
  destruct (datum_new_file cert Hc) as (fc & -> & _). rewrite !tbind_lift.
  assert (exists d, (if bool_decide (remote = []) then Ok datum_default
    else let* d := datum_new fs_exists string_of_null remote in datum_assign datum_default d) = Ok d) as (d & ->).
  { case_bool_decide; [by eexists|]. destruct Hr as [|Hr]; [done|]. destruct (datum_new_file remote Hr) as (fr & -> & _). by eexists. }
  rewrite !tbind_lift. cbn. unfold check_call, tcall, tbind. cbn.
  destruct (rv CAllocateCredentials <? 0); cbn; [done|]. by destruct (rv (CSetKeyFile cert key f) <? 0).
Qed.

(** A certificate that is not an existing file never makes credentials, although the constructor
    is meant to take it from memory: the path of the datum is assigned a null pointer, and
    otherwise GnuTLS is given a pointer into the constructor's parameter, which is gone. *)
Theorem creds_from_memory_fail (key cert remote ca : list Z) :
  fs_exists cert = false -> (GNUTLSCreds_make fs_exists string_of_null rv key cert remote ca).2 <> Ok tt.
Proof.
  intros Hc Hok. unfold GNUTLSCreds_make, GNUTLSCreds_new in Hok.
  apply tbind_ok in Hok as (lkey & _ & (lcert & Hl & (rcert & _ & (dca & _ & (u1 & _ & (u2 & _ & Hok)%tbind_ok)%tbind_ok)%tbind_ok)%tbind_ok)%tbind_ok).
  destruct (datum_new_mem _ _ Hc Hl) as (Hm & Hd & _). rewrite Hm in Hok. unfold read_datum in Hok. by rewrite Hd in Hok.
Qed.
End creds.

Lemma creds_from_files_witness :
  let pem := [107; 46; 80; 69; 77] in  (* k.PEM *)
  GNUTLSCreds_make (fun _ => true) (Throw logic_error) (fun _ => 0) pem pem [] [99; 97] =
    ([CAllocateCredentials; CSetKeyFile pem pem FMT_PEM], Ok tt).
Proof. intros pem. apply (creds_from_files (fun _ => true) (Throw logic_error) (fun _ => 0) pem pem [] [99; 97]); auto. Defined.

Lemma creds_from_memory_fail_witness :
  (GNUTLSCreds_make (fun _ => false) (Ok []) (fun _ => 0) five_dashes five_dashes [] []).2 <> Ok tt.
Proof. apply creds_from_memory_fail. reflexivity. Defined.

(** ** Sessions *)

(** The calls a session makes, and those whose failure ends it. *)
Definition session_plan (is_client : bool) : list tls_call :=
  [CInit is_client; CSetDefaultPriority; (if is_client then CConfigureClient else CConfigureServer); CSetPtr; CSetCredentials]
  ++ (if is_client then [CSetServerName] else []) ++ [CSetHook].
Definition session_fails (rv : tls_call -> Z) (c : tls_call) : option exn :=
  match c with
  | CSetPtr | CSetHook => None
  | _ => if rv c <? 0 then Some runtime_error else None
  end.

(** Making a session is the sequence of calls [session_plan], client and server variants
    included: each checked call that fails ends it with an exception, and the hook and the
    pointer to the connection are in place before any handshake. *)
Lemma session_runs_plan (rv : tls_call -> Z) (is_client : bool) :
  make_session rv is_client = run_calls (session_fails rv) (session_plan is_client).
Proof.
  unfold make_session, GNUTLSSession_new, session_plan, set_tls_hook_functions.
  destruct is_client; unfold check_call, tcall, tbind, run_calls; cbn;
    repeat match goal with |- context [rv ?c <? 0] => destruct (rv c <? 0); cbn end; done.
Qed.

(** Sessions GnuTLS holds after a list of calls. *)
Fixpoint open_sessions (rv : tls_call -> Z) (t : list tls_call) : Z :=
  match t with
  | [] => 0
  | CInit c :: t' => (if rv (CInit c) <? 0 then 0 else 1) + open_sessions rv t'
  | CDeinit :: t' => open_sessions rv t' - 1
  | _ :: t' => open_sessions rv t'
  end.

Lemma open_sessions_app rv a b : open_sessions rv (a ++ b) = open_sessions rv a + open_sessions rv b.
Proof. induction a as [|c a IH]; cbn; [done|]. destruct c; lia. Qed.

Lemma session_trace rv is_client :
  let '(t, r) := make_session rv is_client in
  (r = Ok tt \/ r = Throw runtime_error) /\
  (r = Ok tt -> 0 <= rv (CInit is_client)) /\
  open_sessions rv t = if rv (CInit is_client) <? 0 then 0 else 1.
Proof.
  unfold make_session, GNUTLSSession_new, set_tls_hook_functions.
  destruct is_client; unfold check_call, tcall, tbind; cbn;
    (destruct (rv (CInit _) <? 0) eqn:E; cbn; [rewrite E; split_and!; auto; done|]); bools;
    repeat match goal with |- context [rv ?c <? 0] => destruct (rv c <? 0) eqn:?; bools; cbn end;
    split_and!; auto; (done || lia).
Qed.

(** The life of a session: one that was made is released by its destructor, once; but when a
    call after [gnutls_init] fails, the constructor throws, no destructor runs, and the session
    stays allocated for good. *)
Theorem session_released_or_leaked (rv : tls_call -> Z) (is_client : bool) :
  let '(t, r) := make_session rv is_client in
  (r = Ok tt -> open_sessions rv t = 1 /\ open_sessions rv (t ++ GNUTLSSession_destroy.1) = 0) /\
  (r <> Ok tt -> r = Throw runtime_error /\ open_sessions rv t = if rv (CInit is_client) <? 0 then 0 else 1).
Proof.
  pose proof (session_trace rv is_client) as Ht. destruct (make_session rv is_client) as [t r].
  destruct Ht as (Hr & Hok & Ho). split.
  - intros E. specialize (Hok E). rewrite open_sessions_app, Ho, (proj2 (Z.ltb_ge _ _)) by done. by cbn.
  - intros E. destruct Hr as [|Hr]; [done|]. done.
Qed.

(** ** The handshake hook *)

(** The hook asks the policy of its own side, and lets the handshake pass when there is none. *)
Theorem hook_uses_own_policy (is_client : bool) (p : policies) (a : hook_args) :
  gnutls_callback_wrapper (Some (is_client, p)) a =
    Ok (default 0 ((fun f => f a) <$> (if is_client then client_tls_policy p else server_tls_policy p))).
Proof. destruct is_client, p as [[] []]; done. Qed.
