(* ===== verification/Stream.v ===== *)
(** * Streams

    Models include/quic/stream.hpp and src/stream.cpp: the send buffer of a stream (queued,
    in flight, acknowledged), its close protocol, and [send_chunks].

    Callbacks supplied by the user are named by numbers; running one is an [effect], as are the
    calls into ngtcp2 and libevent.  [net.call] runs its argument at once on the event loop
    thread, which is the only thread the definitions below describe (Network.v models the
    hand-over from other threads). *)
From S2P Require Import Prelude Utils.

(** ** Effects of the operations on the world outside the stream *)
Inductive close_cb := DefaultCloseCb | UserCloseCb (id : nat).

Inductive effect :=
  | EIoReady                                    (* Connection::io_ready *)
  | EShutdownStream (sid code : Z)              (* ngtcp2_conn_shutdown_stream *)
  | ECloseCb (cb : close_cb) (sid code : Z)     (* stream close callback *)
  | EDataCb (cb : nat) (sid : Z) (bs : list Z)  (* stream data callback *)
  | EOpenCb (sid : Z)                           (* stream open callback *)
  | EExtendStreamOffset (sid n : Z)             (* ngtcp2_conn_extend_max_stream_offset *)
  | EExtendOffset (n : Z)                       (* ngtcp2_conn_extend_max_offset *)
  | EExtendStreams (n : Z)                      (* ngtcp2_conn_extend_max_streams_bidi *)
  | ENextChunk (sender : nat) (bs : list Z)     (* next_chunk callback of send_chunks, its result *)
  | EDone (sender : nat).                       (* done callback of send_chunks *)

Module Strm.
(** What a buffer's [std::shared_ptr<void>] keeps alive: nothing, some object of the user's, or
    a chunk of the numbered chunk sender. *)
Inductive keep_alive := KNone | KUser (id : nat) | KChunk (sender : nat).
#[export] Instance keep_alive_eq_dec : EqDecision keep_alive.
Proof. solve_decision. Defined.

Record Stream := mkStream {
  stream_id : Z;
  data_callback : option nat;
  close_callback : option close_cb;
  user_buffers : list (list Z * keep_alive);
  unacked_size : Z;
  is_closing : bool;
  is_shutdown : bool;
  sent_fin : bool;
  ready : bool;
}.

(** [Stream::Stream]: a missing close callback is replaced by one that logs. *)
Definition Stream_new (data_cb : option nat) (cb : option close_cb) (id : Z) : Stream :=
  mkStream id data_cb (Some (default DefaultCloseCb cb)) [] 0 false false false false.

(** Field updates. *)
Definition with_buffers (s : Stream) b :=
  mkStream (stream_id s) (data_callback s) (close_callback s) b (unacked_size s)
    (is_closing s) (is_shutdown s) (sent_fin s) (ready s).
Definition with_unacked (s : Stream) u :=
  mkStream (stream_id s) (data_callback s) (close_callback s) (user_buffers s) u
    (is_closing s) (is_shutdown s) (sent_fin s) (ready s).
Definition with_shut (s : Stream) c sh :=
  mkStream (stream_id s) (data_callback s) (close_callback s) (user_buffers s) (unacked_size s)
    c sh (sent_fin s) (ready s).
Definition with_data_cb (s : Stream) cb :=
  mkStream (stream_id s) cb (close_callback s) (user_buffers s) (unacked_size s)
    (is_closing s) (is_shutdown s) (sent_fin s) (ready s).
Definition with_fin (s : Stream) f :=
  mkStream (stream_id s) (data_callback s) (close_callback s) (user_buffers s) (unacked_size s)
    (is_closing s) (is_shutdown s) f (ready s).
Definition with_ready (s : Stream) r :=
  mkStream (stream_id s) (data_callback s) (close_callback s) (user_buffers s) (unacked_size s)
    (is_closing s) (is_shutdown s) (sent_fin s) r.
Definition with_id (s : Stream) id :=
  mkStream id (data_callback s) (close_callback s) (user_buffers s) (unacked_size s)
    (is_closing s) (is_shutdown s) (sent_fin s) (ready s).

Definition set_ready (s : Stream) : Stream := with_ready s true.
Definition set_not_ready (s : Stream) : Stream := with_ready s false.

Definition available (s : Stream) : bool := negb (is_closing s || is_shutdown s || sent_fin s).

(** [Stream::size]: the accumulation is in [size_t]. *)
Definition Stream_size (s : Stream) : Z :=
  fold_left (fun sum b => u64 (sum + zlen b.1)) (user_buffers s) 0.
Definition unacked (s : Stream) : Z := unacked_size s.
Definition unsent (s : Stream) : Z := u64 (Stream_size s - unacked s).

(** [Stream::append_buffer]; [Stream::send] runs it on the event loop. *)
Definition append_buffer (s : Stream) (buffer : list Z) (ka : keep_alive) : Stream * list effect :=
  let s' := with_buffers s (user_buffers s ++ [(buffer, ka)]) in
  (s', if ready s then [EIoReady] else []).
Definition Stream_send (s : Stream) (data : list Z) (ka : keep_alive) : Stream * list effect :=
  append_buffer s data ka.

(** The overloads of [Stream::send]: a view of other characters is reinterpreted; a string is moved
    into a shared object first, and the view is of that object; for a vector both arguments of the
    inner call look at the parameter, and C++ leaves open whether the view is taken before the
    vector is moved from, after which it is empty.  [u] names the shared object. *)
Definition Stream_send_view (s : Stream) (data : list Z) (ka : keep_alive) : Stream * list effect :=
  Stream_send s data ka.
Definition Stream_send_string (s : Stream) (data : list Z) (u : nat) : Stream * list effect :=
  let kept := data in Stream_send_view s kept (KUser u).
Definition Stream_send_vector (view_first : bool) (s : Stream) (buf : list Z) (u : nat) : Stream * list effect :=
  let view := if view_first then buf else [] in Stream_send_view s view (KUser u).

Definition Stream_wrote (s : Stream) (bytes : Z) : Stream :=
  with_unacked s (u64 (unacked_size s + bytes)).

(** [get_buffer_it]: the suffix of the deque from the iterator on, and the offset left.  The
    loop condition reads [it->first] before it compares [it] with [end()]. *)
Fixpoint get_buffer_it (bufs : list (list Z * keep_alive)) (offset : Z) :
    outcome (list (list Z * keep_alive) * Z) :=
  match bufs with
  | [] => Undefined
  | b :: rest =>
      if (zlen b.1 <=? offset) && negb (offset =? 0) then get_buffer_it rest (offset - zlen b.1)
      else Ok (bufs, offset)
  end.

(** [Stream::pending]: the ngtcp2_vecs handed to ngtcp2, each as the bytes it covers. *)
Definition pending (s : Stream) : outcome (list (list Z)) :=
  if bool_decide (user_buffers s = []) || (unsent s =? 0) then Ok []
  else
    let* (it, offset) := get_buffer_it (user_buffers s) (unacked_size s) in
    match it with
    | [] => Undefined
    | b :: rest => Ok (zdrop offset b.1 :: map fst rest)
    end.

(** [Stream::close], as run on the event loop. *)
Definition Stream_close (s : Stream) (code : Z) : Stream * list effect :=
  let '(s1, e1) :=
    if is_shutdown s then (s, [])
    else if is_closing s then (s, [])
    else (with_shut s true true, [EShutdownStream (stream_id s) code]) in
  let s2 := if is_shutdown s1 then with_data_cb s1 None else s1 in
  (s2, e1 ++ [EIoReady]).

(** Invoking the close callback, as [Connection::stream_closed] and the destructor do. *)
Definition call_close_cb (s : Stream) (was_closing : bool) (code : Z) : list effect :=
  match close_callback s with
  | Some cb => if was_closing then [] else [ECloseCb cb (stream_id s) code]
  | None => []
  end.

(** The part of [Connection::stream_closed] that works on the stream. *)
Definition Stream_on_closed (s : Stream) (app_code : Z) : Stream * list effect :=
  (with_shut s true true, call_close_cb (with_shut s true true) (is_closing s) app_code).

(** [Stream::~Stream]. *)
Definition Stream_destroy (s : Stream) : list effect :=
  call_close_cb (with_shut s true true) (is_closing s) STREAM_ERROR_CONNECTION_EXPIRED.
End Strm.
Export Strm.

(** ** Chunk senders *)
Module Chunks.
(** [chunk_sender]: the callback, as what its n-th call returns (an empty container or a null
    pointer is []), how often it was called, and whether there is a done callback. *)
Record chunk_sender := mkSender {
  next_chunk : option (nat -> list Z);
  calls : nat;
  has_done : bool;
}.

Record chunk_state := mkCS { cs_stream : Stream; cs_senders : list chunk_sender }.

(** [chunk_sender::queue_next_chunk] for the [k]-th sender. *)
Definition queue_next_chunk (k : nat) (st : chunk_state) : chunk_state * list effect :=
  match cs_senders st !! k with
  | None => (st, [])
  | Some cs =>
      match next_chunk cs with
      | None => (st, [])
      | Some f =>
          let data := f (calls cs) in
          if bool_decide (data = []) then
            (mkCS (cs_stream st) (<[k := mkSender None (S (calls cs)) (has_done cs)]> (cs_senders st)),
             ENextChunk k data :: if has_done cs then [EDone k] else [])
          else
            let '(s', e) := Stream_send (cs_stream st) data (KChunk k) in
            (mkCS s' (<[k := mkSender (Some f) (S (calls cs)) (has_done cs)]> (cs_senders st)),
             ENextChunk k data :: e)
      end
  end.

(** The loop of [chunk_sender::make]. *)
Fixpoint queue_initial (n : nat) (k : nat) (st : chunk_state) : chunk_state * list effect :=
  match n with
  | O => (st, [])
  | S n' =>
      let '(st1, e1) := queue_next_chunk k st in
      let '(st2, e2) := queue_initial n' k st1 in
      (st2, e1 ++ e2)
  end.

(** [Stream::send_chunks]. *)
Definition send_chunks (f : nat -> list Z) (done : bool) (simultaneous : Z) (st : chunk_state) :
    outcome (chunk_state * list effect) :=
  if simultaneous <? 1 then Throw logic_error
  else
    let k := length (cs_senders st) in
    Ok (queue_initial (Z.to_nat simultaneous) k
          (mkCS (cs_stream st) (cs_senders st ++ [mkSender (Some f) 0 done]))).

(** Dropping the front buffer: its keep-alive is released after the element is gone from the
    deque's view of its contents, and the destructor of a chunk queues the next one. *)
Definition pop_front (st : chunk_state) : chunk_state * list effect :=
  match user_buffers (cs_stream st) with
  | [] => (st, [])
  | (_, ka) :: rest =>
      let st' := mkCS (with_buffers (cs_stream st) rest) (cs_senders st) in
      match ka with
      | KChunk k => queue_next_chunk k st'
      | _ => (st', [])
      end
  end.

(** The loop of [Stream::acknowledge].  [stale] is the size read through [front()] of an empty
    deque, which the condition evaluates before it looks at [bytes]; the flag in the result says
    that this read happened. *)
Fixpoint ack_loop (stale : Z) (fuel : nat) (bytes : Z) (st : chunk_state) :
    outcome (Z * chunk_state * list effect * bool) :=
  match user_buffers (cs_stream st) with
  | [] =>
      if (stale <=? bytes) && negb (bytes =? 0) then Undefined
      else Ok (bytes, st, [], true)
  | (front, _) :: _ =>
      if (zlen front <=? bytes) && negb (bytes =? 0) then
        match fuel with
        | O => OutOfFuel
        | S fuel' =>
            let '(st1, e1) := pop_front st in
            let* (b, st2, e2, ub) := ack_loop stale fuel' (bytes - zlen front) st1 in
            Ok (b, st2, e1 ++ e2, ub)
        end
      else Ok (bytes, st, [], false)
  end.

(** [Stream::acknowledge]. *)
Definition acknowledge (stale : Z) (fuel : nat) (bytes : Z) (st : chunk_state) :
    outcome (chunk_state * list effect * bool) :=
  let s := cs_stream st in
  assert_then (bytes <=? unacked_size s)
    (let s1 := with_unacked s (u64 (unacked_size s - bytes)) in
     let* (b, st2, e, ub) := ack_loop stale fuel bytes (mkCS s1 (cs_senders st)) in
     if b =? 0 then Ok (st2, e, ub)
     else
       match user_buffers (cs_stream st2) with
       | [] => Undefined
       | (front, ka) :: rest =>
           Ok (mkCS (with_buffers (cs_stream st2) ((zdrop b front, ka) :: rest)) (cs_senders st2), e, ub)
       end).

(** The number of iterations [ack_loop] can need: one per acknowledged byte and per queued
    buffer (which may be empty). *)
Definition ack_fuel (bytes : Z) (st : chunk_state) : nat :=
  Z.to_nat bytes + length (user_buffers (cs_stream st)).

(** Destroying the members of a stream, of which [user_buffers] matters: it releases the keep-alives of the
    buffers left.  The destructor of a chunk asks its sender for the next one, also here, and sends that on the
    stream, that is, it adds to the deque that is being destroyed. *)
Fixpoint drop_buffers (bufs : list (list Z * keep_alive)) (senders : list chunk_sender) : outcome (list effect) :=
  match bufs with
  | [] => Ok []
  | (_, KChunk k) :: rest =>
      match senders !! k with
      | Some (mkSender (Some f) n d) =>
          if bool_decide (f n = []) then
            let* e := drop_buffers rest (<[k := mkSender None (S n) d]> senders) in
            Ok ((ENextChunk k [] :: if d then [EDone k] else []) ++ e)
          else Undefined
      | _ => drop_buffers rest senders
      end
  | _ :: rest => drop_buffers rest senders
  end.

(** A [shared_ptr] to a stream goes away: if it was the [last] one, [Stream::~Stream] runs and then the
    members are destroyed. *)
Definition Stream_release (last : bool) (st : chunk_state) : outcome (list effect) :=
  if last then
    let* e := drop_buffers (user_buffers (cs_stream st)) (cs_senders st) in
    Ok (Stream_destroy (cs_stream st) ++ e)
  else Ok [].
End Chunks.
Export Chunks.

(** ** The byte sequence a stream holds *)

(** The bytes queued and not yet acknowledged, in order. *)
Definition content (s : Stream) : list Z := concat (map fst (user_buffers s)).

(** The state invariant: what is in flight is a prefix of what is queued, and the two closing
    flags agree. *)
Definition Stream_inv (s : Stream) : Prop :=
  0 <= unacked_size s <= zlen (content s) /\ unacked_size s < 2 ^ 64 /\ is_closing s = is_shutdown s.

Create HintDb stream.

Lemma content_app s b : content (with_buffers s (user_buffers s ++ b)) = content s ++ concat (map fst b).
Proof. unfold content. simpl. by rewrite map_app, concat_app. Qed.

(** What the overloads of [send] queue.  A vector is queued only if the compiler takes the view of it
    before it moves it; otherwise nothing of it is sent. *)
Lemma send_overloads_content s data u ka view_first :
  content (Stream_send_view s data ka).1 = content s ++ data /\
  content (Stream_send_string s data u).1 = content s ++ data /\
  content (Stream_send_vector view_first s data u).1 = content s ++ (if view_first then data else []).
Proof.
  unfold Stream_send_vector, Stream_send_string, Stream_send_view, Stream_send, append_buffer. cbn [fst].
  rewrite !content_app. cbn. by rewrite !app_nil_r.
Qed.

Lemma size_fold (bufs : list (list Z * keep_alive)) acc :
  fold_left (fun sum b => u64 (sum + zlen b.1)) bufs acc =
  match bufs with [] => acc | _ => u64 (acc + zlen (concat (map fst bufs))) end.
Proof.
  revert acc. induction bufs as [|b bufs IH]; intros acc; [done|].
  cbn [fold_left map concat]. rewrite IH, zlen_app. destruct bufs as [|c bufs].
  - simpl. f_equal. change (zlen (@nil Z)) with 0. lia.
  - rewrite Z.add_comm, u64_add_u64. f_equal. lia.
Qed.

Lemma Stream_size_content s : Stream_size s = u64 (zlen (content s)).
Proof. unfold Stream_size. rewrite size_fold. unfold content. by destruct (user_buffers s). Qed.

Lemma unsent_content s :
  Stream_inv s -> zlen (content s) < 2 ^ 64 -> unsent s = zlen (content s) - unacked_size s.
Proof.
  intros (Hu & _ & _) Ht. pose proof (zlen_nonneg (content s)).
  unfold unsent, unacked. rewrite Stream_size_content, (u64_small (zlen _)) by (unfold is_u64; lia).
  apply u64_sub; lia.
Qed.

(** [get_buffer_it] stops inside the deque when the offset is smaller than the total size. *)
Lemma get_buffer_it_spec bufs offset :
  0 <= offset < zlen (concat (map fst bufs)) ->
  exists b rest off, get_buffer_it bufs offset = Ok (b :: rest, off) /\
    0 <= off <= zlen b.1 /\ (off < zlen b.1 \/ off = 0) /\
    zdrop off b.1 ++ concat (map fst rest) = zdrop offset (concat (map fst bufs)).
Proof.
  revert offset. induction bufs as [|b bufs IH]; intros offset; simpl.
  { change (zlen (@nil Z)) with 0. lia. }
  rewrite zlen_app. intros H. pose proof (zlen_nonneg b.1).
  destruct ((zlen b.1 <=? offset) && negb (offset =? 0)) eqn:E; bools.
  - destruct (IH (offset - zlen b.1)) as (b' & rest & off & -> & Hb & Hd & Heq); [lia|].
    do 3 eexists. split_and!; [done|lia..|done|]. by rewrite Heq, zdrop_app_ge.
  - exists b, bufs, offset. apply andb_false_iff in E.
    assert (offset = 0 \/ offset < zlen b.1) by (destruct E; bools; lia).
    split_and!; [done|lia..| |].
    + lia.
    + rewrite zdrop_app_le by lia. done.
Qed.

Lemma pending_content s :
  Stream_inv s -> zlen (content s) < 2 ^ 64 ->
  exists vs, pending s = Ok vs /\ concat vs = zdrop (unacked_size s) (content s) /\
    (vs = [] <-> unsent s = 0).
Proof.
  intros Hinv Ht. pose proof (unsent_content s Hinv Ht) as Hun. destruct Hinv as (Hu & _ & _).
  unfold pending.
  destruct (bool_decide (user_buffers s = []) || (unsent s =? 0)) eqn:E.
  - assert (zlen (content s) = unacked_size s) as Heq.
    { apply orb_true_iff in E as [E|E]; [|bools; lia].
      apply bool_decide_eq_true in E. revert Hu. unfold content. rewrite E. simpl.
      change (zlen (@nil Z)) with 0. lia. }
    exists []. split_and!; [done| |split; [lia|done]].
    symmetry. unfold zdrop, zlen in *. apply nil_length_inv. rewrite length_drop. lia.
  - bools. destruct (get_buffer_it_spec (user_buffers s) (unacked_size s)) as (b & rest & off & -> & Hb & Hd & Heq).
    { fold (content s). lia. }
    cbn -[zdrop]. eexists. split_and!; [done|exact Heq|]. split; [done|lia].
Qed.

(** What [pending] hands to ngtcp2 is exactly the queued bytes that were not written yet, in
    order, and it is empty just when nothing is unsent; no out-of-range buffer is touched. *)
Theorem pending_is_unsent_suffix (s : Stream) :
  Stream_inv s -> zlen (content s) < 2 ^ 64 ->
  exists vs, pending s = Ok vs /\
    content s = ztake (unacked_size s) (content s) ++ concat vs /\
    zlen (concat vs) = unsent s /\ (vs = [] <-> unsent s = 0).
Proof.
  intros Hinv Ht. destruct (pending_content s Hinv Ht) as (vs & Hp & Hc & He).
  exists vs. split_and!; [done| | |done].
  - by rewrite Hc, ztake_zdrop.
  - rewrite Hc, unsent_content, zlen_zdrop by (destruct Hinv; done || lia). done.
Qed.

Definition example_stream : Stream :=
  mkStream 4 (Some 0%nat) (Some DefaultCloseCb)
    [([1;2;3], KNone); ([], KUser 1); ([4;5], KChunk 0); ([6], KChunk 0)] 4 false false false true.

Lemma pending_is_unsent_suffix_witness :
  exists vs, pending example_stream = Ok vs /\
    content example_stream = ztake 4 (content example_stream) ++ concat vs /\
    zlen (concat vs) = unsent example_stream /\ (vs = [] <-> unsent example_stream = 0).
Proof.
  apply (pending_is_unsent_suffix example_stream); [|vm_compute; reflexivity].
  split_and!; vm_compute; congruence.
Defined.

(** ** Acknowledgement *)

(** The bytes the chunk callbacks produced during an operation. *)
Fixpoint chunk_bytes (es : list effect) : list Z :=
  match es with
  | [] => []
  | ENextChunk _ bs :: es' => bs ++ chunk_bytes es'
  | _ :: es' => chunk_bytes es'
  end.

Lemma chunk_bytes_app a b : chunk_bytes (a ++ b) = chunk_bytes a ++ chunk_bytes b.
Proof. induction a as [|[] a IH]; simpl; rewrite ?IH, ?app_assoc; done. Qed.

Definition empties (bufs : list (list Z * keep_alive)) : nat :=
  length (filter (fun b => b.1 = []) bufs).

(** The number of buffers of the [k]-th sender that are queued or in flight. *)
Definition inflight (k : nat) (s : Stream) : nat :=
  length (filter (fun b => b.2 = KChunk k) (user_buffers s)).

Lemma inflight_app k s b :
  inflight k (with_buffers s (user_buffers s ++ b)) =
  (inflight k s + length (filter (fun b => b.2 = KChunk k) b))%nat.
Proof. unfold inflight. simpl. by rewrite filter_app, length_app. Qed.

(** What queueing the next chunk does: it appends the bytes the callback gave, as at most one
    non-empty buffer that belongs to this sender. *)
Lemma queue_next_chunk_spec k st :
  let '(st', e) := queue_next_chunk k st in
  exists new, cs_stream st' = with_buffers (cs_stream st) (user_buffers (cs_stream st) ++ new) /\
    length (cs_senders st') = length (cs_senders st) /\
    concat (map fst new) = chunk_bytes e /\
    (new = [] \/ exists bs, bs <> [] /\ new = [(bs, KChunk k)]).
Proof.
  assert (forall s, s = with_buffers s (user_buffers s ++ [])) as Hid
    by (intros []; unfold with_buffers; simpl; by rewrite app_nil_r).
  unfold queue_next_chunk.
  destruct (cs_senders st !! k) as [cs|]; [|exists []; split_and!; auto].
  destruct (next_chunk cs) as [f|]; [|exists []; split_and!; auto].
  destruct (bool_decide (f (calls cs) = [])) eqn:E.
  - exists []. cbn [cs_senders cs_stream]. rewrite length_insert. apply bool_decide_eq_true in E. rewrite E.
    split_and!; auto. by destruct (has_done cs).
  - apply bool_decide_eq_false in E. simpl. exists [(f (calls cs), KChunk k)].
    cbn [cs_senders cs_stream]. rewrite length_insert. split_and!; eauto.
    simpl. by destruct (ready (cs_stream st)).
Qed.

Lemma pop_front_spec b ka rest st :
  user_buffers (cs_stream st) = (b, ka) :: rest ->
  let '(st', e) := pop_front st in
  exists new, cs_stream st' = with_buffers (cs_stream st) (rest ++ new) /\
    length (cs_senders st') = length (cs_senders st) /\
    concat (map fst new) = chunk_bytes e /\ empties new = O /\
    forall k, (length (filter (fun b => b.2 = KChunk k) (rest ++ new)) <= inflight k (cs_stream st))%nat.
Proof.
  intros Hb. unfold pop_front. rewrite Hb.
  assert (forall k, inflight k (cs_stream st) =
            ((if decide (ka = KChunk k) then 1 else 0)
             + length (filter (fun b => b.2 = KChunk k) rest))%nat) as Hin.
  { intros k. unfold inflight. rewrite Hb, filter_cons. simpl. by case_decide. }
  assert (forall st' : chunk_state, st' = mkCS (with_buffers (cs_stream st) rest) (cs_senders st) ->
    exists new, cs_stream st' = with_buffers (cs_stream st) (rest ++ new) /\
      length (cs_senders st') = length (cs_senders st) /\
      concat (map fst new) = chunk_bytes [] /\ empties new = O /\
      forall k, (length (filter (fun b => b.2 = KChunk k) (rest ++ new)) <= inflight k (cs_stream st))%nat)
    as Hplain.
  { intros ? ->. exists []. rewrite app_nil_r. split_and!; try done.
    intros k. rewrite Hin. lia. }
  destruct ka as [|u|k]; [by apply Hplain..|]. clear Hplain.
  pose proof (queue_next_chunk_spec k (mkCS (with_buffers (cs_stream st) rest) (cs_senders st))) as Hq.
  destruct (queue_next_chunk k _) as [st' e].
  destruct Hq as (new & Hs & Hl & Hc & Hn). exists new. split_and!; [done..| |].
  - destruct Hn as [->|(bs & Hne & ->)]; [done|]. unfold empties. rewrite filter_cons. by case_decide.
  - intros k'. rewrite Hin, filter_app, length_app.
    destruct Hn as [->|(bs & Hne & ->)]; rewrite ?filter_cons, ?filter_nil; simpl; repeat case_decide; simpl; try lia; naive_solver.
Qed.

(** What holds of dropping the front buffer, and is closed under composition, holds of the whole loop. *)
Lemma ack_loop_closed (Q : chunk_state -> list effect -> chunk_state -> Prop) stale fuel bytes st b st' e ub :
  (forall s, Q s [] s) -> (forall s, Q s (pop_front s).2 (pop_front s).1) ->
  (forall s1 e1 s2 e2 s3, Q s1 e1 s2 -> Q s2 e2 s3 -> Q s1 (e1 ++ e2) s3) ->
  ack_loop stale fuel bytes st = Ok (b, st', e, ub) -> Q st e st'.
Proof.
  intros Hrefl Hpop Htrans. revert bytes st b st' e ub. induction fuel as [|fuel IH]; intros bytes st b st' e ub; cbn [ack_loop];
    destruct (user_buffers (cs_stream st)) as [|[fr ka] rest]; split_if; intros H; simplify_eq; try by apply Hrefl.
  pose proof (Hpop st) as Hp. destruct (pop_front st) as [st1 e1].
  apply obind_ok in H as ([[[b2 st2] e2] ub2] & Hl & H). simplify_eq. eapply Htrans; [exact Hp|]. by eapply IH.
Qed.

Lemma empties_app a b : empties (a ++ b) = (empties a + empties b)%nat.
Proof. unfold empties. by rewrite filter_app, length_app. Qed.

Lemma empties_cons b ka rest :
  empties ((b, ka) :: rest) = ((if decide (b = []) then 1 else 0) + empties rest)%nat.
Proof. unfold empties. rewrite filter_cons. simpl. by case_decide. Qed.

Lemma with_buffers_twice s a b : with_buffers (with_buffers s a) b = with_buffers s b.
Proof. done. Qed.

(** The acknowledgement loop: with fuel for every byte and every empty buffer it finishes, it
    removes whole buffers from the front, and new chunks go to the back. *)
Lemma ack_loop_spec stale fuel bytes st :
  let bufs := user_buffers (cs_stream st) in
  0 <= bytes <= zlen (concat (map fst bufs)) ->
  (Z.to_nat bytes + empties bufs <= fuel)%nat ->
  exists b st' e ub, ack_loop stale fuel bytes st = Ok (b, st', e, ub) /\
    (ub = true <-> user_buffers (cs_stream st') = []) /\
    cs_stream st' = with_buffers (cs_stream st) (user_buffers (cs_stream st')) /\
    length (cs_senders st') = length (cs_senders st) /\
    0 <= b /\ (b = 0 \/ exists f ka rest, user_buffers (cs_stream st') = (f, ka) :: rest /\ b < zlen f) /\
    zdrop b (content (cs_stream st')) = zdrop bytes (content (cs_stream st)) ++ chunk_bytes e /\
    forall k, (inflight k (cs_stream st') <= inflight k (cs_stream st))%nat.
Proof.
  revert bytes st. induction fuel as [|fuel IH]; intros bytes st bufs Hb Hf;
    subst bufs; destruct (user_buffers (cs_stream st)) as [|[f ka] rest] eqn:Hbufs.
  1,3: (simpl in Hb; change (zlen (@nil Z)) with 0 in Hb; assert (bytes = 0) as -> by lia;
    exists 0, st, [], true; simpl; rewrite Hbufs, andb_false_r;
    unfold content; rewrite Hbufs; destruct (cs_stream st); split_and!; auto; simplify_eq/=; done).
  all: simpl in Hb; rewrite zlen_app in Hb; rewrite empties_cons in Hf; pose proof (zlen_nonneg f);
    cbn [ack_loop]; rewrite Hbufs; destruct ((zlen f <=? bytes) && negb (bytes =? 0)) eqn:E; bools.
  1: { exfalso. lia. }
  2: {
    pose proof (pop_front_spec f ka rest st Hbufs) as Hpop.
    destruct (pop_front st) as [st1 e1]. destruct Hpop as (new & Hs1 & Hl1 & Hc1 & He1 & Hi1).
    assert (user_buffers (cs_stream st1) = rest ++ new) as Hb1 by (by rewrite Hs1).
    destruct (IH (bytes - zlen f) st1) as (b & st' & e & ub & -> & Hub & Hs & Hl & Hb0 & Hcase & Hc & Hi).
    - rewrite Hb1, map_app, concat_app, zlen_app. pose proof (zlen_nonneg (concat (map fst new))). lia.
    - rewrite Hb1, empties_app, He1. destruct (decide (f = [])) as [->|Hne]; simpl in *; [lia|].
      assert (0 < zlen f) by (destruct f; [done|unfold zlen; simpl; lia]). lia.
    - simpl. do 4 eexists. split; [done|]. split_and!; [tauto..| | | | | |].
      + by rewrite Hs, Hs1, with_buffers_twice.
      + by rewrite Hl.
      + lia.
      + done.
      + rewrite Hc. unfold content at 1 2. rewrite Hb1, Hbufs. simpl.
        rewrite map_app, concat_app, chunk_bytes_app, <- Hc1.
        rewrite (zdrop_app_ge bytes f) by lia. rewrite (zdrop_app_le _ (concat (map fst rest))) by lia.
        by rewrite app_assoc.
      + intros k. etransitivity; [apply Hi|]. etransitivity; [|apply Hi1]. unfold inflight. by rewrite Hb1. }
  all: exists bytes, st, [], false; rewrite Hbufs; apply andb_false_iff in E;
    assert (bytes = 0 \/ bytes < zlen f) by (destruct E; bools; lia);
    split_and!; [done|split; done|by rewrite <- Hbufs; destruct (cs_stream st)|done|lia| |by rewrite app_nil_r|done].
  all: destruct H0 as [|]; [by left|right; by do 3 eexists].
Qed.

Lemma empties_length bufs : (empties bufs <= length bufs)%nat.
Proof. unfold empties. apply length_filter. Qed.

(** The whole of [acknowledge], on a stream that satisfies its invariant. *)
Lemma acknowledge_spec stale bytes st :
  Stream_inv (cs_stream st) -> 0 <= bytes <= unacked_size (cs_stream st) ->
  exists st' e ub, acknowledge stale (ack_fuel bytes st) bytes st = Ok (st', e, ub) /\
    cs_stream st' = with_buffers (with_unacked (cs_stream st) (unacked_size (cs_stream st) - bytes))
                      (user_buffers (cs_stream st')) /\
    content (cs_stream st') = zdrop bytes (content (cs_stream st)) ++ chunk_bytes e /\
    length (cs_senders st') = length (cs_senders st) /\
    (ub = true <-> user_buffers (cs_stream st') = []) /\
    forall k, (inflight k (cs_stream st') <= inflight k (cs_stream st))%nat.
Proof.
  intros (Hu & Hlt & Hc) Hb. unfold acknowledge, ack_fuel.
  rewrite (proj2 (Z.leb_le _ _)) by lia. simpl. rewrite u64_sub by lia.
  set (s1 := with_unacked _ _).
  destruct (ack_loop_spec stale (Z.to_nat bytes + length (user_buffers (cs_stream st))) bytes
              (mkCS s1 (cs_senders st)))
    as (b & st' & e & ub & -> & Hub & Hs & Hl & Hb0 & Hcase & Hcont & Hi).
  { unfold content in Hu. simpl. lia. }
  { pose proof (empties_length (user_buffers s1)). simpl in *. lia. }
  simpl in Hs, Hl, Hcont. change (content s1) with (content (cs_stream st)) in Hcont.
  simpl. destruct (b =? 0) eqn:E; bools.
  - subst b. do 3 eexists. split; [done|]. split_and!; [done..| | |tauto| |exact Hi]; tauto || done.
  - destruct Hcase as [|(f & ka & rest & Hbufs & Hbf)]; [done|]. rewrite Hbufs.
    do 3 eexists. split; [done|]. cbn [cs_stream cs_senders]. split_and!.
    + by rewrite Hs, with_buffers_twice.
    + rewrite <- Hcont. unfold content. simpl. rewrite Hbufs. simpl.
      by rewrite zdrop_app_le by lia.
    + done.
    + rewrite Hbufs in Hub. simpl. naive_solver.
    + intros k. etransitivity; [|exact (Hi k)]. unfold inflight. simpl. rewrite Hbufs, !filter_cons.
      simpl. by case_decide.
Qed.

(** Acknowledging [bytes] in-flight bytes terminates without a failed assertion, drops
    exactly that prefix of the queued bytes, lowers [unacked] by it and keeps the invariant;
    chunks queued by the destructors of the dropped buffers go behind what was queued before. *)
Theorem acknowledge_drops_prefix (stale bytes : Z) (st : chunk_state) :
  Stream_inv (cs_stream st) -> 0 <= bytes <= unacked_size (cs_stream st) ->
  exists st' e ub, acknowledge stale (ack_fuel bytes st) bytes st = Ok (st', e, ub) /\
    content (cs_stream st') = zdrop bytes (content (cs_stream st)) ++ chunk_bytes e /\
    unacked_size (cs_stream st') = unacked_size (cs_stream st) - bytes /\
    Stream_inv (cs_stream st').
Proof.
  intros Hinv Hb.
  destruct (acknowledge_spec stale bytes st Hinv Hb) as (st' & e & ub & Hack & Hs & Hc & _).
  do 3 eexists. split_and!; [done..|by rewrite Hs|].
  destruct Hinv as (Hu & Hlt & Hcl). unfold Stream_inv. rewrite Hc, zlen_app, zlen_zdrop by lia.
  pose proof (zlen_nonneg (chunk_bytes e)). rewrite Hs. simpl. split_and!; [lia..|done].
Qed.

Lemma acknowledge_drops_prefix_witness :
  let st := mkCS example_stream [mkSender (Some (fun n => if (n <? 5)%nat then [7; 7] else [])) 4 true] in
  exists st' e ub, acknowledge 0 (ack_fuel 4 st) 4 st = Ok (st', e, ub) /\
    content (cs_stream st') = zdrop 4 (content (cs_stream st)) ++ chunk_bytes e /\
    unacked_size (cs_stream st') = unacked_size (cs_stream st) - 4 /\
    Stream_inv (cs_stream st').
Proof.
  intros st. apply (acknowledge_drops_prefix 0 4 st); [|simpl; lia].
  split_and!; vm_compute; congruence.
Defined.

(** Without chunk senders, acknowledging all the bytes of non-empty buffers empties the deque. *)
Lemma ack_loop_all stale bufs fuel bytes st :
  user_buffers (cs_stream st) = bufs -> cs_senders st = [] -> Forall (fun b => b.1 <> []) bufs ->
  bytes = zlen (concat (map fst bufs)) -> (length bufs <= fuel)%nat ->
  exists st' e, ack_loop stale fuel bytes st = Ok (0, st', e, true) /\ user_buffers (cs_stream st') = [].
Proof.
  revert fuel bytes st. induction bufs as [|[f ka] rest IH]; intros fuel bytes st Hb Hs HF -> Hf.
  - exists st, []. destruct fuel; simpl; rewrite Hb; simpl; rewrite andb_false_r; done.
  - inversion HF as [|? ? Hf0 HF']; subst. destruct fuel as [|fuel]; [simpl in Hf; lia|].
    cbn [ack_loop map concat]. rewrite Hb. simpl in Hf0. rewrite zlen_app.
    pose proof (zlen_nonneg (concat (map fst rest))).
    assert (0 < zlen f) by (destruct f; [done|unfold zlen; simpl; lia]).
    simpl fst. rewrite (proj2 (Z.leb_le _ _)), (proj2 (Z.eqb_neq _ _)) by lia. cbn [negb andb].
    assert (exists e1, pop_front st = (mkCS (with_buffers (cs_stream st) rest) [], e1)) as (e1 & ->).
    { unfold pop_front. rewrite Hb, Hs. destruct ka; simpl; eauto. }
    destruct (IH fuel (zlen f + zlen (concat (map fst rest)) - zlen f)
                (mkCS (with_buffers (cs_stream st) rest) [])) as (st' & e & -> & He);
      try done; try (simpl in *; lia).
    simpl. eauto.
Qed.

(** Acknowledging the last queued byte makes the loop condition read [front()] of an empty
    deque before it tests [bytes]: whenever everything is acknowledged and no new chunk was
    queued, that undefined read happens (its value is never used). *)
Theorem acknowledge_all_reads_empty_front (stale : Z) (st : chunk_state) :
  Stream_inv (cs_stream st) -> unacked_size (cs_stream st) = zlen (content (cs_stream st)) ->
  Forall (fun b => b.1 <> []) (user_buffers (cs_stream st)) -> cs_senders st = [] ->
  0 < unacked_size (cs_stream st) ->
  exists st' e, acknowledge stale (ack_fuel (unacked_size (cs_stream st)) st)
                  (unacked_size (cs_stream st)) st = Ok (st', e, true) /\
    user_buffers (cs_stream st') = [].
Proof.
  intros Hinv Hall Hne Hsend Hpos.
  unfold acknowledge, ack_fuel. destruct Hinv as (Hu & Hlt & _).
  rewrite Z.leb_refl. simpl. rewrite Z.sub_diag.
  set (s1 := with_unacked _ _).
  destruct (ack_loop_all stale (user_buffers (cs_stream st))
              (Z.to_nat (unacked_size (cs_stream st)) + length (user_buffers (cs_stream st)))%nat
              (unacked_size (cs_stream st)) (mkCS s1 (cs_senders st))) as (st' & e & -> & He);
    try done; try (unfold content in *; lia).
  simpl. eauto.
Qed.

Lemma acknowledge_all_reads_empty_front_witness :
  let st := mkCS (mkStream 0 None (Some DefaultCloseCb) [([1;2], KNone); ([3], KNone)] 3 false false false true) [] in
  exists st' e, acknowledge 17 (ack_fuel 3 st) 3 st = Ok (st', e, true) /\ user_buffers (cs_stream st') = [].
Proof.
  intros st. apply (acknowledge_all_reads_empty_front 17 st); try done.
  repeat constructor; discriminate.
Defined.

(** ** Refinement: a stream as one sequence of bytes

    The abstract sender is the history [hist] of all bytes ever queued, the number [acked] of
    them the peer acknowledged, and the number handed to ngtcp2 after those.  [stream_run] is
    every sequence of operations on one stream from its construction: user sends, chunk senders,
    writes of at most what is unsent, acknowledgements of at most what is in flight, and the
    changes of the flags.  Buffers lie in memory, so their total stays below 2^64.  The last index
    lists the callback and the [simultaneous] argument of each [send_chunks] call so far. *)
Inductive stream_run : chunk_state -> list Z -> Z -> list ((nat -> list Z) * Z) -> Prop :=
  | run_new dcb ccb id :
      stream_run (mkCS (Stream_new dcb ccb id) []) [] 0 []
  | run_send st hist acked lims bs u :
      stream_run st hist acked lims ->
      zlen (content (cs_stream st)) + zlen bs < 2 ^ 64 ->
      stream_run (mkCS (Stream_send (cs_stream st) bs (KUser u)).1 (cs_senders st)) (hist ++ bs) acked lims
  | run_chunks st hist acked lims f done n st' e :
      stream_run st hist acked lims ->
      send_chunks f done n st = Ok (st', e) -> zlen (content (cs_stream st')) < 2 ^ 64 ->
      stream_run st' (hist ++ chunk_bytes e) acked (lims ++ [(f, n)])
  | run_wrote st hist acked lims n :
      stream_run st hist acked lims -> 0 <= n <= unsent (cs_stream st) ->
      stream_run (mkCS (Stream_wrote (cs_stream st) n) (cs_senders st)) hist acked lims
  | run_ack st hist acked lims stale n st' e ub :
      stream_run st hist acked lims -> 0 <= n <= unacked (cs_stream st) ->
      acknowledge stale (ack_fuel n st) n st = Ok (st', e, ub) ->
      zlen (content (cs_stream st')) < 2 ^ 64 ->
      stream_run st' (hist ++ chunk_bytes e) (acked + n) lims
  | run_close st hist acked lims code :
      stream_run st hist acked lims ->
      stream_run (mkCS (Stream_close (cs_stream st) code).1 (cs_senders st)) hist acked lims
  | run_ready st hist acked lims b :
      stream_run st hist acked lims ->
      stream_run (mkCS (with_ready (cs_stream st) b) (cs_senders st)) hist acked lims
  | run_id st hist acked lims id :
      stream_run st hist acked lims ->
      stream_run (mkCS (with_id (cs_stream st) id) (cs_senders st)) hist acked lims
  | run_fin st hist acked lims b :
      stream_run st hist acked lims ->
      stream_run (mkCS (with_fin (cs_stream st) b) (cs_senders st)) hist acked lims.
#[export] Hint Constructors stream_run : stream.

Lemma queue_initial_spec n k st :
  let '(st', e) := queue_initial n k st in
  exists new, cs_stream st' = with_buffers (cs_stream st) (user_buffers (cs_stream st) ++ new) /\
    length (cs_senders st') = length (cs_senders st) /\
    concat (map fst new) = chunk_bytes e /\ (length new <= n)%nat /\
    Forall (fun b => b.2 = KChunk k) new.
Proof.
  revert st. induction n as [|n IH]; intros st; simpl.
  { exists []. rewrite app_nil_r. destruct (cs_stream st). by split_and!. }
  pose proof (queue_next_chunk_spec k st) as Hq. destruct (queue_next_chunk k st) as [st1 e1].
  destruct Hq as (new1 & Hs1 & Hl1 & Hc1 & Hn1).
  specialize (IH st1). destruct (queue_initial n k st1) as [st2 e2].
  destruct IH as (new2 & Hs2 & Hl2 & Hc2 & Hn2 & HF2).
  exists (new1 ++ new2). rewrite Hs2, Hs1. cbn [user_buffers with_buffers].
  rewrite app_assoc, map_app, concat_app, chunk_bytes_app, Hc1, Hc2, length_app, Forall_app.
  split_and!; [done|congruence|done|destruct Hn1 as [->|(? & _ & ->)]; simpl; lia| |done].
  destruct Hn1 as [->|(? & _ & ->)]; by repeat constructor.
Qed.

Lemma Stream_close_frame s code :
  let s' := (Stream_close s code).1 in
  user_buffers s' = user_buffers s /\ unacked_size s' = unacked_size s /\
  close_callback s' = close_callback s /\ stream_id s' = stream_id s /\
  (is_closing s = is_shutdown s -> is_closing s' = true /\ is_shutdown s' = true).
Proof. destruct s as [? ? ? ? ? [] [] ? ?]; simpl; split_and!; done. Qed.

(** The simulation invariant between the concrete stream and its history. *)
Definition simulates (st : chunk_state) (hist : list Z) (acked : Z) : Prop :=
  Stream_inv (cs_stream st) /\ zlen (content (cs_stream st)) < 2 ^ 64 /\
  0 <= acked <= zlen hist /\ content (cs_stream st) = zdrop acked hist.

Lemma simulates_append st st' hist acked new :
  simulates st hist acked ->
  cs_stream st' = with_buffers (cs_stream st) (user_buffers (cs_stream st) ++ new) ->
  zlen (content (cs_stream st')) < 2 ^ 64 ->
  simulates st' (hist ++ concat (map fst new)) acked.
Proof.
  intros ((Hu & Hlt & Hc) & Ht & Ha & Hcont) Hs Ht'. unfold simulates, Stream_inv.
  pose proof (zlen_nonneg (concat (map fst new))).
  rewrite Hs in Ht' |- *. rewrite content_app in Ht' |- *.
  rewrite !zlen_app in *. cbn [unacked_size is_closing is_shutdown with_buffers].
  split_and!; try lia; [done|]. by rewrite Hcont, zdrop_app_le.
Qed.

(** The single operations. *)
Lemma simulates_new dcb ccb id senders : simulates (mkCS (Stream_new dcb ccb id) senders) [] 0.
Proof. unfold simulates, Stream_inv, content. simpl. change (zlen (@nil Z)) with 0. split_and!; lia || done. Qed.

Lemma simulates_send st hist acked bs ka :
  simulates st hist acked -> zlen (content (Stream_send (cs_stream st) bs ka).1) < 2 ^ 64 ->
  simulates (mkCS (Stream_send (cs_stream st) bs ka).1 (cs_senders st)) (hist ++ bs) acked.
Proof.
  intros Hs Ht. assert (concat (map fst [(bs, ka)]) = bs) as Hbs by (simpl; by rewrite app_nil_r).
  rewrite <- Hbs at 2. by eapply (simulates_append st).
Qed.

Lemma simulates_wrote st hist acked n :
  simulates st hist acked -> 0 <= n <= unsent (cs_stream st) ->
  simulates (mkCS (Stream_wrote (cs_stream st) n) (cs_senders st)) hist acked.
Proof.
  intros (Hinv & Ht & Ha & Hcont) Hn. rewrite unsent_content in Hn by done.
  destruct Hinv as (Hu & Hlt & Hc). unfold simulates, Stream_inv. simpl.
  change (content (Stream_wrote (cs_stream st) n)) with (content (cs_stream st)).
  rewrite u64_small by (unfold is_u64; lia). split_and!; lia || done.
Qed.

Lemma simulates_ack st hist acked stale n st' e ub :
  simulates st hist acked -> 0 <= n <= unacked (cs_stream st) ->
  acknowledge stale (ack_fuel n st) n st = Ok (st', e, ub) -> zlen (content (cs_stream st')) < 2 ^ 64 ->
  simulates st' (hist ++ chunk_bytes e) (acked + n).
Proof.
  intros (Hinv & Ht0 & Ha & Hcont) Hn Hack Ht.
  destruct (acknowledge_drops_prefix stale n st Hinv Hn) as (st1 & e1 & ub1 & Hack' & Hc1 & Hu1 & Hinv1).
  rewrite Hack in Hack'. simplify_eq. unfold unacked in *. destruct Hinv as (Hu & _ & _).
  assert (n <= zlen hist - acked) by (rewrite <- zlen_zdrop by done; rewrite <- Hcont; lia).
  split_and!; [done..|lia|rewrite zlen_app; pose proof (zlen_nonneg (chunk_bytes e1)); lia|].
  rewrite Hc1, Hcont, zdrop_zdrop, zdrop_app_le by lia. done.
Qed.

Lemma simulates_close st hist acked code :
  simulates st hist acked -> simulates (mkCS (Stream_close (cs_stream st) code).1 (cs_senders st)) hist acked.
Proof.
  intros ((Hu & Hlt & Hc) & Ht & Ha & Hcont).
  destruct (Stream_close_frame (cs_stream st) code) as (Hb & Hun & _ & _ & Hf).
  destruct (Hf Hc) as [E1 E2]. unfold simulates, Stream_inv, content in *.
  cbn [cs_stream]. rewrite Hb, Hun, E1, E2. split_and!; lia || done.
Qed.

Lemma stream_run_simulates st hist acked lims : stream_run st hist acked lims -> simulates st hist acked.
Proof.
  induction 1 as [dcb ccb id | st hist acked lims bs u Hr IH Ht
    | st hist acked lims f dn n st' e Hr IH Hs Ht | st hist acked lims n Hr IH Hn
    | st hist acked lims stale n st' e ub Hr IH Hn Hack Ht
    | st hist acked lims code Hr IH | st hist acked lims b Hr IH
    | st hist acked lims id Hr IH | st hist acked lims b Hr IH]; try exact IH.
  - apply simulates_new.
  - apply simulates_send; [done|]. cbn [Stream_send append_buffer fst]. rewrite content_app, zlen_app. simpl. by rewrite app_nil_r.
  - unfold send_chunks in Hs. destruct (n <? 1); [done|]. injection Hs as Hs.
    pose proof (queue_initial_spec (Z.to_nat n) (length (cs_senders st))
      (mkCS (cs_stream st) (cs_senders st ++ [mkSender (Some f) 0 dn]))) as Hq.
    rewrite Hs in Hq. destruct Hq as (new & Hs' & _ & <- & _). by eapply simulates_append.
  - by apply simulates_wrote.
  - by eapply simulates_ack.
  - by apply simulates_close.
Qed.

(** C9: refinement.  Whatever the sequence of operations on a stream, what it holds is the byte
    history less the acknowledged prefix, and [pending] offers to ngtcp2 exactly the history from
    the first byte not yet written: nothing is lost, repeated or reordered. *)
Theorem stream_refines_history (st : chunk_state) (hist : list Z) (acked : Z) (lims : list ((nat -> list Z) * Z)) :
  stream_run st hist acked lims ->
  content (cs_stream st) = zdrop acked hist /\
  exists vs, pending (cs_stream st) = Ok vs /\
    concat vs = zdrop (acked + unacked (cs_stream st)) hist /\
    unsent (cs_stream st) = zlen hist - acked - unacked (cs_stream st).
Proof.
  intros (Hinv & Ht & Ha & Hcont)%stream_run_simulates. split; [done|].
  destruct (pending_content _ Hinv Ht) as (vs & Hp & Hc & _). exists vs.
  rewrite unsent_content by done. destruct Hinv as (Hu & _ & _). unfold unacked.
  split_and!; [done| |].
  - rewrite Hc, Hcont, zdrop_zdrop by lia. done.
  - rewrite Hcont, zlen_zdrop by lia. lia.
Qed.

Lemma stream_refines_history_witness :
  let st := mkCS (Stream_wrote (Stream_send (Stream_new None None 4) [1;2;3] (KUser 7)).1 2) [] in
  content (cs_stream st) = zdrop 0 [1;2;3] /\
  exists vs, pending (cs_stream st) = Ok vs /\
    concat vs = zdrop (0 + unacked (cs_stream st)) [1;2;3] /\
    unsent (cs_stream st) = zlen [1;2;3] - 0 - unacked (cs_stream st).
Proof.
  intros st. apply (stream_refines_history st [1;2;3] 0 []).
  apply (run_wrote (mkCS (Stream_send (Stream_new None None 4) [1;2;3] (KUser 7)).1 [])); [|vm_compute; by split].
  apply (run_send (mkCS (Stream_new None None 4) []) []); [constructor|done].
Defined.

(** ** Chunks in flight *)

(** The limit a sender was created with; 0 for a sender that does not exist. *)
Definition chunk_limit (lims : list ((nat -> list Z) * Z)) (k : nat) : nat :=
  default 0%nat ((fun x => Z.to_nat x.2) <$> lims !! k).

Lemma inflight_buffers k s b : inflight k (with_buffers s b) = length (filter (fun b => b.2 = KChunk k) b).
Proof. done. Qed.

Lemma filter_chunks_other (k k' : nat) (new : list (list Z * keep_alive)) :
  Forall (fun b => b.2 = KChunk k) new ->
  length (filter (fun b => b.2 = KChunk k') new) = if decide (k = k') then length new else 0%nat.
Proof.
  induction 1 as [|[bs ka] new Hk HF IH]; simpl in *; [by case_decide|]. subst ka.
  rewrite filter_cons. simpl. repeat case_decide; simplify_eq/=; lia.
Qed.

Lemma stream_run_limits st hist acked lims :
  stream_run st hist acked lims ->
  length lims = length (cs_senders st) /\ forall k, (inflight k (cs_stream st) <= chunk_limit lims k)%nat.
Proof.
  induction 1 as [dcb ccb id | st hist acked lims bs u Hr [Hl IH] Ht
    | st hist acked lims f dn n st' e Hr [Hl IH] Hs Ht | st hist acked lims n Hr [Hl IH] Hn
    | st hist acked lims stale n st' e ub Hr [Hl IH] Hn Hack Ht
    | st hist acked lims code Hr [Hl IH] | st hist acked lims b Hr [Hl IH]
    | st hist acked lims id Hr [Hl IH] | st hist acked lims b Hr [Hl IH]]; try done.
  - split; [done|]. intros k. cbn [cs_stream Stream_send append_buffer fst].
    rewrite inflight_app, filter_cons. simpl. specialize (IH k). lia.
  - unfold send_chunks in Hs. destruct (n <? 1); [done|]. injection Hs as Hs.
    pose proof (queue_initial_spec (Z.to_nat n) (length (cs_senders st))
      (mkCS (cs_stream st) (cs_senders st ++ [mkSender (Some f) 0 dn]))) as Hq.
    rewrite Hs in Hq. destruct Hq as (new & Hs' & Hl' & _ & Hn & HF). cbn [cs_stream cs_senders] in *.
    split; [rewrite Hl', !length_app, Hl; simpl; lia|]. intros k.
    rewrite Hs', inflight_app, (filter_chunks_other _ _ _ HF). specialize (IH k).
    unfold chunk_limit in *. case_decide as Hk.
    + subst k. rewrite lookup_ge_None_2 in IH by lia. rewrite list_lookup_middle by lia. simpl in *. lia.
    + destruct (decide (k < length lims)%nat).
      * rewrite lookup_app_l by done. lia.
      * rewrite (lookup_ge_None_2 lims) in IH by lia. simpl in IH. lia.
  - pose proof (stream_run_simulates _ _ _ _ Hr) as (Hinv & _).
    destruct (acknowledge_spec stale n st Hinv Hn) as (st1 & e1 & ub1 & Hack' & _ & _ & Hl1 & _ & Hi).
    rewrite Hack in Hack'. simplify_eq. split; [congruence|]. intros k. etransitivity; [apply Hi|done].
  - split; [done|]. intros k. etransitivity; [|exact (IH k)]. unfold inflight. cbn [cs_stream].
    by destruct (Stream_close_frame (cs_stream st) code) as (-> & _).
Qed.

Lemma stream_run_lims_pos st hist acked lims k f n :
  stream_run st hist acked lims -> lims !! k = Some (f, n) -> 1 <= n.
Proof.
  intros Hr. revert k f n.
  induction Hr as [| | st hist acked lims f dn n' st' e Hr IH Hs Ht | | | | | |];
    intros k0 f0 n0 Hk0; eauto; [done|].
  unfold send_chunks in Hs. destruct (n' <? 1) eqn:E; [done|]. bools.
  apply lookup_app_Some in Hk0 as [Hk0|[_ Hk0]]; [by eapply IH|].
  by apply list_lookup_singleton_Some in Hk0 as [_ [= _ <-]].
Qed.

Lemma stream_run_inflight st hist acked lims k f n :
  stream_run st hist acked lims -> lims !! k = Some (f, n) -> Z.of_nat (inflight k (cs_stream st)) <= n.
Proof.
  intros Hr Hk. destruct (stream_run_limits _ _ _ _ Hr) as [_ Hb]. specialize (Hb k).
  pose proof (stream_run_lims_pos _ _ _ _ _ _ _ Hr Hk).
  unfold chunk_limit in Hb. rewrite Hk in Hb. simpl in Hb. lia.
Qed.

(** *** Chunks in a circular buffer *)

(** The queued chunks of the [k]-th sender. *)
Definition queued_chunks (k : nat) (bufs : list (list Z * keep_alive)) : list (list Z * keep_alive) :=
  filter (fun b => b.2 = KChunk k) bufs.

(** What the containers of a circular buffer hold after [calls] calls of a callback that writes its i-th chunk
    into container i mod [n]; a call with nothing left writes nothing. *)
Fixpoint ring_memory (f : nat -> list Z) (n calls : nat) (slot : nat) : list Z :=
  match calls with
  | O => []
  | S i => if negb (bool_decide (f i = [])) && (slot =? i mod n)%nat then f i else ring_memory f n i slot
  end.

(** The queued chunks of a sender are consecutive ones, up to the last that was asked for, the first of them
    perhaps less an acknowledged prefix. *)
Definition chunk_window (k : nat) (f : nat -> list Z) (bufs : list (list Z * keep_alive)) (senders : list chunk_sender) : Prop :=
  exists cs first, let total := (first + length (queued_chunks k bufs))%nat in
    senders !! k = Some cs /\
    Forall2 (fun b i => b.1 `suffix_of` f i /\ b.1 <> []) (queued_chunks k bufs) (seq first (length (queued_chunks k bufs))) /\
    (forall i, (i < total)%nat -> f i <> []) /\
    match next_chunk cs with Some g => g = f /\ calls cs = total | None => calls cs = S total /\ f total = [] end.

Lemma chunk_window_same k f bufs bufs' senders :
  queued_chunks k bufs' = queued_chunks k bufs -> chunk_window k f bufs senders -> chunk_window k f bufs' senders.
Proof. unfold chunk_window. by intros ->. Qed.

Lemma chunk_window_pop k f b rest senders : chunk_window k f (b :: rest) senders -> chunk_window k f rest senders.
Proof.
  intros (cs & first & Hk & Hq & Hne & Hc). unfold queued_chunks in *. rewrite filter_cons in *. case_decide; [|by exists cs, first].
  cbn [length seq] in *. rewrite Nat.add_succ_r in *. inversion Hq; subst. by exists cs, (S first).
Qed.

Lemma chunk_window_cut k f n b ka rest senders :
  0 <= n < zlen b -> chunk_window k f ((b, ka) :: rest) senders -> chunk_window k f ((zdrop n b, ka) :: rest) senders.
Proof.
  intros Hn (cs & first & Hk & Hq & Hne & Hc). exists cs, first. unfold queued_chunks in *. rewrite filter_cons in *. cbn [snd] in *.
  case_decide; [|done]. cbn [length seq] in *. split_and!; try done. inversion Hq as [|? ? ? ? [Hsf _] Hrest]; subst. constructor; [|done]. split.
  - etransitivity; [|exact Hsf]. exists (ztake n b). symmetry. apply ztake_zdrop.
  - cbn [fst]. intros Hz. apply (f_equal zlen) in Hz. rewrite zlen_zdrop in Hz by lia. change (zlen (@nil Z)) with 0 in Hz. lia.
Qed.

Lemma chunk_window_next k f k' st :
  chunk_window k f (user_buffers (cs_stream st)) (cs_senders st) ->
  let st' := (queue_next_chunk k' st).1 in chunk_window k f (user_buffers (cs_stream st')) (cs_senders st').
Proof.
  intros (cs & first & Hk & Hq & Hne & Hc). unfold queue_next_chunk.
  destruct (cs_senders st !! k') as [[[g|] n d]|] eqn:Hk'; cbn [next_chunk calls has_done]; [|by exists cs, first..].
  pose proof (lookup_lt_Some _ _ _ Hk') as Hlen. destruct (decide (k' = k)) as [->|Hkk].
  - simplify_eq. cbn [next_chunk calls] in Hc. destruct Hc as [-> ->]. case_bool_decide as Hf; cbn [fst cs_stream cs_senders Stream_send append_buffer].
    + eexists _, first. rewrite list_lookup_insert_eq by done. by split_and!.
    + eexists _, first. rewrite list_lookup_insert_eq by done. cbn [with_buffers user_buffers]. unfold queued_chunks in *.
      rewrite filter_app, filter_cons_True, filter_nil, length_app by done. cbn [length]. split; [done|].
      rewrite seq_app, Nat.add_1_r, Nat.add_succ_r. split_and!; [|intros i [Hi| ->]%Nat.lt_succ_r%Nat.le_lteq; [by apply Hne|done]|done..].
      apply Forall2_app; [done|]. by repeat constructor.
  - assert (forall x, <[k':=x]> (cs_senders st) !! k = Some cs) as Hk2 by (intros x; by rewrite list_lookup_insert_ne).
    case_bool_decide; cbn [fst cs_stream cs_senders Stream_send append_buffer]; [exists cs, first; by rewrite Hk2|].
    apply (chunk_window_same _ _ (user_buffers (cs_stream st))); [|exists cs, first; by rewrite Hk2].
    unfold queued_chunks. cbn [with_buffers user_buffers]. rewrite filter_app, filter_cons_False, filter_nil, app_nil_r; [done|]. cbn. congruence.
Qed.

Lemma chunk_window_pop_front k f st :
  chunk_window k f (user_buffers (cs_stream st)) (cs_senders st) ->
  let st' := (pop_front st).1 in chunk_window k f (user_buffers (cs_stream st')) (cs_senders st').
Proof.
  intros Hw. unfold pop_front. destruct (user_buffers (cs_stream st)) as [|[b ka] rest] eqn:Hb; [cbn; by rewrite Hb|].
  apply chunk_window_pop in Hw. destruct ka; [done..|]. by apply chunk_window_next.
Qed.

Lemma chunk_window_ack_loop k f stale fuel bytes st b st' e ub :
  chunk_window k f (user_buffers (cs_stream st)) (cs_senders st) -> ack_loop stale fuel bytes st = Ok (b, st', e, ub) ->
  chunk_window k f (user_buffers (cs_stream st')) (cs_senders st').
Proof.
  intros Hw Hl. revert Hw. eapply (ack_loop_closed (fun s _ s' => chunk_window k f (user_buffers (cs_stream s)) (cs_senders s) ->
    chunk_window k f (user_buffers (cs_stream s')) (cs_senders s'))); [done|intros s; apply chunk_window_pop_front|naive_solver|exact Hl].
Qed.

(** The loop stops in front of a buffer that is acknowledged in part. *)
Lemma ack_loop_rest stale fuel bytes st b st' e ub :
  0 <= bytes -> ack_loop stale fuel bytes st = Ok (b, st', e, ub) ->
  0 <= b /\ forall fr ka rest, user_buffers (cs_stream st') = (fr, ka) :: rest -> b <> 0 -> b < zlen fr.
Proof.
  assert (forall (fr0 : list Z) ka0 rest0 (st : chunk_state) b, user_buffers (cs_stream st) = (fr0, ka0) :: rest0 ->
    (zlen fr0 <=? b) && negb (b =? 0) = false -> forall fr ka rest, user_buffers (cs_stream st) = (fr, ka) :: rest -> b <> 0 -> b < zlen fr) as Hstop.
  { clear. intros fr0 ka0 rest0 st b Hb E fr ka rest Hb2 Hne. rewrite Hb in Hb2. injection Hb2 as <- _ _.
    apply andb_false_iff in E as [E|E]; bools; lia. }
  revert bytes st b st' e ub. induction fuel as [|fuel IH]; intros bytes st b st' e ub H0; cbn [ack_loop];
    destruct (user_buffers (cs_stream st)) as [|[fr ka] rest] eqn:Hb; split_if; intros H; simplify_eq; try (split; [done|]; try (by rewrite Hb); by eapply Hstop).
  destruct (pop_front st) as [st1 e1]. apply obind_ok in H as ([[[b2 st2] e2] ub2] & Hl & H). simplify_eq. eapply IH; [|exact Hl]. bools. lia.
Qed.

Lemma chunk_window_ack k f stale fuel bytes st st' e ub :
  0 <= bytes -> chunk_window k f (user_buffers (cs_stream st)) (cs_senders st) -> acknowledge stale fuel bytes st = Ok (st', e, ub) ->
  chunk_window k f (user_buffers (cs_stream st')) (cs_senders st').
Proof.
  unfold acknowledge. intros H0 Hw [_ H]%assert_then_ok. apply obind_ok in H as ([[[b st2] e2] ub2] & Hl & H).
  destruct (ack_loop_rest _ _ _ _ _ _ _ _ H0 Hl) as [Hb0 Hrest]. eapply chunk_window_ack_loop in Hl; [|exact Hw]. destruct (b =? 0) eqn:E; [by simplify_eq|]. bools.
  destruct (user_buffers (cs_stream st2)) as [|[fr ka] rest] eqn:Hb; simplify_eq. apply chunk_window_cut; [|done].
  split; [done|by apply (Hrest fr ka rest)].
Qed.

Lemma chunk_window_initial k f n k' st :
  chunk_window k f (user_buffers (cs_stream st)) (cs_senders st) ->
  let st' := (queue_initial n k' st).1 in chunk_window k f (user_buffers (cs_stream st')) (cs_senders st').
Proof.
  revert st. induction n as [|n IH]; intros st Hw; cbn [queue_initial]; [done|].
  apply (chunk_window_next _ _ k') in Hw. destruct (queue_next_chunk k' st) as [st1 e1]. specialize (IH st1 Hw).
  by destruct (queue_initial n k' st1).
Qed.

Lemma queued_chunks_none k s : inflight k s = 0%nat -> queued_chunks k (user_buffers s) = [].
Proof. apply nil_length_inv. Qed.

Lemma stream_run_window st hist acked lims k f n :
  stream_run st hist acked lims -> lims !! k = Some (f, n) -> chunk_window k f (user_buffers (cs_stream st)) (cs_senders st).
Proof.
  intros Hr. revert k f n. induction Hr as [| st hist acked lims bs u Hr IH Ht
    | st hist acked lims g dn m st' e Hr IH Hs Ht | st hist acked lims m Hr IH Hm
    | st hist acked lims stale m st' e ub Hr IH Hn Hack Ht | st hist acked lims code Hr IH
    | st hist acked lims b Hr IH | st hist acked lims id Hr IH | st hist acked lims b Hr IH]; intros k f n0 Hk; try done; try by eapply IH.
  - apply (chunk_window_same _ _ (user_buffers (cs_stream st))); [|by eapply IH].
    unfold queued_chunks. cbn. by rewrite filter_app, filter_cons_False, filter_nil, app_nil_r.
  - unfold send_chunks in Hs. destruct (m <? 1); [done|]. injection Hs as Hs. destruct (stream_run_limits _ _ _ _ Hr) as [Hl Hi].
    match type of Hs with queue_initial ?a ?b ?c = _ => pose proof (chunk_window_initial k f a b c) as Hq; rewrite Hs in Hq end.
    apply Hq. clear Hq. cbn [cs_stream cs_senders]. apply lookup_app_Some in Hk as [Hk|[Hk0 Hk]].
    + destruct (IH _ _ _ Hk) as (cs & first & Hcs & Hw). exists cs, first. split; [|exact Hw]. by apply lookup_app_l_Some.
    + apply list_lookup_singleton_Some in Hk as [Hk [= <- <-]]. assert (k = length (cs_senders st)) as -> by lia.
      specialize (Hi (length (cs_senders st))). unfold chunk_limit in Hi. rewrite lookup_ge_None_2 in Hi by lia.
      exists (mkSender (Some g) 0 dn), 0%nat. rewrite queued_chunks_none by (cbn in Hi; lia). cbn [length seq next_chunk calls].
      split_and!; [by rewrite list_lookup_middle|constructor|intros; lia|done..].
  - eapply chunk_window_ack; [|by eapply IH|done]. lia.
  - destruct (Stream_close_frame (cs_stream st) code) as (Hb & _). cbn [cs_stream cs_senders]. rewrite Hb. by eapply IH.
Qed.

(** As long as a sender has not come to its end, it has as many chunks queued as it may have. *)
Definition sender_busy (k n : nat) (bufs : list (list Z * keep_alive)) (senders : list chunk_sender) : Prop :=
  forall cs, senders !! k = Some cs -> next_chunk cs <> None -> length (queued_chunks k bufs) = n.

Lemma queue_next_chunk_busy k k' n st :
  sender_busy k n (user_buffers (cs_stream st)) (cs_senders st) ->
  let st' := (queue_next_chunk k' st).1 in
  sender_busy k (if decide (k' = k) then S n else n) (user_buffers (cs_stream st')) (cs_senders st').
Proof.
  intros Hb. unfold queue_next_chunk. destruct (cs_senders st !! k') as [[[g|] c d]|] eqn:Hk'; cbn [next_chunk calls has_done fst].
  - pose proof (lookup_lt_Some _ _ _ Hk') as Hlen. case_bool_decide; cbn [fst cs_stream cs_senders Stream_send append_buffer with_buffers user_buffers].
    + intros cs [(_ & <- & _)|[Hne Hk]]%list_lookup_insert_Some; [done|]. rewrite decide_False by done. by apply Hb.
    + unfold sender_busy, queued_chunks in *. rewrite filter_app, length_app. intros cs [(-> & <- & _)|[Hne Hk]]%list_lookup_insert_Some Hs.
      * rewrite (Hb _ Hk'), decide_True, filter_cons_True by done. cbn. lia.
      * rewrite (Hb _ Hk Hs), decide_False, filter_cons_False by (done || cbn; congruence). cbn. lia.
  - case_decide; [|done]. subst. intros cs Hk. rewrite Hk in Hk'. by simplify_eq.
  - case_decide; [|done]. subst. intros cs Hk. by rewrite Hk in Hk'.
Qed.

Lemma pop_front_busy k n st :
  sender_busy k n (user_buffers (cs_stream st)) (cs_senders st) ->
  let st' := (pop_front st).1 in sender_busy k n (user_buffers (cs_stream st')) (cs_senders st').
Proof.
  intros Hw. unfold pop_front. destruct (user_buffers (cs_stream st)) as [|[b ka] rest] eqn:Hb; [cbn; by rewrite Hb|].
  unfold sender_busy, queued_chunks in Hw. destruct ka as [|u|k']; [rewrite filter_cons_False in Hw by done; exact Hw..|].
  set (st1 := mkCS _ _). assert (sender_busy k (if decide (k' = k) then pred n else n) (user_buffers (cs_stream st1)) (cs_senders st1)) as H1.
  { intros cs Hk Hs. specialize (Hw cs Hk Hs). rewrite filter_cons in Hw. cbn in *. unfold queued_chunks. repeat case_decide; simplify_eq/=; done. }
  pose proof (queue_next_chunk_busy k k' _ st1 H1) as H2. destruct (decide (k' = k)) as [->|]; [|done].
  intros cs Hk Hs. rewrite (H2 cs Hk Hs). destruct n; [|done]. exfalso.
  unfold queue_next_chunk in Hk. subst st1. cbn [cs_senders] in Hk. destruct (cs_senders st !! k) as [cs1|] eqn:Hk1; [|cbn in Hk; by rewrite Hk1 in Hk].
  destruct (next_chunk cs1) eqn:Hn1; [|cbn in Hk; rewrite Hk1 in Hk; by simplify_eq].
  specialize (Hw cs1 eq_refl). rewrite filter_cons_True in Hw by done. by specialize (Hw ltac:(by rewrite Hn1)).
Qed.

Lemma acknowledge_busy k n stale fuel bytes st st' e ub :
  sender_busy k n (user_buffers (cs_stream st)) (cs_senders st) -> acknowledge stale fuel bytes st = Ok (st', e, ub) ->
  sender_busy k n (user_buffers (cs_stream st')) (cs_senders st').
Proof.
  unfold acknowledge. intros Hw [_ H]%assert_then_ok. apply obind_ok in H as ([[[b st2] e2] ub2] & Hl & H).
  assert (sender_busy k n (user_buffers (cs_stream st2)) (cs_senders st2)) as Hl2.
  { refine (ack_loop_closed (fun s _ s' => sender_busy k n (user_buffers (cs_stream s)) (cs_senders s) ->
      sender_busy k n (user_buffers (cs_stream s')) (cs_senders s')) _ _ _ _ _ _ _ _ _ _ _ Hl Hw); [done|intros s; apply pop_front_busy|naive_solver]. }
  destruct (b =? 0); [by simplify_eq|].
  destruct (user_buffers (cs_stream st2)) as [|[fr ka] rest] eqn:Hb; simplify_eq. cbn [cs_stream cs_senders user_buffers with_buffers].
  intros cs Hk Hs. rewrite <- (Hl2 cs Hk Hs). unfold queued_chunks. rewrite !filter_cons. cbn. by case_decide.
Qed.

Lemma queue_initial_busy k k' m n st :
  sender_busy k m (user_buffers (cs_stream st)) (cs_senders st) ->
  let st' := (queue_initial n k' st).1 in
  sender_busy k (if decide (k' = k) then m + n else m) (user_buffers (cs_stream st')) (cs_senders st').
Proof.
  revert m st. induction n as [|n IH]; intros m st Hw; cbn [queue_initial]; [rewrite Nat.add_0_r; by case_decide|].
  apply (queue_next_chunk_busy _ k') in Hw. destruct (queue_next_chunk k' st) as [st1 e1]. specialize (IH _ st1 Hw).
  destruct (queue_initial n k' st1). case_decide; [|done]. by rewrite Nat.add_succ_r.
Qed.

Lemma stream_run_busy st hist acked lims k f n :
  stream_run st hist acked lims -> lims !! k = Some (f, n) ->
  sender_busy k (Z.to_nat n) (user_buffers (cs_stream st)) (cs_senders st).
Proof.
  intros Hr. revert k f n. induction Hr as [| st hist acked lims bs u Hr IH Ht
    | st hist acked lims g dn m st' e Hr IH Hs Ht | st hist acked lims m Hr IH Hm
    | st hist acked lims stale m st' e ub Hr IH Hn Hack Ht | st hist acked lims code Hr IH
    | st hist acked lims b Hr IH | st hist acked lims id Hr IH | st hist acked lims b Hr IH]; intros k f n0 Hk; try done; try by eapply IH.
  - intros cs Hc Hs. rewrite <- (IH _ _ _ Hk cs Hc Hs). unfold queued_chunks. cbn. by rewrite filter_app, filter_cons_False, filter_nil, app_nil_r.
  - unfold send_chunks in Hs. destruct (m <? 1); [done|]. injection Hs as Hs. destruct (stream_run_limits _ _ _ _ Hr) as [Hl Hi].
    match type of Hs with queue_initial ?a ?b ?c = _ => pose proof (queue_initial_busy k b) as Hq; specialize (fun j => Hq j a c); rewrite Hs in Hq end.
    apply lookup_app_Some in Hk as [Hk|[Hk0 Hk]].
    + assert (k < length (cs_senders st))%nat as Hlt by (rewrite <- Hl; by eapply lookup_lt_Some).
      specialize (Hq (Z.to_nat n0)). rewrite decide_False in Hq by lia. apply Hq.
      intros cs Hc. cbn [cs_senders] in Hc. rewrite lookup_app_l in Hc by done. by apply (IH _ _ _ Hk).
    + apply list_lookup_singleton_Some in Hk as [Hk [= <- <-]]. assert (k = length (cs_senders st)) as -> by lia.
      specialize (Hq 0%nat). rewrite decide_True in Hq by done. apply Hq. intros cs Hc _. cbn [cs_stream].
      specialize (Hi (length (cs_senders st))). unfold chunk_limit in Hi. rewrite lookup_ge_None_2 in Hi by lia.
      rewrite queued_chunks_none by (cbn in Hi; lia). done.
  - eapply acknowledge_busy; [by eapply IH|done].
  - destruct (Stream_close_frame (cs_stream st) code) as (Hb & _). cbn [cs_stream cs_senders]. rewrite Hb. by eapply IH.
Qed.

(** The last [n] chunks written are all there. *)
Lemma ring_memory_recent f n total i :
  (0 < n)%nat -> (forall j, (j < total)%nat -> f j <> []) -> (i < total <= i + n)%nat -> ring_memory f n total (i mod n) = f i.
Proof.
  intros Hn Hne. induction total as [|t IH]; intros Hi; [lia|]. cbn [ring_memory]. rewrite bool_decide_eq_false_2 by (apply Hne; lia). cbn [negb andb].
  destruct (i mod n =? t mod n)%nat eqn:E.
  - apply Nat.eqb_eq in E. f_equal. pose proof (Nat.div_mod i n ltac:(lia)). pose proof (Nat.div_mod t n ltac:(lia)).
    destruct (lt_eq_lt_dec (i / n) (t / n)) as [[?|Heq]|?]; [nia|rewrite Heq in *; lia|nia].
  - apply Nat.eqb_neq in E. apply IH; [intros j Hj; apply Hne; lia|]. split; [|lia]. destruct (decide (i = t)); [congruence|lia].
Qed.

Lemma window_memory f n cs first len i :
  (0 < n)%nat -> (len <= n)%nat -> (forall j, (j < first + len)%nat -> f j <> []) ->
  match next_chunk cs with Some g => g = f /\ calls cs = (first + len)%nat | None => calls cs = S (first + len) /\ f (first + len)%nat = [] end ->
  (first <= i < first + len)%nat -> ring_memory f n (calls cs) (i mod n) = f i.
Proof.
  intros Hn Hl Hne Hc Hi. destruct (next_chunk cs); destruct Hc as [Hc Hf].
  - rewrite Hf. apply ring_memory_recent; [done..|lia].
  - rewrite Hc. cbn [ring_memory]. rewrite bool_decide_eq_true_2 by done. cbn [negb andb]. apply ring_memory_recent; [done..|lia].
Qed.

(** The bytes of the queued chunks are those in the containers of the circular buffer. *)
Definition ring_safe (k : nat) (f : nat -> list Z) (n : nat) (st : chunk_state) : Prop :=
  exists cs first, cs_senders st !! k = Some cs /\
    Forall2 (fun b i => b.1 `suffix_of` ring_memory f n (calls cs) (i mod n))
      (queued_chunks k (user_buffers (cs_stream st))) (seq first (inflight k (cs_stream st))).

Lemma window_ring_safe k f n st :
  chunk_window k f (user_buffers (cs_stream st)) (cs_senders st) -> (0 < n)%nat -> (inflight k (cs_stream st) <= n)%nat ->
  ring_safe k f n st.
Proof.
  intros (cs & first & Hk & Hq & Hne & Hc) Hn Hi. exists cs, first. split; [done|]. unfold inflight in *. fold (queued_chunks k (user_buffers (cs_stream st))) in *.
  set (q := queued_chunks _ _) in *.
  apply Forall2_same_length_lookup_2; [by rewrite length_seq|]. intros j b i Hb Hi2. pose proof (Forall2_lookup_lr _ _ _ _ _ _ Hq Hb Hi2) as [Hs _].
  apply lookup_seq in Hi2 as [-> Hlt]. cbn beta in *. by rewrite (window_memory f n cs first (length q)) by (done || lia).
Qed.

Lemma stream_run_ring st hist acked lims k f n :
  stream_run st hist acked lims -> lims !! k = Some (f, n) -> ring_safe k f (Z.to_nat n) st.
Proof.
  intros Hr Hk. pose proof (stream_run_lims_pos _ _ _ _ _ _ _ Hr Hk). pose proof (stream_run_inflight _ _ _ _ _ _ _ Hr Hk).
  apply window_ring_safe; [by eapply stream_run_window|lia..].
Qed.

(** C27: the promise of [send_chunks]: at no time are more than [simultaneous] chunks of a sender queued or in
    flight, however sends, writes and acknowledgements interleave, and exactly as many until its callback has
    nothing left; so a callback may return pointers into a
    circular buffer of [simultaneous] containers: the containers still hold the bytes of every queued chunk. *)
Theorem send_chunks_simultaneous_bound (st : chunk_state) (hist : list Z) (acked : Z) (lims : list ((nat -> list Z) * Z))
    (k : nat) (f : nat -> list Z) (n : Z) :
  stream_run st hist acked lims -> lims !! k = Some (f, n) ->
  Z.of_nat (inflight k (cs_stream st)) <= n /\
  (forall cs, cs_senders st !! k = Some cs -> next_chunk cs <> None -> Z.of_nat (inflight k (cs_stream st)) = n) /\
  ring_safe k f (Z.to_nat n) st.
Proof.
  intros Hr Hk. split; [by eapply stream_run_inflight|]. split; [|by eapply stream_run_ring].
  intros cs Hcs Hn. pose proof (stream_run_busy _ _ _ _ _ _ _ Hr Hk cs Hcs Hn) as Hb.
  pose proof (stream_run_lims_pos _ _ _ _ _ _ _ Hr Hk). unfold inflight, queued_chunks in *. lia.
Qed.

Lemma send_chunks_simultaneous_bound_witness :
  exists st f, (Z.of_nat (inflight 0 (cs_stream st)) <= 2 /\
    (forall cs, cs_senders st !! 0%nat = Some cs -> next_chunk cs <> None -> Z.of_nat (inflight 0 (cs_stream st)) = 2) /\
    ring_safe 0 f 2 st) /\ inflight 0 (cs_stream st) = 2%nat.
Proof.
  pose (f := fun n => if (n <? 3)%nat then [Z.of_nat n; 0] else []).
  destruct (send_chunks f true 2 (mkCS (Stream_new None None 0) [])) as [[st' e]| | | |] eqn:E; try discriminate.
  exists st', f. assert (stream_run st' ([] ++ chunk_bytes e) 0 ([] ++ [(f, 2)])) as Hr.
  { eapply (run_chunks (mkCS (Stream_new None None 0) []) [] 0 [] f true 2); [constructor|done|].
    injection E as <- <-. reflexivity. }
  split; [apply (send_chunks_simultaneous_bound st' _ 0 [(f, 2)] 0 f 2 Hr); reflexivity|].
  injection E as <- <-. reflexivity.
Defined.

(** ** The end of a stream is signalled exactly once *)

(** Effects that end a stream: a shutdown sent to the peer, or the close callback. *)
Definition ends (e : effect) : bool :=
  match e with EShutdownStream _ _ | ECloseCb _ _ _ => true | _ => false end.
Definition n_ends (es : list effect) : nat := length (filter (fun e => ends e = true) es).

Lemma n_ends_app a b : n_ends (a ++ b) = (n_ends a + n_ends b)%nat.
Proof. unfold n_ends. by rewrite filter_app, length_app. Qed.

(** The life of one stream object and the effects it had so far. *)
Inductive stream_life : Stream -> list effect -> Prop :=
  | life_new dcb ccb id : stream_life (Stream_new dcb ccb id) []
  | life_ready s t b : stream_life s t -> stream_life (with_ready s b) t
  | life_id s t id : stream_life s t -> stream_life (with_id s id) t
  | life_send s t bs ka :
      stream_life s t -> stream_life (Stream_send s bs ka).1 (t ++ (Stream_send s bs ka).2)
  | life_wrote s t n : stream_life s t -> stream_life (Stream_wrote s n) t
  | life_fin s t : stream_life s t -> stream_life (with_fin s true) t
  | life_ack s t stale fuel n senders st' e ub :
      stream_life s t -> acknowledge stale fuel n (mkCS s senders) = Ok (st', e, ub) ->
      stream_life (cs_stream st') (t ++ e)
  | life_close s t code :
      stream_life s t -> stream_life (Stream_close s code).1 (t ++ (Stream_close s code).2)
  | life_closed s t code :
      stream_life s t -> stream_life (Stream_on_closed s code).1 (t ++ (Stream_on_closed s code).2).

(** The fields acknowledgements leave alone. *)
Definition ending (s : Stream) := (is_closing s, is_shutdown s, close_callback s, stream_id s, ready s).

Lemma queue_next_chunk_quiet k st :
  ending (cs_stream (queue_next_chunk k st).1) = ending (cs_stream st) /\
  n_ends (queue_next_chunk k st).2 = 0%nat.
Proof.
  unfold queue_next_chunk. destruct (cs_senders st !! k) as [cs|]; [|done].
  destruct (next_chunk cs) as [f|]; [|done].
  destruct (bool_decide _); [by destruct (has_done cs)|]. simpl. by destruct (ready (cs_stream st)).
Qed.

Lemma pop_front_quiet st :
  ending (cs_stream (pop_front st).1) = ending (cs_stream st) /\ n_ends (pop_front st).2 = 0%nat.
Proof.
  unfold pop_front. destruct (user_buffers (cs_stream st)) as [|[b [|u|k]] rest]; [done..|].
  destruct (queue_next_chunk_quiet k (mkCS (with_buffers (cs_stream st) rest) (cs_senders st))) as [-> ->].
  done.
Qed.

Lemma ack_loop_quiet stale fuel bytes st b st' e ub :
  ack_loop stale fuel bytes st = Ok (b, st', e, ub) ->
  ending (cs_stream st') = ending (cs_stream st) /\ n_ends e = 0%nat.
Proof.
  revert bytes st b st' e ub. induction fuel as [|fuel IH]; intros bytes st b st' e ub; cbn [ack_loop];
    destruct (user_buffers (cs_stream st)) as [|[f ka] rest]; split_if; intros H; simplify_eq; try done.
  destruct (pop_front st) as [st1 e1] eqn:Hpop.
  apply obind_ok in H as ([[[b2 st2] e2] ub2] & Hl & H). simplify_eq.
  apply IH in Hl as [Hen Hn]. destruct (pop_front_quiet st) as [Hp1 Hp2]. rewrite Hpop in *.
  rewrite n_ends_app, Hn, Hen. simpl in *. by rewrite Hp1, Hp2.
Qed.

Lemma acknowledge_quiet stale fuel bytes st st' e ub :
  acknowledge stale fuel bytes st = Ok (st', e, ub) ->
  ending (cs_stream st') = ending (cs_stream st) /\ n_ends e = 0%nat.
Proof.
  unfold acknowledge. intros [_ H]%assert_then_ok.
  apply obind_ok in H as ([[[b st2] e2] ub2] & Hl%ack_loop_quiet & H). simpl in Hl.
  destruct (b =? 0); simplify_eq; [done|].
  destruct (user_buffers (cs_stream st2)) as [|[f ka] rest]; simplify_eq. done.
Qed.

Lemma stream_life_inv s t :
  stream_life s t ->
  is_closing s = is_shutdown s /\ is_Some (close_callback s) /\
  n_ends t = if is_closing s then 1%nat else 0%nat.
Proof.
  induction 1 as [dcb ccb id|s t b Hl IH|s t id Hl IH|s t bs ka Hl IH|s t n Hl IH|s t Hl IH
    |s t stale fuel n senders st' e ub Hl IH Hack|s t code Hl IH|s t code Hl IH]; try done.
  - destruct IH as (H1 & H2 & H3). rewrite n_ends_app. simpl. split_and!; [done..|].
    rewrite H3. destruct (ready s); unfold n_ends; simpl; lia.
  - apply acknowledge_quiet in Hack as [Hen Hn]. injection Hen as E1 E2 E3 _ _. simpl in *.
    rewrite n_ends_app, Hn, E1, E2, E3, Nat.add_0_r. done.
  - destruct IH as (H1 & H2 & H3). rewrite n_ends_app, H3.
    destruct s as [? ? ? ? ? c sh ? ?]; simpl in *. subst c. by destruct sh.
  - destruct IH as (H1 & [cb H2] & H3). rewrite n_ends_app, H3.
    destruct s as [? ? ? ? ? c sh ? ?]; simpl in *. subst c close_callback0. destruct sh; simpl; split_and!; eauto.
Qed.

(** A chunk of sender [k] is queued, and the sender has another one. *)
Definition has_next (senders : list chunk_sender) (k : nat) : bool :=
  match senders !! k with
  | Some cs => match next_chunk cs with Some f => negb (bool_decide (f (calls cs) = [])) | None => false end
  | None => false
  end.
Definition refills (senders : list chunk_sender) (b : list Z * keep_alive) : bool :=
  match b.2 with KChunk k => has_next senders k | _ => false end.
Definition sends_on (st : chunk_state) : bool := existsb (refills (cs_senders st)) (user_buffers (cs_stream st)).

Lemma refills_ended senders k n d b :
  has_next senders k = false -> refills (<[k := mkSender None n d]> senders) b = refills senders b.
Proof.
  intros Hk. unfold refills. destruct (b.2) as [| |j]; [done..|]. unfold has_next at 1.
  destruct (decide (j = k)) as [->|Hne]; [|by rewrite list_lookup_insert_ne].
  rewrite Hk. destruct (decide (k < length senders)%nat) as [Hlt|Hge].
  - by rewrite list_lookup_insert_eq.
  - by rewrite list_insert_ge, lookup_ge_None_2 by lia.
Qed.

Lemma drop_buffers_outcome bufs senders :
  if existsb (refills senders) bufs then drop_buffers bufs senders = Undefined
  else exists e, drop_buffers bufs senders = Ok e /\ n_ends e = 0%nat.
Proof.
  revert senders. induction bufs as [|[b [|u|k]] bufs IH]; intros senders; cbn [existsb drop_buffers]; [by eexists|apply IH..|].
  unfold refills at 1, has_next. cbn [snd]. destruct (senders !! k) as [[[f|] n d]|] eqn:Hk; cbn [next_chunk calls]; [|apply IH..].
  case_bool_decide as Hf; cbn [negb orb]; [|done]. specialize (IH (<[k := mkSender None (S n) d]> senders)).
  assert (has_next senders k = false) as Hno by (unfold has_next; rewrite Hk; cbn; by rewrite bool_decide_true).
  assert (existsb (refills (<[k := mkSender None (S n) d]> senders)) bufs = existsb (refills senders) bufs) as E.
  { clear - Hno. induction bufs as [|b bufs IH]; [done|]. cbn. by rewrite IH, refills_ended. }
  rewrite E in IH. destruct (existsb _ bufs); [by rewrite IH|]. destruct IH as (e & -> & He). eexists. split; [done|].
  rewrite n_ends_app, He. by destruct d.
Qed.

(** Giving up the last reference to a stream. *)
Lemma Stream_release_outcome (st : chunk_state) :
  if sends_on st then Stream_release true st = Undefined
  else exists e, Stream_release true st = Ok (Stream_destroy (cs_stream st) ++ e) /\ n_ends e = 0%nat.
Proof.
  unfold sends_on, Stream_release. pose proof (drop_buffers_outcome (user_buffers (cs_stream st)) (cs_senders st)) as H.
  destruct (existsb _ _); [by rewrite H|]. destruct H as (e & -> & He). by exists e.
Qed.

(** C6: destroying a stream: it is undefined exactly if a buffer of [send_chunks] is still queued whose sender has
    another chunk, because that chunk is added to the queue that is being destroyed; otherwise the
    stream's end has been signalled exactly once over its life, the destructor included. *)
Theorem stream_destruction (s : Stream) (senders : list chunk_sender) (t : list effect) :
  stream_life s t ->
  (Stream_release true (mkCS s senders) = Undefined <-> sends_on (mkCS s senders) = true) /\
  (sends_on (mkCS s senders) = false -> exists e, Stream_release true (mkCS s senders) = Ok e /\ n_ends (t ++ e) = 1%nat).
Proof.
  intros (H1 & [cb H2] & H3)%stream_life_inv. pose proof (Stream_release_outcome (mkCS s senders)) as H.
  destruct (sends_on _); [by rewrite H|]. destruct H as (e & -> & He). split; [done|]. intros _. eexists. split; [done|].
  rewrite !n_ends_app, H3, He. unfold Stream_destroy, call_close_cb. cbn. rewrite H2. by destruct (is_closing s).
Qed.

(** A stream with three chunks to send, two at a time, is destroyed before anything was acknowledged. *)
Lemma stream_destruction_witness :
  let f n := if (n <? 3)%nat then [Z.of_nat n; 0] else [] in
  exists s senders e, send_chunks f true 2 (mkCS (Stream_new None None 0) []) = Ok (mkCS s senders, e) /\
    Stream_release true (mkCS s senders) = Undefined.
Proof.
  intros f.
  set (s1 := (Stream_send (Stream_new None None 0) [0; 0] (KChunk 0)).1).
  set (s2 := (Stream_send s1 [1; 0] (KChunk 0)).1).
  assert (stream_life s2 (([] ++ []) ++ [])) as Hl.
  { apply (life_send s1 ([] ++ []) [1; 0] (KChunk 0)), (life_send (Stream_new None None 0) [] [0; 0] (KChunk 0)), life_new. }
  exists s2, [mkSender (Some f) 2 true], [ENextChunk 0 [0; 0]; ENextChunk 0 [1; 0]]. split; [reflexivity|].
  apply (stream_destruction s2 [mkSender (Some f) 2 true] _ Hl). reflexivity.
Defined.

(** Over the whole life of a stream, its end is signalled exactly once: either the stream was
    closed locally and the peer got one shutdown, or the close callback ran once (with the
    peer's code, or with the connection-expired code from the destructor); and the two closing
    flags always agree, so the "already closing" branch of [Stream::close] is never taken. *)
Theorem stream_end_signalled_once (s : Stream) (t : list effect) :
  stream_life s t ->
  n_ends (t ++ Stream_destroy s) = 1%nat /\ is_closing s = is_shutdown s.
Proof.
  intros (H1 & [cb H2] & H3)%stream_life_inv. split; [|done].
  rewrite n_ends_app, H3. unfold Stream_destroy, call_close_cb. simpl. rewrite H2.
  by destruct (is_closing s).
Qed.

Lemma stream_end_signalled_once_witness :
  let s := Stream_new (Some 1%nat) None 0 in
  n_ends (([] ++ (Stream_close s 9).2) ++ Stream_destroy (Stream_close s 9).1) = 1%nat /\
  is_closing (Stream_close s 9).1 = is_shutdown (Stream_close s 9).1.
Proof. intros s. apply stream_end_signalled_once. apply life_close. apply life_new. Defined.
