(* ===== verification/Udp.v ===== *)
(** * The UDP socket

    Models include/quic/udp.hpp and src/udp.cpp (the non-Windows code; construction is in Setup.v): receiving
    (with recvmmsg and with recvmsg), sending (with GSO, with sendmmsg and with sendmsg) and the
    writeable callbacks.  System calls are answered by lists of responses, one per call, which are
    arguments of the definitions; a run that needs more responses than it is given is
    [OutOfFuel]. *)
From S2P Require Import Prelude Utils.
Import Addr Io.

(** ** System-call responses *)

(** One ancillary message: level, type, length and its first data byte. *)
Record cmsg := mkCmsg { cmsg_level : Z; cmsg_type : Z; cmsg_len : Z; cmsg_byte : Z }.
Definition IPPROTO_IP : Z := 0.
Definition IPPROTO_IPV6 : Z := 41.
Definition IP_TOS : Z := 1.
Definition IPV6_TCLASS : Z := 67.
Definition MSG_TRUNC : Z := 32.

(** A received datagram as the kernel has it: [r_cmsgs n] is the ancillary data it stores into a
    control buffer of [n] bytes. *)
Record raw_msg := mkRaw {
  r_payload : list Z; r_name : list Z; r_namelen : Z; r_flags : Z; r_cmsgs : Z -> list cmsg }.

(** The header after the call. *)
Record msghdr := mkHdr { msg_name : list Z; msg_namelen : Z; msg_flags : Z; msg_control : list cmsg }.

(** The answer of recvmmsg (or recvmsg, with one message): -1 with errno, or the messages. *)
Inductive recv_resp := RErr (errno : Z) | RMsgs (ms : list raw_msg).
(** The answer of sendmmsg: -1 with errno, or the [msg_len] of each message it accepted. *)
Inductive send_resp := SErr (errno : Z) | SSent (lens : list Z).

Module Udp.
(** [check_rv]. *)
Definition check_rv (rv errno : Z) : outcome Z :=
  if rv =? -1 then Throw (system_error errno) else Ok rv.

Record Packet := mkPacket { pkt_path : Path; pkt_data : list Z; pkt_ecn : Z }.

(** The ECN loop of the [Packet] constructor: the first matching ancillary message. *)
Fixpoint find_ecn (v4 : bool) (l : list cmsg) : Z :=
  match l with
  | [] => 0
  | c :: l' =>
      if (if v4 then (cmsg_level c =? IPPROTO_IP) && (cmsg_type c =? IP_TOS)
          else (cmsg_level c =? IPPROTO_IPV6) && (cmsg_type c =? IPV6_TCLASS)) && (0 <? cmsg_len c)
      then cmsg_byte c
      else find_ecn v4 l'
  end.

Definition Packet_new (local : Address) (data : list Z) (hdr : msghdr) : outcome Packet :=
  let* remote := Address_sockaddr (msg_name hdr) (msg_namelen hdr) in
  assert_then (is_ipv4 remote || is_ipv6 remote)
    (Ok (mkPacket (mkPath local remote) data (find_ecn (is_ipv4 remote) (msg_control hdr)))).

(** [UDPSocket::process_packet]: the packet handed to the receive callback, if any. *)
Definition process_packet (bound : Address) (payload : list Z) (hdr : msghdr) : outcome (option Packet) :=
  if bool_decide (payload = []) then Ok None
  else if negb (Z.land MSG_TRUNC (msg_flags hdr) =? 0) then Ok None
  else let* p := Packet_new bound payload hdr in Ok (Some p).

(** The header [receive] passes has neither [msg_control] nor [msg_controllen] set. *)
Definition filled_hdr (m : raw_msg) : msghdr := mkHdr (r_name m) (r_namelen m) (r_flags m) (r_cmsgs m 0).

Fixpoint process_batch (bound : Address) (ms : list raw_msg) : outcome (list Packet) :=
  match ms with
  | [] => Ok []
  | m :: ms' =>
      let* o := process_packet bound (r_payload m) (filled_hdr m) in
      let* ps := process_batch bound ms' in
      Ok (match o with Some p => p :: ps | None => ps end)
  end.

(** [UDPSocket::receive] with OXEN_LIBQUIC_RECVMMSG: the result, the packets delivered and the
    number of datagrams taken from the socket. *)
Fixpoint receive_mmsg (bound : Address) (count : Z) (resps : list recv_resp) :
    outcome (io_result * list Packet * Z) :=
  match resps with
  | [] => OutOfFuel
  | RErr errno :: rs =>
      if errno =? EINTR then receive_mmsg bound count rs
      else if (errno =? EAGAIN) || (errno =? EWOULDBLOCK) then Ok (io_errno 0, [], count)
      else Ok (io_errno errno, [], count)
  | RMsgs ms :: rs =>
      if zlen ms =? 0 then Ok (io_errno 0, [], count)
      else
        let* ps := process_batch bound ms in
        let count' := u64 (count + zlen ms) in
        if zlen ms <? Z.of_nat DATAGRAM_BATCH_SIZE then Ok (io_errno 0, ps, count')
        else if count' <? MAX_RECEIVE_PER_LOOP then
          let* (r, ps', c) := receive_mmsg bound count' rs in Ok (r, ps ++ ps', c)
        else Ok (io_errno 0, ps, count')
  end.

(** [UDPSocket::receive] without recvmmsg: one datagram per call. *)
Fixpoint receive_msg (bound : Address) (count : Z) (resps : list recv_resp) :
    outcome (io_result * list Packet * Z) :=
  match resps with
  | [] => OutOfFuel
  | RErr errno :: rs =>
      if errno =? EINTR then receive_msg bound count rs
      else if (errno =? EAGAIN) || (errno =? EWOULDBLOCK) then Ok (io_errno 0, [], count)
      else Ok (io_errno errno, [], count)
  | RMsgs ms :: rs =>
      let* ps := process_batch bound (take 1 ms) in
      let count' := u64 (count + 1) in
      if count' <? MAX_RECEIVE_PER_LOOP then
        let* (r, ps', c) := receive_msg bound count' rs in Ok (r, ps ++ ps', c)
      else Ok (io_errno 0, ps, count')
  end.

(** [UDPSocket::receive]: [mmsg] is OXEN_LIBQUIC_RECVMMSG, a choice of the build. *)
Definition UDPSocket_receive (mmsg : bool) (bound : Address) (resps : list recv_resp) : outcome (io_result * list Packet * Z) :=
  if mmsg then receive_mmsg bound 0 resps else receive_msg bound 0 resps.

(** ** Sending with GSO *)

(** One element of [msgs]: where its bytes start in the buffer, [iov_len], the packet size and
    count of the batch, and the index into [controls] when a UDP_SEGMENT header is attached. *)
Record gso_msg := mkGso { g_base : Z; g_len : Z; g_size : Z; g_count : Z; g_ctl : option nat }.

(** The batching loop: [sizes] are [bufsize[i..n_pkts)], [mc] is [msg_count], [nb] the offset of
    [next_buf], and [gso_size]/[gso_count] the slots of the batch under construction. *)
Fixpoint gso_build (sizes : list Z) (mc : nat) (nb gso_size gso_count : Z) : list gso_msg :=
  match sizes with
  | [] => []
  | sz :: rest =>
      let count := u16 (gso_count + 1) in
      let size := if gso_size =? 0 then u16 sz else gso_size in
      let emit :=
        mkGso nb (count * size) size count (if 1 <? count then Some (S mc) else None)
        :: gso_build rest (S mc) (nb + count * size) 0 0 in
      match rest with
      | sz' :: _ => if sz' =? size then gso_build rest mc nb size count else emit
      | [] => emit
      end
  end.

(** The loop that counts the packets that went out, with the debug build's assertions. *)
Fixpoint gso_sent (msgs : list gso_msg) (lens : list Z) (found_unsent : bool) : outcome Z :=
  match msgs, lens with
  | m :: ms, len :: ls =>
      if len <? g_len m then
        assert_then (negb found_unsent || (len =? 0))
          (if g_size m =? 0 then Undefined
           else assert_then (len mod g_size m =? 0)
                  (let* r := gso_sent ms ls true in Ok (len / g_size m + r)))
      else assert_then (negb found_unsent) (let* r := gso_sent ms ls found_unsent in Ok (g_count m + r))
  | _, _ => Ok 0
  end.

(** [do { rv = sendmmsg(...); } while (rv == -1 && errno == EINTR)]. *)
Fixpoint retry_eintr (resps : list send_resp) : option (send_resp * list send_resp) :=
  match resps with
  | [] => None
  | SErr e :: rs => if e =? EINTR then retry_eintr rs else Some (SErr e, rs)
  | r :: rs => Some (r, rs)
  end.

(** The sendmsg loop: [i] packets were sent; a failure ends it. *)
Fixpoint sendmsg_loop (sizes : list Z) (sent : Z) (resps : list send_resp) :
    outcome (io_result * Z * list send_resp) :=
  match sizes with
  | [] => Ok (io_errno 0, sent, resps)
  | sz :: rest =>
      assert_then (0 <? sz)
        match resps with
        | [] => OutOfFuel
        | SErr e :: rs => Ok (io_errno e, sent, rs)
        | SSent lens :: rs =>
            assert_then (bool_decide (lens = [sz])) (sendmsg_loop rest (sent + 1) rs)
        end
  end.

Record UDPSocket := mkSock { bound : Address; ecn : Z; ecn_updates : list Z; writeable : list nat; wev_added : bool }.

(** [if (ecn != ecn_) { ecn_ = ecn; set_ecn(); }]: [ecn_updates] logs the setsockopt calls. *)
Definition update_ecn (s : UDPSocket) (e : Z) : UDPSocket :=
  if e =? ecn s then s else mkSock (bound s) e (ecn_updates s ++ [e]) (writeable s) (wev_added s).

(** [UDPSocket::send]: the io_result, the number of packets sent, and the unused responses. *)
Definition UDPSocket_send (mode : send_mode) (s : UDPSocket) (bufsize : list Z) (e : Z) (n_pkts : nat)
    (resps : list send_resp) : outcome (UDPSocket * io_result * Z * list send_resp) :=
  let s' := update_ecn s e in
  let sizes := take n_pkts bufsize in
  match mode with
  | SEND_GSO =>
      let msgs := gso_build sizes 0 0 0 0 in
      match retry_eintr resps with
      | None => OutOfFuel
      | Some (SErr err, rs) => Ok (s', io_errno err, 0, rs)
      | Some (SSent lens, rs) =>
          let* sent := gso_sent msgs (lens ++ replicate (length msgs - length lens) 0) false in
          Ok (s', io_errno 0, sent, rs)
      end
  | SEND_SENDMMSG =>
      assert_then (forallb (fun sz => 0 <? sz) sizes)
        match retry_eintr resps with
        | None => OutOfFuel
        | Some (SErr err, rs) => Ok (s', io_errno err, 0, rs)
        | Some (SSent lens, rs) => Ok (s', io_errno 0, zlen lens, rs)
        end
  | SEND_SENDMSG =>
      let* (r, sent, rs) := sendmsg_loop sizes 0 resps in Ok (s', r, sent, rs)
  end.

(** [UDPSocket::when_writeable]: callbacks are named by numbers; [event_add(wev_)]. *)
Definition when_writeable (s : UDPSocket) (cb : nat) : UDPSocket :=
  mkSock (bound s) (ecn s) (ecn_updates s) (writeable s ++ [cb]) true.

(** The handler of [wev_] (a one-shot event): the callbacks to run, in order, and the socket
    with an empty list, to which they may add themselves again. *)
Definition on_writeable (s : UDPSocket) : list nat * UDPSocket :=
  (writeable s, mkSock (bound s) (ecn s) (ecn_updates s) [] false).
End Udp.
Export Udp.

(** ** Receiving *)

(** What recvmmsg guarantees: at most as many messages as there are slots, and no ancillary data
    in a control buffer of length 0. *)
Definition recv_ok (r : recv_resp) : Prop :=
  match r with
  | RErr _ => True
  | RMsgs ms => (length ms <= DATAGRAM_BATCH_SIZE)%nat /\ Forall (fun m => r_cmsgs m 0 = []) ms
  end.

Lemma process_batch_packets bound ms ps :
  process_batch bound ms = Ok ps ->
  (length ps <= length ms)%nat /\
  Forall (fun p => exists m, m ∈ ms /\ pkt_data p = r_payload m /\ r_payload m <> [] /\
            Z.land MSG_TRUNC (r_flags m) = 0 /\ local (pkt_path p) = bound /\
            (r_cmsgs m 0 = [] -> pkt_ecn p = 0)) ps.
Proof.
  revert ps. induction ms as [|m ms IH]; intros ps H; simpl in H; simplify_eq; [done|].
  apply obind_ok in H as (o & Ho & H). apply obind_ok in H as (ps' & Hps' & H). simplify_eq.
  destruct (IH _ Hps') as [Hl HF].
  assert (Forall (fun p => exists m', m' ∈ m :: ms /\ pkt_data p = r_payload m' /\ r_payload m' <> [] /\
    Z.land MSG_TRUNC (r_flags m') = 0 /\ local (pkt_path p) = bound /\
    (r_cmsgs m' 0 = [] -> pkt_ecn p = 0)) ps') as HF'.
  { eapply Forall_impl; [exact HF|]. intros p (m' & ? & ?). exists m'. split; [by right|done]. }
  destruct o as [p|]; simpl; split; try lia; [|done]. constructor; [|done].
  unfold process_packet in Ho. destruct (bool_decide (r_payload m = [])) eqn:Ee; [done|].
  apply bool_decide_eq_false in Ee. cbn [filled_hdr msg_flags] in Ho.
  destruct (negb _) eqn:Et; [done|]. bools. apply obind_ok in Ho as (p' & Hp & Ho). simplify_eq.
  unfold Packet_new in Hp. apply obind_ok in Hp as (rem & _ & Hp).
  apply assert_then_ok in Hp as [_ Hp]. simplify_eq. simpl. exists m.
  split_and!; [by left|done..|]. by intros ->.
Qed.

Lemma receive_mmsg_bound bound k count resps r ps c :
  0 <= k -> count = 24 * k -> count < MAX_RECEIVE_PER_LOOP -> Forall recv_ok resps ->
  receive_mmsg bound count resps = Ok (r, ps, c) ->
  count <= c <= 72 /\ zlen ps <= c - count /\ Forall (fun p => pkt_ecn p = 0 /\ pkt_data p <> []) ps.
Proof.
  unfold MAX_RECEIVE_PER_LOOP. revert k count ps c. induction resps as [|[e|ms] rs IH]; intros k count ps c Hk Hc Hlt HF H; simpl in H; [done|..];
    inversion HF as [|? ? Hr HF']; subst.
  { destruct (e =? EINTR); [by eapply IH|]. assert (zlen (@nil Packet) = 0) by done.
    destruct ((e =? EAGAIN) || (e =? EWOULDBLOCK)); simplify_eq; split_and!; lia || done. }
  destruct (zlen ms =? 0) eqn:E0; simplify_eq.
  { assert (zlen (@nil Packet) = 0) by done. split_and!; lia || done. }
  apply obind_ok in H as (ps1 & Hps1 & H). bools.
  destruct (process_batch_packets _ _ _ Hps1) as [Hl1 HF1]. destruct Hr as [Hlen Hcm].
  unfold DATAGRAM_BATCH_SIZE, MAX_RECEIVE_PER_LOOP in *.
  rewrite u64_small in H by (unfold is_u64, zlen in *; lia).
  assert (Forall (fun p => pkt_ecn p = 0 /\ pkt_data p <> []) ps1) as HE.
  { eapply Forall_impl; [exact HF1|]. intros p (m & Hm & Hd & Hne & _ & _ & He).
    rewrite Forall_forall in Hcm. split; [by apply He, Hcm|by rewrite Hd]. }
  change (Z.of_nat 24) with 24 in H.
  destruct (zlen ms <? 24) eqn:E1; bools; [simplify_eq; unfold zlen in *; split_and!; lia || done|].
  destruct (24 * k + zlen ms <? 64) eqn:E2; bools; [|simplify_eq; unfold zlen in *; split_and!; lia || done].
  apply obind_ok in H as ([[r' ps'] c'] & Hrec & H). simplify_eq.
  assert (zlen ms = 24) as Hms by (unfold zlen in *; lia). rewrite Hms in *.
  destruct (IH (k + 1) (24 * k + 24) ps' c) as (Hc1 & Hc2 & Hc3); try done; try lia.
  rewrite zlen_app, Forall_app. unfold zlen in *. split_and!; lia || done.
Qed.

Lemma receive_msg_bound bound count resps r ps c :
  0 <= count < MAX_RECEIVE_PER_LOOP -> receive_msg bound count resps = Ok (r, ps, c) ->
  count <= c <= MAX_RECEIVE_PER_LOOP /\ zlen ps <= c - count /\ Forall (fun p => pkt_data p <> []) ps.
Proof.
  unfold MAX_RECEIVE_PER_LOOP. revert count ps c. induction resps as [|[e|ms] rs IH]; intros count ps c Hc H; simpl in H; [done|..].
  { destruct (e =? EINTR); [by eapply IH|]. assert (zlen (@nil Packet) = 0) by done.
    destruct ((e =? EAGAIN) || (e =? EWOULDBLOCK)); simplify_eq; split_and!; lia || done. }
  apply obind_ok in H as (ps1 & Hps1 & H). destruct (process_batch_packets _ _ _ Hps1) as [Hl1 HF1].
  rewrite length_take in Hl1. assert (Forall (fun p => pkt_data p <> []) ps1) as HE.
  { eapply Forall_impl; [exact HF1|]. intros p (m & _ & -> & Hne & _). exact Hne. }
  unfold MAX_RECEIVE_PER_LOOP in *. rewrite u64_small in H by (unfold is_u64; lia).
  destruct (count + 1 <? 64) eqn:E; bools; [|simplify_eq; unfold zlen in *; split_and!; lia || done].
  apply obind_ok in H as ([[r' ps'] c'] & Hrec & H). simplify_eq. destruct (IH (count + 1) ps' c) as (Hc1 & Hc2 & Hc3); [lia|done|].
  rewrite zlen_app, Forall_app. unfold zlen in *. split_and!; lia || done.
Qed.

(** The datagrams the kernel handed over, and a packet that is one of them, whole. *)
Definition datagrams (resps : list recv_resp) : list raw_msg :=
  concat (map (fun r => match r with RErr _ => [] | RMsgs ms => ms end) resps).
Definition intact (bound : Address) (ms : list raw_msg) (p : Packet) : Prop :=
  exists m, m ∈ ms /\ pkt_data p = r_payload m /\ r_payload m <> [] /\ Z.land MSG_TRUNC (r_flags m) = 0 /\
    local (pkt_path p) = bound.

Lemma intact_mono bound ms ms' ps : ms ⊆ ms' -> Forall (intact bound ms) ps -> Forall (intact bound ms') ps.
Proof. intros Hs HF. eapply Forall_impl; [exact HF|]. intros p (m & Hm & Hp). exists m. auto. Qed.

Lemma process_batch_intact bound ms ps : process_batch bound ms = Ok ps -> Forall (intact bound ms) ps.
Proof.
  intros [_ HF]%process_batch_packets. eapply Forall_impl; [exact HF|]. intros p (m & ? & ? & ? & ? & ? & _). by exists m.
Qed.

Lemma receive_intact (mmsg : bool) bound count resps r ps c :
  (if mmsg then receive_mmsg else receive_msg) bound count resps = Ok (r, ps, c) -> Forall (intact bound (datagrams resps)) ps.
Proof.
  revert count r ps c. induction resps as [|[e|ms] rs IH]; intros count r ps c H; [by destruct mmsg|..].
  { assert ((if mmsg then receive_mmsg else receive_msg) bound count (RErr e :: rs) =
      if e =? EINTR then (if mmsg then receive_mmsg else receive_msg) bound count rs
      else if (e =? EAGAIN) || (e =? EWOULDBLOCK) then Ok (io_errno 0, [], count) else Ok (io_errno e, [], count)) as Hs by (by destruct mmsg).
    rewrite Hs in H. destruct (e =? EINTR); [by eapply IH|]. by destruct ((e =? EAGAIN) || (e =? EWOULDBLOCK)); simplify_eq. }
  assert (ms ⊆ datagrams (RMsgs ms :: rs)) as S1 by (intros m Hm; apply elem_of_app; by left).
  assert (datagrams rs ⊆ datagrams (RMsgs ms :: rs)) as S2 by (intros m Hm; apply elem_of_app; by right).
  destruct mmsg; cbn [receive_mmsg receive_msg] in H.
  - destruct (zlen ms =? 0); [by simplify_eq|]. apply obind_ok in H as (ps1 & Hp%process_batch_intact & H).
    destruct (zlen ms <? _); [simplify_eq; exact (intact_mono _ _ _ _ S1 Hp)|]. destruct (_ <? MAX_RECEIVE_PER_LOOP); [|simplify_eq; exact (intact_mono _ _ _ _ S1 Hp)].
    apply obind_ok in H as ([[r' ps'] c'] & Hrec%IH & H). simplify_eq. apply Forall_app. split; [exact (intact_mono _ _ _ _ S1 Hp)|exact (intact_mono _ _ _ _ S2 Hrec)].
  - apply obind_ok in H as (ps1 & Hp%process_batch_intact & H).
    assert (Forall (intact bound (datagrams (RMsgs ms :: rs))) ps1) as Hp'.
    { eapply intact_mono; [|exact Hp]. intros m Hm. apply S1. rewrite <- (take_drop 1 ms). apply elem_of_app. by left. }
    destruct (_ <? MAX_RECEIVE_PER_LOOP); [|by simplify_eq].
    apply obind_ok in H as ([[r' ps'] c'] & Hrec%IH & H). simplify_eq. apply Forall_app. split; [done|exact (intact_mono _ _ _ _ S2 Hrec)].
Qed.

(** A response that is not an interrupted call; a datagram with a source address of the socket's kind. *)
Definition answered (r : recv_resp) : bool :=
  match r with RErr e => negb (e =? EINTR) | RMsgs _ => true end.
Definition from_inet (m : raw_msg) : Prop :=
  exists a, Address_sockaddr (r_name m) (r_namelen m) = Ok a /\ is_ipv4 a || is_ipv6 a = true.

Lemma process_batch_ok bound ms : Forall from_inet ms -> exists ps, process_batch bound ms = Ok ps.
Proof.
  induction 1 as [|m ms (a & Ha & Hf) _ (ps & IH)]; [by eexists|]. cbn [process_batch]. rewrite IH.
  unfold process_packet, Packet_new. cbn [filled_hdr msg_name msg_namelen msg_flags msg_control].
  rewrite Ha. cbn [obind]. rewrite Hf. repeat case_match; by eexists.
Qed.

Lemma receive_mmsg_returns bound k count resps :
  0 <= k < 3 -> count = 24 * k -> Forall recv_ok resps -> Forall from_inet (datagrams resps) ->
  (3 <= Z.to_nat k + length (filter (fun r => answered r = true) resps))%nat ->
  exists r ps c, receive_mmsg bound count resps = Ok (r, ps, c).
Proof.
  revert k count. induction resps as [|[e|ms] rs IH]; intros k count Hk -> HF HI Hn; cbn [receive_mmsg].
  { simpl in Hn. lia. }
  all: inversion HF as [|? ? Hr HF']; subst; rewrite filter_cons in Hn; simpl in Hn.
  - destruct (e =? EINTR); simpl in Hn; [by apply (IH k)|]. case_match; by do 3 eexists.
  - destruct (zlen ms =? 0) eqn:E0; [by do 3 eexists|]. bools.
    apply Forall_app in HI as [HI HI']. destruct (process_batch_ok bound ms HI) as [ps ->]. cbn [obind].
    destruct Hr as [Hlen _]. unfold DATAGRAM_BATCH_SIZE in *. change (Z.of_nat 24) with 24.
    destruct (zlen ms <? 24) eqn:E1; [by do 3 eexists|]. bools.
    assert (zlen ms = 24) as -> by (unfold zlen in *; lia).
    rewrite u64_small by (unfold is_u64; lia). unfold MAX_RECEIVE_PER_LOOP.
    destruct (24 * k + 24 <? 64) eqn:E2; [|by do 3 eexists]. bools.
    destruct (IH (k + 1) (24 * k + 24)) as (r & ps' & c & ->); try done; try lia. by do 3 eexists.
Qed.

Lemma receive_msg_returns bound count resps :
  0 <= count < 64 -> Forall from_inet (datagrams resps) ->
  (64 <= Z.to_nat count + length (filter (fun r => answered r = true) resps))%nat ->
  exists r ps c, receive_msg bound count resps = Ok (r, ps, c).
Proof.
  revert count. induction resps as [|[e|ms] rs IH]; intros count Hk HI Hn; cbn [receive_msg].
  { simpl in Hn. lia. }
  all: rewrite filter_cons in Hn; simpl in Hn.
  - destruct (e =? EINTR); simpl in Hn; [by apply IH|]. case_match; by do 3 eexists.
  - apply Forall_app in HI as [HI HI']. destruct (process_batch_ok bound (take 1 ms)) as [ps ->]; [by apply Forall_take|]. cbn [obind].
    rewrite u64_small by (unfold is_u64; lia). unfold MAX_RECEIVE_PER_LOOP.
    destruct (count + 1 <? 64) eqn:E2; [|by do 3 eexists]. bools.
    destruct (IH (count + 1)) as (r & ps' & c & ->); try done; try lia. by do 3 eexists.
Qed.

(** C30: one call of [receive], in either build, comes back and takes a bounded number of datagrams off the
    socket: if every datagram has an IPv4 or IPv6 source, it returns after at most three answered calls of
    recvmmsg, or 64 of recvmsg, however often a call is interrupted; it has then taken at most 72 datagrams with
    recvmmsg, i.e. MAX_RECEIVE_PER_LOOP rounded up to a multiple of the batch size, and at most
    MAX_RECEIVE_PER_LOOP with recvmsg; it never delivers more packets than it took, and each
    packet delivered is the whole payload of a datagram the kernel handed over that was neither
    empty nor truncated, marked with the socket's own address as its local end. *)
Theorem receive_bounded (mmsg : bool) (bound : Address) (resps : list recv_resp) :
  Forall recv_ok resps ->
  (Forall from_inet (datagrams resps) ->
     ((if mmsg then 3 else 64) <= length (filter (fun r => answered r = true) resps))%nat ->
     exists r ps c, UDPSocket_receive mmsg bound resps = Ok (r, ps, c)) /\
  (forall r ps c, UDPSocket_receive mmsg bound resps = Ok (r, ps, c) ->
     0 <= c <= (if mmsg then 72 else 64) /\ zlen ps <= c /\ Forall (intact bound (datagrams resps)) ps).
Proof.
  intros HF. split.
  { intros HI Hn. destruct mmsg; [apply (receive_mmsg_returns bound 0)|apply (receive_msg_returns bound 0)]; done || lia. }
  intros r ps c H. assert (Forall (intact bound (datagrams resps)) ps) as Hi by (apply (receive_intact mmsg bound 0 resps r ps c); by destruct mmsg).
  destruct mmsg; cbn in H.
  - destruct (receive_mmsg_bound bound 0 0 resps r ps c) as (H1 & H2 & _); try done; try lia. split_and!; lia || done.
  - destruct (receive_msg_bound bound 0 resps r ps c) as (H1 & H2 & _); [done..|]. unfold MAX_RECEIVE_PER_LOOP in H1. split_and!; lia || done.
Qed.

Definition example_raw : raw_msg :=
  mkRaw [9; 9] ([2; 0; 21; 124; 127; 0; 0; 1] ++ replicate 8 0) 16 0 (fun n => if n =? 0 then [] else [mkCmsg 0 1 1 3]).

Lemma example_raw_from : from_inet example_raw.
Proof. eexists. split; reflexivity. Qed.

Lemma receive_bounded_witness :
  let full := RMsgs (replicate 24 example_raw) in
  (exists r ps c, UDPSocket_receive true Address_default [full; RErr EINTR; full; full] = Ok (r, ps, c) /\ 0 <= c <= 72 /\ zlen ps <= c) /\
  (exists r ps c, UDPSocket_receive false Address_default (RErr EINTR :: replicate 64 (RMsgs [example_raw])) = Ok (r, ps, c) /\
     0 <= c <= 64 /\ zlen ps <= c).
Proof.
  intros full. split.
  - destruct (receive_bounded true Address_default [full; RErr EINTR; full; full]) as [(r & ps & c & Hr) Hb].
    { repeat constructor; simpl; try lia. }
    { cbn. repeat (constructor; [exact example_raw_from|]). constructor. }
    { vm_compute. lia. }
    destruct (Hb _ _ _ Hr) as (H1 & H2 & _). exists r, ps, c. exact (conj Hr (conj H1 H2)).
  - destruct (receive_bounded false Address_default (RErr EINTR :: replicate 64 (RMsgs [example_raw]))) as [(r & ps & c & Hr) Hb].
    { repeat constructor; simpl; try lia. }
    { cbn. repeat (constructor; [exact example_raw_from|]). constructor. }
    { vm_compute. lia. }
    destruct (Hb _ _ _ Hr) as (H1 & H2 & _). exists r, ps, c. exact (conj Hr (conj H1 H2)).
Defined.

(** [receive] passes no control buffer to the kernel, so the ECN mark of every packet it
    delivers is 0, although the constructor asks the kernel to report it. *)
Theorem receive_never_reports_ecn (bound : Address) (resps : list recv_resp) (r : io_result) (ps : list Packet) (c : Z) :
  Forall recv_ok resps -> receive_mmsg bound 0 resps = Ok (r, ps, c) ->
  Forall (fun p => pkt_ecn p = 0) ps.
Proof.
  intros HF H. destruct (receive_mmsg_bound bound 0 0 resps r ps c) as (_ & _ & H3); try done; try lia.
  eapply Forall_impl; [exact H3|]. naive_solver.
Qed.

Lemma receive_never_reports_ecn_witness :
  exists r ps c, receive_mmsg Address_default 0 [RMsgs [example_raw]] = Ok (r, ps, c) /\
  length ps = 1%nat /\ Forall (fun p => pkt_ecn p = 0) ps.
Proof.
  do 3 eexists. split; [reflexivity|]. split; [reflexivity|].
  eapply (receive_never_reports_ecn Address_default [RMsgs [example_raw]]); [|reflexivity].
  repeat constructor.
Defined.

(** ** Sending: the datagrams that reach the wire *)

(** The packets of a buffer, laid out one after the other with the given sizes. *)
Fixpoint cut (sizes : list Z) (buf : list Z) : list (list Z) :=
  match sizes with
  | [] => []
  | s :: ss => ztake s buf :: cut ss (zdrop s buf)
  end.

(** What one message puts on the wire when [len] of its bytes are accepted: one datagram per
    segment of the batch's packet size. *)
Definition segments (buf : list Z) (m : gso_msg) (len : Z) : list (list Z) :=
  cut (replicate (Z.to_nat (len / g_size m)) (g_size m)) (zdrop (g_base m) buf).

Fixpoint gso_wire (buf : list Z) (msgs : list gso_msg) (lens : list Z) : list (list Z) :=
  match msgs, lens with
  | m :: ms, len :: ls => segments buf m len ++ gso_wire buf ms ls
  | _, _ => []
  end.

(** What sendmmsg guarantees of [msg_len]: a prefix of the messages goes out whole, then possibly
    whole packets of one more, then nothing. *)
Inductive accepted : list gso_msg -> list Z -> Prop :=
  | accepted_nil : accepted [] []
  | accepted_full m ms ls : accepted ms ls -> accepted (m :: ms) (g_len m :: ls)
  | accepted_stop m ms k :
      0 <= k < g_count m -> accepted (m :: ms) (k * g_size m :: replicate (length ms) 0).

(** The sizes a message stands for. *)
Definition expand (m : gso_msg) : list Z := replicate (Z.to_nat (g_count m)) (g_size m).

(** Messages that follow each other in the buffer from an offset on. *)
Fixpoint contiguous (nb : Z) (msgs : list gso_msg) : Prop :=
  match msgs with
  | [] => True
  | m :: ms => g_base m = nb /\ g_len m = g_count m * g_size m /\ 0 < g_size m /\ 1 <= g_count m /\
               contiguous (nb + g_len m) ms
  end.

(** The shape of the state of the batching loop: nothing started, or a batch whose next packet
    has its size. *)
Definition batch_state (sizes : list Z) (gso_size gso_count : Z) : Prop :=
  (gso_size = 0 /\ gso_count = 0) \/
  (0 < gso_size /\ 0 < gso_count /\ exists rest, sizes = gso_size :: rest).

Lemma gso_build_spec sizes mc nb gs gc :
  Forall (fun z => 0 < z < 2 ^ 16) sizes -> batch_state sizes gs gc -> 0 <= gc -> gc + zlen sizes < 2 ^ 16 ->
  contiguous nb (gso_build sizes mc nb gs gc) /\
  concat (map expand (gso_build sizes mc nb gs gc)) = replicate (Z.to_nat gc) gs ++ sizes.
Proof.
  revert mc nb gs gc. induction sizes as [|sz rest IH]; intros mc nb gs gc HF Hst Hgc Hn; simpl.
  { destruct Hst as [[-> ->]|(? & ? & ? & ?)]; [done|]. simplify_eq. }
  inversion HF as [|? ? Hsz HF']; subst. rewrite zlen_cons in Hn. pose proof (zlen_nonneg rest).
  rewrite (u16_small (gc + 1)) by (unfold is_u16; lia). rewrite (u16_small sz) by (unfold is_u16; lia).
  assert (exists size, (if gs =? 0 then sz else gs) = size /\ size = sz /\
            (gs = 0 /\ gc = 0 \/ gs = sz)) as (size & -> & -> & Hgs).
  { destruct Hst as [[-> ->]|(? & ? & ? & ?)]; simplify_eq; [eexists; split_and!; auto|].
    rewrite (proj2 (Z.eqb_neq _ _)) by lia. eauto. }
  assert (replicate (Z.to_nat (gc + 1)) sz = replicate (Z.to_nat gc) gs ++ [sz]) as Hrep.
  { replace (Z.to_nat (gc + 1)) with (Z.to_nat gc + 1)%nat by lia. rewrite replicate_add.
    f_equal. destruct Hgs as [[-> ->]| ->]; done. }
  set (emit := _ :: _).
  assert (contiguous nb emit /\ concat (map expand emit) = replicate (Z.to_nat gc) gs ++ sz :: rest) as Hemit.
  { subst emit. destruct (IH (S mc) (nb + (gc + 1) * sz) 0 0) as [Hc He]; try done; try lia; [by left|].
    simpl. split; [split_and!; done || lia|]. unfold expand at 1. simpl. rewrite Hrep, He. simpl.
    by rewrite <- app_assoc. }
  clearbody emit. destruct rest as [|sz' rest]; [done|]. destruct (sz' =? sz) eqn:E; [|done]. bools. subst sz'.
  destruct (IH mc nb sz (gc + 1)) as [Hc He]; try done; try lia.
  { right. split_and!; eauto; lia. }
  split; [done|]. rewrite He, Hrep. by rewrite <- app_assoc.
Qed.

Lemma length_cut sizes buf : length (cut sizes buf) = length sizes.
Proof. revert buf. induction sizes; intros buf; simpl; auto. Qed.

Lemma cut_app a b buf :
  Forall (fun z => 0 <= z) a -> cut (a ++ b) buf = cut a buf ++ cut b (zdrop (zsum a) buf).
Proof.
  intros HF. revert buf. induction HF as [|z a Hz HF IH]; intros buf; simpl; [done|].
  rewrite IH. pose proof (zsum_nonneg a HF). unfold zsum in *. simpl. by rewrite zdrop_zdrop.
Qed.

Lemma zsum_replicate n z : zsum (replicate n z) = Z.of_nat n * z.
Proof. induction n; simpl; [done|]. unfold zsum in *. simpl. lia. Qed.

Lemma length_expand m : length (expand m) = Z.to_nat (g_count m).
Proof. apply length_replicate. Qed.

Lemma zsum_expand m : 0 <= g_count m -> zsum (expand m) = g_count m * g_size m.
Proof. intros. unfold expand. rewrite zsum_replicate, Z2Nat.id; done. Qed.

Lemma take_cut n sizes buf : take n (cut sizes buf) = cut (take n sizes) buf.
Proof. revert sizes buf. induction n; intros [|s sizes] buf; simpl; congruence. Qed.

Lemma contiguous_zeros nb buf msgs :
  contiguous nb msgs ->
  gso_sent msgs (replicate (length msgs) 0) true = Ok 0 /\ gso_wire buf msgs (replicate (length msgs) 0) = [].
Proof.
  revert nb. induction msgs as [|m ms IH]; intros nb Hc; simpl; [done|].
  destruct Hc as (_ & Hl & Hs & Hn & Hc). destruct (IH _ Hc) as [-> ->].
  assert (0 < g_len m) by nia.
  rewrite (proj2 (Z.ltb_lt _ _)), (proj2 (Z.eqb_neq (g_size m) 0)) by lia.
  unfold segments. rewrite ?Z.mod_0_l, ?Z.div_0_l by lia. done.
Qed.

Lemma gso_wire_spec nb buf msgs lens :
  accepted msgs lens -> contiguous nb msgs -> 0 <= nb ->
  exists n, gso_sent msgs lens false = Ok (Z.of_nat n) /\
    gso_wire buf msgs lens = take n (cut (concat (map expand msgs)) (zdrop nb buf)) /\
    (n <= length (concat (map expand msgs)))%nat.
Proof.
  intros Hacc. revert nb. induction Hacc as [|m ms ls Hacc IH|m ms k Hk]; intros nb Hc Hnb; simpl.
  { exists 0%nat. done. }
  all: destruct Hc as (Hb & Hl & Hs & Hn & Hc).
  - rewrite Z.ltb_irrefl. destruct (IH (nb + g_len m)) as (n & -> & -> & Hle); [done|nia|].
    exists (Z.to_nat (g_count m) + n)%nat. simpl. split_and!; [f_equal; lia| |].
    + unfold segments. rewrite Hl, Z.div_mul, Hb by lia. fold (expand m).
      assert (Forall (fun z => 0 <= z) (expand m)) as HF by (apply Forall_replicate; lia).
      rewrite (cut_app _ _ _ HF), take_app_ge by (rewrite length_cut, length_expand; lia).
      f_equal. rewrite length_cut, length_expand, zsum_expand, zdrop_zdrop by nia.
      do 3 f_equal; lia.
    + rewrite length_app. rewrite length_expand. lia.
  - destruct (contiguous_zeros _ buf _ Hc) as [-> ->].
    rewrite (proj2 (Z.ltb_lt _ _)) by nia. rewrite (proj2 (Z.eqb_neq (g_size m) 0)) by lia.
    rewrite Z.mod_mul, Z.div_mul by lia. simpl. exists (Z.to_nat k).
    unfold segments. rewrite Z.div_mul, app_nil_r, Hb by lia.
    split_and!; [f_equal; lia| |].
    + rewrite take_cut. f_equal. unfold expand at 1.
      rewrite take_app_le by (rewrite length_replicate; lia). rewrite take_replicate. f_equal. lia.
    + rewrite length_app. rewrite length_expand. lia.
Qed.



(** The control-buffer index a message uses. *)
Lemma gso_ctl_bound sizes mc nb gs gc N :
  0 <= gc -> gc + zlen sizes < 2 ^ 16 -> Z.of_nat mc + gc + zlen sizes <= N ->
  Forall (fun m => match g_ctl m with Some i => Z.of_nat i < N | None => True end)
    (gso_build sizes mc nb gs gc).
Proof.
  revert mc nb gs gc. induction sizes as [|sz rest IH]; intros mc nb gs gc Hgc Hn HN; simpl; [constructor|].
  rewrite zlen_cons in *. pose proof (zlen_nonneg rest). rewrite (u16_small (gc + 1)) by (unfold is_u16; lia).
  set (size := if gs =? 0 then _ else _). set (emit := _ :: _).
  assert (Forall (fun m => match g_ctl m with Some i => Z.of_nat i < N | None => True end) emit) as He.
  { constructor; [|apply IH; lia]. simpl. destruct (1 <? gc + 1) eqn:E; [bools; lia|done]. }
  clearbody emit. destruct rest as [|sz' rest]; [done|]. destruct (sz' =? size); [|done]. apply IH; lia.
Qed.

Lemma gso_build_length sizes mc nb gs gc : (length (gso_build sizes mc nb gs gc) <= length sizes)%nat.
Proof.
  revert mc nb gs gc. induction sizes as [|sz rest IH]; intros mc nb gs gc; simpl; [lia|].
  set (size := if gs =? 0 then _ else _). set (c := u16 _).
  pose proof (IH (S mc) (nb + c * size) 0 0). pose proof (IH mc nb size c).
  destruct rest as [|sz' rest]; simpl in *; [lia|]. destruct (sz' =? size); simpl; lia.
Qed.

(** Although the GSO sender takes the control buffer after it advanced [msg_count], no batch
    of up to MAX_BATCH packets indexes the arrays [controls], [msgs] or [iovs] out of range. *)
Theorem gso_indices_in_range (sizes : list Z) :
  (length sizes <= MAX_BATCH SEND_GSO)%nat ->
  let msgs := gso_build sizes 0 0 0 0 in
  (length msgs <= MAX_BATCH SEND_GSO)%nat /\
  Forall (fun m => match g_ctl m with Some i => Z.of_nat i < Z.of_nat DATAGRAM_BATCH_SIZE | None => True end) msgs.
Proof.
  intros Hl msgs. unfold MAX_BATCH, DATAGRAM_BATCH_SIZE in *. split.
  - pose proof (gso_build_length sizes 0 0 0 0). subst msgs. lia.
  - apply gso_ctl_bound; unfold zlen; lia.
Qed.

Lemma gso_indices_in_range_witness :
  let msgs := gso_build (replicate 24 1200) 0 0 0 0 in
  (length msgs <= MAX_BATCH SEND_GSO)%nat /\
  Forall (fun m => match g_ctl m with Some i => Z.of_nat i < Z.of_nat DATAGRAM_BATCH_SIZE | None => True end) msgs.
Proof. apply (gso_indices_in_range (replicate 24 1200)). vm_compute. lia. Defined.
