(* ===== verification/Sender.v ===== *)
(** * The interface between the socket and its users

    What [Endpoint::send_packets] and [Connection::send] rely on is stated as a class of senders
    with laws; the socket of Udp.v, in each of its three build modes, is an instance over any
    kernel that answers as the system calls document. *)
From S2P Require Import Prelude Utils Udp.
Import Addr Io.

(** A state that can send: [snd_send buf sizes ecn n] attempts the first [n] packets of [buf];
    [snd_wire] is what reached the wire so far, [snd_waiting] the callbacks queued until the
    socket is writeable, [snd_max] the largest batch. *)
Class Sender (S : Type) := {
  snd_send : S -> list Z -> list Z -> Z -> nat -> outcome (S * io_result * Z);
  snd_wire : S -> list (list Z);
  snd_waiting : S -> list nat;
  snd_when_writeable : S -> nat -> S;
  snd_max : S -> nat;
  snd_good : S -> Prop;
}.

(** A batch that may be handed to a sender. *)
Definition batch_ok (max : nat) (sizes : list Z) (n : nat) : Prop :=
  (1 <= n <= max)%nat /\ (n <= length sizes)%nat /\ Forall (fun z => 0 < z < 2 ^ 16) (take n sizes).

Class SenderLaws (S : Type) `{Sender S} := {
  snd_send_ok : forall s buf sizes ecn n,
    snd_good s -> batch_ok (snd_max s) sizes n ->
    exists s' r sent, snd_send s buf sizes ecn n = Ok (s', r, Z.of_nat sent) /\
      snd_good s' /\ snd_max s' = snd_max s /\ snd_waiting s' = snd_waiting s /\
      (sent <= n)%nat /\ snd_wire s' = snd_wire s ++ take sent (cut sizes buf) /\
      is_ngtcp2 r = false /\ (failure r = true -> (sent < n)%nat);
  snd_when_writeable_ok : forall s cb,
    snd_good s ->
    snd_good (snd_when_writeable s cb) /\ snd_max (snd_when_writeable s cb) = snd_max s /\
    snd_wire (snd_when_writeable s cb) = snd_wire s /\
    snd_waiting (snd_when_writeable s cb) = snd_waiting s ++ [cb];
}.

(** The socket became writeable: the callbacks that waited are taken out, to be run in order. *)
Class Wakeable (S : Type) := { snd_wake : S -> list nat * S }.
Class WakeableLaws (S : Type) `{Sender S} `{Wakeable S} := {
  snd_wake_ok : forall s, snd_good s ->
    let '(cbs, s') := snd_wake s in
    cbs = snd_waiting s /\ snd_waiting s' = [] /\ snd_good s' /\ snd_max s' = snd_max s /\ snd_wire s' = snd_wire s;
}.

(** ** The UDP socket as a sender *)

(** A kernel answers the [i]-th send call, given the messages offered; calls that were interrupted
    are not counted. *)
Definition kernel := nat -> list gso_msg -> send_resp.

(** sendmmsg(2): an error sets errno; otherwise a prefix of the messages was accepted, as in
    [accepted], and every accepted message sent something. *)
Definition kernel_ok (k : kernel) : Prop :=
  forall i msgs, match k i msgs with
    | SErr e => e <> 0 /\ e <> EINTR
    | SSent lens => (length lens <= length msgs)%nat /\ Forall (fun l => 0 < l) lens /\
                    (msgs <> [] -> lens <> []) /\
                    accepted msgs (lens ++ replicate (length msgs - length lens) 0)
    end.

Record udp_state := mkUdp { us_mode : send_mode; us_sock : UDPSocket; us_kernel : kernel;
                            us_calls : nat; us_wire : list (list Z) }.

(** The messages of the modes without GSO: one packet each. *)
Fixpoint plain_msgs (sizes : list Z) (nb : Z) : list gso_msg :=
  match sizes with
  | [] => []
  | s :: ss => mkGso nb s s 1 None :: plain_msgs ss (nb + s)
  end.

Definition offered (mode : send_mode) (sizes : list Z) : list gso_msg :=
  match mode with SEND_GSO => gso_build sizes 0 0 0 0 | _ => plain_msgs sizes 0 end.

Definition udp_send (s : udp_state) (buf sizes : list Z) (e : Z) (n : nat) : outcome (udp_state * io_result * Z) :=
  let msgs := offered (us_mode s) (take n sizes) in
  let resp := us_kernel s (us_calls s) msgs in
  let wire := match resp with
    | SErr _ => []
    | SSent lens => gso_wire buf msgs (lens ++ replicate (length msgs - length lens) 0) end in
  let* (sock', r, sent, _) := UDPSocket_send (us_mode s) (us_sock s) sizes e n [resp] in
  Ok (mkUdp (us_mode s) sock' (us_kernel s) (S (us_calls s)) (us_wire s ++ wire), r, sent).

#[export] Instance udp_Sender : Sender udp_state := {|
  snd_send := udp_send;
  snd_wire := us_wire;
  snd_waiting := fun s => writeable (us_sock s);
  snd_when_writeable := fun s cb =>
    mkUdp (us_mode s) (when_writeable (us_sock s) cb) (us_kernel s) (us_calls s) (us_wire s);
  snd_max := fun s => MAX_BATCH (us_mode s);
  snd_good := fun s => kernel_ok (us_kernel s);
|}.

Lemma plain_msgs_spec sizes nb :
  Forall (fun z => 0 < z) sizes ->
  contiguous nb (plain_msgs sizes nb) /\ concat (map expand (plain_msgs sizes nb)) = sizes /\
  length (plain_msgs sizes nb) = length sizes.
Proof.
  intros HF. revert nb. induction HF as [|z zs Hz HF IH]; intros nb; simpl; [done|].
  destruct (IH (nb + z)) as (Hc & He & Hl). split_and!; try lia; [done|by rewrite He].
Qed.

(** Without GSO the number of accepted messages is the number of packets sent. *)
Lemma plain_sent sizes nb lens m :
  Forall (fun z => 0 < z) sizes -> Forall (fun l => 0 < l) lens ->
  accepted (plain_msgs sizes nb) (lens ++ replicate m 0) ->
  gso_sent (plain_msgs sizes nb) (lens ++ replicate m 0) false = Ok (zlen lens).
Proof.
  intros HF. revert nb lens. induction HF as [|z sizes Hz HF IH]; intros nb lens Hlens Hacc; simpl in *.
  { inversion Hacc as [Hn Hx| |]. by destruct lens. }
  inversion Hacc as [|m' ms ls Hacc' Hm Hls|m' ms k Hk Hm Hls]; subst.
  - destruct lens as [|l lens]; simpl in *; [destruct m; simplify_eq/=; lia|]. simplify_eq.
    inversion Hlens; subst. rewrite Z.ltb_irrefl. simpl. rewrite IH by done. simpl.
    f_equal. rewrite zlen_cons. lia.
  - assert (k = 0) as -> by (simpl in Hk; lia). simpl in Hls.
    destruct lens as [|l lens]; simpl in *; simplify_eq; [|inversion Hlens; lia].
    rewrite (proj2 (Z.ltb_lt _ _)) by lia. rewrite (proj2 (Z.eqb_neq z 0)) by lia.
    destruct (plain_msgs_spec sizes (nb + z) HF) as (Hc & _ & _).
    destruct (contiguous_zeros (nb + z) [] _ Hc) as [-> _]. simpl. done.
Qed.

Lemma forallb_pos sizes : Forall (fun z => 0 < z) sizes -> forallb (fun s => 0 <? s) sizes = true.
Proof. induction 1 as [|z zs Hz HF IH]; simpl; [done|]. rewrite IH, (proj2 (Z.ltb_lt _ _)); done. Qed.

Lemma offered_spec mode sizes :
  Forall (fun z => 0 < z < 2 ^ 16) sizes -> (length sizes <= MAX_BATCH mode)%nat ->
  contiguous 0 (offered mode sizes) /\ concat (map expand (offered mode sizes)) = sizes.
Proof.
  intros HF Hl. assert (Forall (fun z => 0 < z) sizes) as HF0 by (eapply Forall_impl; [exact HF|]; simpl; lia).
  destruct mode; simpl in *; unfold DATAGRAM_BATCH_SIZE in *.
  - apply (gso_build_spec sizes 0 0 0 0 HF); [by left|done|unfold zlen; lia].
  - destruct (plain_msgs_spec sizes 0 HF0) as (? & ? & _). done.
  - destruct (plain_msgs_spec sizes 0 HF0) as (? & ? & _). done.
Qed.

Lemma offered_nonempty mode sizes :
  Forall (fun z => 0 < z < 2 ^ 16) sizes -> (1 <= length sizes <= MAX_BATCH mode)%nat -> offered mode sizes <> [].
Proof.
  intros HF Hl He. destruct (offered_spec mode sizes HF) as [_ Hc]; [lia|].
  rewrite He in Hc. simpl in Hc. subst. simpl in Hl. lia.
Qed.

(** What [UDPSocket::send] returns for one answered call: it counts as the GSO code does. *)
Lemma UDPSocket_send_counts mode sock sizes e n lens :
  let sz := take n sizes in let msgs := offered mode sz in
  Forall (fun z => 0 < z < 2 ^ 16) sz -> (1 <= length sz <= MAX_BATCH mode)%nat ->
  Forall (fun l => 0 < l) lens -> lens <> [] -> (length lens <= length msgs)%nat ->
  accepted msgs (lens ++ replicate (length msgs - length lens) 0) ->
  UDPSocket_send mode sock sizes e n [SSent lens] =
    let* sent := gso_sent msgs (lens ++ replicate (length msgs - length lens) 0) false in
    Ok (update_ecn sock e, io_errno 0, sent, []).
Proof.
  intros sz msgs HF Hl Hlens Hne Hle Hacc. unfold UDPSocket_send. fold sz.
  assert (Forall (fun z => 0 < z) sz) as HF0 by (eapply Forall_impl; [exact HF|]; simpl; lia).
  destruct mode; [done|..].
  - assert (forallb (fun s => 0 <? s) sz = true) as ->.
    { by apply forallb_pos. }
    simpl. subst msgs. simpl in *. by rewrite plain_sent.
  - simpl in Hl. destruct sz as [|z [|? ?]]; simpl in Hl; try lia. subst msgs. simpl in *.
    inversion HF0; subst. rewrite (proj2 (Z.ltb_lt _ _)) by done. simpl.
    destruct lens as [|l [|? ?]]; simpl in *; try done; [|lia].
    inversion Hlens; subst. assert (l = z) as ->.
    { inversion Hacc as [|? ? ? ? E1 E2|? ? k Hk E1 E2]; subst; simpl in *; [done|]. assert (k = 0) by lia. lia. }
    rewrite bool_decide_true by done. rewrite Z.ltb_irrefl. done.
Qed.

Lemma kernel_ok_call k i msgs :
  kernel_ok k -> msgs <> [] ->
  (exists e, k i msgs = SErr e /\ e <> 0 /\ e <> EINTR) \/
  (exists lens, k i msgs = SSent lens /\ lens <> [] /\ (length lens <= length msgs)%nat /\
     Forall (fun l => 0 < l) lens /\ accepted msgs (lens ++ replicate (length msgs - length lens) 0)).
Proof. intros Hk Hm. specialize (Hk i msgs). destruct (k i msgs); naive_solver. Qed.

Lemma udp_send_error s buf sizes e n err :
  us_kernel s (us_calls s) (offered (us_mode s) (take n sizes)) = SErr err ->
  err <> EINTR -> Forall (fun z => 0 < z) (take n sizes) -> (1 <= length (take n sizes))%nat ->
  udp_send s buf sizes e n =
    Ok (mkUdp (us_mode s) (update_ecn (us_sock s) e) (us_kernel s) (S (us_calls s)) (us_wire s ++ []),
        io_errno err, 0).
Proof.
  intros Hk He HF Hl. unfold udp_send. rewrite Hk. unfold UDPSocket_send.
  rewrite (forallb_pos _ HF). destruct (us_mode s); simpl; rewrite ?(proj2 (Z.eqb_neq _ _)) by done; try done.
  destruct (take n sizes) as [|z zs]; [simpl in Hl; lia|]. inversion HF; subst.
  simpl. rewrite (proj2 (Z.ltb_lt _ _)) by done. done.
Qed.

#[export] Instance udp_SenderLaws : SenderLaws udp_state.
Proof.
  split.
  - intros s buf sizes e n Hgood (Hn & Hlen & HF). cbn in Hgood, Hn |- *.
    assert (length (take n sizes) = n) as Htl by (rewrite length_take; lia).
    assert (Forall (fun z => 0 < z) (take n sizes)) as HF0 by (eapply Forall_impl; [exact HF|]; simpl; lia).
    destruct (offered_spec (us_mode s) (take n sizes) HF) as [Hc He]; [lia|].
    destruct (kernel_ok_call _ (us_calls s) (offered (us_mode s) (take n sizes)) Hgood)
      as [(err & Hk & He0 & Hei)|(lens & Hk & Hne & Hle & Hpos & Hacc)].
    + apply offered_nonempty; [done|lia].
    + rewrite (udp_send_error s buf sizes e n err) by (done || lia).
      eexists _, _, 0%nat. split; [done|]. cbn. unfold update_ecn.
      split_and!; try lia; try done. by destruct (e =? ecn _).
    + destruct (gso_wire_spec 0 buf _ _ Hacc Hc) as (sent & Hs & Hw & Hsn); [done|].
      unfold udp_send. rewrite Hk, UDPSocket_send_counts, Hs by (done || lia). simpl.
      rewrite He in Hw, Hsn. rewrite Hw.
      eexists _, _, sent. split; [done|]. cbn. unfold update_ecn.
      split_and!; try lia; try done; [by destruct (e =? ecn _)|].
      by rewrite zdrop_0, !take_cut, take_take, Nat.min_l by lia.
  - intros s cb Hg. by cbn.
Qed.

#[export] Instance udp_Wakeable : Wakeable udp_state := {|
  snd_wake := fun s => let '(cbs, sock) := on_writeable (us_sock s) in
                       (cbs, mkUdp (us_mode s) sock (us_kernel s) (us_calls s) (us_wire s));
|}.
#[export] Instance udp_WakeableLaws : WakeableLaws udp_state.
Proof. split. intros s Hg. by cbn. Qed.

(** ** Example kernels *)

Definition plausible (msgs : list gso_msg) : bool := forallb (fun m => (0 <? g_len m) && (0 <? g_count m)) msgs.

(** Takes everything; takes one message per call; is blocked. *)
Definition kernel_all : kernel := fun _ msgs => if plausible msgs then SSent (map g_len msgs) else SErr 22.
Definition kernel_one : kernel := fun _ msgs =>
  match msgs with
  | m :: _ => if plausible msgs then SSent [g_len m] else SErr 22
  | [] => SSent []
  end.
Definition kernel_blocked : kernel := fun _ _ => SErr EAGAIN.

Lemma accepted_none msgs : plausible msgs = true -> accepted msgs (replicate (length msgs) 0).
Proof.
  destruct msgs as [|m ms]; simpl; intros Hp; [constructor|]. bools.
  change 0 with (0 * g_size m) at 1. constructor. lia.
Qed.

Lemma kernel_one_ok : kernel_ok kernel_one.
Proof.
  intros i msgs. unfold kernel_one. destruct msgs as [|m ms].
  { simpl. split_and!; try done; constructor. }
  destruct (plausible (m :: ms)) eqn:Hp; [|done]. simpl in Hp. bools.
  split_and!; [simpl; lia|by repeat constructor|done|]. simpl. rewrite Nat.sub_0_r.
  constructor. by apply accepted_none.
Qed.

Lemma kernel_all_ok : kernel_ok kernel_all.
Proof.
  intros i msgs. unfold kernel_all. destruct (plausible msgs) eqn:Hp; [|done].
  rewrite length_map, Nat.sub_diag, app_nil_r. split_and!; [done|..|by destruct msgs|].
  - induction msgs as [|m ms IH]; simpl in *; constructor; bools; auto.
  - clear Hp. induction msgs; simpl; by constructor.
Qed.

Definition example_udp (mode : send_mode) (k : kernel) : udp_state :=
  mkUdp mode (mkSock Address_default 0 [] [] false) k 0 [].
