(* ===== verification/EndpointSend.v ===== *)
(** * Endpoint::send_packets and send_or_queue_packet

    The part of src/endpoint.cpp between connections and the socket: sending a batch, keeping
    what the socket did not take at the front of the caller's buffers. *)
From S2P Require Import Prelude Utils Udp Sender.
Import Addr Io.

Section send_packets.
Context `{NgtcpConsts} {S : Type} `{Sender S}.

(** The result, and the buffers and count the reference arguments are left with. *)
Record sp_result := mkSP { sp_socket : option S; sp_ret : io_result;
                           sp_buf : list Z; sp_bufsize : list Z; sp_n : nat }.

(** [memmove(buf, buf + offset, len)] within one buffer. *)
Definition shift_down (buf : list Z) (offset len : Z) : list Z :=
  ztake len (zdrop offset buf) ++ zdrop len buf.

(** [Endpoint::send_packets]. *)
Definition Endpoint_send_packets (socket : option S) (buf bufsize : list Z) (ecn : Z) (n_pkts : nat) :
    outcome sp_result :=
  match socket with
  | None => Ok (mkSP None (io_errno EBADF) buf bufsize n_pkts)
  | Some s =>
      assert_then ((1 <=? n_pkts)%nat && (n_pkts <=? snd_max s)%nat)
        (let* (s', ret, sent) := snd_send s buf bufsize ecn n_pkts in
         if failure ret && negb (blocked ret) then Ok (mkSP (Some s') ret buf bufsize 0)
         else if sent <? Z.of_nat n_pkts then
           if sent =? 0 then Ok (mkSP (Some s') (io_errno EAGAIN) buf bufsize n_pkts)
           else
             let k := Z.to_nat sent in
             let unsent_sizes := take (n_pkts - k) (drop k bufsize) in
             let offset := zsum (take k bufsize) in
             let len := zsum unsent_sizes in
             Ok (mkSP (Some s') (io_errno EAGAIN) (shift_down buf offset len)
                   (unsent_sizes ++ drop (n_pkts - k) bufsize) (n_pkts - k))
         else Ok (mkSP (Some s') ret buf bufsize 0))
  end.

(** What [send_or_queue_packet] does with a packet: it is done with, it was queued to be retried,
    or its callback was called with a result. *)
Inductive queue_outcome := QDone (r : io_result) | QQueued | QCallback (r : io_result) | QNoSocket.

(** [Endpoint::send_or_queue_packet]: [retry] names the writeable callback that calls it again. *)
Definition send_or_queue_packet (socket : option S) (buf : list Z) (ecn : Z) (has_cb : bool) (retry : nat) :
    outcome (option S * queue_outcome) :=
  match socket with
  | None => Ok (None, if has_cb then QCallback (io_errno EBADF) else QNoSocket)
  | Some s =>
      let* r := Endpoint_send_packets (Some s) buf [zlen buf] ecn 1 in
      if blocked (sp_ret r) then Ok ((fun s' => snd_when_writeable s' retry) <$> sp_socket r, QQueued)
      else Ok (sp_socket r, QDone (sp_ret r))
  end.
End send_packets.
Arguments sp_result S : clear implicits.

Section laws.
Context `{NgtcpConsts} {S : Type} `{SenderLaws S}.

Lemma cut_take_length n sizes (buf : list Z) : cut (take n sizes) buf = take n (cut sizes buf).
Proof. symmetry. apply take_cut. Qed.

(** [cut] only looks at the bytes its sizes cover. *)
Lemma cut_ztake len sizes (buf tl : list Z) :
  Forall (fun z => 0 <= z) sizes -> zsum sizes <= len -> len <= zlen buf ->
  cut sizes (ztake len buf ++ tl) = cut sizes buf.
Proof.
  intros HF. revert len buf. induction HF as [|z zs Hz HF IH]; intros len buf Hs Hl; simpl; [done|].
  pose proof (zsum_nonneg zs HF). unfold zsum in *. simpl in Hs.
  assert (zlen (ztake len buf) = len) as Htl by (apply zlen_ztake; lia).
  f_equal.
  - rewrite ztake_app_le by lia. unfold ztake. rewrite take_take. f_equal. lia.
  - rewrite zdrop_app_le by lia.
    replace (zdrop z (ztake len buf)) with (ztake (len - z) (zdrop z buf)).
    + apply IH; [lia|]. rewrite zlen_zdrop by lia. lia.
    + unfold ztake, zdrop. rewrite take_drop_commute. f_equal. f_equal. lia.
Qed.

Lemma cut_drop k sizes (buf : list Z) :
  Forall (fun z => 0 <= z) (take k sizes) ->
  drop k (cut sizes buf) = cut (drop k sizes) (zdrop (zsum (take k sizes)) buf).
Proof.
  revert sizes buf. induction k as [|k IH]; intros [|z sizes] buf HF; simpl; try done.
  inversion HF as [|? ? Hz HF']; subst. rewrite IH by done.
  pose proof (zsum_nonneg _ HF'). unfold zsum in *. simpl. by rewrite zdrop_zdrop.
Qed.

(** After a partial send the unsent packets are at the front of the buffers. *)
Lemma shift_down_packets k n sizes (buf : list Z) :
  (k <= n)%nat -> (n <= length sizes)%nat -> Forall (fun z => 0 < z < 2 ^ 16) (take n sizes) ->
  zsum (take n sizes) <= zlen buf ->
  let unsent := take (n - k) (drop k sizes) in
  cut (take (n - k) (unsent ++ drop (n - k) sizes)) (shift_down buf (zsum (take k sizes)) (zsum unsent)) =
    drop k (cut (take n sizes) buf).
Proof.
  intros Hk Hn HF Hbuf unsent.
  assert (take n sizes = take k sizes ++ unsent) as Hsplit.
  { unfold unsent. rewrite <- (take_drop k (take n sizes)), take_take, Nat.min_l by lia.
    f_equal. rewrite skipn_firstn_comm. done. }
  rewrite Hsplit in HF, Hbuf. rewrite zsum_app in Hbuf. apply Forall_app in HF as [HF1 HF2].
  assert (forall l, Forall (fun z => 0 < z < 2 ^ 16) l -> Forall (fun z => 0 <= z) l) as Hnn
    by (intros l Hl; eapply Forall_impl; [exact Hl|]; simpl; lia).
  pose proof (zsum_nonneg _ (Hnn _ HF1)). pose proof (zsum_nonneg _ (Hnn _ HF2)).
  assert (length unsent = (n - k)%nat) as Hul by (unfold unsent; rewrite length_take, length_drop; lia).
  rewrite take_app_le, firstn_all2 by lia.
  unfold shift_down. rewrite cut_ztake by (auto; rewrite ?zlen_zdrop; lia).
  rewrite Hsplit, cut_app, drop_app_ge by (auto; rewrite length_cut, length_take; lia).
  rewrite length_cut, length_take, Nat.min_l, Nat.sub_diag by lia. done.
Qed.

(** ... and form a batch again, in buffers of the same lengths. *)
Lemma kept_batch max k n sizes (buf : list Z) :
  batch_ok max sizes n -> (0 < k < n)%nat -> zsum (take n sizes) <= zlen buf ->
  let unsent := take (n - k) (drop k sizes) in
  let sizes' := unsent ++ drop (n - k) sizes in
  let buf' := shift_down buf (zsum (take k sizes)) (zsum unsent) in
  (zlen buf' = zlen buf /\ length sizes' = length sizes) /\
  cut (take (n - k) sizes') buf' = drop k (cut (take n sizes) buf) /\
  batch_ok max sizes' (n - k) /\ zsum (take (n - k) sizes') <= zlen buf'.
Proof.
  intros (Hn & Hlen & HF) Hk Hbuf unsent sizes' buf'.
  assert (length unsent = (n - k)%nat) as Hul by (unfold unsent; rewrite length_take, length_drop; lia).
  assert (take (n - k) sizes' = unsent) as Htu by (unfold sizes'; rewrite take_app_le, firstn_all2 by lia; done).
  assert (take n sizes = take k sizes ++ unsent) as Hsplit.
  { unfold unsent. rewrite <- (take_drop k (take n sizes)), take_take, Nat.min_l by lia.
    f_equal. rewrite skipn_firstn_comm. done. }
  assert (length sizes' = length sizes) as Hls by (unfold sizes'; rewrite length_app, length_drop; lia).
  pose proof (shift_down_packets k n sizes buf) as Hcut. cbn zeta in Hcut. fold unsent sizes' buf' in Hcut.
  rewrite Hcut by (done || lia).
  rewrite Hsplit in HF, Hbuf. rewrite zsum_app in Hbuf. apply Forall_app in HF as [HF1 HF2].
  assert (0 <= zsum (take k sizes)) by (apply zsum_nonneg; eapply Forall_impl; [exact HF1|]; simpl; lia).
  assert (0 <= zsum unsent) by (apply zsum_nonneg; eapply Forall_impl; [exact HF2|]; simpl; lia).
  assert (zlen buf' = zlen buf) as Hbl.
  { unfold buf', shift_down. rewrite zlen_app, zlen_ztake, zlen_zdrop by (rewrite ?zlen_zdrop; lia). lia. }
  split_and!; try (done || lia || congruence); rewrite ?Htu; try (done || lia); split_and!; rewrite ?Htu; (done || lia).
Qed.

(** What [send_packets] leaves behind, in terms of packets. *)
Lemma send_packets_spec s buf sizes ecn n :
  snd_good s -> batch_ok (snd_max s) sizes n -> zsum (take n sizes) <= zlen buf ->
  exists s' r buf' sizes' n' sent,
    Endpoint_send_packets (Some s) buf sizes ecn n = Ok (mkSP (Some s') r buf' sizes' n') /\
    snd_good s' /\ snd_max s' = snd_max s /\ snd_waiting s' = snd_waiting s /\
    snd_wire s' = snd_wire s ++ take sent (cut (take n sizes) buf) /\ (sent <= n)%nat /\
    (zlen buf' = zlen buf /\ length sizes' = length sizes) /\
    ((success r = true /\ blocked r = false /\ n' = 0%nat /\ sent = n) \/
     (blocked r = true /\ success r = false /\ n' = (n - sent)%nat /\ (0 < n')%nat /\
      cut (take n' sizes') buf' = drop sent (cut (take n sizes) buf) /\
      batch_ok (snd_max s') sizes' n' /\ zsum (take n' sizes') <= zlen buf') \/
     (failure r = true /\ blocked r = false /\ n' = 0%nat /\ (sent < n)%nat)).
Proof.
  intros Hg Hb Hbuf. pose proof Hb as (Hn & Hlen & HF).
  destruct (snd_send_ok s buf sizes ecn n Hg Hb) as (s' & r & sent & Hsend & Hg' & Hm & Hw & Hsn & Hwire & Hng & Hfail).
  unfold Endpoint_send_packets.
  rewrite (proj2 (Nat.leb_le 1 n)), (proj2 (Nat.leb_le n (snd_max s))) by lia. cbn [andb assert_then].
  rewrite Hsend. cbn [obind].
  assert (snd_wire s' = snd_wire s ++ take sent (cut (take n sizes) buf)) as Hwire'.
  { by rewrite Hwire, cut_take_length, take_take, Nat.min_l. }
  destruct (failure r && negb (blocked r)) eqn:Ef; bools.
  { do 6 eexists. split; [done|]. split_and!; try done. do 2 right. split_and!; auto. }
  destruct (Z.of_nat sent <? Z.of_nat n) eqn:El; bools.
  2: { do 6 eexists. split; [done|]. split_and!; try done. left.
       assert (failure r = false) as Hf by (destruct (failure r); [assert (sent < n)%nat by auto; lia|done]).
       assert (success r = true) as Hs by (unfold failure in Hf; by bools).
       split_and!; try done; [|lia]. destruct (blocked r) eqn:Eb; [|done].
       apply blocked_failure in Eb; congruence. }
  destruct (Z.of_nat sent =? 0) eqn:E0; bools.
  - assert (sent = 0%nat) as -> by lia.
    do 6 eexists. split; [done|]. split_and!; try done. right. left.
    rewrite Nat.sub_0_r, drop_0, Hm. split_and!; try done; lia.
  - rewrite Nat2Z.id. destruct (kept_batch (snd_max s) sent n sizes buf Hb) as (Hl & Hc & Hb' & Hf'); [lia|done|].
    do 6 eexists. split; [done|]. split_and!; try done; try apply Hl. right. left.
    rewrite Hm. split_and!; try done; lia.
Qed.

(** What becomes of a one-shot packet: it waits for the socket, or it was sent, or it was dropped. *)
Lemma send_or_queue_spec s buf ecn has_cb retry :
  snd_good s -> (1 <= snd_max s)%nat -> 0 < zlen buf < 2 ^ 16 ->
  exists s' q, send_or_queue_packet (Some s) buf ecn has_cb retry = Ok (Some s', q) /\
    snd_good s' /\ snd_max s' = snd_max s /\
    ((q = QQueued /\ snd_wire s' = snd_wire s /\ snd_waiting s' = snd_waiting s ++ [retry]) \/
     (exists r, q = QDone r /\ snd_wire s' = snd_wire s ++ (if success r then [buf] else []) /\
        snd_waiting s' = snd_waiting s)).
Proof.
  intros Hg Hm Hb. unfold send_or_queue_packet.
  destruct (send_packets_spec s buf [zlen buf] ecn 1 Hg)
    as (s' & r & buf' & sizes' & n' & sent & Hsp & Hg' & Hm' & Hwt & Hw & Hn & _ & Hcase).
  { split_and!; simpl; try lia. constructor; [lia|constructor]. }
  { unfold zsum. simpl. lia. }
  rewrite Hsp. cbn [obind sp_ret sp_socket]. destruct (blocked r) eqn:Eb; cbn.
  - destruct (snd_when_writeable_ok s' retry Hg') as (G1 & G2 & G3 & G4).
    assert (sent = 0%nat) as -> by (destruct Hcase as [(_ & ? & _)|[(_ & _ & ? & ? & _)|(_ & ? & _)]]; [congruence|lia|congruence]).
    eexists _, QQueued. split; [done|]. split_and!; [done|congruence|left]. rewrite G3, G4, Hw, Hwt. by rewrite app_nil_r.
  - eexists _, (QDone r). split; [done|]. split_and!; [done..|right]. exists r. split_and!; [done| |done]. rewrite Hw. f_equal.
    destruct Hcase as [(-> & _ & _ & ->)|[(E & _)|(E & _ & _ & ?)]]; [|congruence|].
    + simpl. f_equal. unfold ztake, zlen. rewrite Nat2Z.id. by apply firstn_all.
    + unfold failure in E. bools. rewrite E. by assert (sent = 0%nat) as -> by lia.
Qed.
End laws.

(** C10: the contract of [send_packets].  The first [sent] packets reached the wire; on success
    that is all of them and [n_pkts] is 0; if the socket blocked, the buffers begin with exactly
    the unsent packets and can be passed in again; on any other error [n_pkts] is 0 and the
    rest is dropped. *)
Theorem send_packets_contract `{NgtcpConsts} {S : Type} `{SenderLaws S}
    (s : S) (buf sizes : list Z) (ecn : Z) (n : nat) :
  snd_good s -> batch_ok (snd_max s) sizes n -> zsum (take n sizes) <= zlen buf ->
  exists s' r buf' sizes' n' sent,
    Endpoint_send_packets (Some s) buf sizes ecn n = Ok (mkSP (Some s') r buf' sizes' n') /\
    snd_wire s' = snd_wire s ++ take sent (cut (take n sizes) buf) /\ (sent <= n)%nat /\
    (success r = true -> n' = 0%nat /\ sent = n) /\
    (blocked r = true -> n' = (n - sent)%nat /\ (0 < n')%nat /\
       cut (take n' sizes') buf' = drop sent (cut (take n sizes) buf) /\
       batch_ok (snd_max s') sizes' n') /\
    (failure r = true -> blocked r = false -> n' = 0%nat).
Proof.
  intros Hg Hb Hl.
  destruct (send_packets_spec s buf sizes ecn n Hg Hb Hl)
    as (s' & r & buf' & sizes' & n' & sent & Hsp & _ & _ & _ & Hw & Hn & _ & Hcase).
  do 6 eexists. split_and!; [exact Hsp|exact Hw|exact Hn|..]; unfold failure in *;
    destruct Hcase as [(E1 & E2 & E3 & E4)|[(E1 & E1' & E2 & E3 & E4 & E5 & _)|(E1 & E2 & E3 & E4)]];
    destruct (success r) eqn:Es; destruct (blocked r) eqn:Eb; naive_solver.
Qed.

Lemma send_packets_contract_witness :
  let s := example_udp SEND_SENDMMSG kernel_one in
  let sizes := [2; 3; 1; 0; 0] in let buf := [1;1;2;2;2;3;0;0] in
  exists s' r buf' sizes' n' sent,
    @Endpoint_send_packets ngtcp2_consts _ _ (Some s) buf sizes 0 3 = Ok (mkSP (Some s') r buf' sizes' n') /\
    snd_wire s' = snd_wire s ++ take sent (cut (take 3 sizes) buf) /\ (sent <= 3)%nat /\
    (success r = true -> n' = 0%nat /\ sent = 3%nat) /\
    (@blocked ngtcp2_consts r = true -> n' = (3 - sent)%nat /\ (0 < n')%nat /\
       cut (take n' sizes') buf' = drop sent (cut (take 3 sizes) buf) /\
       batch_ok (snd_max s') sizes' n') /\
    (failure r = true -> @blocked ngtcp2_consts r = false -> n' = 0%nat).
Proof.
  intros s sizes buf. apply (@send_packets_contract ngtcp2_consts udp_state _ _ s buf sizes 0 3).
  - exact kernel_one_ok.
  - split_and!; [vm_compute; lia..|repeat constructor].
  - vm_compute. congruence.
Defined.

(** The callback of [send_or_queue_packet] is called only when there is no socket: a packet
    that was sent, and one that failed with a serious error, are finished without it, although
    the header promises a call with the final result in both cases. *)
Theorem queued_packet_callback_not_called `{NgtcpConsts} {S : Type} `{SenderLaws S}
    (s : S) (buf : list Z) (ecn : Z) (has_cb : bool) (retry : nat) :
  snd_good s -> (1 <= snd_max s)%nat -> 0 < zlen buf < 2 ^ 16 ->
  exists s' q, send_or_queue_packet (Some s) buf ecn has_cb retry = Ok (Some s', q) /\
    ((q = QQueued /\ snd_waiting s' = snd_waiting s ++ [retry] /\ snd_wire s' = snd_wire s) \/
     (exists r, q = QDone r /\ snd_waiting s' = snd_waiting s /\
        (success r = true -> snd_wire s' = snd_wire s ++ [buf]))).
Proof.
  intros Hg Hm Hl. assert (zsum (take 1 [zlen buf]) = zlen buf) as Hz by (unfold zsum; simpl; lia).
  assert (cut (take 1 [zlen buf]) buf = [buf]) as Hcut.
  { simpl. f_equal. unfold ztake, zlen. rewrite Nat2Z.id. by apply firstn_all. }
  destruct (send_packets_spec s buf [zlen buf] ecn 1 Hg)
    as (s' & r & buf' & sizes' & n' & sent & Hsp & Hg' & _ & Hw & Hwire & Hn & _ & Hcase).
  { split_and!; simpl; try lia. constructor; [lia|constructor]. }
  { lia. }
  unfold send_or_queue_packet. rewrite Hsp. cbn [obind sp_ret sp_socket fmap option_fmap option_map].
  rewrite Hcut in Hwire. destruct Hcase as [(E1 & -> & E3 & ->)|[(-> & _ & E2 & E3 & _)|(E1 & -> & E3 & E4)]].
  - do 2 eexists. split; [done|]. right. eexists. split_and!; [done..|]. by intros _.
  - destruct (snd_when_writeable_ok s' retry Hg') as (_ & _ & Hw1 & Hw2).
    assert (sent = 0%nat) as -> by lia. rewrite app_nil_r in Hwire.
    do 2 eexists. split; [done|]. left. by rewrite Hw1, Hw2, Hw, Hwire.
  - do 2 eexists. split; [done|]. right. eexists. split_and!; [done..|].
    unfold failure in E1. by destruct (success r).
Qed.

Lemma queued_packet_callback_not_called_witness :
  let s := example_udp SEND_GSO kernel_blocked in
  exists s' q, @send_or_queue_packet ngtcp2_consts _ _ (Some s) [1;2;3] 0 true 7 = Ok (Some s', q) /\
    ((q = QQueued /\ snd_waiting s' = snd_waiting s ++ [7%nat] /\ snd_wire s' = snd_wire s) \/
     (exists r, q = QDone r /\ snd_waiting s' = snd_waiting s /\
        (success r = true -> snd_wire s' = snd_wire s ++ [[1;2;3]]))).
Proof.
  intros s. apply (@queued_packet_callback_not_called ngtcp2_consts udp_state _ _ s [1;2;3] 0 true 7).
  - intros i msgs. done.
  - vm_compute. lia.
  - vm_compute. done.
Defined.
