(* ===== verification/Context.v ===== *)
(** * Contexts: the options given to listen() and connect()

    Models include/quic/context.hpp, include/quic/opt.hpp and src/context.cpp. *)
From S2P Require Import Prelude Utils Stream.

Module Ctx.
(** [ContextBase] with its [config_t]; credentials and callbacks are named by numbers. *)
Record ContextBase := mkCtx {
  tls_creds : option nat;
  stream_data_cb : option nat;
  stream_open_cb : option nat;
  stream_close_cb : option close_cb;
  max_streams : Z;
}.

Definition empty_context : ContextBase := mkCtx None None None None 0.

(** One argument of listen() or connect(). *)
Inductive opt :=
  | OptTls (creds : nat)
  | OptMaxStreams (stream_count : Z)
  | OptDataCb (cb : nat)
  | OptOpenCb (cb : nat)
  | OptCloseCb (cb : close_cb).

(** [opt::max_streams{}] . *)
Definition opt_max_streams_default : opt := OptMaxStreams DEFAULT_MAX_BIDI_STREAMS.

(** The overloads of [handle_outbound_opt]. *)
Definition handle_outbound_opt (c : ContextBase) (o : opt) : ContextBase :=
  match o with
  | OptTls t => mkCtx (Some t) (stream_data_cb c) (stream_open_cb c) (stream_close_cb c) (max_streams c)
  | OptMaxStreams n => mkCtx (tls_creds c) (stream_data_cb c) (stream_open_cb c) (stream_close_cb c) (i32 n)
  | OptCloseCb f => mkCtx (tls_creds c) (stream_data_cb c) (stream_open_cb c) (Some f) (max_streams c)
  | OptDataCb f => mkCtx (tls_creds c) (Some f) (stream_open_cb c) (stream_close_cb c) (max_streams c)
  | OptOpenCb f => mkCtx (tls_creds c) (stream_data_cb c) (Some f) (stream_close_cb c) (max_streams c)
  end.

(** The overloads of [handle_inbound_opt]. *)
Definition handle_inbound_opt (c : ContextBase) (o : opt) : ContextBase :=
  match o with
  | OptTls t => mkCtx (Some t) (stream_data_cb c) (stream_open_cb c) (stream_close_cb c) (max_streams c)
  | OptDataCb f => mkCtx (tls_creds c) (Some f) (stream_open_cb c) (stream_close_cb c) (max_streams c)
  | OptOpenCb f => mkCtx (tls_creds c) (stream_data_cb c) (Some f) (stream_close_cb c) (max_streams c)
  | OptCloseCb f => mkCtx (tls_creds c) (stream_data_cb c) (stream_open_cb c) (Some f) (max_streams c)
  | OptMaxStreams n => mkCtx (tls_creds c) (stream_data_cb c) (stream_open_cb c) (stream_close_cb c) (i32 n)
  end.

(** The constructors fold the options from left to right. *)
Definition OutboundContext_new (opts : list opt) : ContextBase := fold_left handle_outbound_opt opts empty_context.
Definition InboundContext_new (opts : list opt) : ContextBase := fold_left handle_inbound_opt opts empty_context.

(** [params.initial_max_streams_bidi] in [Connection::init]. *)
Definition initial_max_streams_bidi (c : ContextBase) : Z :=
  if max_streams c =? 0 then DEFAULT_MAX_BIDI_STREAMS else u64 (max_streams c).
End Ctx.
Export Ctx.

(** The last option that sets a field. *)
Definition last_opt {A} (f : opt -> option A) (opts : list opt) (d : A) : A :=
  fold_left (fun acc o => default acc (f o)) opts d.

Lemma last_opt_app {A} (f : opt -> option A) a b d :
  last_opt f (a ++ b) d = last_opt f b (last_opt f a d).
Proof. unfold last_opt. by rewrite fold_left_app. Qed.

Lemma fold_opts_fields c opts :
  fold_left handle_outbound_opt opts c = mkCtx
    (last_opt (fun o => match o with OptTls t => Some (Some t) | _ => None end) opts (tls_creds c))
    (last_opt (fun o => match o with OptDataCb t => Some (Some t) | _ => None end) opts (stream_data_cb c))
    (last_opt (fun o => match o with OptOpenCb t => Some (Some t) | _ => None end) opts (stream_open_cb c))
    (last_opt (fun o => match o with OptCloseCb t => Some (Some t) | _ => None end) opts (stream_close_cb c))
    (last_opt (fun o => match o with OptMaxStreams n => Some (i32 n) | _ => None end) opts (max_streams c)).
Proof.
  revert c. induction opts as [|o opts IH]; intros c; [by destruct c|].
  simpl. rewrite IH. by destruct o.
Qed.

Lemma handle_opt_same c o : handle_inbound_opt c o = handle_outbound_opt c o.
Proof. by destruct o. Qed.

Lemma context_new_same opts : InboundContext_new opts = OutboundContext_new opts.
Proof.
  unfold InboundContext_new, OutboundContext_new. generalize empty_context.
  induction opts as [|o opts IH]; intros c; simpl; [done|]. by rewrite handle_opt_same, IH.
Qed.

(** Options: in either direction every field of the context comes from the last option that
    sets it, whatever the order of the others, and a connection without a (non-zero)
    max_streams option announces the default of 32 streams. *)
Theorem context_last_option_wins (opts opts' : list opt) (o : opt) :
  Forall (fun o' => match o, o' with
    | OptTls _, OptTls _ | OptMaxStreams _, OptMaxStreams _ | OptDataCb _, OptDataCb _
    | OptOpenCb _, OptOpenCb _ | OptCloseCb _, OptCloseCb _ => False | _, _ => True end) opts' ->
  let c := InboundContext_new (opts ++ o :: opts') in
  c = OutboundContext_new (opts ++ o :: opts') /\
  (match o with
   | OptTls t => tls_creds c = Some t
   | OptDataCb f => stream_data_cb c = Some f
   | OptOpenCb f => stream_open_cb c = Some f
   | OptCloseCb f => stream_close_cb c = Some f
   | OptMaxStreams n => 0 < n < 2 ^ 31 -> initial_max_streams_bidi c = n
   end) /\
  initial_max_streams_bidi (OutboundContext_new []) = DEFAULT_MAX_BIDI_STREAMS.
Proof.
  intros HF c. subst c. rewrite context_new_same. split_and!; [done| |done].
  unfold OutboundContext_new. rewrite fold_opts_fields.
  assert (forall A (f : opt -> option A) d, Forall (fun o' => f o' = None) opts' ->
    last_opt f (opts ++ o :: opts') d = default (last_opt f opts d) (f o)) as Hlast.
  { intros A f d Hf. rewrite last_opt_app. unfold last_opt at 1. simpl.
    induction Hf as [|o' opts'' Ho Hf IH]; simpl; [done|]. rewrite Ho. simpl. apply IH.
    by inversion HF. }
  destruct o; unfold initial_max_streams_bidi;
    cbn [tls_creds stream_data_cb stream_open_cb stream_close_cb max_streams].
  2: { intros Hn. rewrite Hlast by (eapply Forall_impl; [exact HF|]; by intros []). simpl.
       rewrite i32_small by lia. rewrite (proj2 (Z.eqb_neq _ _)) by lia. apply u64_small. unfold is_u64. lia. }
  all: rewrite Hlast by (eapply Forall_impl; [exact HF|]; by intros []); done.
Qed.

Lemma context_last_option_wins_witness :
  let c := InboundContext_new ([OptMaxStreams 4; OptTls 1] ++ OptMaxStreams 8 :: [OptDataCb 2]) in
  c = OutboundContext_new ([OptMaxStreams 4; OptTls 1] ++ OptMaxStreams 8 :: [OptDataCb 2]) /\
  (0 < 8 < 2 ^ 31 -> initial_max_streams_bidi c = 8) /\
  initial_max_streams_bidi (OutboundContext_new []) = DEFAULT_MAX_BIDI_STREAMS.
Proof.
  intros c. apply (context_last_option_wins [OptMaxStreams 4; OptTls 1] [OptDataCb 2] (OptMaxStreams 8)).
  by repeat constructor.
Defined.
