(* ===== verification/Connection.v ===== *)
(** * Connections

    Models include/quic/connection.hpp and src/connection.cpp: the stream table and the queue of
    streams waiting for a stream id, the callbacks ngtcp2 makes into the connection, packet
    production ([flush_streams]) and sending, and the retransmission timer.

    ngtcp2 is a parameter: a state type [C] with the operations below. *)
From S2P Require Import Prelude StdMap Utils Stream Udp Sender EndpointSend Context.
Import Cid Addr Io.

(** What [ngtcp2_conn_writev_stream] returns: its result, [ndatalen], the ECN mark of the packet
    and, for a positive result, the packet it wrote. *)
Record write_result := mkWrite { w_nwrite : Z; w_ndatalen : Z; w_ecn : Z; w_pkt : list Z }.

Class Ngtcp2 (C : Type) := {
  ng_open_bidi_stream : C -> C * (Z * Z);       (* return value, and the stream id it stored *)
  ng_streams_bidi_left : C -> Z;
  ng_is_local_stream : C -> Z -> bool;
  ng_is_bidi_stream : Z -> bool;
  ng_writev_stream : C -> Z -> bool -> list (list Z) -> C * write_result;  (* id, FIN flag, data *)
  ng_path_max_tx_udp_payload_size : C -> Z;
  ng_send_quantum : C -> Z;
  ng_expiry : C -> Z;
}.

Module Conn.
Record Connection := mkConn {
  source_cid : ConnectionID;
  context : ContextBase;
  dir : Direction;
  on_closing : option nat;
  draining : bool;
  closing : bool;
  streams : list (Z * chunk_state);      (* std::map<int64_t, std::shared_ptr<Stream>> *)
  pending_streams : list chunk_state;    (* std::deque *)
  send_buffer : list Z;
  send_buffer_size : list Z;
  send_ecn : Z;
  n_packets : nat;
  sent_counter : Z;
}.

Definition with_streams (c : Connection) m p :=
  mkConn (source_cid c) (context c) (dir c) (on_closing c) (draining c) (closing c) m p
    (send_buffer c) (send_buffer_size c) (send_ecn c) (n_packets c) (sent_counter c).
Definition with_batch (c : Connection) b bs e n cnt :=
  mkConn (source_cid c) (context c) (dir c) (on_closing c) (draining c) (closing c)
    (streams c) (pending_streams c) b bs e n cnt.
Definition with_flags (c : Connection) oc d cl :=
  mkConn (source_cid c) (context c) (dir c) oc d cl (streams c) (pending_streams c)
    (send_buffer c) (send_buffer_size c) (send_ecn c) (n_packets c) (sent_counter c).

Definition on_stream (c : Connection) (id : Z) (f : Stream -> Stream) : Connection :=
  with_streams c (map_update id (fun st => mkCS (f (cs_stream st)) (cs_senders st)) (streams c))
    (pending_streams c).

(** [Connection::drain] and [Connection::call_closing]; the callback called, if any. *)
Definition drain (c : Connection) : Connection := with_flags c (on_closing c) true (closing c).
Definition call_closing (c : Connection) : Connection * option nat :=
  match on_closing c with
  | None => (c, None)
  | Some cb => (with_flags c None (draining c) (closing c), Some cb)
  end.

Section ngtcp2.
Context `{NgtcpConsts} {C : Type} `{Ngtcp2 C}.

(** ** Opening streams *)

(** [Connection::check_pending_streams]; the loop runs at most once per pending stream. *)
Fixpoint check_pending_loop (available popped : Z) (pend : list chunk_state) (g : C) (m : list (Z * chunk_state)) :
    C * list (Z * chunk_state) * list chunk_state :=
  match pend with
  | [] => (g, m, [])
  | str :: pend' =>
      if popped <? available then
        let '(g', (rv, id)) := ng_open_bidi_stream g in
        let str_id := mkCS (with_id (cs_stream str) id) (cs_senders str) in
        if rv =? 0 then
          check_pending_loop available (popped + 1) pend' g'
            (map_assign id (mkCS (set_ready (cs_stream str_id)) (cs_senders str)) m)
        else (g', m, str :: pend')
      else (g, m, pend)
  end.
Definition check_pending_streams (available : Z) (g : C) (c : Connection) : C * Connection :=
  let '(g', m, p) := check_pending_loop available 0 (pending_streams c) g (streams c) in
  (g', with_streams c m p).

(** [extend_max_local_streams_bidi]: the number of streams left is converted to int. *)
Definition extend_max_local_streams_bidi (g : C) (c : Connection) : C * Connection :=
  let remaining := ng_streams_bidi_left g in
  if 0 <? remaining then check_pending_streams (i32 remaining) g c else (g, c).

(** [Connection::get_new_stream]; the stream returned is the last pending one, or the entry for
    the id. *)
Definition get_new_stream (data_cb : option nat) (close_cb : option close_cb) (g : C) (c : Connection) :
    C * Connection * option Z :=
  let data_cb := match data_cb with Some _ => data_cb | None => stream_data_cb (context c) end in
  let s := Stream_new data_cb close_cb (-1) in
  let '(g', (rv, id)) := ng_open_bidi_stream g in
  if rv =? 0 then
    (g', with_streams c (map_assign id (mkCS (set_ready (with_id s id)) []) (streams c)) (pending_streams c), Some id)
  else (g', with_streams c (streams c) (pending_streams c ++ [mkCS (set_not_ready s) []]), None).

(** [Connection::get_streams_available]. *)
Definition get_streams_available (g : C) : Z :=
  let open := ng_streams_bidi_left g in
  if 2 ^ 64 - 1 <? open then -1 else i32 open.

(** ** Callbacks from ngtcp2 *)

(** [Connection::stream_opened]; [open_code] is what the user's open callback returns. *)
Definition stream_opened (id open_code : Z) (c : Connection) : outcome (Connection * list effect * Z) :=
  let s := set_ready (Stream_new (stream_data_cb (context c)) (stream_close_cb (context c)) id) in
  let '(e, app_err_code) :=
    match stream_open_cb (context c) with Some _ => ([EOpenCb id], open_code) | None => ([], 0) end in
  if negb (app_err_code =? 0) then
    let '(s', e') := Stream_close s app_err_code in
    Ok (c, e ++ e' ++ Stream_destroy s', 0)
  else
    let '(m, ins) := map_emplace id (mkCS s []) (streams c) in
    assert_then ins (Ok (with_streams c m (pending_streams c), e, 0)).

(** [Connection::stream_closed]; does the table hold the [last] reference to the stream? *)
Definition stream_closed (last : bool) (id app_code : Z) (g : C) (c : Connection) : outcome (Connection * list effect) :=
  assert_then (ng_is_bidi_stream id)
    match map_find id (streams c) with
    | None => Ok (c, [])
    | Some st =>
        let '(s', e) := Stream_on_closed (cs_stream st) app_code in
        let e_ext := if ng_is_local_stream g id then [] else [EExtendStreams 1] in
        let* e' := Stream_release last (mkCS s' (cs_senders st)) in
        Ok (with_streams c (map_erase id (streams c)) (pending_streams c), e ++ e' ++ e_ext ++ [EIoReady])
    end.

(** [Connection::stream_ack]. *)
Definition stream_ack (stale : Z) (fuel : nat) (id size : Z) (c : Connection) : outcome (Connection * list effect * Z) :=
  match map_find id (streams c) with
  | Some st =>
      let* (st', e, _) := acknowledge stale fuel size st in
      Ok (with_streams c (map_update id (fun _ => st') (streams c)) (pending_streams c), e, 0)
  | None => Ok (c, [], NGTCP2_ERR_CALLBACK_FAILURE)
  end.

(** [Connection::get_stream]: [std::map::at]. *)
Definition get_stream (id : Z) (c : Connection) : outcome chunk_state :=
  match map_find id (streams c) with Some st => Ok st | None => Throw out_of_range end.

(** [Connection::stream_receive].  [run_cb] is what the user's data callback does with the stream
    and whether it throws. *)
Definition stream_receive (run_cb : nat -> chunk_state -> list Z -> chunk_state * list effect * bool)
    (id : Z) (data : list Z) (fin : bool) (c : Connection) : outcome (Connection * list effect * Z) :=
  let* st := get_stream id c in
  let '(st1, e1, good) :=
    match data_callback (cs_stream st) with
    | None => (st, [], true)
    | Some cb => let '(st', e, threw) := run_cb cb st data in (st', EDataCb cb id data :: e, negb threw)
    end in
  if negb good then
    let '(s2, e2) := Stream_close (cs_stream st1) STREAM_ERROR_EXCEPTION in
    Ok (with_streams c (map_update id (fun _ => mkCS s2 (cs_senders st1)) (streams c)) (pending_streams c),
        e1 ++ e2, NGTCP2_ERR_CALLBACK_FAILURE)
  else
    Ok (with_streams c (map_update id (fun _ => st1) (streams c)) (pending_streams c),
        e1 ++ (if fin then [] else [EExtendStreamOffset id (zlen data); EExtendOffset (zlen data)]), 0).

(** ** The functions registered with ngtcp2 *)

Definition recv_stream_data run_cb (flags id : Z) (data : list Z) (c : Connection) :=
  stream_receive run_cb id data (negb (Z.land flags NGTCP2_STREAM_DATA_FLAG_FIN =? 0)) c.
Definition acked_stream_data_offset (stale : Z) (fuel : nat) (id datalen : Z) (c : Connection) :=
  stream_ack stale fuel id datalen c.
Definition on_stream_open (id open_code : Z) (c : Connection) := stream_opened id open_code c.
Definition on_stream_close (last : bool) (id app_error_code : Z) (g : C) (c : Connection) : outcome (Connection * list effect * Z) :=
  let* (c', e) := stream_closed last id app_error_code g c in Ok (c', e, 0).
Definition on_stream_reset (last : bool) (id app_error_code : Z) (g : C) (c : Connection) : outcome (Connection * list effect * Z) :=
  let* (c', e) := stream_closed last id app_error_code g c in Ok (c', e, 0).

(** [get_new_connection_id_cb]: what the two calls of [gnutls_rnd] return and write. *)
Definition get_new_connection_id_cb (rnd_cid rnd_token : Z * list Z) (cidlen : Z) :
    Z * option (ConnectionID * list Z) :=
  if negb (rnd_cid.1 =? 0) then (NGTCP2_ERR_CALLBACK_FAILURE, None)
  else if negb (rnd_token.1 =? 0) then (NGTCP2_ERR_CALLBACK_FAILURE, None)
  else (0, Some (mkCID rnd_cid.2 cidlen, rnd_token.2)).

(** ** Parameters: the values [Connection::init] sets; times are in nanoseconds *)
Record init_values := mkInit {
  max_tx_udp_payload_size : Z;
  max_window : Z;
  max_stream_window : Z;
  initial_max_data : Z;
  initial_max_streams_uni : Z;
  initial_max_stream_data_bidi_local : Z;
  initial_max_stream_data_bidi_remote : Z;
  initial_max_stream_data_uni : Z;
  max_idle_timeout : Z;
  active_connection_id_limit : Z;
  initial_max_streams_bidi_param : Z;
}.
Definition Connection_init (ctx : ContextBase) : init_values :=
  mkInit NGTCP2_MAX_PMTUD_UDP_PAYLOAD_SIZE (lit_Mi 24) (lit_Mi 16) (lit_Mi 15) 0 (lit_Mi 6) (lit_Mi 6) (lit_Mi 6)
    (5 * 60 * 1000000000) 8 (initial_max_streams_bidi ctx).

(** ** The retransmission timer *)
Inductive timer := TimerOff | TimerNoTimeout | TimerIn (tv_sec tv_usec : Z).

(** [Connection::schedule_retransmit].  [exp_ns * 1ns] has the representation of [ngtcp2_tstamp],
    so the difference is a duration of unsigned 64-bit nanoseconds.  A null timeval adds the event
    with no timeout. *)
Definition schedule_retransmit (exp_ns ts_ns : Z) : timer :=
  if exp_ns =? 2 ^ 64 - 1 then TimerOff
  else
    let delta := u64 (exp_ns - ts_ns) in
    if 0 <? delta then
      let delta := u64 (delta + 999) in
      TimerIn (delta / 1000000000) (delta mod 1000000000 / 1000)
    else TimerNoTimeout.
End ngtcp2.
End Conn.
Export Conn.

(** ** The retransmission timer fires at the right time, or not at all *)

(** When ngtcp2's expiry lies in the future, the timer is set to it, rounded up to the next
    microsecond, with a normalised timeval. *)
Theorem retransmit_rounds_up (exp_ns ts_ns : Z) :
  0 <= ts_ns < exp_ns -> exp_ns < 2 ^ 64 - 1000 ->
  exists sec usec, schedule_retransmit exp_ns ts_ns = TimerIn sec usec /\
    0 <= usec < 1000000 /\ exp_ns - ts_ns <= sec * 1000000000 + usec * 1000 < exp_ns - ts_ns + 1000.
Proof.
  intros Hts Hexp. unfold schedule_retransmit.
  rewrite (proj2 (Z.eqb_neq _ _)) by lia. rewrite u64_small by (unfold is_u64; lia).
  rewrite (proj2 (Z.ltb_lt _ _)) by lia. rewrite u64_small by (unfold is_u64; lia).
  do 2 eexists. split; [done|].
  set (d := exp_ns - ts_ns + 999).
  pose proof (Z.div_mod d 1000000000). pose proof (Z.mod_pos_bound d 1000000000).
  pose proof (Z.div_mod (d mod 1000000000) 1000). pose proof (Z.mod_pos_bound (d mod 1000000000) 1000).
  assert (0 <= d mod 1000000000 / 1000) by (apply Z.div_pos; lia).
  assert (d mod 1000000000 / 1000 < 1000000) by (apply Z.div_lt_upper_bound; lia).
  split; lia.
Qed.

Lemma retransmit_rounds_up_witness :
  exists sec usec, schedule_retransmit 5000000001 2999999500 = TimerIn sec usec /\
    0 <= usec < 1000000 /\
    5000000001 - 2999999500 <= sec * 1000000000 + usec * 1000 < 5000000001 - 2999999500 + 1000.
Proof. apply (retransmit_rounds_up 5000000001 2999999500); lia. Defined.

(** C40: what the timer is set to, in every case: an expiry in the future is rounded up to the next microsecond; an
    expiry at this very moment adds the event with no timeout, so that it is not handled at all; an expiry missed
    by less than a microsecond fires at once, because the rounding wraps the unsigned difference back to zero;
    and one missed by a microsecond or more sets the timer more than 290 years ahead. *)
Theorem retransmit_missed_expiry (exp_ns ts_ns : Z) :
  0 <= exp_ns < 2 ^ 64 - 1000 -> 0 <= ts_ns < 2 ^ 63 ->
  (ts_ns < exp_ns -> exists sec usec, schedule_retransmit exp_ns ts_ns = TimerIn sec usec /\
     0 <= usec < 1000000 /\ exp_ns - ts_ns <= sec * 1000000000 + usec * 1000 < exp_ns - ts_ns + 1000) /\
  (exp_ns = ts_ns -> schedule_retransmit exp_ns ts_ns = TimerNoTimeout) /\
  (exp_ns < ts_ns < exp_ns + 1000 -> schedule_retransmit exp_ns ts_ns = TimerIn 0 0) /\
  (exp_ns + 1000 <= ts_ns -> exists sec usec, schedule_retransmit exp_ns ts_ns = TimerIn sec usec /\ 290 * 365 * 86400 < sec).
Proof.
  intros Hexp Hts. split; [intros; apply retransmit_rounds_up; lia|].
  assert (exp_ns < ts_ns -> u64 (exp_ns - ts_ns) = 2 ^ 64 - (ts_ns - exp_ns)) as Hwrap.
  { intros Hlt. unfold u64, wrap. rewrite <- (Z.mod_add _ 1) by lia. rewrite Z.mod_small; lia. }
  unfold schedule_retransmit. rewrite (proj2 (Z.eqb_neq _ _)) by lia. split_and!.
  - intros ->. by rewrite Z.sub_diag.
  - intros Hm. rewrite Hwrap, (proj2 (Z.ltb_lt 0 _)) by lia.
    assert (u64 (2 ^ 64 - (ts_ns - exp_ns) + 999) = 999 - (ts_ns - exp_ns)) as ->.
    { unfold u64, wrap. rewrite <- (Z.mod_add _ (-1)) by lia. rewrite Z.mod_small; lia. }
    rewrite (Z.div_small _ 1000000000), (Z.mod_small _ 1000000000), Z.div_small by lia. done.
  - intros Hm. rewrite Hwrap, (proj2 (Z.ltb_lt 0 _)) by lia. rewrite u64_small by (unfold is_u64; lia).
    do 2 eexists. split; [done|]. apply Z.lt_le_trans with 9223372036; [lia|]. apply Z.div_le_lower_bound; lia.
Qed.

Lemma retransmit_missed_expiry_witness :
  schedule_retransmit 2000000000 2000000999 = TimerIn 0 0 /\
  exists sec usec, schedule_retransmit 2000000000 2000005000 = TimerIn sec usec /\ 290 * 365 * 86400 < sec.
Proof.
  split; [apply (retransmit_missed_expiry 2000000000 2000000999); lia|apply (retransmit_missed_expiry 2000000000 2000005000); lia].
Defined.

(** ** The stream table *)

Section table.
Context `{NgtcpConsts} {C : Type} `{Ngtcp2 C}.

(** Every entry of the table is a ready stream filed under its own id, and streams that wait for
    an id are not ready. *)
Definition table_inv (c : Connection) : Prop :=
  sorted_keys (streams c) /\
  (forall id st, map_find id (streams c) = Some st -> stream_id (cs_stream st) = id /\ ready (cs_stream st) = true) /\
  Forall (fun st => ready (cs_stream st) = false) (pending_streams c).

(** A data callback may send, close and so on, but cannot change a stream's id or readiness. *)
Definition cb_ok (run_cb : nat -> chunk_state -> list Z -> chunk_state * list effect * bool) : Prop :=
  forall cb st d, let '(st', _, _) := run_cb cb st d in
    stream_id (cs_stream st') = stream_id (cs_stream st) /\ ready (cs_stream st') = ready (cs_stream st).

(** Of the connection, a stream reported closed changes at most the table. *)
Lemma stream_closed_erases last id code g c c' e :
  stream_closed last id code g c = Ok (c', e) ->
  c' = c \/ c' = with_streams c (map_erase id (streams c)) (pending_streams c).
Proof.
  unfold stream_closed. intros [_ Hr]%assert_then_ok. destruct (map_find id (streams c)); [|left; by simplify_eq].
  destruct (Stream_on_closed _ _). apply obind_ok in Hr as (e' & _ & Hr). right. by simplify_eq.
Qed.

(** Everything that changes the table. *)
Inductive table_step : Connection -> Connection -> Prop :=
  | step_new dcb ccb g c : table_step c (get_new_stream dcb ccb g c).1.2
  | step_pending avail g c : table_step c (check_pending_streams avail g c).2
  | step_opened id code c c' e rv : stream_opened id code c = Ok (c', e, rv) -> table_step c c'
  | step_closed last id code g c c' e : stream_closed last id code g c = Ok (c', e) -> table_step c c'
  | step_ack stale fuel id n c c' e rv : stream_ack stale fuel id n c = Ok (c', e, rv) -> table_step c c'
  | step_receive run_cb id d fin c c' e rv :
      cb_ok run_cb -> stream_receive run_cb id d fin c = Ok (c', e, rv) -> table_step c c'
  | step_send id st bs ka c :
      map_find id (streams c) = Some st ->
      table_step c (on_stream c id (fun s => (Stream_send s bs ka).1))
  | step_close id st code c :
      map_find id (streams c) = Some st ->
      table_step c (on_stream c id (fun s => (Stream_close s code).1)).

Definition entry_ok (id : Z) (st : chunk_state) : Prop :=
  stream_id (cs_stream st) = id /\ ready (cs_stream st) = true.

Lemma table_assign c id st pend :
  table_inv c -> entry_ok id st -> Forall (fun st => ready (cs_stream st) = false) pend ->
  table_inv (with_streams c (map_assign id st (streams c)) pend).
Proof.
  intros (Hs & He & _) Hst Hp. split_and!; cbn [streams with_streams pending_streams]; [by apply sorted_assign| |done].
  intros id' st' Hf. destruct (decide (id = id')) as [<-|Hne].
  - rewrite map_find_assign_eq in Hf. by simplify_eq.
  - rewrite map_find_assign_ne in Hf by done. eauto.
Qed.

Lemma table_update c id f :
  table_inv c -> (forall st, map_find id (streams c) = Some st -> entry_ok id (f st)) ->
  table_inv (with_streams c (map_update id f (streams c)) (pending_streams c)).
Proof.
  intros (Hs & He & Hp) Hf. split_and!; cbn [streams with_streams pending_streams]; [by apply sorted_update| |done].
  intros id' st' Hst. destruct (decide (id = id')) as [<-|Hne].
  - rewrite map_find_update_eq in Hst. destruct (map_find id (streams c)) as [st|]; simplify_eq/=. by apply Hf.
  - rewrite map_find_update_ne in Hst by done. eauto.
Qed.

Lemma check_pending_table avail popped pend g m :
  sorted_keys m -> (forall id st, map_find id m = Some st -> entry_ok id st) ->
  Forall (fun st => ready (cs_stream st) = false) pend ->
  let '(_, m', p) := check_pending_loop avail popped pend g m in
  sorted_keys m' /\ (forall id st, map_find id m' = Some st -> entry_ok id st) /\
  Forall (fun st => ready (cs_stream st) = false) p.
Proof.
  revert popped g m. induction pend as [|str pend IH]; intros popped g m Hs He Hp; simpl; [done|].
  destruct (popped <? avail); [|done]. destruct (ng_open_bidi_stream g) as [g' [rv id]].
  destruct (rv =? 0); [|done]. inversion Hp; subst. apply IH; [by apply sorted_assign| |done].
  intros id' st' Hf. destruct (decide (id = id')) as [<-|Hne].
  - rewrite map_find_assign_eq in Hf. by simplify_eq.
  - rewrite map_find_assign_ne in Hf by done. eauto.
Qed.

Lemma acknowledge_entry stale fuel n id st st' e ub :
  entry_ok id st -> acknowledge stale fuel n st = Ok (st', e, ub) -> entry_ok id st'.
Proof. intros [<- Hr] [Hen _]%acknowledge_quiet. injection Hen as _ _ _ E1 E2. split; congruence. Qed.

Lemma Stream_close_entry id s code sn : entry_ok id (mkCS s sn) -> entry_ok id (mkCS (Stream_close s code).1 sn).
Proof. destruct s as [? ? ? ? ? [] [] ? ?]; by intros [? ?]. Qed.

Lemma table_inv_preserved (c c' : Connection) : table_inv c -> table_step c c' -> table_inv c'.
Proof.
  intros Hinv Hstep. pose proof Hinv as (Hs & He & Hp).
  destruct Hstep as [dcb ccb g c|avail g c|id code c c' e rv Hr|last id code g c c' e Hr
    |stale fuel id n c c' e rv Hr|run_cb id d fin c c' e rv Hcb Hr|id st bs ka c Hf|id st code c Hf].
  - unfold get_new_stream. destruct (ng_open_bidi_stream g) as [g' [rv id]].
    destruct (rv =? 0); simpl; [by apply table_assign|].
    split_and!; [done..|]. apply Forall_app. split; [done|by repeat constructor].
  - unfold check_pending_streams. pose proof (check_pending_table avail 0 (pending_streams c) g (streams c) Hs He Hp).
    destruct (check_pending_loop _ _ _ _ _) as [[g' m] p]. done.
  - unfold stream_opened in Hr. destruct (match stream_open_cb (context c) with Some _ => _ | None => _ end) as [eo ac].
    destruct (negb (ac =? 0)); [destruct (Stream_close _ _); by simplify_eq|].
    unfold map_emplace in Hr. destruct (map_find id (streams c)); [done|].
    simpl in Hr. simplify_eq. by apply table_assign.
  - apply stream_closed_erases in Hr as [->| ->]; [done|]. split_and!; [by apply sorted_erase| |done].
    intros id' st' Hf. simpl in Hf. destruct (decide (id = id')) as [<-|Hne].
    + rewrite (map_find_erase_eq id _ Hs) in Hf. done.
    + apply He. by rewrite map_find_erase_ne in Hf.
  - unfold stream_ack in Hr. destruct (map_find id (streams c)) as [st|] eqn:Hf; [|by simplify_eq].
    apply obind_ok in Hr as ([[st' e'] ub] & Ha & Hr). simplify_eq. apply table_update; [done|].
    intros st0 _. eapply acknowledge_entry; [by apply He|done].
  - unfold stream_receive, get_stream in Hr. destruct (map_find id (streams c)) as [st|] eqn:Hf; [|done]. cbn [obind] in Hr.
    assert (entry_ok id st) as [Hid Hrd] by (by apply He).
    destruct (match data_callback (cs_stream st) with None => _ | Some _ => _ end) as [[st1 e1] good] eqn:Hcall.
    assert (entry_ok id st1) as Hst1.
    { destruct (data_callback (cs_stream st)) as [cb|]; [|injection Hcall as <- _ _; exact (conj Hid Hrd)].
      specialize (Hcb cb st d). destruct (run_cb cb st d) as [[st2 e2] t]. simplify_eq. unfold entry_ok. destruct Hcb. split; congruence. }
    destruct (negb good).
    + destruct (Stream_close (cs_stream st1) STREAM_ERROR_EXCEPTION) as [s2 e2] eqn:Hcl. simplify_eq.
      apply table_update; [done|]. intros _ _. change s2 with (s2, e2).1. rewrite <- Hcl.
      apply Stream_close_entry. by destruct st1.
    + simplify_eq. by apply table_update.
  - apply table_update; [done|]. intros st0 Hst0. exact (He _ _ Hst0).
  - apply table_update; [done|]. intros st0 Hst0. apply Stream_close_entry. destruct (He _ _ Hst0). done.
Qed.

(** The table invariant: in every state reachable from a new connection by opening, accepting,
    closing, acknowledging, sending and receiving on streams, entries are filed under their own
    id and ready, keys are strictly sorted, and streams that wait for an id are not ready. *)
Theorem table_inv_reachable (c c' : Connection) :
  streams c = [] -> pending_streams c = [] -> rtc table_step c c' -> table_inv c'.
Proof.
  intros Hs Hp Hr. assert (table_inv c) as Hinv.
  { split_and!; [rewrite Hs; constructor|by rewrite Hs|by rewrite Hp]. }
  induction Hr as [|c c1 c2 H1 Hr IH]; [done|]. clear Hs Hp.
  assert (table_inv c1) as Hinv1 by (by eapply table_inv_preserved). clear IH H1 Hinv.
  induction Hr; eauto using table_inv_preserved.
Qed.
End table.

Definition new_connection (ctx : ContextBase) (d : Direction) : Connection :=
  mkConn (mkCID (replicate 20 7) 20) ctx d None false false [] []
    (replicate (Z.to_nat (1452 * 24)) 0) (replicate 24 0) 0 0 0.

(** A toy ngtcp2 that grants stream ids 0, 4, 8, ... up to a limit and packs what it is given. *)
Definition toy_ngtcp2 : Ngtcp2 (Z * Z) := {|
  ng_open_bidi_stream := fun '(next, limit) =>
    if next <? 4 * limit then ((next + 4, limit), (0, next)) else ((next, limit), (-211, 0));
  ng_streams_bidi_left := fun '(next, limit) => limit - next / 4;
  ng_is_local_stream := fun _ id => id mod 2 =? 0;
  ng_is_bidi_stream := fun id => id mod 4 <? 2;
  ng_writev_stream := fun g id fin bufs =>
    let d := take 1000 (concat bufs) in
    (g, if bool_decide (d = []) && negb fin then mkWrite 0 (-1) 0 [] else mkWrite (zlen d + 20) (zlen d) 1 (replicate 20 9 ++ d));
  ng_path_max_tx_udp_payload_size := fun _ => 1200;
  ng_send_quantum := fun _ => 12000;
  ng_expiry := fun _ => 2 ^ 64 - 1;
|}.

Lemma table_inv_reachable_witness :
  exists c', rtc (@table_step ngtcp2_consts _ toy_ngtcp2) (new_connection empty_context OUTBOUND) c' /\
    table_inv c' /\ map_keys (streams c') = [0; 4] /\ length (pending_streams c') = 1%nat.
Proof.
  pose (c := new_connection empty_context OUTBOUND). pose (nw := @get_new_stream _ toy_ngtcp2 None None).
  exists (nw (8, 2) (nw (4, 2) (nw (0, 2) c).1.2).1.2).1.2.
  assert (rtc (@table_step ngtcp2_consts _ toy_ngtcp2) c (nw (8, 2) (nw (4, 2) (nw (0, 2) c).1.2).1.2).1.2) as Hr.
  { do 3 (eapply rtc_l; [apply step_new|]). apply rtc_refl. }
  split_and!; [exact Hr| |vm_compute; reflexivity..].
  apply (@table_inv_reachable ngtcp2_consts _ toy_ngtcp2 c); [reflexivity..|exact Hr].
Defined.

(** ** Streams waiting for an id *)

Section pending.
Context {C : Type} `{Ngtcp2 C}.

(** [ngtcp2_conn_open_bidi_stream] grants ids that were not in use; [used g] are the ids it has
    granted or accepted so far. *)
Definition grants_fresh_ids (used : C -> Z -> Prop) : Prop :=
  forall g, let '(g', (rv, id)) := ng_open_bidi_stream g in
    (rv = 0 -> ~ used g id /\ used g' id) /\ (forall i, used g i -> used g' i).

Definition promoted (id : Z) (st : chunk_state) : chunk_state :=
  mkCS (set_ready (with_id (cs_stream st) id)) (cs_senders st).

(** What the [i]-th of a sequence of calls answers, from the state [g], and ids that are granted in a row. *)
Fixpoint nth_open (i : nat) (g : C) : Z * Z :=
  match i with O => (ng_open_bidi_stream g).2 | S i' => nth_open i' (ng_open_bidi_stream g).1 end.
Definition granted_row (ids : list Z) (g : C) : Prop := forall i id, ids !! i = Some id -> nth_open i g = (0, id).

Lemma check_pending_loop_spec used avail popped pend g m :
  grants_fresh_ids used -> (forall id, is_Some (map_find id m) -> used g id) ->
  let '(g', m', p) := check_pending_loop avail popped pend g m in
  exists ids, p = drop (length ids) pend /\ (length ids <= length pend)%nat /\ granted_row ids g /\
    (length ids = length pend \/ Z.of_nat (length ids) = Z.max 0 (avail - popped) \/ (nth_open (length ids) g).1 <> 0) /\
    Z.of_nat (length ids) <= Z.max 0 (avail - popped) /\
    length m' = (length m + length ids)%nat /\ Forall (fun id => ~ used g id) ids /\
    (forall i id st, ids !! i = Some id -> pend !! i = Some st -> map_find id m' = Some (promoted id st)) /\
    (forall id, id ∉ ids -> map_find id m' = map_find id m).
Proof.
  intros Hfresh. revert popped g m. induction pend as [|str pend IH]; intros popped g m Hused; simpl.
  { exists []. split_and!; simpl; try done; try lia; by left. }
  destruct (popped <? avail) eqn:Ep; bools; [|exists []; simpl; split_and!; try done; lia].
  pose proof (Hfresh g) as Hg. destruct (ng_open_bidi_stream g) as [g' [rv id]] eqn:Hop. destruct Hg as [Hok Hmono].
  destruct (rv =? 0) eqn:Er; bools; [|exists []; simpl; rewrite Hop; split_and!; try done; try lia; by right; right].
  destruct (Hok Er) as [Hnot Hnow].
  assert (map_find id m = None) as Hnone.
  { destruct (map_find id m) eqn:E; [|done]. destruct Hnot. eauto. }
  fold (promoted id str).
  specialize (IH (popped + 1) g' (map_assign id (promoted id str) m)).
  destruct (check_pending_loop avail (popped + 1) pend g' _) as [[g2 m2] p2].
  destruct IH as (ids & -> & Hl & Hrow & Hstop & Hmax & Hlen & Hnu & Hin & Hout).
  { intros id' [st' Hst']. destruct (decide (id = id')) as [<-|Hne]; [done|].
    rewrite map_find_assign_ne in Hst' by done. eauto. }
  assert (id ∉ ids) as Hid. { intros Hi. rewrite Forall_forall in Hnu. by apply (Hnu id). }
  exists (id :: ids). split_and!; simpl; try lia; try done.
  - intros [|i] id' Hi; simplify_eq/=; rewrite Hop; [done|by apply Hrow].
  - rewrite Hop. cbn [fst]. destruct Hstop as [->|[Hs|Hs]]; [by left|right; left; lia|by right; right].
  - rewrite Hlen, map_assign_length_new by done. lia.
  - constructor; [done|]. eapply Forall_impl; [exact Hnu|]. naive_solver.
  - intros [|i] id' st' H1 H2; simplify_eq/=; [|by eapply Hin].
    rewrite Hout by done. apply map_find_assign_eq.
  - intros id' [Hne Hni]%not_elem_of_cons. rewrite Hout by done. by apply map_find_assign_ne.
Qed.

(** C28: streams waiting for an id are served first come, first served, and as many as possible: the ids that ngtcp2 grants
    in a row go to the streams at the front of the queue, in order, which enter the table ready and under their ids;
    serving stops only when no stream waits, when [available] streams were served, or when ngtcp2 refuses the next
    one; no stream is lost, and the rest of the table is unchanged. *)
Theorem pending_streams_fifo (used : C -> Z -> Prop) (avail : Z) (g : C) (c : Connection) :
  grants_fresh_ids used -> (forall id, is_Some (map_find id (streams c)) -> used g id) ->
  let c' := (check_pending_streams avail g c).2 in
  exists ids, granted_row ids g /\ (length ids <= length (pending_streams c))%nat /\ Z.of_nat (length ids) <= Z.max 0 avail /\
    (length ids = length (pending_streams c) \/ Z.of_nat (length ids) = Z.max 0 avail \/ (nth_open (length ids) g).1 <> 0) /\
    pending_streams c' = drop (length ids) (pending_streams c) /\
    (length (streams c') + length (pending_streams c') = length (streams c) + length (pending_streams c))%nat /\
    (forall i id st, ids !! i = Some id -> pending_streams c !! i = Some st ->
       map_find id (streams c') = Some (promoted id st)) /\
    (forall id, id ∉ ids -> map_find id (streams c') = map_find id (streams c)).
Proof.
  intros Hfresh Hused. unfold check_pending_streams.
  pose proof (check_pending_loop_spec used avail 0 (pending_streams c) g (streams c) Hfresh Hused) as Hl.
  destruct (check_pending_loop _ _ _ _ _) as [[g' m] p]. cbn.
  destruct Hl as (ids & -> & Hle & Hrow & Hstop & Hmax & Hlen & _ & Hin & Hout). rewrite Z.sub_0_r in *.
  exists ids. rewrite length_drop, Hlen. split_and!; try done; lia.
Qed.
End pending.

(** Three streams wait, two are available: exactly two get the ids 0 and 4. *)
Lemma pending_streams_fifo_witness :
  let w := mkCS (set_not_ready (Stream_new None None (-1))) [] in
  let c := with_streams (new_connection empty_context OUTBOUND) [] [w; w; w] in
  let c' := (@check_pending_streams _ toy_ngtcp2 2 (0, 8) c).2 in
  exists ids, length ids = 2%nat /\ pending_streams c' = drop (length ids) (pending_streams c) /\
    (forall i id st, ids !! i = Some id -> pending_streams c !! i = Some st -> map_find id (streams c') = Some (promoted id st)).
Proof.
  intros w c c'. destruct (@pending_streams_fifo _ toy_ngtcp2 (fun g id => id < g.1) 2 (0, 8) c) as (ids & _ & H3 & H2 & Hstop & Hp & _ & Hin & _).
  - intros [next limit]. simpl. destruct (next <? 4 * limit); simpl; split; intros; lia.
  - intros id [st Hst]. done.
  - exists ids. split_and!; [|exact Hp|exact Hin]. cbn in H3. destruct Hstop as [H|[H|H]]; [cbn in H; lia|lia|].
    destruct ids as [|? [|? [|? ?]]]; cbn in *; try lia; done.
Defined.

(** ** Callbacks *)

Section callbacks.
Context `{NgtcpConsts} {C : Type} `{Ngtcp2 C}.

(** *** Flow control

    The credit given back to the peer by some effects, for the connection and for one stream. *)
Definition conn_credit (es : list effect) : Z := zsum (map (fun x => match x with EExtendOffset n => n | _ => 0 end) es).
Definition stream_credit (id : Z) (es : list effect) : Z :=
  zsum (map (fun x => match x with EExtendStreamOffset id' n => if id' =? id then n else 0 | _ => 0 end) es).

Lemma conn_credit_app a b : conn_credit (a ++ b) = conn_credit a + conn_credit b.
Proof. unfold conn_credit. by rewrite map_app, zsum_app. Qed.
Lemma stream_credit_app id a b : stream_credit id (a ++ b) = stream_credit id a + stream_credit id b.
Proof. unfold stream_credit. by rewrite map_app, zsum_app. Qed.

(** The two flags of a stream agree. *)
Definition flags_agree (st : chunk_state) : Prop := is_closing (cs_stream st) = is_shutdown (cs_stream st).

(** Callbacks of the application do not touch flow control, which it has no access to, nor a stream's flags but by closing it. *)
Definition cb_no_credit (run_cb : nat -> chunk_state -> list Z -> chunk_state * list effect * bool) : Prop :=
  forall cb st d, let '(st', e, _) := run_cb cb st d in
    conn_credit e = 0 /\ (forall id, stream_credit id e = 0) /\ (flags_agree st -> flags_agree st').

(** Frames of stream data, as ngtcp2 reports them, and the results of the callback. *)
Fixpoint receive_all run_cb (frames : list (Z * list Z * bool)) (c : Connection) : outcome (Connection * list effect * list Z) :=
  match frames with
  | [] => Ok (c, [], [])
  | (id, d, fin) :: fs =>
      let* (c1, e1, rv) := stream_receive run_cb id d fin c in
      let* (c2, e2, rvs) := receive_all run_cb fs c1 in
      Ok (c2, e1 ++ e2, rv :: rvs)
  end.

(** What is given back for a frame: its bytes, unless it is the last one of its stream or its callback failed. *)
Definition returned (fr : Z * list Z * bool) (rv : Z) : Z := if fr.2 || negb (rv =? 0) then 0 else zlen fr.1.2.

Lemma Stream_close_quiet s code :
  conn_credit (Stream_close s code).2 = 0 /\ (forall id, stream_credit id (Stream_close s code).2 = 0) /\
  (is_closing s = is_shutdown s -> data_callback (Stream_close s code).1 = None /\
     is_closing (Stream_close s code).1 = is_shutdown (Stream_close s code).1).
Proof. destruct s as [? ? ? ? ? [] [] ? ?]; done. Qed.

(** One frame. *)
Lemma stream_receive_credit run_cb id d fin c st :
  cb_no_credit run_cb -> map_find id (streams c) = Some st -> (NGTCP2_ERR_CALLBACK_FAILURE <> 0) ->
  exists c' e rv st', stream_receive run_cb id d fin c = Ok (c', e, rv) /\
    map_find id (streams c') = Some st' /\ (forall id', id' <> id -> map_find id' (streams c') = map_find id' (streams c)) /\
    conn_credit e = returned (id, d, fin) rv /\
    (forall id', stream_credit id' e = if id' =? id then returned (id, d, fin) rv else 0) /\
    (rv = 0 \/ rv = NGTCP2_ERR_CALLBACK_FAILURE) /\
    (flags_agree st -> flags_agree st' /\ (rv <> 0 \/ data_callback (cs_stream st) = None -> data_callback (cs_stream st') = None)).
Proof.
  intros Hcb Hf Hnz. assert (forall st1 p, map_find id (streams (with_streams c (map_update id (fun _ => st1) (streams c)) p)) = Some st1) as Hu
    by (intros; cbn; by rewrite map_find_update_eq, Hf).
  assert (forall st1 p id', id' <> id -> map_find id' (streams (with_streams c (map_update id (fun _ => st1) (streams c)) p)) = map_find id' (streams c)) as Hne
    by (intros; by apply map_find_update_ne).
  assert (forall id', stream_credit id' (if fin then [] else [EExtendStreamOffset id (zlen d); EExtendOffset (zlen d)]) =
    if id' =? id then returned (id, d, fin) 0 else 0) as Hs.
  { intros id'. unfold returned. cbn [fst snd]. destruct fin; cbn; [by destruct (id' =? id)|]. rewrite (Z.eqb_sym id id'). destruct (id' =? id); lia. }
  assert (conn_credit (if fin then [] else [EExtendStreamOffset id (zlen d); EExtendOffset (zlen d)]) = returned (id, d, fin) 0) as Hc
    by (unfold returned; destruct fin; cbn; lia).
  unfold stream_receive, get_stream. rewrite Hf. cbn [obind]. destruct (data_callback (cs_stream st)) as [cb|] eqn:Hd.
  2: { cbn [negb app]. do 3 eexists. exists st. split; [done|]. split; [apply Hu|]. split; [apply Hne|]. split; [exact Hc|]. split; [exact Hs|]. by split; [left|]. }
  pose proof (Hcb cb st d) as Hx. destruct (run_cb cb st d) as [[st1 e1] threw]. destruct Hx as (Hc0 & Hs0 & Hfl). destruct threw; cbn [negb].
  - destruct (Stream_close_quiet (cs_stream st1) STREAM_ERROR_EXCEPTION) as (Hq1 & Hq2 & Hq3).
    destruct (Stream_close (cs_stream st1) STREAM_ERROR_EXCEPTION) as [s2 e2]. cbn [fst snd] in *.
    do 3 eexists. exists (mkCS s2 (cs_senders st1)). split; [done|]. split; [apply Hu|]. split; [apply Hne|].
    assert (forall fr, returned fr NGTCP2_ERR_CALLBACK_FAILURE = 0) as Hr
      by (intros fr; unfold returned; rewrite (proj2 (Z.eqb_neq _ 0)) by done; by rewrite orb_true_r).
    rewrite Hr. split; [change (EDataCb cb id d :: e1) with ([EDataCb cb id d] ++ e1); rewrite !conn_credit_app, Hc0, Hq1; done|].
    split; [intros id'; change (EDataCb cb id d :: e1) with ([EDataCb cb id d] ++ e1); rewrite !stream_credit_app, Hs0, Hq2; by destruct (id' =? id)|].
    split; [by right|]. intros Ha. destruct (Hq3 (Hfl Ha)) as [Hn Hag]. split; [exact Hag|by intros _].
  - do 3 eexists. exists st1. split; [done|]. split; [apply Hu|]. split; [apply Hne|].
    split; [change (EDataCb cb id d :: e1) with ([EDataCb cb id d] ++ e1); rewrite !conn_credit_app, Hc0, Hc; done|].
    split; [intros id'; change (EDataCb cb id d :: e1) with ([EDataCb cb id d] ++ e1); rewrite !stream_credit_app, Hs0, Hs; done|].
    split; [by left|]. intros Ha. split; [by apply Hfl|]. by intros [?|?].
Qed.

Lemma receive_all_credit run_cb (frames : list (Z * list Z * bool)) (c : Connection) :
  cb_no_credit run_cb -> NGTCP2_ERR_CALLBACK_FAILURE <> 0 ->
  (forall id st, map_find id (streams c) = Some st -> flags_agree st) ->
  Forall (fun fr => is_Some (map_find fr.1.1 (streams c))) frames ->
  exists c' es rvs, receive_all run_cb frames c = Ok (c', es, rvs) /\ length rvs = length frames /\
    conn_credit es = zsum (zip_with returned frames rvs) /\
    (forall id, stream_credit id es = zsum (zip_with (fun fr rv => if id =? fr.1.1 then returned fr rv else 0) frames rvs)) /\
    (forall i id d fin rv, frames !! i = Some (id, d, fin) -> rvs !! i = Some rv ->
       rv = 0 \/ rv = NGTCP2_ERR_CALLBACK_FAILURE /\
         exists st, map_find id (streams c') = Some st /\ data_callback (cs_stream st) = None) /\
    (forall id st, map_find id (streams c) = Some st -> data_callback (cs_stream st) = None ->
       exists st', map_find id (streams c') = Some st' /\ data_callback (cs_stream st') = None).
Proof.
  intros Hcb Hnz. revert c. induction frames as [|[[id d] fin] fs IH]; intros c Hfl HF; cbn [receive_all].
  { exists c, [], []. split_and!; try done. eauto. }
  inversion HF as [|? ? [st Hst] HF']; subst. cbn [fst snd] in *.
  destruct (stream_receive_credit run_cb id d fin c st Hcb Hst Hnz) as (c1 & e1 & rv & st1 & -> & Hst1 & Hoth & Hc1 & Hs1 & Hrv & Hf1). cbn [obind].
  destruct (Hf1 (Hfl _ _ Hst)) as [Hag Hnone].
  destruct (IH c1) as (c2 & e2 & rvs & -> & Hlen & Hc2 & Hs2 & Hr2 & Hp2).
  { intros id' st'. destruct (decide (id' = id)) as [->|Hne]; [rewrite Hst1; by intros [= <-]|]. rewrite Hoth by done. apply Hfl. }
  { eapply Forall_impl; [exact HF'|]. intros [[id' d'] f'] [x Hx]. cbn in *. destruct (decide (id' = id)) as [->|Hne]; [eauto|]. rewrite Hoth by done. eauto. }
  cbn [obind]. exists c2, (e1 ++ e2), (rv :: rvs). split; [done|]. split; [cbn; by rewrite Hlen|].
  rewrite conn_credit_app, Hc1, Hc2. split; [done|]. split; [intros id'; by rewrite stream_credit_app, Hs1, Hs2|].
  split.
  - intros [|i] id' d' fin' rv' Hi Hri; [|by eapply Hr2]. cbn in Hi, Hri. simplify_eq. destruct Hrv as [->| ->]; [by left|right]. split; [done|].
    eapply Hp2; [done|]. apply Hnone. by left.
  - intros id' st' Hst' Hn'. destruct (decide (id' = id)) as [->|Hne]; [|eapply Hp2; [by rewrite Hoth|done]].
    eapply Hp2; [done|]. apply Hnone. right. by simplify_eq.
Qed.


(** A stream opened by the peer: if the open callback returns 0 (or there is none) the stream
    is filed under its id, ready, with the context's callbacks, and nothing else changes; if it
    returns an error code the stream is shut down with that code and never enters the table. *)
Theorem stream_opened_result (id open_code : Z) (c : Connection) :
  map_find id (streams c) = None ->
  let code := match stream_open_cb (context c) with Some _ => open_code | None => 0 end in
  let calls := match stream_open_cb (context c) with Some _ => [EOpenCb id] | None => [] end in
  (code = 0 -> exists c' st, stream_opened id open_code c = Ok (c', calls, 0) /\
     map_find id (streams c') = Some st /\ entry_ok id st /\ available (cs_stream st) = true /\
     data_callback (cs_stream st) = stream_data_cb (context c) /\
     forall id', id' <> id -> map_find id' (streams c') = map_find id' (streams c)) /\
  (code <> 0 -> stream_opened id open_code c = Ok (c, calls ++ [EShutdownStream id code; EIoReady], 0)).
Proof.
  intros Hf code calls. unfold stream_opened, map_emplace. rewrite Hf.
  assert ((match stream_open_cb (context c) with Some _ => ([EOpenCb id], open_code) | None => ([], 0) end)
    = (calls, code)) as -> by (unfold code, calls; by destruct (stream_open_cb (context c))).
  split; intros Hc.
  - rewrite Hc. cbn. do 2 eexists. split_and!; [done|apply map_find_assign_eq|..]; try done.
    intros id' Hne. by apply map_find_assign_ne.
  - rewrite (proj2 (Z.eqb_neq _ _)) by done. done.
Qed.

(** The stream's own close callback does not run again when its last reference goes. *)
Lemma closed_release (last : bool) (st : chunk_state) :
  let st' := mkCS (with_shut (cs_stream st) true true) (cs_senders st) in
  if last && sends_on st then Stream_release last st' = Undefined
  else exists e, Stream_release last st' = Ok e /\ n_ends e = 0%nat.
Proof.
  intros st'. destruct last; [|by exists []]. pose proof (Stream_release_outcome st') as Hr.
  change (sends_on st') with (sends_on st) in Hr. cbn [andb]. destruct (sends_on st); [done|].
  destruct Hr as (e & -> & He). eexists. split; [done|]. rewrite n_ends_app, He.
  unfold Stream_destroy, call_close_cb. cbn. by destruct (close_callback _).
Qed.

(** C32: when ngtcp2 reports a stream closed or reset, its entry is erased and every other entry is
    untouched; the close callback runs with the given code unless the stream was already closing, and nothing ends
    the stream a second time; one more stream is granted to the peer exactly when it was the peer's; further
    acknowledgements of the stream fail and further data for it throws.  But if the application holds no
    reference to the stream and a chunk sender has more to send, the stream is destroyed in the middle and the
    behaviour is undefined. *)
Theorem stream_closed_result (last : bool) (id app_code : Z) (g : C) (c : Connection) (st : chunk_state) (cb : close_cb) :
  sorted_keys (streams c) -> map_find id (streams c) = Some st -> ng_is_bidi_stream id = true ->
  close_callback (cs_stream st) = Some cb ->
  if last && sends_on st then stream_closed last id app_code g c = Undefined
  else exists c' ed, stream_closed last id app_code g c = Ok (c',
      (if is_closing (cs_stream st) then [] else [ECloseCb cb (stream_id (cs_stream st)) app_code]) ++ ed ++
      (if ng_is_local_stream g id then [] else [EExtendStreams 1]) ++ [EIoReady]) /\ n_ends ed = 0%nat /\
    map_find id (streams c') = None /\
    (forall id', id' <> id -> map_find id' (streams c') = map_find id' (streams c)) /\
    (forall stale fuel n, stream_ack stale fuel id n c' = Ok (c', [], NGTCP2_ERR_CALLBACK_FAILURE)) /\
    (forall run_cb d fin, stream_receive run_cb id d fin c' = Throw out_of_range).
Proof.
  intros Hs Hf Hb Hcb. unfold stream_closed. rewrite Hb, Hf. cbn [assert_then Stream_on_closed].
  pose proof (closed_release last st) as Hr. destruct (last && sends_on st); [by rewrite Hr|]. destruct Hr as (ed & -> & Hed).
  unfold call_close_cb. cbn [close_callback with_shut stream_id]. rewrite Hcb. eexists _, ed. split; [done|]. split; [done|].
  assert (map_find id (map_erase id (streams c)) = None) as Hn by (by apply map_find_erase_eq).
  unfold stream_ack, stream_receive, get_stream. cbn [streams with_streams]. rewrite Hn. split_and!; try done.
  intros id' Hne. by apply map_find_erase_ne.
Qed.
End callbacks.

Definition one_stream (id : Z) : Connection :=
  with_streams (new_connection empty_context INBOUND)
    [(id, mkCS (set_ready (Stream_new (Some 5%nat) None id)) [])] [].


Lemma stream_opened_result_witness :
  let c := one_stream 3 in
  exists c' st, @stream_opened 7 0 c = Ok (c', [], 0) /\ map_find 7 (streams c') = Some st /\
     entry_ok 7 st /\ available (cs_stream st) = true.
Proof.
  intros c. destruct (stream_opened_result 7 0 c eq_refl) as [H _].
  destruct (H eq_refl) as (c' & st & ? & ? & ? & ? & _). by exists c', st.
Defined.

Lemma stream_closed_result_witness :
  let c := one_stream 1 in
  exists c' ed, @stream_closed _ toy_ngtcp2 true 1 42 (0, 8) c =
      Ok (c', ECloseCb DefaultCloseCb 1 42 :: ed ++ [EExtendStreams 1; EIoReady]) /\ map_find 1 (streams c') = None.
Proof.
  intros c.
  destruct (@stream_closed_result ngtcp2_consts _ toy_ngtcp2 true 1 42 (0, 8) c
    (mkCS (set_ready (Stream_new (Some 5%nat) None 1)) []) DefaultCloseCb) as (c' & ed & ? & _ & ? & _);
    [repeat constructor|reflexivity..|]. by exists c', ed.
Defined.
