(* ===== verification/Flush.v ===== *)
(** * Packet production and sending

    Models [Connection::send], [pkt_tx_timer_updater], [Connection::flush_streams] and
    [Connection::on_io_ready] of src/connection.cpp.  The list of streams to visit holds table
    keys for the [Stream*]s and [None] for the null pseudo-stream; [streams_end_it] is the
    iterator to the null element made before the loop, and is dangling once that element has
    been popped. *)
From S2P Require Import Prelude StdMap Utils Stream Udp Sender EndpointSend Context Connection.
Import Cid Addr Io.

(** What the loop does that is visible outside: stream data ngtcp2 accepted, a FIN flag offered
    to it, a finished packet. *)
Inductive fevent :=
  | FData (id : Z) (bytes : list Z)
  | FFin (id : Z)
  | FPacket (pkt : list Z).

Module Flush.
Section flush.
Context `{NgtcpConsts} {C : Type} `{Ngtcp2 C} {S : Type} `{Sender S}.
Context (mode : send_mode) (resend : nat).

(** [Connection::send].  The result says whether the caller can keep sending, and whether
    [pkt_updater->cancel()] was reached; [resend] names the queued lambda. *)
Definition Connection_send (c : Connection) (sock : option S) : outcome (Connection * option S * bool * bool) :=
  let n := n_packets c in
  assert_then ((0 <? n)%nat && (n <=? MAX_BATCH mode)%nat)
    (let counter := sent_counter c + Z.of_nat n in
     let* r := Endpoint_send_packets sock (send_buffer c) (send_buffer_size c) (send_ecn c) n in
     let c' := with_batch c (sp_buf r) (sp_bufsize r) (send_ecn c) (sp_n r) counter in
     if blocked (sp_ret r) then
       assert_then (0 <? sp_n r)%nat
         match sp_socket r with
         | None => Undefined
         | Some s => Ok (c', Some (snd_when_writeable s resend), false, false)
         end
     else if failure (sp_ret r) then Ok (c', sp_socket r, false, true)
     else Ok (c', sp_socket r, true, false)).

(** The variables of [flush_streams]: [f_end] is the validity of [streams_end_it], [f_pos] the
    offset of [buf_pos], [f_cancel] the flag of the timer updater. *)
Record fstate := mkF {
  f_conn : Connection;
  f_ng : C;
  f_sock : option S;
  f_strs : list (option Z);
  f_end : bool;
  f_pos : Z;
  f_count : Z;
  f_cancel : bool;
  f_log : list fevent;
}.

(** [strs.erase(strs.begin(), streams_end_it)] and [strs.insert(streams_end_it, stream)] while
    the iterator is valid: it points at the first null. *)
Fixpoint erase_to_end (l : list (option Z)) : list (option Z) :=
  match l with
  | Some _ :: l' => erase_to_end l'
  | _ => l
  end.
Fixpoint insert_at_end (x : Z) (l : list (option Z)) : list (option Z) :=
  match l with
  | Some y :: l' => Some y :: insert_at_end x l'
  | _ => Some x :: l
  end.

(** What is offered to ngtcp2: nothing for the pseudo-stream, else the pending data and whether
    the FIN flag goes with it; no result when the stream is skipped. *)
Definition offer (c : Connection) (x : option Z) : outcome (option (Connection * Z * list (list Z) * bool)) :=
  match x with
  | None => Ok (Some (c, -1, [], false))
  | Some k =>
      match map_find k (streams c) with
      | None => Undefined
      | Some st =>
          let s := cs_stream st in
          let* bufs := pending s in
          if is_closing s && negb (sent_fin s) && (unsent s =? 0) then
            Ok (Some (on_stream c k (fun s => with_fin s true), stream_id s, bufs, true))
          else if bool_decide (bufs = []) then Ok None
          else Ok (Some (c, stream_id s, bufs, false))
      end
  end.

(** [stream->wrote(ndatalen)], if there is a stream. *)
Definition wrote_opt (c : Connection) (x : option Z) (n : Z) : Connection :=
  match x with Some k => on_stream c k (fun s => Stream_wrote s n) | None => c end.
Definition data_event (x : option Z) (bufs : list (list Z)) (n : Z) : list fevent :=
  match x with Some k => [FData k (ztake n (concat bufs))] | None => [] end.

(** Bytes written into the buffer at an offset. *)
Definition overwrite (buf : list Z) (pos : Z) (bs : list Z) : list Z :=
  ztake pos buf ++ bs ++ zdrop (pos + zlen bs) buf.

Inductive flow := Continue | Break | Return.

(** The end of an iteration: is the stream visited again? *)
Definition requeue (max : Z) (x : option Z) (f : fstate) : outcome (flow * fstate) :=
  let upd strs := mkF (f_conn f) (f_ng f) (f_sock f) strs (f_end f) (f_pos f) (f_count f) (f_cancel f) (f_log f) in
  if f_count f =? max then Ok (Break, f)
  else match x with
  | None => assert_then (bool_decide (f_strs f = [])) (Ok (Continue, upd [None]))
  | Some k =>
      match map_find k (streams (f_conn f)) with
      | None => Undefined
      | Some st =>
          if 0 <? unsent (cs_stream st) then
            assert_then (bool_decide (f_strs f <> []))
              (if f_end f then Ok (Continue, upd (insert_at_end k (f_strs f))) else Undefined)
          else Ok (Continue, f)
      end
  end.

(** A finished packet: it is added to the batch, and a full batch is sent. *)
Definition add_packet (max : Z) (x : option Z) (w : write_result) (f : fstate) : outcome (flow * fstate) :=
  let c := f_conn f in
  if (n_packets c <? length (send_buffer_size c))%nat then
    let c1 := with_batch c (send_buffer c) (<[n_packets c := w_nwrite w]> (send_buffer_size c)) (w_ecn w)
                (1 + n_packets c) (sent_counter c) in
    let pos := f_pos f + w_nwrite w in
    let log := f_log f ++ [FPacket (w_pkt w)] in
    let upd c s p cn := mkF c (f_ng f) s (f_strs f) (f_end f) p (f_count f + 1) cn log in
    if (n_packets c1 =? MAX_BATCH mode)%nat then
      let* (c2, s2, ok, cancel) := Connection_send c1 (f_sock f) in
      let f2 := upd c2 s2 pos (f_cancel f || cancel) in
      if ok then
        assert_then (n_packets c2 =? 0)%nat (requeue max x (upd c2 s2 0 (f_cancel f || cancel)))
      else Ok (Return, f2)
    else requeue max x (upd c1 (f_sock f) pos (f_cancel f))
  else Undefined.

(** One iteration of the loop, for the popped element [x]. *)
Definition flush_iter (max : Z) (x : option Z) (rest : list (option Z)) (f : fstate) : outcome (flow * fstate) :=
  let upd c g strs e log := mkF c g (f_sock f) strs e (f_pos f) (f_count f) (f_cancel f) log in
  let e := f_end f && bool_decide (x <> None) in
  assert_then (bool_decide (x <> None) || bool_decide (rest = []))
    (let* o := offer (f_conn f) x in
     match o with
     | None => Ok (Continue, upd (f_conn f) (f_ng f) rest e (f_log f))
     | Some (c, sid, bufs, fin) =>
         if zlen (send_buffer c) <? f_pos f + NGTCP2_MAX_PMTUD_UDP_PAYLOAD_SIZE then Undefined
         else
           let '(g, w) := ng_writev_stream (f_ng f) sid fin bufs in
           let log := f_log f ++ (if fin then [FFin (default 0 x)] else []) in
           if w_nwrite w <? 0 then
             if w_nwrite w =? NGTCP2_ERR_WRITE_MORE then
               assert_then (0 <=? w_ndatalen w)
                 (Ok (Continue, upd (wrote_opt c x (w_ndatalen w)) g rest e
                                  (log ++ data_event x bufs (w_ndatalen w))))
             else Ok (Continue, upd c g rest e log)
           else if w_nwrite w =? 0 then
             match x with
             | None => Ok (Continue, upd c g rest e log)
             | Some _ => if e then Ok (Continue, upd c g (erase_to_end rest) e log) else Undefined
             end
           else
             let '(c1, log1) := if 0 <? w_ndatalen w
               then (wrote_opt c x (w_ndatalen w), log ++ data_event x bufs (w_ndatalen w)) else (c, log) in
             let c2 := with_batch c1 (overwrite (send_buffer c1) (f_pos f) (w_pkt w)) (send_buffer_size c1)
                         (send_ecn c1) (n_packets c1) (sent_counter c1) in
             add_packet max x w (upd c2 g rest e log1)
     end).

Fixpoint flush_loop (fuel : nat) (max : Z) (f : fstate) : outcome (bool * fstate) :=
  match f_strs f with
  | [] => Ok (true, f)
  | x :: rest =>
      match fuel with
      | O => OutOfFuel
      | Datatypes.S fuel' =>
          let* (fl, f') := flush_iter max x rest f in
          match fl with
          | Continue => flush_loop fuel' max f'
          | Break => Ok (true, f')
          | Return => Ok (false, f')
          end
      end
  end.

(** The streams to visit, starting from the [mid]-th. *)
Definition visit_order (m : list (Z * chunk_state)) (mid : nat) : list (option Z) :=
  map (fun e => Some e.1)
    (filter (fun e => sent_fin (cs_stream e.2) = false) (drop mid m ++ take mid m)) ++ [None].

(** The destructor of [pkt_tx_timer_updater]: is [ngtcp2_conn_update_pkt_tx_time] called? *)
Definition pkt_tx_timer_updater (cancelled : bool) : bool := negb cancelled.

(** [Connection::flush_streams]; [mid] is the random draw.  The flag of the result says whether
    [ngtcp2_conn_update_pkt_tx_time] was called. *)
Definition flush_streams (fuel : nat) (mid : nat) (g : C) (c : Connection) (sock : option S) :
    outcome (fstate * bool) :=
  let payload := ng_path_max_tx_udp_payload_size g in
  if payload =? 0 then Undefined
  else
    let max := ng_send_quantum g / payload in
    if (0 <? n_packets c)%nat then Ok (mkF c g sock [] false 0 0 false [], false)
    else
      let* (fin, f) := flush_loop fuel max (mkF c g sock (visit_order (streams c) mid) true 0 0 false []) in
      if fin && (0 <? n_packets (f_conn f))%nat then
        let* (c', s', _, cancel) := Connection_send (f_conn f) (f_sock f) in
        Ok (mkF c' (f_ng f) s' (f_strs f) (f_end f) (f_pos f) (f_count f) (f_cancel f || cancel) (f_log f),
            pkt_tx_timer_updater (f_cancel f || cancel))
      else Ok (f, pkt_tx_timer_updater (f_cancel f)).

(** [Connection::on_io_ready], and the lambda [send] queues on a blocked socket. *)
Definition on_io_ready (fuel mid : nat) (ts_ns : Z) (g : C) (c : Connection) (sock : option S) :
    outcome (fstate * timer) :=
  let* (f, _) := flush_streams fuel mid g c sock in
  Ok (f, schedule_retransmit (ng_expiry (f_ng f)) ts_ns).

Definition resend_lambda (fuel mid : nat) (ts_ns : Z) (g : C) (c : Connection) (sock : option S) :
    outcome (fstate * option timer) :=
  let* (c', s', ok, _) := Connection_send c sock in
  if ok then let* (f, t) := on_io_ready fuel mid ts_ns g c' s' in Ok (f, Some t)
  else Ok (mkF c' g s' [] false 0 0 false [], None).
End flush.
Arguments fstate C S : clear implicits.
End Flush.
Export Flush.

(** ** Stream data: what ngtcp2 accepted, in order *)

#[export] Instance fevent_eq_dec : EqDecision fevent.
Proof. solve_decision. Defined.

Definition sent (k : Z) (log : list fevent) : list Z :=
  concat (map (fun e => match e with FData k' bs => if k' =? k then bs else [] | _ => [] end) log).
Definition fins (k : Z) (log : list fevent) : nat :=
  length (filter (fun e => e = FFin k) log).
Definition packets (log : list fevent) : list (list Z) :=
  concat (map (fun e => match e with FPacket p => [p] | _ => [] end) log).

Arguments sent : simpl never.
Arguments fins : simpl never.
Arguments packets : simpl never.

Lemma sent_app k a b : sent k (a ++ b) = sent k a ++ sent k b.
Proof. unfold sent. by rewrite map_app, concat_app. Qed.
Lemma fins_app k a b : fins k (a ++ b) = (fins k a + fins k b)%nat.
Proof. unfold fins. by rewrite filter_app, length_app. Qed.
Lemma packets_app a b : packets (a ++ b) = packets a ++ packets b.
Proof. unfold packets. by rewrite map_app, concat_app. Qed.

(** [s] is [s0] after ngtcp2 accepted the bytes [d] and [nf] FIN flags were offered: the bytes
    follow those already written, and a FIN comes once, on a closing stream, after all data. *)
Definition advanced (s0 s : Stream) (d : list Z) (nf : nat) : Prop :=
  Stream_inv s /\ zlen (content s) < 2 ^ 64 /\ user_buffers s = user_buffers s0 /\
  0 <= unacked_size s0 /\ unacked_size s = unacked_size s0 + zlen d /\ ztake (zlen d) (zdrop (unacked_size s0) (content s0)) = d /\
  (is_closing s, stream_id s, ready s, close_callback s, data_callback s) =
    (is_closing s0, stream_id s0, ready s0, close_callback s0, data_callback s0) /\
  ((nf = 0%nat /\ sent_fin s = sent_fin s0) \/
   (nf = 1%nat /\ sent_fin s0 = false /\ sent_fin s = true /\ is_closing s = true /\
    unacked_size s = zlen (content s))).

Definition stream_ok (s : Stream) : Prop := Stream_inv s /\ zlen (content s) < 2 ^ 64.

(** Nothing is offered for a stream whose FIN went out before. *)
Definition silent (s0 : Stream) (d : list Z) (nf : nat) : Prop := sent_fin s0 = true -> d = [] /\ nf = 0%nat.

Definition data_inv (m0 m : list (Z * chunk_state)) (log : list fevent) : Prop :=
  forall k, match map_find k m0 with
    | Some st0 => exists st, map_find k m = Some st /\ cs_senders st = cs_senders st0 /\
                    silent (cs_stream st0) (sent k log) (fins k log) /\
                    advanced (cs_stream st0) (cs_stream st) (sent k log) (fins k log)
    | None => map_find k m = None
    end.

(** The streams a flush visits. *)
Definition visitable (m0 : list (Z * chunk_state)) (k : Z) : Prop :=
  exists st0, map_find k m0 = Some st0 /\ sent_fin (cs_stream st0) = false.

Lemma advanced_refl s : stream_ok s -> advanced s s [] 0.
Proof.
  intros [Hi Hl]. pose proof Hi as (? & _). split_and!; try done; try lia; [change (zlen (@nil Z)) with 0; lia|by left].
Qed.

Lemma advanced_ok s0 s d nf : advanced s0 s d nf -> stream_ok s.
Proof. by intros (? & ? & _). Qed.

Lemma content_buffers s s' : user_buffers s = user_buffers s' -> content s = content s'.
Proof. unfold content. by intros ->. Qed.

Lemma advanced_fin s0 s d :
  advanced s0 s d 0 -> is_closing s = true -> sent_fin s = false -> unsent s = 0 ->
  advanced s0 (with_fin s true) d 1.
Proof.
  intros (Hi & Hl & Hb & H0 & Hu & Hd & He & Hf) Hc Hs Hun.
  rewrite (unsent_content s Hi Hl) in Hun. destruct Hi as (H1 & H2 & H3).
  split_and!; try done. right. destruct Hf as [[_ Hf]|[? _]]; [|done].
  change (content (with_fin s true)) with (content s). simpl. split_and!; try done; [congruence|lia].
Qed.

Lemma advanced_wrote s0 s d nf n :
  advanced s0 s d nf -> 0 <= n <= zlen (content s) - unacked_size s ->
  advanced s0 (Stream_wrote s n) (d ++ ztake n (zdrop (unacked_size s) (content s))) nf.
Proof.
  intros (Hi & Hl & Hb & H0 & Hu & Hd & He & Hf) Hn. destruct Hi as (H1 & H2 & H3).
  pose proof (zlen_nonneg d).
  assert (zlen (zdrop (unacked_size s) (content s)) = zlen (content s) - unacked_size s) as Hz
    by (by apply zlen_zdrop).
  assert (u64 (unacked_size s + n) = unacked_size s + n) as Hw by (apply u64_small; unfold is_u64; lia).
  unfold advanced, Stream_inv, Stream_wrote. change (content (with_unacked s _)) with (content s).
  cbn [with_unacked unacked_size is_closing is_shutdown user_buffers sent_fin stream_id ready close_callback data_callback].
  rewrite Hw, !zlen_app, zlen_ztake by lia. split_and!; try done; try lia.
  - rewrite <- (content_buffers _ _ Hb), Hu in *.
    set (rest := zdrop (unacked_size s0) (content s)) in *.
    assert (zdrop (unacked_size s0 + zlen d) (content s) = zdrop (zlen d) rest) as ->.
    { unfold rest. rewrite zdrop_zdrop by lia. done. }
    rewrite <- (ztake_zdrop (zlen d) rest) at 1. rewrite Hd, ztake_app_ge by lia.
    do 2 f_equal. lia.
  - destruct Hf as [?|(? & ? & ? & ? & ?)]; [by left|right]. split_and!; try done. lia.
Qed.

Lemma data_inv_refl m : (forall k st, map_find k m = Some st -> stream_ok (cs_stream st)) -> data_inv m m [].
Proof.
  intros Hok k. destruct (map_find k m) as [st|] eqn:Hf; [|done].
  eexists. split_and!; [done..|]. apply advanced_refl. eauto.
Qed.

Lemma data_inv_log m0 m log e :
  data_inv m0 m log -> (forall k, sent k e = [] /\ fins k e = 0%nat) -> data_inv m0 m (log ++ e).
Proof.
  intros Hd He k. specialize (Hd k). destruct (map_find k m0); [|done].
  destruct (He k) as [E1 E2]. by rewrite sent_app, fins_app, E1, E2, app_nil_r, Nat.add_0_r.
Qed.

(** A step of the stream filed under [k], with the events that belong to it. *)
Lemma data_inv_step m0 m log e k (f : Stream -> Stream) :
  data_inv m0 m log -> visitable m0 k ->
  (forall k', k' <> k -> sent k' e = [] /\ fins k' e = 0%nat) ->
  (forall s0 st, map_find k m = Some st -> advanced s0 (cs_stream st) (sent k log) (fins k log) ->
     advanced s0 (f (cs_stream st)) (sent k log ++ sent k e) (fins k log + fins k e)) ->
  data_inv m0 (map_update k (fun st => mkCS (f (cs_stream st)) (cs_senders st)) m) (log ++ e).
Proof.
  intros Hd (st0 & Hv & Hv') Ho Hs k'. specialize (Hd k'). rewrite sent_app, fins_app.
  destruct (decide (k = k')) as [<-|Hne].
  - rewrite map_find_update_eq, Hv in *.
    destruct Hd as (st & Hf & Hsn & _ & Ha). rewrite Hf. simpl. eexists. split_and!; [done..|unfold silent; congruence|].
    by apply Hs.
  - rewrite map_find_update_ne by done. destruct (Ho k') as [-> ->]; [done|].
    by rewrite app_nil_r, Nat.add_0_r.
Qed.

Lemma sent_data k k' bs : sent k [FData k' bs] = if k' =? k then bs else [].
Proof. unfold sent. simpl. by rewrite app_nil_r. Qed.

Lemma fins_fin k : fins k [FFin k] = 1%nat.
Proof. unfold fins. rewrite filter_cons_True by done. done. Qed.
Lemma fins_fin_ne k k' : k' <> k -> fins k' [FFin k] = 0%nat.
Proof. intros Hne. unfold fins. rewrite filter_cons_False by congruence. done. Qed.

Section spec.
Context `{NgtcpConsts} {C : Type} `{Ngtcp2 C} {S : Type} `{SenderLaws S}.
Context (mode : send_mode) (resend : nat).

(** What ngtcp2 documents of [ngtcp2_conn_writev_stream]: it writes at most [destlen] bytes, takes
    at most the data it is given, and sets [ndatalen] when it asks for more. *)
Definition writev_ok : Prop :=
  0 < NGTCP2_MAX_PMTUD_UDP_PAYLOAD_SIZE < 2 ^ 16 /\
  forall g id fin bufs, let w := (ng_writev_stream g id fin bufs).2 in
    w_nwrite w <= NGTCP2_MAX_PMTUD_UDP_PAYLOAD_SIZE /\
    (0 < w_nwrite w -> zlen (w_pkt w) = w_nwrite w) /\
    w_ndatalen w <= zlen (concat bufs) /\
    (w_nwrite w = NGTCP2_ERR_WRITE_MORE -> 0 <= w_ndatalen w).

(** ** The batch of packets waiting to be sent *)

Lemma MAX_BATCH_bounds : (1 <= MAX_BATCH mode <= DATAGRAM_BATCH_SIZE)%nat.
Proof. destruct mode; simpl; unfold DATAGRAM_BATCH_SIZE; lia. Qed.

Definition queue_ok (c : Connection) : Prop :=
  length (send_buffer_size c) = DATAGRAM_BATCH_SIZE /\
  zlen (send_buffer c) = NGTCP2_MAX_PMTUD_UDP_PAYLOAD_SIZE * Z.of_nat DATAGRAM_BATCH_SIZE /\
  (n_packets c <= MAX_BATCH mode)%nat /\
  Forall (fun z => 0 < z < 2 ^ 16) (take (n_packets c) (send_buffer_size c)) /\
  zsum (take (n_packets c) (send_buffer_size c)) <= zlen (send_buffer c).

Definition queued (c : Connection) : list (list Z) :=
  cut (take (n_packets c) (send_buffer_size c)) (send_buffer c).

Arguments queued : simpl never.

Lemma queued_0 c : n_packets c = 0%nat -> queued c = [].
Proof. unfold queued. by intros ->. Qed.

Lemma queue_ok_empty c buf sizes e cnt :
  queue_ok c -> zlen buf = zlen (send_buffer c) -> length sizes = length (send_buffer_size c) ->
  queue_ok (with_batch c buf sizes e 0 cnt).
Proof.
  intros (Hq1 & Hq2 & _) Hb Hs. pose proof (zlen_nonneg buf).
  split_and!; simpl; try congruence; try lia; constructor.
Qed.

Lemma Connection_send_spec c s :
  queue_ok c -> (0 < n_packets c)%nat -> snd_good s -> snd_max s = MAX_BATCH mode ->
  exists c' s' ok cancel k,
    Connection_send mode resend c (Some s) = Ok (c', Some s', ok, cancel) /\
    queue_ok c' /\ streams c' = streams c /\ snd_good s' /\ snd_max s' = MAX_BATCH mode /\
    snd_wire s' = snd_wire s ++ take k (queued c) /\
    ((ok = true /\ cancel = false /\ n_packets c' = 0%nat /\ snd_wire s' = snd_wire s ++ queued c /\
      snd_waiting s' = snd_waiting s) \/
     (ok = false /\ cancel = false /\ (0 < n_packets c')%nat /\ queued c' = drop k (queued c) /\
      snd_waiting s' = snd_waiting s ++ [resend]) \/
     (ok = false /\ cancel = true /\ n_packets c' = 0%nat /\ snd_waiting s' = snd_waiting s)).
Proof.
  intros Hq Hpos Hg Hm. pose proof MAX_BATCH_bounds as HMB. pose proof Hq as (Hsz & Hbuf & Hn & HF & Hfit).
  destruct (send_packets_spec s (send_buffer c) (send_buffer_size c) (send_ecn c) (n_packets c) Hg)
    as (s' & r & buf' & sizes' & n' & k & Hsp & Hg' & Hm' & Hw & Hwire & Hk & [Hbl Hsl] & Hcase); [|done|].
  { rewrite Hm. split_and!; try lia; done. }
  unfold Connection_send. rewrite (proj2 (Nat.ltb_lt _ _)), (proj2 (Nat.leb_le _ _)) by lia.
  cbn [andb assert_then]. rewrite Hsp. cbn [obind sp_ret sp_n sp_socket sp_buf sp_bufsize].
  fold (queued c) in Hwire. assert (length (queued c) = n_packets c) as Hql.
  { unfold queued. rewrite length_cut, length_take. lia. }
  destruct Hcase as [(E1 & E2 & -> & ->)|[(E1 & E1' & E2 & E3 & E4 & E5 & E6)|(E1 & E2 & -> & E4)]];
    rewrite ?E1; [rewrite E2|clear E2|rewrite E2].
  - unfold failure. rewrite E1. cbn [negb]. exists (with_batch c buf' sizes' (send_ecn c) 0 (sent_counter c + Z.of_nat (n_packets c))).
    eexists _, _, _, (n_packets c). split; [reflexivity|].
    split_and!; try done; try congruence; [by apply queue_ok_empty|]. left. split_and!; try done.
    rewrite Hwire, firstn_all2 by lia. done.
  - rewrite (proj2 (Nat.ltb_lt _ _)) by done. cbn [assert_then].
    destruct (snd_when_writeable_ok s' resend Hg') as (G1 & G2 & G3 & G4).
    eexists _, _, _, _, k. split; [reflexivity|].
    split_and!; try done; try congruence; [|right; left; split_and!; try done; congruence].
    destruct E5 as (F1 & F2 & F3). split_and!; try done; try (simpl; lia); simpl; congruence.
  - exists (with_batch c buf' sizes' (send_ecn c) 0 (sent_counter c + Z.of_nat (n_packets c))).
    eexists _, _, _, k. split; [reflexivity|].
    split_and!; try done; try congruence; [by apply queue_ok_empty|]. do 2 right. by split_and!.
Qed.

(** ** Packets in the making *)

Notation MAXP := NGTCP2_MAX_PMTUD_UDP_PAYLOAD_SIZE.

(** The batch during the loop: there is room for one more packet of maximal size. *)
Definition batch_inv (c : Connection) (pos : Z) : Prop :=
  length (send_buffer_size c) = DATAGRAM_BATCH_SIZE /\
  zlen (send_buffer c) = MAXP * Z.of_nat DATAGRAM_BATCH_SIZE /\
  (n_packets c < MAX_BATCH mode)%nat /\
  Forall (fun z => 0 < z <= MAXP) (take (n_packets c) (send_buffer_size c)) /\
  pos = zsum (take (n_packets c) (send_buffer_size c)).

Lemma zsum_bound m l : 0 <= m -> Forall (fun z => 0 < z <= m) l -> 0 <= zsum l <= m * zlen l.
Proof.
  intros Hm. induction 1 as [|z l Hz Hl IH]; [unfold zsum, zlen; simpl; lia|].
  rewrite zlen_cons. unfold zsum in *. simpl. lia.
Qed.

Lemma batch_room c pos : 0 < MAXP -> batch_inv c pos -> 0 <= pos /\ pos + MAXP <= zlen (send_buffer c).
Proof.
  intros Hm (H1' & H2' & H3' & H4' & ->). pose proof MAX_BATCH_bounds as HMB. pose proof (zsum_bound _ _ (Z.lt_le_incl _ _ Hm) H4') as Hb.
  unfold zlen in Hb at 1. rewrite length_take, Nat.min_l in Hb by lia.
  rewrite H2'. split; [lia|]. nia.
Qed.

Lemma cut_overwrite sizes buf pkt :
  Forall (fun z => 0 <= z) sizes -> zsum sizes + zlen pkt <= zlen buf ->
  cut (sizes ++ [zlen pkt]) (overwrite buf (zsum sizes) pkt) = cut sizes buf ++ [pkt].
Proof.
  intros HF Hl. pose proof (zsum_nonneg _ HF). pose proof (zlen_nonneg pkt). unfold overwrite.
  rewrite cut_app by done. f_equal; [by apply cut_ztake; try lia|].
  rewrite zdrop_app_ge, zlen_ztake, Z.sub_diag, zdrop_0 by (rewrite ?zlen_ztake; lia).
  simpl. rewrite ztake_app_le by lia. unfold ztake, zlen. rewrite Nat2Z.id, firstn_all2 by lia. done.
Qed.

Lemma zlen_overwrite buf pos pkt :
  0 <= pos -> pos + zlen pkt <= zlen buf -> zlen (overwrite buf pos pkt) = zlen buf.
Proof.
  intros. pose proof (zlen_nonneg pkt). unfold overwrite.
  rewrite !zlen_app, zlen_ztake, zlen_zdrop by lia. lia.
Qed.

Lemma take_S_insert {A} n (x : A) l : (n < length l)%nat -> take (1 + n) (<[n := x]> l) = take n l ++ [x].
Proof.
  intros Hn. rewrite (take_S_r _ _ x) by (by apply list_lookup_insert_eq).
  by rewrite take_insert_ge by lia.
Qed.

(** Adding a packet: it joins the queue, and the batch is one the socket accepts. *)
Lemma add_to_batch c pos pkt ecn cnt :
  0 < MAXP < 2 ^ 16 -> batch_inv c pos -> 0 < zlen pkt <= MAXP ->
  let c' := with_batch c (overwrite (send_buffer c) pos pkt)
              (<[n_packets c := zlen pkt]> (send_buffer_size c)) ecn (1 + n_packets c) cnt in
  queue_ok c' /\ queued c' = queued c ++ [pkt] /\
  ((1 + n_packets c < MAX_BATCH mode)%nat -> batch_inv c' (pos + zlen pkt)).
Proof.
  intros Hm Hb Hp c'. pose proof MAX_BATCH_bounds as HMB. destruct (batch_room c pos) as [Hp0 Hroom]; [lia|done|].
  destruct Hb as (B1 & B2 & B3 & B4 & B5).
  assert (zlen (send_buffer c') = zlen (send_buffer c)) as Hlen by (apply zlen_overwrite; lia).
  assert (take (n_packets c') (send_buffer_size c') = take (n_packets c) (send_buffer_size c) ++ [zlen pkt]) as Ht
    by (apply take_S_insert; lia).
  assert (Forall (fun z => 0 < z <= MAXP) (take (n_packets c') (send_buffer_size c'))) as HF.
  { rewrite Ht. apply Forall_app. split; [done|]. by constructor. }
  assert (length (send_buffer_size c') = DATAGRAM_BATCH_SIZE) as Hls by (simpl; by rewrite length_insert).
  assert (zsum (take (n_packets c') (send_buffer_size c')) = pos + zlen pkt) as Hz.
  { rewrite Ht, zsum_app, B5. unfold zsum. simpl. lia. }
  split_and!.
  - split_and!; try done; [by rewrite Hlen| |lia].
    eapply Forall_impl; [exact HF|]. simpl. lia.
  - unfold queued. rewrite Ht. simpl. rewrite B5. apply cut_overwrite; [|lia].
    eapply Forall_impl; [exact B4|]. simpl. lia.
  - intros Hn. split_and!; try done; by rewrite Hlen.
Qed.

(** ** The loop invariant *)

Definition loop_inv (m0 : list (Z * chunk_state)) (s0 : S) (f : fstate C S) : Prop :=
  exists s, f_sock f = Some s /\ snd_good s /\ snd_max s = MAX_BATCH mode /\
    snd_waiting s = snd_waiting s0 /\ batch_inv (f_conn f) (f_pos f) /\ f_cancel f = false /\
    snd_wire s ++ queued (f_conn f) = snd_wire s0 ++ packets (f_log f) /\
    data_inv m0 (streams (f_conn f)) (f_log f).

(** Streams first, the pseudo-stream last; the iterator to it is valid while streams are left. *)
Definition strs_inv (m0 : list (Z * chunk_state)) (l : list (option Z)) (e : bool) : Prop :=
  (exists ids, l = map Some ids ++ [None] /\ e = true /\ Forall (visitable m0) ids) \/
  l = [None] \/ l = [].

Definition popped (m0 : list (Z * chunk_state)) (x : option Z) (rest : list (option Z)) (e : bool) : Prop :=
  match x with
  | None => rest = []
  | Some k => visitable m0 k /\ e = true /\
      exists ids, rest = map Some ids ++ [None] /\ Forall (visitable m0) ids
  end.

(** When the function returns. *)
Definition final (m0 : list (Z * chunk_state)) (s0 : S) (f : fstate C S) : Prop :=
  exists s, f_sock f = Some s /\ snd_good s /\ snd_max s = MAX_BATCH mode /\ queue_ok (f_conn f) /\
    data_inv m0 (streams (f_conn f)) (f_log f) /\
    ((f_cancel f = false /\ snd_wire s ++ queued (f_conn f) = snd_wire s0 ++ packets (f_log f)) \/
     (f_cancel f = true /\ n_packets (f_conn f) = 0%nat /\
      snd_wire s `prefix_of` snd_wire s0 ++ packets (f_log f))) /\
    snd_waiting s = snd_waiting s0 ++ (if (0 <? n_packets (f_conn f))%nat then [resend] else []).

Lemma strs_inv_pop m0 x rest e : strs_inv m0 (x :: rest) e -> popped m0 x rest (e && bool_decide (x <> None)).
Proof.
  intros [(ids & Hl & He & HF)|[Hl|Hl]]; simplify_eq/=; [|done].
  destruct ids as [|k ids]; simplify_eq/=; [done|]. inversion HF; subst. eauto.
Qed.

Lemma popped_strs_inv m0 x rest e : popped m0 x rest e -> strs_inv m0 rest e.
Proof. destruct x; [|unfold strs_inv; by auto]. intros (_ & -> & ids & -> & HF). left. eauto. Qed.

Lemma erase_to_end_popped m0 k rest e : popped m0 (Some k) rest e -> erase_to_end rest = [None].
Proof. intros (_ & _ & ids & -> & _). by induction ids. Qed.

Lemma insert_at_end_ids k ids : insert_at_end k (map Some ids ++ [None]) = map Some (ids ++ [k]) ++ [None].
Proof. induction ids as [|i ids IH]; simpl; [done|]. by rewrite IH. Qed.

Lemma data_inv_find m0 m log k : data_inv m0 m log -> visitable m0 k -> is_Some (map_find k m).
Proof. intros Hd (st & Hst & _). specialize (Hd k). rewrite Hst in Hd. naive_solver. Qed.

(** Offering a stream: its pending data, and the FIN flag once all of it was written. *)
Lemma offer_spec m0 c k log :
  data_inv m0 (streams c) log -> visitable m0 k ->
  offer c (Some k) = Ok None \/
  exists m sid bufs (fin : bool) st,
    offer c (Some k) = Ok (Some (with_streams c m (pending_streams c), sid, bufs, fin)) /\
    data_inv m0 m (log ++ if fin then [FFin k] else []) /\ map_find k m = Some st /\
    concat bufs = zdrop (unacked_size (cs_stream st)) (content (cs_stream st)).
Proof.
  intros Hd Hk. destruct (data_inv_find _ _ _ _ Hd Hk) as [st Hst]. unfold offer. rewrite Hst.
  assert (exists s0, advanced s0 (cs_stream st) (sent k log) (fins k log)) as [s0 Ha].
  { destruct Hk as (st0 & Hst0 & _). pose proof (Hd k) as Hdk. rewrite Hst0 in Hdk.
    destruct Hdk as (st' & E & _ & _ & Ha). simplify_eq. eauto. }
  destruct (advanced_ok _ _ _ _ Ha) as [Hi Hl].
  destruct (pending_content _ Hi Hl) as (bufs & Hp & Hc & He). rewrite Hp. cbn [obind].
  destruct (is_closing (cs_stream st) && negb (sent_fin (cs_stream st)) && (unsent (cs_stream st) =? 0)) eqn:Ef; bools.
  - right. exists (map_update k (fun st => mkCS (with_fin (cs_stream st) true) (cs_senders st)) (streams c)).
    do 3 eexists. eexists (mkCS (with_fin (cs_stream st) true) (cs_senders st)).
    split; [reflexivity|]. split_and!; [|by rewrite map_find_update_eq, Hst|done].
    apply (data_inv_step _ _ _ _ k (fun s => with_fin s true)); [done..|by intros; rewrite fins_fin_ne|].
    intros s1 st1 Hst1 Ha1. simplify_eq. rewrite fins_fin. change (sent k [FFin k]) with (@nil Z). rewrite app_nil_r.
    assert (fins k log = 0%nat) as Hz.
    { destruct Ha1 as (_ & _ & _ & _ & _ & _ & _ & [[-> _]|(_ & _ & ? & _)]); congruence. }
    rewrite Hz in *. by apply advanced_fin.
  - clear Ef. destruct (bool_decide (bufs = [])); [by left|right].
    exists (streams c). do 3 eexists. exists st. split; [by destruct c|]. rewrite app_nil_r. done.
Qed.

Lemma data_inv_wrote m0 m log k st n bufs :
  data_inv m0 m log -> visitable m0 k -> map_find k m = Some st ->
  concat bufs = zdrop (unacked_size (cs_stream st)) (content (cs_stream st)) -> 0 <= n <= zlen (concat bufs) ->
  data_inv m0 (map_update k (fun st => mkCS (Stream_wrote (cs_stream st) n) (cs_senders st)) m)
    (log ++ [FData k (ztake n (concat bufs))]).
Proof.
  intros Hd Hv Hst Hc Hn. apply (data_inv_step _ _ _ _ k (fun s => Stream_wrote s n)); [done..| |].
  - intros k' Hne. rewrite sent_data, (proj2 (Z.eqb_neq _ _)) by done. done.
  - intros s1 st1 Hst1 Ha. simplify_eq. rewrite sent_data, Z.eqb_refl, Hc.
    change (fins k [FData k _]) with 0%nat. rewrite Nat.add_0_r. apply advanced_wrote; [done|].
    rewrite Hc in Hn. destruct (advanced_ok _ _ _ _ Ha) as [(Hu & _) _]. by rewrite zlen_zdrop in Hn.
Qed.

(** What an iteration leaves behind, whichever way it ends; [n] bounds the measure of the loop. *)
Definition step_post (m0 : list (Z * chunk_state)) (s0 : S) (max n : Z) (r : flow * fstate C S) : Prop :=
  match r with
  | (Continue, f) => loop_inv m0 s0 f /\ strs_inv m0 (f_strs f) (f_end f) /\ f_count f < max /\
                     max - f_count f + zlen (f_strs f) < n
  | (Break, f) => loop_inv m0 s0 f
  | (Return, f) => final m0 s0 f
  end.

Lemma requeue_spec m0 s0 max x f n :
  loop_inv m0 s0 f -> popped m0 x (f_strs f) (f_end f) -> f_count f <= max ->
  max - f_count f + zlen (f_strs f) + 1 < n ->
  exists r, requeue max x f = Ok r /\ step_post m0 s0 max n r.
Proof.
  intros Hinv Hp Hc Hn. unfold requeue.
  destruct (f_count f =? max) eqn:Em; bools; [eexists; split; [done|exact Hinv]|].
  destruct x as [k|]; simpl in Hp.
  - destruct Hp as (Hk & He & ids & Hr & HF).
    assert (is_Some (map_find k (streams (f_conn f)))) as [st Hst].
    { destruct Hinv as (? & _ & _ & _ & _ & _ & _ & _ & Hd). by eapply data_inv_find. }
    rewrite Hst. destruct (0 <? unsent (cs_stream st)).
    + rewrite bool_decide_true by (rewrite Hr; by destruct ids). rewrite He. cbn [assert_then].
      eexists. split; [done|]. rewrite Hr, insert_at_end_ids in *. split_and!; cbn.
      * exact Hinv.
      * left. exists (ids ++ [k]). split_and!; [done..|]. apply Forall_app. split; [done|by constructor].
      * lia.
      * revert Hn. rewrite map_app. unfold zlen. rewrite !length_app. simpl. lia.
    + eexists. split; [done|]. split_and!; [done| |lia..]. left. eauto.
  - rewrite Hp in *. rewrite bool_decide_true by done. cbn [assert_then].
    eexists. split; [done|]. split_and!; cbn; [exact Hinv|right; by left|lia|].
    revert Hn. unfold zlen. simpl. lia.
Qed.

Lemma add_packet_spec m0 s0 s max x w (f : fstate C S) n c :
  0 < MAXP < 2 ^ 16 ->
  f_conn f = with_batch c (overwrite (send_buffer c) (f_pos f) (w_pkt w)) (send_buffer_size c)
               (send_ecn c) (n_packets c) (sent_counter c) ->
  f_sock f = Some s -> snd_good s -> snd_max s = MAX_BATCH mode -> snd_waiting s = snd_waiting s0 ->
  batch_inv c (f_pos f) -> f_cancel f = false ->
  snd_wire s ++ queued c = snd_wire s0 ++ packets (f_log f) -> data_inv m0 (streams c) (f_log f) ->
  0 < zlen (w_pkt w) <= MAXP -> zlen (w_pkt w) = w_nwrite w ->
  popped m0 x (f_strs f) (f_end f) -> f_count f < max -> max - f_count f + zlen (f_strs f) < n ->
  exists r, add_packet mode resend max x w f = Ok r /\ step_post m0 s0 max n r.
Proof.
  intros Hm Hc Hs Hg Hmax Hwait Hb Hcan Hwire Hd Hw Hlen Hp Hcnt Hn. pose proof MAX_BATCH_bounds as HMB.
  assert (data_inv m0 (streams c) (f_log f ++ [FPacket (w_pkt w)])) as Hd' by (by apply data_inv_log).
  assert (packets (f_log f ++ [FPacket (w_pkt w)]) = packets (f_log f) ++ [w_pkt w]) as Hpk
    by (by rewrite packets_app).
  destruct (add_to_batch c (f_pos f) (w_pkt w) (w_ecn w) (sent_counter c) Hm Hb Hw) as (Hq & Hqd & Hb').
  unfold add_packet. rewrite Hc. cbn [n_packets with_batch send_buffer_size send_buffer sent_counter].
  rewrite (proj2 (Nat.ltb_lt _ _)) by (destruct Hb as (-> & _ & ? & _); lia).
  rewrite <- Hlen. set (c1 := with_batch c _ _ (w_ecn w) (1 + n_packets c) (sent_counter c)) in *.
  change (with_batch (with_batch c _ _ _ _ _) _ _ _ _ _) with c1.
  destruct (1 + n_packets c =? MAX_BATCH mode)%nat eqn:Efull; [apply Nat.eqb_eq in Efull|apply Nat.eqb_neq in Efull].
  - destruct (Connection_send_spec c1 s Hq) as (c2 & s2 & ok & cancel & k & Hsend & Hq2 & Hstr & Hg2 & Hmax2 & Hw2 & Hcase);
      [simpl; lia|done..|].
    rewrite Hs, Hsend, Hcan. cbn [obind].
    destruct Hcase as [(-> & -> & Hn2 & Hw3 & Hwt)|[(-> & -> & Hn2 & Hqd2 & Hwt)|(-> & -> & Hn2 & Hwt)]].
    + rewrite Hn2. cbn [Nat.eqb assert_then]. apply requeue_spec; cbn; try done; try lia.
      exists s2. split_and!; try done; [congruence|..]; cbn.
      * destruct Hq2 as (Q1 & Q2 & _). split_and!; rewrite ?Hn2; try done. lia.
      * rewrite (queued_0 c2), app_nil_r, Hw3, Hqd, Hpk, !app_assoc by done. by rewrite Hwire.
      * by rewrite Hstr.
    + eexists. split; [done|]. exists s2. cbn [f_sock f_conn f_cancel f_log]. rewrite Hstr, (proj2 (Nat.ltb_lt _ _)) by done.
      split_and!; try done; [|congruence]. left. split; [done|].
      rewrite Hw2, Hqd2, <- app_assoc, take_drop, Hqd, Hpk, !app_assoc. by rewrite Hwire.
    + eexists. split; [done|]. exists s2. cbn [f_sock f_conn f_cancel f_log]. rewrite Hstr, Hn2, app_nil_r.
      split_and!; try done; [|congruence]. right. split_and!; try done.
      rewrite Hw2, Hpk, app_assoc, <- Hwire, <- app_assoc. apply prefix_app.
      rewrite <- Hqd. exists (drop k (queued c1)). by rewrite take_drop.
  - apply requeue_spec; cbn; try done; try lia.
    exists s. split_and!; try done; cbn.
    + apply Hb'. destruct Hb as (_ & _ & ? & _). lia.
    + rewrite Hqd, Hpk, !app_assoc. by rewrite Hwire.
Qed.

(** Offering any element, and recording what ngtcp2 took of it. *)
Lemma offer_any m0 c x rest e log :
  data_inv m0 (streams c) log -> popped m0 x rest e ->
  offer c x = Ok None \/
  exists m sid bufs (fin : bool),
    offer c x = Ok (Some (with_streams c m (pending_streams c), sid, bufs, fin)) /\
    let log' := log ++ if fin then [FFin (default 0 x)] else [] in
    data_inv m0 m log' /\
    forall n, 0 <= n <= zlen (concat bufs) -> exists m',
      wrote_opt (with_streams c m (pending_streams c)) x n = with_streams c m' (pending_streams c) /\
      data_inv m0 m' (log' ++ data_event x bufs n).
Proof.
  intros Hd Hp. destruct x as [k|].
  - destruct Hp as (Hk & _). destruct (offer_spec m0 c k log Hd Hk) as [|(m & sid & bufs & fin & st & Ho & Hdm & Hst & Hc)]; [by left|right].
    exists m, sid, bufs, fin. split; [done|]. cbn zeta. split; [done|]. intros n Hn. eexists. split; [reflexivity|].
    eapply data_inv_wrote; try done.
  - right. exists (streams c), (-1), [], false. split; [by destruct c|]. cbn zeta. rewrite app_nil_r. split; [done|].
    intros n _. exists (streams c). split; [done|]. simpl. by rewrite app_nil_r.
Qed.

(** The data that went into a finished packet. *)
Lemma packet_data m0 c m x bufs log n :
  data_inv m0 m log ->
  (forall n, 0 <= n <= zlen (concat bufs) -> exists m',
     wrote_opt (with_streams c m (pending_streams c)) x n = with_streams c m' (pending_streams c) /\
     data_inv m0 m' (log ++ data_event x bufs n)) ->
  n <= zlen (concat bufs) ->
  exists m' log', (if 0 <? n then (wrote_opt (with_streams c m (pending_streams c)) x n, log ++ data_event x bufs n)
                   else (with_streams c m (pending_streams c), log))
      = (with_streams c m' (pending_streams c), log') /\ data_inv m0 m' log' /\ packets log' = packets log.
Proof.
  intros Hd Hwr Hn. destruct (0 <? n) eqn:En; bools; [|by exists m, log].
  destruct (Hwr n) as (m' & -> & Hdm'); [lia|]. do 2 eexists. split_and!; [done..|].
  rewrite packets_app. destruct x; apply app_nil_r.
Qed.

(** An iteration that finishes no packet. *)
Lemma step_continue m0 s0 s max n (f : fstate C S) c g strs e log :
  f_sock f = Some s -> snd_good s -> snd_max s = MAX_BATCH mode -> snd_waiting s = snd_waiting s0 ->
  batch_inv c (f_pos f) -> f_cancel f = false ->
  snd_wire s ++ queued c = snd_wire s0 ++ packets log -> data_inv m0 (streams c) log ->
  strs_inv m0 strs e -> f_count f < max -> max - f_count f + zlen strs < n ->
  step_post m0 s0 max n (Continue, mkF c g (f_sock f) strs e (f_pos f) (f_count f) (f_cancel f) log).
Proof. intros. split_and!; cbn; try done. exists s. by split_and!. Qed.

Lemma flush_iter_spec m0 s0 max x rest f :
  writev_ok -> loop_inv m0 s0 f -> strs_inv m0 (x :: rest) (f_end f) -> f_count f < max ->
  exists r, flush_iter mode resend max x rest f = Ok r /\
    step_post m0 s0 max (max - f_count f + zlen (x :: rest)) r.
Proof.
  intros [Hm Hwv] (s & Hs & Hg & Hmax & Hwait & Hb & Hcan & Hwire & Hd) Hl Hc.
  apply strs_inv_pop in Hl. rewrite zlen_cons. pose proof (popped_strs_inv _ _ _ _ Hl) as Hrest.
  assert (bool_decide (x <> None) || bool_decide (rest = []) = true) as Has.
  { destruct x; [done|]. simpl in Hl. by rewrite Hl. }
  unfold flush_iter. rewrite Has. cbn [assert_then].
  destruct (offer_any m0 (f_conn f) x rest _ (f_log f) Hd Hl) as [Ho|(m & sid & bufs & fin & Ho & Hdm & Hwr)];
    rewrite Ho; cbn [obind].
  { eexists. split; [done|]. eapply step_continue; try done. lia. }
  set (c := with_streams (f_conn f) m (pending_streams (f_conn f))) in *.
  cbn zeta in *. set (log := f_log f ++ (if fin then _ else _)) in *.
  assert (packets log = packets (f_log f)) as Hpk.
  { unfold log. rewrite packets_app. destruct fin; apply app_nil_r. }
  assert (batch_inv c (f_pos f)) as Hbc by exact Hb.
  destruct (batch_room c (f_pos f)) as [_ Hroom]; [lia|done|].
  rewrite (proj2 (Z.ltb_ge _ _)) by done.
  specialize (Hwv (f_ng f) sid fin bufs). destruct (ng_writev_stream (f_ng f) sid fin bufs) as [g w].
  destruct Hwv as (Hw1 & Hw2 & Hw3 & Hw4). cbn [snd] in *.
  destruct (w_nwrite w <? 0) eqn:Eneg; bools.
  { destruct (w_nwrite w =? NGTCP2_ERR_WRITE_MORE) eqn:Emore; bools.
    - rewrite (proj2 (Z.leb_le _ _)) by auto. cbn [assert_then].
      destruct (Hwr (w_ndatalen w)) as (m' & -> & Hdm'); [auto|].
      eexists. split; [done|]. eapply step_continue; try done; [|lia].
      rewrite packets_app, Hpk. destruct x; cbn [data_event]; by rewrite app_nil_r.
    - eexists. split; [done|]. eapply step_continue; try done; [by rewrite Hpk|lia]. }
  destruct (w_nwrite w =? 0) eqn:Ezero; bools.
  { destruct x as [k|].
    - pose proof Hl as (_ & -> & ids & Hids & _). rewrite (erase_to_end_popped _ _ _ _ Hl).
      eexists. split; [done|]. eapply step_continue; try done; [by rewrite Hpk|by right; left|].
      rewrite Hids. unfold zlen. rewrite length_app. simpl. lia.
    - eexists. split; [done|]. eapply step_continue; try done; [by rewrite Hpk|lia]. }
  destruct (packet_data m0 (f_conn f) m x bufs log (w_ndatalen w) Hdm Hwr Hw3) as (m' & log' & Heq & Hdm' & Hpk').
  fold c in Heq. rewrite Heq.
  assert (0 < w_nwrite w) as Hpos by lia. specialize (Hw2 Hpos).
  eapply add_packet_spec with (s := s) (c := with_streams (f_conn f) m' (pending_streams (f_conn f)));
    cbn [f_conn f_sock f_pos f_cancel f_log f_strs f_end f_count]; try done; try lia.
  by rewrite Hpk', Hpk.
Qed.

Lemma flush_loop_spec m0 s0 max fuel f :
  writev_ok -> loop_inv m0 s0 f -> strs_inv m0 (f_strs f) (f_end f) -> f_count f < max ->
  max - f_count f + zlen (f_strs f) <= Z.of_nat fuel ->
  exists b f', flush_loop mode resend fuel max f = Ok (b, f') /\
    if (b : bool) then loop_inv m0 s0 f' else final m0 s0 f'.
Proof.
  intros Hwv. revert f. induction fuel as [|fuel IH]; intros f Hinv Hl Hc Hfuel;
    destruct f as [c g sk [|x rest] e pos cnt can log]; cbn [f_strs f_count f_end] in *;
    try (by exists true; eexists).
  - rewrite zlen_cons in Hfuel. pose proof (zlen_nonneg rest). lia.
  - cbn [flush_loop f_strs]. edestruct flush_iter_spec as (r & Hr & Hpost); [done|exact Hinv|exact Hl|exact Hc|].
    rewrite Hr. cbn [obind]. destruct r as [[] f']; cbn [step_post] in Hpost.
    + destruct Hpost as (Hi' & Hl' & Hc' & Hm'). apply IH; try done. cbn in Hm'. lia.
    + by exists true, f'.
    + by exists false, f'.
Qed.

Lemma visit_order_inv m mid : sorted_keys m -> strs_inv m (visit_order m mid) true.
Proof.
  intros Hs. left. unfold visit_order.
  set (l := filter _ _). exists (map fst l). split_and!; [by rewrite map_map|done|].
  apply Forall_forall. intros k Hk. apply list_elem_of_fmap in Hk as ([k' st] & -> & Hin).
  apply list_elem_of_filter in Hin as [Hfin Hin]. exists st. split; [|exact Hfin].
  apply map_find_elem; [done|]. rewrite (Permutation_app_comm (drop mid m)), take_drop in Hin. exact Hin.
Qed.

Lemma batch_inv_queue_ok c pos : writev_ok -> batch_inv c pos -> queue_ok c.
Proof.
  intros [Hm _] Hb. destruct (batch_room c pos) as [_ Hr]; [lia|done|].
  destruct Hb as (B1 & B2 & B3 & B4 & B5). split_and!; try done; try lia.
  eapply Forall_impl; [exact B4|]. simpl. lia.
Qed.

(** The send after the loop. *)
Lemma send_rest m0 s0 f :
  writev_ok -> loop_inv m0 s0 f ->
  ((0 <? n_packets (f_conn f))%nat = false /\ final m0 s0 f) \/
  exists c' s' ok cancel, (0 < n_packets (f_conn f))%nat /\
    Connection_send mode resend (f_conn f) (f_sock f) = Ok (c', s', ok, cancel) /\
    final m0 s0 (mkF c' (f_ng f) s' (f_strs f) (f_end f) (f_pos f) (f_count f) (f_cancel f || cancel) (f_log f)).
Proof.
  intros Hwv (s & Hs & Hg & Hm & Hw & Hb & Hcan & Hwire & Hd).
  pose proof (batch_inv_queue_ok _ _ Hwv Hb) as Hq.
  destruct (0 <? n_packets (f_conn f))%nat eqn:En.
  2: { left. split; [done|]. exists s. rewrite En, app_nil_r. split_and!; try done. by left. }
  apply Nat.ltb_lt in En. right.
  destruct (Connection_send_spec (f_conn f) s Hq En Hg Hm)
    as (c2 & s2 & ok & cancel & k & Hsend & Hq2 & Hstr & Hg2 & Hmax2 & Hw2 & Hcase).
  rewrite Hs, Hsend, Hcan. exists c2, (Some s2), ok, cancel. split_and!; [done..|].
  exists s2. cbn [f_sock f_conn f_cancel f_log orb]. rewrite Hstr.
  destruct Hcase as [(-> & -> & Hn2 & Hw3 & Hwt)|[(-> & -> & Hn2 & Hqd2 & Hwt)|(-> & -> & Hn2 & Hwt)]].
  - rewrite Hn2, (queued_0 c2), !app_nil_r by done. split_and!; try done; [|congruence]. left. by rewrite Hw3, Hwire.
  - rewrite (proj2 (Nat.ltb_lt _ _)) by done. split_and!; try done; [|congruence]. left. split; [done|].
    by rewrite Hw2, Hqd2, <- app_assoc, take_drop, Hwire.
  - rewrite Hn2, app_nil_r. split_and!; try done; [|congruence]. right. split_and!; try done.
    rewrite Hw2, <- Hwire. apply prefix_app. exists (drop k (queued (f_conn f))). by rewrite take_drop.
Qed.

(** An upper bound on the number of iterations: one per packet that may still be produced and
    one per element of the list. *)
Definition flush_fuel (g : C) (c : Connection) : nat :=
  Z.to_nat (ng_send_quantum g / ng_path_max_tx_udp_payload_size g) + length (streams c) + 1.

(** What a flush starts from. *)
Definition flushable (g : C) (c : Connection) (s : S) : Prop :=
  writev_ok /\ 0 < ng_path_max_tx_udp_payload_size g <= ng_send_quantum g /\
  queue_ok c /\ sorted_keys (streams c) /\
  (forall k st, map_find k (streams c) = Some st -> stream_ok (cs_stream st)) /\
  snd_good s /\ snd_max s = MAX_BATCH mode.

Lemma visit_order_length m mid : zlen (visit_order m mid) <= zlen m + 1.
Proof.
  unfold visit_order, zlen. rewrite length_app, length_map. simpl.
  pose proof (length_filter (fun e => sent_fin (cs_stream e.2) = false) (drop mid m ++ take mid m)) as Hf.
  rewrite length_app, length_drop, length_take in Hf. lia.
Qed.

Lemma flush_streams_spec mid g c s fuel :
  flushable g c s -> n_packets c = 0%nat -> (flush_fuel g c <= fuel)%nat ->
  exists f upd, flush_streams mode resend fuel mid g c (Some s) = Ok (f, upd) /\
    final (streams c) s f /\ upd = negb (f_cancel f).
Proof.
  intros (Hwv & Hq & Hqc & Hsort & Hok & Hg & Hmax) Hn Hfuel. unfold flush_streams.
  rewrite (proj2 (Z.eqb_neq _ _)) by lia. rewrite Hn. change (0 <? 0)%nat with false. cbv iota.
  set (max := ng_send_quantum g / ng_path_max_tx_udp_payload_size g).
  assert (1 <= max) as Hmx by (apply Z.div_le_lower_bound; lia).
  set (f0 := mkF c g (Some s) (visit_order (streams c) mid) true 0 0 false []).
  pose proof Hqc as (Q1 & Q2 & _). pose proof (visit_order_length (streams c) mid) as Hvl.
  pose proof MAX_BATCH_bounds as Hmb.
  destruct (flush_loop_spec (streams c) s max fuel f0) as (b & f & Hl & Hpost); try done.
  - exists s. split_and!; try done; [|by rewrite queued_0|by apply data_inv_refl].
    split_and!; try done; cbn; rewrite ?Hn; [lia|by apply Forall_nil|done].
  - by apply visit_order_inv.
  - cbn. lia.
  - cbn. revert Hfuel. unfold flush_fuel. fold max. unfold zlen in *. lia.
  - rewrite Hl. cbn [obind]. destruct b; [|by do 2 eexists].
    destruct (send_rest _ _ _ Hwv Hpost) as [[Hz Hf]|(c' & s' & ok & cancel & Hp & Hs & Hf)].
    + rewrite Hz. by do 2 eexists.
    + rewrite (proj2 (Nat.ltb_lt _ _)) by done. cbn [andb]. rewrite Hs. cbn [obind]. do 2 eexists. split; [reflexivity|done].
Qed.
End spec.

(** ** Properties of flush_streams *)

Section properties.
Context `{NgtcpConsts} {C : Type} `{Ngtcp2 C} {S : Type} `{SenderLaws S}.

(** C8: [flush_streams] returns: the loop ends within one iteration per packet ngtcp2's send
    quantum allows plus one per stream, no assertion fails, no iterator is used after its
    element was popped, the send buffer never overflows, and the batch left behind is one the
    socket accepts; the packet timer is updated unless a send failed. *)
Theorem flush_streams_returns (mode : send_mode) (resend mid fuel : nat) (g : C) (c : Connection) (s : S) :
  flushable mode g c s -> n_packets c = 0%nat -> (flush_fuel g c <= fuel)%nat ->
  exists f upd, flush_streams mode resend fuel mid g c (Some s) = Ok (f, upd) /\
    queue_ok mode (f_conn f) /\ upd = negb (f_cancel f).
Proof.
  intros Hf Hn Hfuel. destruct (flush_streams_spec mode resend mid g c s fuel Hf Hn Hfuel) as (f & upd & Hr & Hfin & Hu).
  destruct Hfin as (s' & _ & _ & _ & Hq & _). eauto.
Qed.

(** Packets are conserved, in order: what reached the wire followed by what is still queued is
    what was there before followed by the packets ngtcp2 finished.  Only when a send failed with
    an error other than a full socket are packets dropped, and then the wire still holds a
    prefix of that sequence. *)
Theorem flush_conserves_packets (mode : send_mode) (resend mid fuel : nat) (g : C) (c : Connection) (s : S) :
  flushable mode g c s -> n_packets c = 0%nat -> (flush_fuel g c <= fuel)%nat ->
  exists f upd s', flush_streams mode resend fuel mid g c (Some s) = Ok (f, upd) /\ f_sock f = Some s' /\
    (f_cancel f = false -> snd_wire s' ++ queued (f_conn f) = snd_wire s ++ packets (f_log f)) /\
    (f_cancel f = true -> n_packets (f_conn f) = 0%nat /\ snd_wire s' `prefix_of` snd_wire s ++ packets (f_log f)).
Proof.
  intros Hf Hn Hfuel. destruct (flush_streams_spec mode resend mid g c s fuel Hf Hn Hfuel) as (f & upd & Hr & Hfin & Hu).
  destruct Hfin as (s' & Hs & _ & _ & _ & _ & Hcase & _). exists f, upd, s'.
  split_and!; [done..| |]; intros Hc; destruct Hcase as [(Hc' & ?)|(Hc' & ? & ?)]; (done || congruence).
Qed.

(** No lost wakeup: after a flush there are packets left in the batch exactly when one resend
    callback was added to those that wait for the socket. *)
Theorem flush_schedules_resend (mode : send_mode) (resend mid fuel : nat) (g : C) (c : Connection) (s : S) :
  flushable mode g c s -> n_packets c = 0%nat -> (flush_fuel g c <= fuel)%nat ->
  exists f upd s', flush_streams mode resend fuel mid g c (Some s) = Ok (f, upd) /\ f_sock f = Some s' /\
    snd_waiting s' = snd_waiting s ++ (if (0 <? n_packets (f_conn f))%nat then [resend] else []).
Proof.
  intros Hf Hn Hfuel. destruct (flush_streams_spec mode resend mid g c s fuel Hf Hn Hfuel) as (f & upd & Hr & Hfin & Hu).
  destruct Hfin as (s' & Hs & _ & _ & _ & _ & _ & Hw). eauto 10.
Qed.

(** Stream data is handed over in order and without gaps: for each stream the bytes ngtcp2
    accepted during the flush are exactly those that follow the ones already written, they are
    now counted as unacknowledged, and the queue itself is unchanged; a FIN is offered at most
    once, only on a closing stream and only after all of its data was written; nothing is handed
    over on a stream whose FIN went out in an earlier flush; no stream appears or disappears. *)
Theorem flush_stream_data_in_order (mode : send_mode) (resend mid fuel : nat) (g : C) (c : Connection) (s : S) :
  flushable mode g c s -> n_packets c = 0%nat -> (flush_fuel g c <= fuel)%nat ->
  exists f upd, flush_streams mode resend fuel mid g c (Some s) = Ok (f, upd) /\
    forall k, match map_find k (streams c), map_find k (streams (f_conn f)) with
      | Some st0, Some st =>
          let s0 := cs_stream st0 in let s1 := cs_stream st in
          user_buffers s1 = user_buffers s0 /\
          ztake (unacked_size s1) (content s1) =
            ztake (unacked_size s0) (content s0) ++ sent k (f_log f) /\
          ((fins k (f_log f) = 0%nat /\ sent_fin s1 = sent_fin s0) \/
           (fins k (f_log f) = 1%nat /\ sent_fin s0 = false /\ sent_fin s1 = true /\ is_closing s1 = true /\
            unacked_size s1 = zlen (content s1))) /\
          (sent_fin s0 = true -> sent k (f_log f) = [])
      | None, None => True
      | _, _ => False
      end.
Proof.
  intros Hf Hn Hfuel. destruct (flush_streams_spec mode resend mid g c s fuel Hf Hn Hfuel) as (f & upd & Hr & Hfin & Hu).
  destruct Hfin as (s' & _ & _ & _ & _ & Hd & _). exists f, upd. split; [done|].
  intros k. specialize (Hd k). destruct (map_find k (streams c)) as [st0|]; [|by rewrite Hd].
  destruct Hd as (st & -> & _ & Hsil & Hi & Hl & Hb & H0' & Hu' & Hd & _ & Hfin). cbn zeta.
  split_and!; [done| |done|by intros []%Hsil].
  rewrite (content_buffers _ _ Hb), Hu'. rewrite <- (ztake_zdrop (unacked_size (cs_stream st0)) (content (cs_stream st0))) at 1.
  assert (unacked_size (cs_stream st0) <= zlen (content (cs_stream st0))) as Hle.
  { destruct Hi as (Hi & _). rewrite (content_buffers _ _ Hb), Hu' in Hi. pose proof (zlen_nonneg (sent k (f_log f))). lia. }
  pose proof (zlen_nonneg (sent k (f_log f))).
  rewrite ztake_app_ge by (rewrite zlen_ztake; lia). f_equal. rewrite zlen_ztake by lia.
  rewrite <- Hd at 2. f_equal. lia.
Qed.

(** When the socket is writeable again, the queued callback finishes the batch: everything
    that was queued goes out before any new packet, packets are conserved, and if the socket
    blocks again the callback is queued again; only then, or after a fatal error, is the
    retransmission timer not rescheduled. *)
Theorem resend_completes (mode : send_mode) (resend mid fuel : nat) (ts_ns : Z) (g : C) (c : Connection) (s : S) :
  flushable mode g c s -> (0 < n_packets c)%nat -> (flush_fuel g c <= fuel)%nat ->
  exists f t s', resend_lambda mode resend fuel mid ts_ns g c (Some s) = Ok (f, t) /\ f_sock f = Some s' /\
    queue_ok mode (f_conn f) /\
    snd_wire s' ++ queued (f_conn f) `prefix_of` snd_wire s ++ queued c ++ packets (f_log f) /\
    (0 < n_packets (f_conn f) -> snd_wire s' ++ queued (f_conn f) = snd_wire s ++ queued c ++ packets (f_log f) /\
       snd_waiting s' = snd_waiting s ++ [resend])%nat /\
    (t = None -> packets (f_log f) = []).
Proof.
  intros Hf Hn Hfuel. pose proof Hf as (Hwv & Hq & Hqc & Hsort & Hok & Hg & Hmax).
  destruct (Connection_send_spec mode resend c s Hqc Hn Hg Hmax)
    as (c2 & s2 & ok & cancel & k & Hsend & Hq2 & Hstr & Hg2 & Hmax2 & Hw2 & Hcase).
  unfold resend_lambda. rewrite Hsend. cbn [obind].
  assert (packets [] = []) as Hp0 by done.
  destruct Hcase as [(-> & -> & Hn2 & Hw3 & Hwt)|[(-> & -> & Hn2 & Hqd2 & Hwt)|(-> & -> & Hn2 & Hwt)]].
  - unfold on_io_ready.
    destruct (flush_streams_spec mode resend mid g c2 s2 fuel) as (f & upd & Hr & Hfin & Hu); try done.
    { unfold flushable. rewrite Hstr. split_and!; (done || lia). }
    { by unfold flush_fuel; rewrite Hstr. }
    rewrite Hr. cbn [obind]. destruct Hfin as (s' & Hs & _ & _ & Hqf & _ & Hcons & Hwf).
    eexists f, _, s'. split; [reflexivity|]. rewrite app_assoc, <- Hw3, <- Hwt. split_and!; try done.
    + destruct Hcons as [(_ & ->)|(_ & Hz & Hpre)]; [done|]. by rewrite (queued_0 _ Hz), app_nil_r.
    + intros Hpos. rewrite (proj2 (Nat.ltb_lt _ _)) in Hwf by done. destruct Hcons as [(_ & ?)|(_ & Hz & _)]; [done|lia].
  - eexists _, None, s2. split; [reflexivity|]. cbn [f_sock f_conn f_log]. rewrite Hp0, app_nil_r.
    rewrite Hw2, Hqd2, <- app_assoc, take_drop. split_and!; done.
  - eexists _, None, s2. split; [reflexivity|]. cbn [f_sock f_conn f_log]. rewrite Hp0, app_nil_r.
    rewrite Hw2, (queued_0 c2), app_nil_r by done. split_and!; try done; [|lia].
    apply prefix_app. exists (drop k (queued c)). by rewrite take_drop.
Qed.

(** On an endpoint whose socket is gone, a send fails but keeps the batch: [n_packets] is not
    reset, nothing is queued to wake the connection, and every later flush returns at once
    without writing anything. *)
Theorem dead_socket_stalls (mode : send_mode) (resend : nat) (c : Connection) :
  (0 < n_packets c <= MAX_BATCH mode)%nat ->
  exists c', Connection_send (S := S) mode resend c None = Ok (c', None, false, true) /\ n_packets c' = n_packets c /\
    forall (g : C) fuel mid, ng_path_max_tx_udp_payload_size g <> 0 ->
      exists f, flush_streams (S := S) mode resend fuel mid g c' None = Ok (f, false) /\
        f_log f = [] /\ f_conn f = c' /\ f_ng f = g.
Proof.
  intros Hn. unfold Connection_send. rewrite (proj2 (Nat.ltb_lt _ _)), (proj2 (Nat.leb_le _ _)) by lia. cbn.
  eexists. split_and!; [reflexivity|done|]. intros g fuel mid Hp. unfold flush_streams.
  rewrite (proj2 (Z.eqb_neq _ _)) by done. cbn [n_packets with_batch].
  rewrite (proj2 (Nat.ltb_lt _ _)) by lia. by eexists.
Qed.
End properties.

(** ** A worked example: a stream with 2500 bytes queued and a closing one, GSO, a kernel that takes one
    message per call. *)
Definition example_conn : Connection :=
  let s0 := (Stream_send (set_ready (Stream_new None None 0)) (replicate 2500 7) KNone).1 in
  let s4 := (Stream_close (set_ready (Stream_new None None 4)) 0).1 in
  with_streams (new_connection empty_context OUTBOUND) [(0, mkCS s0 []); (4, mkCS s4 [])] [].

(** The same with one packet left from a blocked send. *)
Definition blocked_conn : Connection :=
  with_batch example_conn (send_buffer example_conn) (<[0%nat := 3]> (send_buffer_size example_conn)) 0 1 0.

Definition example_sock : udp_state := example_udp SEND_GSO kernel_one.

Lemma toy_writev_ok : @writev_ok ngtcp2_consts _ toy_ngtcp2.
Proof.
  split; [done|]. intros g id fin bufs. cbn -[take]. destruct (bool_decide (take 1000 (concat bufs) = []) && negb fin); cbn -[take].
  - pose proof (zlen_nonneg (concat bufs)). split_and!; lia.
  - assert (0 <= zlen (take 1000 (concat bufs)) <= 1000 /\ zlen (take 1000 (concat bufs)) <= zlen (concat bufs)).
    { unfold zlen. rewrite length_take. lia. }
    split_and!; try lia. intros _. rewrite !zlen_cons. lia.
Qed.

Lemma example_streams_ok k st : map_find k (streams example_conn) = Some st -> stream_ok (cs_stream st).
Proof.
  cbn -[replicate]. destruct (k =? 0); [|destruct (k =? 4); [|done]]; intros [= <-]; (split; [split_and!|]);
    vm_compute; congruence.
Qed.

Lemma queue_ok_example c :
  c = example_conn \/ c = blocked_conn -> @queue_ok ngtcp2_consts SEND_GSO c.
Proof.
  intros [-> | ->]; (split_and!; [vm_compute; reflexivity..|vm_compute; lia| |vm_compute; congruence]);
    [constructor|]. apply Forall_singleton. lia.
Qed.

Lemma example_flushable c :
  c = example_conn \/ c = blocked_conn ->
  @flushable ngtcp2_consts _ toy_ngtcp2 _ udp_Sender SEND_GSO (0, 8) c example_sock.
Proof.
  intros Hc. split_and!; [apply toy_writev_ok|done|done|by apply queue_ok_example|..|exact kernel_one_ok|done].
  - destruct Hc as [-> | ->]; repeat constructor; done.
  - destruct Hc as [-> | ->]; apply example_streams_ok.
Qed.

(** The FIN goes out first; the packets with data stay queued. *)
Example flush_example_run :
  match @flush_streams ngtcp2_consts _ toy_ngtcp2 _ udp_Sender SEND_GSO 9 30 1 (0, 8) example_conn (Some example_sock) with
  | Ok (f, true) => (map zlen (packets (f_log f)), map (fun k => zlen (sent k (f_log f))) [0; 4], fins 4 (f_log f),
                     n_packets (f_conn f), snd_waiting <$> f_sock f)
                    = ([20; 1020; 1020; 520], [2500; 0], 1%nat, 3%nat, Some [9%nat])
  | _ => False
  end.
Proof. vm_compute. reflexivity. Qed.

Lemma flush_streams_returns_witness :
  exists f upd, @flush_streams ngtcp2_consts _ toy_ngtcp2 _ udp_Sender SEND_GSO 9 30 1 (0, 8) example_conn
                  (Some example_sock) = Ok (f, upd) /\
    @queue_ok ngtcp2_consts SEND_GSO (f_conn f) /\ upd = negb (f_cancel f).
Proof.
  apply (@flush_streams_returns ngtcp2_consts _ toy_ngtcp2 udp_state _ _);
    [apply example_flushable; by left|reflexivity|vm_compute; lia].
Defined.

Lemma flush_conserves_packets_witness :
  exists f upd s', @flush_streams ngtcp2_consts _ toy_ngtcp2 _ udp_Sender SEND_GSO 9 30 1 (0, 8) example_conn
                  (Some example_sock) = Ok (f, upd) /\ f_sock f = Some s' /\
    (f_cancel f = false -> snd_wire s' ++ queued (f_conn f) = snd_wire example_sock ++ packets (f_log f)) /\
    (f_cancel f = true -> n_packets (f_conn f) = 0%nat /\
       snd_wire s' `prefix_of` snd_wire example_sock ++ packets (f_log f)).
Proof.
  apply (@flush_conserves_packets ngtcp2_consts _ toy_ngtcp2 udp_state _ _);
    [apply example_flushable; by left|reflexivity|vm_compute; lia].
Defined.

Lemma flush_schedules_resend_witness :
  exists f upd s', @flush_streams ngtcp2_consts _ toy_ngtcp2 _ udp_Sender SEND_GSO 9 30 1 (0, 8) example_conn
                  (Some example_sock) = Ok (f, upd) /\ f_sock f = Some s' /\
    snd_waiting s' = snd_waiting example_sock ++ (if (0 <? n_packets (f_conn f))%nat then [9%nat] else []).
Proof.
  apply (@flush_schedules_resend ngtcp2_consts _ toy_ngtcp2 udp_state _ _);
    [apply example_flushable; by left|reflexivity|vm_compute; lia].
Defined.

Lemma flush_stream_data_in_order_witness :
  exists f upd, @flush_streams ngtcp2_consts _ toy_ngtcp2 _ udp_Sender SEND_GSO 9 30 1 (0, 8) example_conn
                  (Some example_sock) = Ok (f, upd) /\
    forall k, match map_find k (streams example_conn), map_find k (streams (f_conn f)) with
      | Some st0, Some st =>
          let s0 := cs_stream st0 in let s1 := cs_stream st in
          user_buffers s1 = user_buffers s0 /\
          ztake (unacked_size s1) (content s1) =
            ztake (unacked_size s0) (content s0) ++ sent k (f_log f) /\
          ((fins k (f_log f) = 0%nat /\ sent_fin s1 = sent_fin s0) \/
           (fins k (f_log f) = 1%nat /\ sent_fin s0 = false /\ sent_fin s1 = true /\ is_closing s1 = true /\
            unacked_size s1 = zlen (content s1))) /\
          (sent_fin s0 = true -> sent k (f_log f) = [])
      | None, None => True
      | _, _ => False
      end.
Proof.
  apply (@flush_stream_data_in_order ngtcp2_consts _ toy_ngtcp2 udp_state _ _ SEND_GSO 9 1 30 (0, 8) example_conn example_sock);
    [apply example_flushable; by left|reflexivity|vm_compute; lia].
Defined.

Lemma resend_completes_witness :
  exists f t s', @resend_lambda ngtcp2_consts _ toy_ngtcp2 _ udp_Sender SEND_GSO 9 30 1 77 (0, 8) blocked_conn
                  (Some example_sock) = Ok (f, t) /\ f_sock f = Some s' /\
    @queue_ok ngtcp2_consts SEND_GSO (f_conn f) /\
    snd_wire s' ++ queued (f_conn f) `prefix_of` snd_wire example_sock ++ queued blocked_conn ++ packets (f_log f) /\
    (0 < n_packets (f_conn f) ->
       snd_wire s' ++ queued (f_conn f) = snd_wire example_sock ++ queued blocked_conn ++ packets (f_log f) /\
       snd_waiting s' = snd_waiting example_sock ++ [9])%nat /\
    (t = None -> packets (f_log f) = []).
Proof.
  apply (@resend_completes ngtcp2_consts _ toy_ngtcp2 udp_state _ _);
    [apply example_flushable; by right|vm_compute; lia|vm_compute; lia].
Defined.

Lemma dead_socket_stalls_witness :
  exists c', @Connection_send ngtcp2_consts udp_state _ SEND_GSO 9 blocked_conn None = Ok (c', None, false, true) /\
    n_packets c' = n_packets blocked_conn /\
    forall (g : Z * Z) fuel mid, @ng_path_max_tx_udp_payload_size _ toy_ngtcp2 g <> 0 ->
      exists f, @flush_streams ngtcp2_consts _ toy_ngtcp2 udp_state _ SEND_GSO 9 fuel mid g c' None = Ok (f, false) /\
        f_log f = [] /\ f_conn f = c' /\ f_ng f = g.
Proof. apply (@dead_socket_stalls ngtcp2_consts _ toy_ngtcp2 udp_state _). vm_compute. lia. Defined.
