(* ===== verification/Lifetime.v ===== *)
(** * A connection over its whole life

    Puts the parts together: the application's operations on streams (stream.hpp), the callbacks
    of ngtcp2, the flush of src/connection.cpp and the socket, as steps of one system that starts
    with a new connection.  Every step calls the function of the model that runs in the program;
    next to the state the system keeps, for each stream, the history of the bytes the application
    queued, how many of them were acknowledged, the bytes ngtcp2 was given and what the history
    was whenever a FIN was offered; and all packets ngtcp2 finished. *)
From S2P Require Import Prelude StdMap Utils Stream Udp Sender EndpointSend Context Connection Flush.
Import Cid Addr Io.

(** ** What an application can do with a stream *)

Module App.
Inductive user_op :=
  | USend (bs : list Z) (u : nat)                      (* Stream::send *)
  | UChunks (f : nat -> list Z) (done : bool) (n : Z)  (* Stream::send_chunks *)
  | UClose (code : Z).                                 (* Stream::close *)

Definition run_op (op : user_op) (st : chunk_state) : outcome (chunk_state * list effect) :=
  match op with
  | USend bs u => let '(s, e) := Stream_send (cs_stream st) bs (KUser u) in Ok (mkCS s (cs_senders st), e)
  | UChunks f done n => send_chunks f done n st
  | UClose code => let '(s, e) := Stream_close (cs_stream st) code in Ok (mkCS s (cs_senders st), e)
  end.

Fixpoint run_ops (ops : list user_op) (st : chunk_state) : outcome (chunk_state * list (list effect)) :=
  match ops with
  | [] => Ok (st, [])
  | op :: ops' =>
      let* (st1, e1) := run_op op st in
      let* (st2, e2) := run_ops ops' st1 in
      Ok (st2, e1 :: e2)
  end.
End App.
Export App.

(** ** The observer of one stream *)

Record ghost := mkGhost {
  gh_hist : list Z;          (* every byte queued so far *)
  gh_acked : Z;              (* how many of them were acknowledged *)
  gh_lims : list ((nat -> list Z) * Z);   (* the callbacks and limits of the send_chunks calls *)
  gh_given : list Z;         (* the bytes ngtcp2 accepted *)
  gh_fins : list (list Z);   (* the history at each FIN offered *)
}.
Definition ghost_new : ghost := mkGhost [] 0 [] [] [].

Definition ghost_op (op : user_op) (e : list effect) (gh : ghost) : ghost :=
  match op with
  | USend bs _ => mkGhost (gh_hist gh ++ bs) (gh_acked gh) (gh_lims gh) (gh_given gh) (gh_fins gh)
  | UChunks f _ n =>
      mkGhost (gh_hist gh ++ chunk_bytes e) (gh_acked gh) (gh_lims gh ++ [(f, n)]) (gh_given gh) (gh_fins gh)
  | UClose _ => gh
  end.
Fixpoint ghost_ops (ops : list user_op) (es : list (list effect)) (gh : ghost) : ghost :=
  match ops, es with
  | op :: ops', e :: es' => ghost_ops ops' es' (ghost_op op e gh)
  | _, _ => gh
  end.
Definition ghost_ack (n : Z) (e : list effect) (gh : ghost) : ghost :=
  mkGhost (gh_hist gh ++ chunk_bytes e) (gh_acked gh + n) (gh_lims gh) (gh_given gh) (gh_fins gh).
Definition ghost_flush (d : list Z) (nf : nat) (gh : ghost) : ghost :=
  mkGhost (gh_hist gh) (gh_acked gh) (gh_lims gh) (gh_given gh ++ d) (gh_fins gh ++ replicate nf (gh_hist gh)).

(** The stream and its observer agree: ngtcp2 was given the history up to what is in flight, and
    a FIN is offered at most once, after which nothing is given. *)
Definition tracks (st : chunk_state) (gh : ghost) : Prop :=
  stream_run st (gh_hist gh) (gh_acked gh) (gh_lims gh) /\
  gh_given gh = ztake (gh_acked gh + unacked (cs_stream st)) (gh_hist gh) /\
  gh_fins gh = if sent_fin (cs_stream st) then [gh_given gh] else [].

Definition in_memory (st : chunk_state) : Prop := zlen (content (cs_stream st)) < 2 ^ 64.

Lemma tracks_bounds st gh :
  tracks st gh ->
  0 <= gh_acked gh /\ 0 <= unacked (cs_stream st) /\
  gh_acked gh + unacked (cs_stream st) <= zlen (gh_hist gh) /\ stream_ok (cs_stream st) /\
  content (cs_stream st) = zdrop (gh_acked gh) (gh_hist gh).
Proof.
  intros (Hr & _). apply stream_run_simulates in Hr as (Hi & Hm & Ha & Hc). pose proof Hi as (Hu & _).
  rewrite Hc, zlen_zdrop in Hu by lia. unfold unacked. split_and!; try done; lia.
Qed.

Lemma tracks_new dcb ccb id : tracks (mkCS (Stream_new dcb ccb id) []) ghost_new.
Proof. split_and!; [constructor|done..]. Qed.

(** Growing the history leaves what was given a prefix of the same length. *)
Lemma given_grows st gh st' new :
  tracks st gh -> unacked (cs_stream st') = unacked (cs_stream st) ->
  gh_given gh = ztake (gh_acked gh + unacked (cs_stream st')) (gh_hist gh ++ new).
Proof.
  intros Ht ->. pose proof (tracks_bounds _ _ Ht) as (_ & _ & Hle & _). destruct Ht as (_ & -> & _).
  by rewrite ztake_app_le.
Qed.

Lemma queue_frame n k st :
  let st' := (queue_initial n k st).1 in
  unacked (cs_stream st') = unacked (cs_stream st) /\ sent_fin (cs_stream st') = sent_fin (cs_stream st) /\
  stream_id (cs_stream st') = stream_id (cs_stream st) /\ ready (cs_stream st') = ready (cs_stream st).
Proof.
  pose proof (queue_initial_spec n k st) as Hq. destruct (queue_initial n k st) as [st' e].
  destruct Hq as (new & Hs & _). cbn. by rewrite Hs.
Qed.

Lemma run_op_frame op st st' e :
  run_op op st = Ok (st', e) ->
  unacked (cs_stream st') = unacked (cs_stream st) /\ sent_fin (cs_stream st') = sent_fin (cs_stream st) /\
  stream_id (cs_stream st') = stream_id (cs_stream st) /\ ready (cs_stream st') = ready (cs_stream st).
Proof.
  destruct op as [bs u|f dn n|code]; cbn [run_op].
  - intros [= <- <-]. done.
  - unfold send_chunks. destruct (n <? 1); [done|]. intros [= Hq].
    pose proof (queue_frame (Z.to_nat n) (length (cs_senders st))
      (mkCS (cs_stream st) (cs_senders st ++ [mkSender (Some f) 0 dn]))) as Hf. by rewrite Hq in Hf.
  - destruct st as [[? ? ? ? ? [] [] ? ?] sn]; cbn; intros [= <- <-]; done.
Qed.

Lemma tracks_op op st st' e gh :
  tracks st gh -> run_op op st = Ok (st', e) -> in_memory st' -> tracks st' (ghost_op op e gh).
Proof.
  intros Ht Hop Hm. pose proof (run_op_frame _ _ _ _ Hop) as (Hu & Hf & _). pose proof Ht as (Hr & Hg & Hfin).
  destruct op as [bs u|f dn n|code]; cbn [run_op ghost_op] in *.
  - assert (st' = mkCS (Stream_send (cs_stream st) bs (KUser u)).1 (cs_senders st)) as -> by (by injection Hop).
    split_and!; cbn [gh_hist gh_acked gh_lims gh_given gh_fins]; [|by eapply given_grows|by rewrite Hf].
    apply run_send; [done|]. unfold in_memory in Hm. cbn [cs_stream Stream_send append_buffer fst] in Hm.
    rewrite content_app, zlen_app in Hm. cbn in Hm. by rewrite app_nil_r in Hm.
  - split_and!; cbn [gh_hist gh_acked gh_lims gh_given gh_fins]; [|by eapply given_grows|by rewrite Hf].
    by eapply run_chunks.
  - assert (st' = mkCS (Stream_close (cs_stream st) code).1 (cs_senders st)) as ->
      by (destruct (Stream_close (cs_stream st) code); by injection Hop).
    split_and!; [by apply run_close|by rewrite Hu|by rewrite Hf].
Qed.

Lemma run_op_grows op st st' e :
  run_op op st = Ok (st', e) -> zlen (content (cs_stream st)) <= zlen (content (cs_stream st')).
Proof.
  destruct op as [bs u|f dn n|code]; cbn [run_op].
  - intros [= <- <-]. cbn [cs_stream]. rewrite content_app, zlen_app. pose proof (zlen_nonneg (concat (map fst [(bs, KUser u)]))). lia.
  - unfold send_chunks. destruct (n <? 1); [done|]. intros [= Hq].
    pose proof (queue_initial_spec (Z.to_nat n) (length (cs_senders st))
      (mkCS (cs_stream st) (cs_senders st ++ [mkSender (Some f) 0 dn]))) as Hs.
    rewrite Hq in Hs. destruct Hs as (new & -> & _). rewrite content_app, zlen_app. cbn [cs_stream].
    pose proof (zlen_nonneg (concat (map fst new))). lia.
  - destruct (Stream_close (cs_stream st) code) as [s es] eqn:Hc. intros [= <- <-].
    destruct (Stream_close_frame (cs_stream st) code) as (Hb & _). rewrite Hc in Hb. unfold content. cbn in *. by rewrite Hb.
Qed.

Lemma run_ops_grows ops st st' es :
  run_ops ops st = Ok (st', es) -> zlen (content (cs_stream st)) <= zlen (content (cs_stream st')).
Proof.
  revert st es. induction ops as [|op ops IH]; intros st es; cbn [run_ops]; [by intros [= <- <-]|].
  intros ([st1 e1] & H1 & ([st2 e2] & H2 & [= <- <-])%obind_ok)%obind_ok.
  apply run_op_grows in H1. apply IH in H2. lia.
Qed.

Lemma tracks_ops ops st st' es gh :
  tracks st gh -> run_ops ops st = Ok (st', es) -> in_memory st' ->
  tracks st' (ghost_ops ops es gh) /\
  stream_id (cs_stream st') = stream_id (cs_stream st) /\ ready (cs_stream st') = ready (cs_stream st).
Proof.
  revert st es gh. induction ops as [|op ops IH]; intros st es gh Ht; cbn [run_ops]; [by intros [= <- <-]|].
  intros ([st1 e1] & H1 & ([st2 e2] & H2 & [= <- <-])%obind_ok)%obind_ok Hm. cbn [ghost_ops].
  pose proof (run_op_frame _ _ _ _ H1) as (_ & _ & <- & <-).
  apply (IH st1); [|done..]. eapply tracks_op; [done..|].
  apply run_ops_grows in H2. unfold in_memory in *. lia.
Qed.

Lemma tracks_ack stale n st st' e ub gh :
  tracks st gh -> 0 <= n <= unacked (cs_stream st) ->
  acknowledge stale (ack_fuel n st) n st = Ok (st', e, ub) -> in_memory st' ->
  tracks st' (ghost_ack n e gh).
Proof.
  intros Ht Hn Hack Hm. pose proof (tracks_bounds _ _ Ht) as (_ & _ & Hle & [Hi _] & _). pose proof Ht as (Hr & Hg & Hf).
  destruct (acknowledge_spec stale n st Hi Hn) as (st1 & e1 & ub1 & Hack' & Hs & _).
  rewrite Hack in Hack'. simplify_eq. assert (unacked (cs_stream st1) = unacked (cs_stream st) - n) as Hu by (by rewrite Hs).
  assert (sent_fin (cs_stream st1) = sent_fin (cs_stream st)) as Hsf by (by rewrite Hs).
  split_and!; cbn [ghost_ack gh_hist gh_acked gh_lims gh_given gh_fins]; [by eapply run_ack| |by rewrite Hsf].
  rewrite Hu, ztake_app_le by lia. rewrite Hg. f_equal. lia.
Qed.

(** Tracking survives the changes the connection makes when a stream gets its id. *)
Lemma tracks_ready st gh b : tracks st gh -> tracks (mkCS (with_ready (cs_stream st) b) (cs_senders st)) gh.
Proof. intros (Hr & Hg & Hf). split_and!; [by apply run_ready|done..]. Qed.
Lemma tracks_id st gh id : tracks st gh -> tracks (mkCS (with_id (cs_stream st) id) (cs_senders st)) gh.
Proof. intros (Hr & Hg & Hf). split_and!; [by apply run_id|done..]. Qed.

(** A flush moves a stream by the bytes ngtcp2 took and the FIN it was offered. *)
Lemma advanced_eq s0 s d nf :
  stream_ok s0 -> advanced s0 s d nf -> s = with_fin (Stream_wrote s0 (zlen d)) (sent_fin s).
Proof.
  intros [(H1 & H2 & Hs0) _] (Hi & Hl & Hb & H0 & Hu & Hd & He & _). destruct Hi as (Hu1 & Hu2 & Hs).
  pose proof (zlen_nonneg d). assert (u64 (unacked_size s0 + zlen d) = unacked_size s0 + zlen d) as Hw
    by (apply u64_small; unfold is_u64; lia).
  destruct s0, s; cbn in *. unfold Stream_wrote, with_unacked, with_fin. cbn. rewrite Hw. by simplify_eq.
Qed.

Lemma tracks_flush st0 st gh d nf :
  tracks st0 gh -> cs_senders st = cs_senders st0 -> silent (cs_stream st0) d nf ->
  advanced (cs_stream st0) (cs_stream st) d nf -> tracks st (ghost_flush d nf gh).
Proof.
  intros Ht Hsn Hsil Ha. pose proof (tracks_bounds _ _ Ht) as (Ha0 & Hu0 & Hle & Hok & Hcont).
  pose proof Ht as (Hr & Hg & Hf). pose proof (advanced_eq _ _ _ _ Hok Ha) as Heq.
  destruct Ha as (Hi & Hm & Hb & _ & Hu & Hd & _ & Hfin). pose proof (zlen_nonneg d) as Hdn.
  assert (zlen (content (cs_stream st0)) = zlen (gh_hist gh) - gh_acked gh) as Hcl by (rewrite Hcont, zlen_zdrop; lia).
  pose proof Hi as (Hi1 & _). rewrite (content_buffers _ _ Hb) in Hi1. unfold unacked in *.
  assert (gh_given gh ++ d = ztake (gh_acked gh + unacked_size (cs_stream st)) (gh_hist gh)) as Hgiven.
  { rewrite Hg, Hu, Z.add_assoc, (ztake_add _ (zlen d)) by lia. f_equal. rewrite Hcont, zdrop_zdrop in Hd by lia. by symmetry. }
  split_and!; cbn [ghost_flush gh_hist gh_acked gh_lims gh_given gh_fins]; [|done|].
  - destruct st as [s sn]. cbn in *. rewrite Hsn, Heq.
    apply (run_fin (mkCS (Stream_wrote (cs_stream st0) (zlen d)) (cs_senders st0))). apply run_wrote; [done|].
    destruct Hok as [Hi0 Hm0]. rewrite unsent_content by done. lia.
  - rewrite Hf. destruct Hfin as [[-> Hs]|(-> & Hs0 & Hs & _ & Hall)].
    + rewrite Hs. destruct (sent_fin (cs_stream st0)) eqn:E; [|done]. destruct (Hsil E) as [-> _]. by rewrite !app_nil_r.
    + rewrite Hs0, Hs, Hgiven. cbn. f_equal. symmetry. rewrite Hall, (content_buffers _ _ Hb), Hcl.
      unfold ztake. apply firstn_all2. unfold zlen in *. lia.
Qed.

(** ** What a flush leaves alone *)

Definition conn_frame (c : Connection) :=
  (source_cid c, context c, dir c, on_closing c, draining c, closing c, pending_streams c, map_keys (streams c)).

Lemma conn_frame_on_stream c k f : conn_frame (on_stream c k f) = conn_frame c.
Proof. unfold conn_frame. f_equal. apply map_keys_update. Qed.
Lemma conn_frame_batch c b bs e n cnt : conn_frame (with_batch c b bs e n cnt) = conn_frame c.
Proof. done. Qed.

Create HintDb frame.
#[export] Hint Rewrite conn_frame_on_stream conn_frame_batch : frame.

Lemma sorted_by_keys {V} (m m' : list (Z * V)) : map_keys m' = map_keys m -> sorted_keys m -> sorted_keys m'.
Proof.
  intros Hk Hs. revert m' Hk. induction Hs as [|k v m Hall Hs IH]; intros [|[k' v'] m'] Hk; try done; [constructor|].
  injection Hk as -> Hk. constructor; [|auto].
  apply Forall_forall. intros [k1 v1] Hin. rewrite Forall_forall in Hall.
  assert (k1 ∈ map_keys m) as Hk1 by (unfold map_keys in Hk |- *; rewrite <- Hk; by apply (list_elem_of_fmap_2 fst) in Hin).
  apply list_elem_of_fmap in Hk1 as (e & -> & Hin'). exact (Hall _ Hin').
Qed.

Section frame.
Context `{NgtcpConsts} {C : Type} `{Ngtcp2 C} {S : Type} `{Sender S}.
Context (mode : send_mode) (resend : nat).

Lemma send_frame c sock c' s' ok cancel :
  Connection_send mode resend c sock = Ok (c', s', ok, cancel) -> conn_frame c' = conn_frame c.
Proof.
  unfold Connection_send. intros [_ (r & _ & Hr)%obind_ok]%assert_then_ok.
  destruct (blocked (sp_ret r)).
  - apply assert_then_ok in Hr as [_ Hr]. by destruct (sp_socket r); simplify_eq.
  - by destruct (failure (sp_ret r)); simplify_eq.
Qed.

Lemma requeue_frame max x (f : fstate C S) fl f' :
  requeue max x f = Ok (fl, f') -> f_conn f' = f_conn f.
Proof.
  unfold requeue. destruct (f_count f =? max); [by intros [= <- <-]|]. destruct x as [k|].
  - destruct (map_find k (streams (f_conn f))) as [st|]; [|done]. destruct (0 <? unsent (cs_stream st)); [|by intros [= <- <-]].
    intros [_ Hr]%assert_then_ok. by destruct (f_end f); simplify_eq.
  - by intros [_ [= <- <-]]%assert_then_ok.
Qed.

Lemma add_packet_frame max x w (f : fstate C S) fl f' :
  add_packet mode resend max x w f = Ok (fl, f') -> conn_frame (f_conn f') = conn_frame (f_conn f).
Proof.
  unfold add_packet. destruct (n_packets (f_conn f) <? _)%nat; [|done]. cbv zeta.
  destruct (_ =? MAX_BATCH mode)%nat.
  - intros ([[[c2 s2] ok] cancel] & Hs%send_frame & Hr)%obind_ok. destruct ok; [|injection Hr as <- <-; exact Hs].
    apply assert_then_ok in Hr as [_ Hr]. apply requeue_frame in Hr. rewrite Hr. exact Hs.
  - intros Hr%requeue_frame. by rewrite Hr.
Qed.

Lemma flush_iter_frame max x rest (f : fstate C S) fl f' :
  flush_iter mode resend max x rest f = Ok (fl, f') -> conn_frame (f_conn f') = conn_frame (f_conn f).
Proof.
  assert (forall c x n, conn_frame (wrote_opt c x n) = conn_frame c) as Hw
    by (intros c [k|] n; [apply conn_frame_on_stream|done]).
  unfold flush_iter. intros [_ (o & Ho & Hr)%obind_ok]%assert_then_ok.
  destruct o as [[[[c sid] bufs] fin]|]; [|by simplify_eq].
  assert (conn_frame c = conn_frame (f_conn f)) as <-.
  { destruct x as [k|]; cbn [offer] in Ho; [|by simplify_eq].
    destruct (map_find k (streams (f_conn f))) as [st|]; [|done]. apply obind_ok in Ho as (bf & _ & Ho).
    destruct (is_closing _ && _ && _); [simplify_eq; apply conn_frame_on_stream|].
    destruct (bool_decide _); by simplify_eq. }
  destruct (_ <? f_pos f + _); [done|]. destruct (ng_writev_stream _ _ _ _) as [g w].
  destruct (w_nwrite w <? 0).
  { destruct (w_nwrite w =? _); [apply assert_then_ok in Hr as [_ Hr]|]; simplify_eq; [apply Hw|done]. }
  destruct (w_nwrite w =? 0).
  { destruct x; [destruct (f_end f && _)|]; by simplify_eq. }
  destruct (0 <? w_ndatalen w); apply add_packet_frame in Hr; rewrite Hr; cbn [f_conn];
    rewrite conn_frame_batch; [apply Hw|done].
Qed.

Lemma flush_loop_frame fuel max (f : fstate C S) b f' :
  flush_loop mode resend fuel max f = Ok (b, f') -> conn_frame (f_conn f') = conn_frame (f_conn f).
Proof.
  revert f. induction fuel as [|fuel IH]; intros f; cbn [flush_loop]; destruct (f_strs f) as [|x rest];
    try by (intros [= <- <-] || intros [=]).
  intros ([fl f1] & Hi%flush_iter_frame & Hr)%obind_ok. rewrite <- Hi. destruct fl; [by apply IH|by injection Hr as <- <-..].
Qed.

Lemma flush_frame fuel mid g c (sock : option S) f upd :
  flush_streams mode resend fuel mid g c sock = Ok (f, upd) -> conn_frame (f_conn f) = conn_frame c.
Proof.
  unfold flush_streams. destruct (_ =? 0); [done|]. destruct (0 <? n_packets c)%nat; [by intros [= <- <-]|].
  intros ([fin f1] & Hl%flush_loop_frame & Hr)%obind_ok. cbn [f_conn] in Hl. rewrite <- Hl.
  destruct (fin && _); [|by injection Hr as <- <-].
  apply obind_ok in Hr as ([[[c2 s2] ok] cancel] & Hs%send_frame & Hr). by injection Hr as <- <-.
Qed.
End frame.

(** ** The system: a connection, its socket and the observers *)

Record Sys (C S : Type) := mkSys {
  y_conn : Connection;
  y_ng : C;
  y_sock : S;
  y_gh : Z -> ghost;             (* of the streams in the table *)
  y_pend : list ghost;           (* of the streams that wait for an id *)
  y_made : list (list Z);        (* the packets ngtcp2 finished, in order *)
  y_lost : bool;                 (* a send failed *)
  y_armed : bool;                (* a resend callback is queued on the socket *)
}.
Arguments mkSys {C S}.
Arguments y_conn {C S}.
Arguments y_ng {C S}.
Arguments y_sock {C S}.
Arguments y_gh {C S}.
Arguments y_pend {C S}.
Arguments y_made {C S}.
Arguments y_lost {C S}.
Arguments y_armed {C S}.

Definition set_ghost (k : Z) (gh : ghost) (G : Z -> ghost) : Z -> ghost := fun k' => if k' =? k then gh else G k'.

Module Life.
Section system.
Context `{NgtcpConsts} {C : Type} `{Ngtcp2 C} {S : Type} `{Sender S}.
Context (mode : send_mode) (resend : nat).
Implicit Types (Y : Sys C S).

Definition with_conn Y c g G P : Sys C S := mkSys c g (y_sock Y) G P (y_made Y) (y_lost Y) (y_armed Y).

(** One stream of the table replaced. *)
Definition with_stream (id : Z) (st : chunk_state) (gh : ghost) Y : Sys C S :=
  with_conn Y (with_streams (y_conn Y) (map_update id (fun _ => st) (streams (y_conn Y))) (pending_streams (y_conn Y)))
    (y_ng Y) (set_ghost id gh (y_gh Y)) (y_pend Y).

(** The observers move with the streams that get an id in [check_pending_streams]. *)
Fixpoint ghost_pending (available popped : Z) (P : list ghost) (g : C) (G : Z -> ghost) : (Z -> ghost) * list ghost :=
  match P with
  | [] => (G, [])
  | gh :: P' =>
      if popped <? available then
        let '(g', (rv, id)) := ng_open_bidi_stream g in
        if rv =? 0 then ghost_pending available (popped + 1) P' g' (set_ghost id gh G) else (G, gh :: P')
      else (G, P)
  end.

(** After a flush: what was handed over, the packets, and whether a resend was queued. *)
Definition after_flush Y (f : fstate C S) (s : S) (failed : bool) : Sys C S :=
  mkSys (f_conn f) (f_ng f) s
    (fun k => ghost_flush (sent k (f_log f)) (fins k (f_log f)) (y_gh Y k)) (y_pend Y)
    (y_made Y ++ packets (f_log f)) (y_lost Y || failed)
    (y_armed Y || bool_decide (snd_waiting s <> snd_waiting (y_sock Y))).

(** The steps that leave the socket alone.  ngtcp2 acknowledges only bytes it was given; a data callback is a
    list of operations on its stream; ngtcp2's own state changes at will between the calls shown here; the
    endpoint sets the flags of the connection. *)
Inductive sys_local : Sys C S -> Sys C S -> Prop :=
  | sys_user id op st st' e Y :
      map_find id (streams (y_conn Y)) = Some st -> run_op op st = Ok (st', e) -> in_memory st' ->
      sys_local Y (with_stream id st' (ghost_op op e (y_gh Y id)) Y)
  | sys_user_pending i op st st' e gh Y :
      pending_streams (y_conn Y) !! i = Some st -> y_pend Y !! i = Some gh ->
      run_op op st = Ok (st', e) -> in_memory st' ->
      sys_local Y (with_conn Y (with_streams (y_conn Y) (streams (y_conn Y)) (<[i := st']> (pending_streams (y_conn Y))))
                    (y_ng Y) (y_gh Y) (<[i := ghost_op op e gh]> (y_pend Y)))
  | sys_new dcb ccb g' c' id Y :
      get_new_stream dcb ccb (y_ng Y) (y_conn Y) = (g', c', id) ->
      sys_local Y (match id with
                  | Some id => with_conn Y c' g' (set_ghost id ghost_new (y_gh Y)) (y_pend Y)
                  | None => with_conn Y c' g' (y_gh Y) (y_pend Y ++ [ghost_new])
                  end)
  | sys_pending avail g' c' G P Y :
      check_pending_streams avail (y_ng Y) (y_conn Y) = (g', c') ->
      ghost_pending avail 0 (y_pend Y) (y_ng Y) (y_gh Y) = (G, P) ->
      sys_local Y (with_conn Y c' g' G P)
  | sys_opened id code c' e rv Y :
      stream_opened id code (y_conn Y) = Ok (c', e, rv) ->
      sys_local Y (with_conn Y c' (y_ng Y)
                    (if bool_decide (map_find id (streams (y_conn Y)) = None) then set_ghost id ghost_new (y_gh Y) else y_gh Y)
                    (y_pend Y))
  | sys_closed last id code c' e Y :
      stream_closed last id code (y_ng Y) (y_conn Y) = Ok (c', e) ->
      sys_local Y (with_conn Y c' (y_ng Y) (y_gh Y) (y_pend Y))
  | sys_ack stale id n st c' e rv Y :
      map_find id (streams (y_conn Y)) = Some st -> 0 <= n <= unacked (cs_stream st) ->
      stream_ack stale (ack_fuel n st) id n (y_conn Y) = Ok (c', e, rv) ->
      (forall st', map_find id (streams c') = Some st' -> in_memory st') ->
      sys_local Y (with_conn Y c' (y_ng Y) (set_ghost id (ghost_ack n e (y_gh Y id)) (y_gh Y)) (y_pend Y))
  | sys_receive id data fin ops threw st st' es c' e rv Y :
      map_find id (streams (y_conn Y)) = Some st ->
      run_ops ops st = Ok (st', es) -> in_memory st' -> (data_callback (cs_stream st) = None -> ops = []) ->
      stream_receive (fun _ _ _ => (st', concat es, threw)) id data fin (y_conn Y) = Ok (c', e, rv) ->
      sys_local Y (with_conn Y c' (y_ng Y) (set_ghost id (ghost_ops ops es (y_gh Y id)) (y_gh Y)) (y_pend Y))
  | sys_ngtcp2 g Y :
      sys_local Y (with_conn Y (y_conn Y) g (y_gh Y) (y_pend Y))
  | sys_flags oc d cl Y :
      sys_local Y (with_conn Y (with_flags (y_conn Y) oc d cl) (y_ng Y) (y_gh Y) (y_pend Y)).

(** All steps: those, the io trigger and a queued resend. *)
Inductive sys_step : Sys C S -> Sys C S -> Prop :=
  | sys_stream Y Y' : sys_local Y Y' -> sys_step Y Y'
  | sys_flush fuel mid ts_ns f s t Y :
      (flush_fuel (y_ng Y) (y_conn Y) <= fuel)%nat ->
      on_io_ready mode resend fuel mid ts_ns (y_ng Y) (y_conn Y) (Some (y_sock Y)) = Ok (f, t) -> f_sock f = Some s ->
      sys_step Y (after_flush Y f s (f_cancel f))
  | sys_resend fuel mid ts_ns f s t Y :
      y_armed Y = true -> (flush_fuel (y_ng Y) (y_conn Y) <= fuel)%nat ->
      resend_lambda mode resend fuel mid ts_ns (y_ng Y) (y_conn Y) (Some (y_sock Y)) = Ok (f, t) -> f_sock f = Some s ->
      sys_step Y (after_flush (mkSys (y_conn Y) (y_ng Y) (y_sock Y) (y_gh Y) (y_pend Y) (y_made Y) (y_lost Y) false) f s
                    (f_cancel f || (bool_decide (t = None) && (n_packets (f_conn f) =? 0)%nat))).

(** A new connection on an idle socket. *)
Definition sys_initial (c : Connection) (g : C) (s : S) : Sys C S :=
  mkSys c g s (fun _ => ghost_new) [] [] false false.
End system.
End Life.
Export Life.

(** ** The invariant of the system *)

Section invariant.
Context `{NgtcpConsts} {C : Type} `{Ngtcp2 C} {S : Type} `{SenderLaws S}.
Context (mode : send_mode) (resend : nat).
Implicit Types (Y : Sys C S).

Definition table_tracked (m : list (Z * chunk_state)) (G : Z -> ghost) : Prop :=
  forall id st, map_find id m = Some st -> tracks st (G id).

Definition sys_inv Y : Prop :=
  let c := y_conn Y in let s := y_sock Y in
  table_inv c /\ queue_ok mode c /\ snd_good s /\ snd_max s = MAX_BATCH mode /\
  table_tracked (streams c) (y_gh Y) /\ Forall2 tracks (pending_streams c) (y_pend Y) /\
  snd_wire s ++ queued c `sublist_of` y_made Y /\
  (y_lost Y = false -> snd_wire s ++ queued c = y_made Y) /\
  y_armed Y = (0 <? n_packets c)%nat.

(** Steps that only touch streams. *)
Lemma inv_streams Y m p g G P :
  sys_inv Y -> table_inv (with_streams (y_conn Y) m p) -> table_tracked m G -> Forall2 tracks p P ->
  sys_inv (with_conn Y (with_streams (y_conn Y) m p) g G P).
Proof. intros (_ & Hq & Hg & Hm & _ & _ & Hs & Hl & Ha) Ht Hm' Hp. split_and!; done. Qed.

Lemma tracked_update m G id st gh :
  table_tracked m G -> tracks st gh -> table_tracked (map_update id (fun _ => st) m) (set_ghost id gh G).
Proof.
  intros Ht Hst id' st' Hf. unfold set_ghost. destruct (id' =? id) eqn:E; bools.
  - subst id'. rewrite map_find_update_eq in Hf. by destruct (map_find id m); simplify_eq/=.
  - rewrite map_find_update_ne in Hf by done. eauto.
Qed.

Lemma tracked_assign m G id st gh :
  table_tracked m G -> tracks st gh -> table_tracked (map_assign id st m) (set_ghost id gh G).
Proof.
  intros Ht Hst id' st' Hf. unfold set_ghost. destruct (id' =? id) eqn:E; bools.
  - subst id'. rewrite map_find_assign_eq in Hf. by simplify_eq.
  - rewrite map_find_assign_ne in Hf by done. eauto.
Qed.

Lemma tracked_erase m G id : sorted_keys m -> table_tracked m G -> table_tracked (map_erase id m) G.
Proof.
  intros Hs Ht id' st Hf. destruct (decide (id = id')) as [<-|Hne].
  - by rewrite map_find_erase_eq in Hf.
  - rewrite map_find_erase_ne in Hf by done. eauto.
Qed.

Lemma tracks_promoted id st gh : tracks st gh -> tracks (mkCS (set_ready (with_id (cs_stream st) id)) (cs_senders st)) gh.
Proof. intros Ht. apply (tracks_ready (mkCS (with_id (cs_stream st) id) (cs_senders st))). by apply tracks_id. Qed.

Lemma tracked_pending avail popped pend P (g : C) m G :
  table_tracked m G -> Forall2 tracks pend P ->
  let '(_, m', p) := check_pending_loop avail popped pend g m in
  let '(G', P') := ghost_pending avail popped P g G in
  table_tracked m' G' /\ Forall2 tracks p P'.
Proof.
  intros Ht HF. revert popped g m G Ht.
  induction HF as [|st gh pend P Hst HF IH]; intros popped g m G Ht; cbn [check_pending_loop ghost_pending]; [done|].
  destruct (popped <? avail); [|by split; [|constructor]].
  destruct (ng_open_bidi_stream g) as [g' [rv id]].
  destruct (rv =? 0); [|by split; [|constructor]].
  apply IH. apply tracked_assign; [done|]. by apply tracks_promoted.
Qed.

(** A stream of the table after operations that keep its id and readiness. *)
Lemma inv_update Y id st st' gh g :
  sys_inv Y -> map_find id (streams (y_conn Y)) = Some st -> entry_ok id st' -> tracks st' gh ->
  sys_inv (with_conn Y (with_streams (y_conn Y) (map_update id (fun _ => st') (streams (y_conn Y))) (pending_streams (y_conn Y)))
             g (set_ghost id gh (y_gh Y)) (y_pend Y)).
Proof.
  intros Hi Hf He Ht. pose proof Hi as (Htab & _ & _ & _ & Htr & Hp & _).
  apply inv_streams; [done| |by apply tracked_update|done]. by apply table_update.
Qed.

Lemma sys_entry Y id st : sys_inv Y -> map_find id (streams (y_conn Y)) = Some st -> entry_ok id st /\ tracks st (y_gh Y id).
Proof. intros (Htab & _ & _ & _ & Htr & _) Hf. split; [by apply Htab|by apply Htr]. Qed.

Lemma inv_receive Y id data fin ops threw st st' es c' e rv :
  sys_inv Y -> map_find id (streams (y_conn Y)) = Some st -> run_ops ops st = Ok (st', es) -> in_memory st' ->
  (data_callback (cs_stream st) = None -> ops = []) ->
  stream_receive (fun _ _ _ => (st', concat es, threw)) id data fin (y_conn Y) = Ok (c', e, rv) ->
  sys_inv (with_conn Y c' (y_ng Y) (set_ghost id (ghost_ops ops es (y_gh Y id)) (y_gh Y)) (y_pend Y)).
Proof.
  intros Hi Hf Hops Hm Hcb Hr. destruct (sys_entry _ _ _ Hi Hf) as [[Hid Hrd] Ht].
  destruct (tracks_ops _ _ _ _ _ Ht Hops Hm) as (Ht' & Hid' & Hrd').
  assert (entry_ok id st') as He' by (split; congruence).
  unfold stream_receive, get_stream in Hr. rewrite Hf in Hr. cbn [obind] in Hr. destruct (data_callback (cs_stream st)) as [cb|].
  - destruct threw; cbn [negb] in Hr.
    + destruct (Stream_close (cs_stream st') STREAM_ERROR_EXCEPTION) as [s2 e2] eqn:Hcl. simplify_eq.
      assert (s2 = (Stream_close (cs_stream st') STREAM_ERROR_EXCEPTION).1) as -> by (by rewrite Hcl).
      eapply inv_update; [done..| |]; [destruct st'; by apply Stream_close_entry|].
      eapply (tracks_op (UClose STREAM_ERROR_EXCEPTION) st'); [exact Ht'|by cbn; rewrite Hcl|].
      unfold in_memory, content in *. cbn [cs_stream]. by destruct (Stream_close_frame (cs_stream st') STREAM_ERROR_EXCEPTION) as (-> & _).
    + simplify_eq. by eapply inv_update.
  - rewrite (Hcb eq_refl) in *. cbn in Hops. simplify_eq. cbn [negb] in Hr. simplify_eq. by eapply inv_update.
Qed.

(** *** Flushing *)

(** What ngtcp2 documents of its send quantum: at least one packet, and packets are not empty. *)
Definition quantum_ok : Prop := forall g, 0 < ng_path_max_tx_udp_payload_size g <= ng_send_quantum g.

Lemma sys_flushable Y : writev_ok -> quantum_ok -> sys_inv Y -> flushable mode (y_ng Y) (y_conn Y) (y_sock Y).
Proof.
  intros Hwv Hq (Htab & Hqc & Hg & Hm & Htr & _). split_and!; try done; [apply Hq..|apply Htab|].
  intros k st Hf. apply (tracks_bounds _ _ (Htr _ _ Hf)).
Qed.

(** Nothing was offered: the observers stay as they are. *)
Lemma ghost_flush_nil gh : ghost_flush [] 0 gh = gh.
Proof. destruct gh. unfold ghost_flush. cbn. by rewrite !app_nil_r. Qed.

Lemma table_inv_flush c c' log :
  table_inv c -> data_inv (streams c) (streams c') log -> conn_frame c' = conn_frame c -> table_inv c'.
Proof.
  intros (Hs & He & Hp) Hd Hfr. injection Hfr as _ _ _ _ _ _ Hpend Hkeys.
  split_and!; [by eapply sorted_by_keys| |by rewrite Hpend].
  intros id st Hf. specialize (Hd id). destruct (map_find id (streams c)) as [st0|] eqn:Hf0; [|congruence].
  destruct Hd as (st' & Hf' & _ & _ & (_ & _ & _ & _ & _ & _ & Htup & _)). simplify_eq.
  destruct (He _ _ Hf0). split; congruence.
Qed.

Lemma tracked_flush c c' log G :
  table_tracked (streams c) G -> data_inv (streams c) (streams c') log ->
  table_tracked (streams c') (fun k => ghost_flush (sent k log) (fins k log) (G k)).
Proof.
  intros Htr Hd id st Hf. specialize (Hd id). destruct (map_find id (streams c)) as [st0|] eqn:Hf0; [|congruence].
  destruct Hd as (st' & Hf' & Hsn & Hsil & Ha). simplify_eq. eapply tracks_flush; try done. by apply Htr.
Qed.

(** A flush of a connection whose batch was empty. *)
Lemma inv_final Y (f : fstate C S) :
  sys_inv Y -> n_packets (y_conn Y) = 0%nat -> final mode resend (streams (y_conn Y)) (y_sock Y) f ->
  conn_frame (f_conn f) = conn_frame (y_conn Y) ->
  exists s, f_sock f = Some s /\ sys_inv (after_flush Y f s (f_cancel f)).
Proof.
  intros (Htab & Hqc & Hg & Hm & Htr & Hp & Hsub & Hlost & Harm) Hn Hfin Hfr.
  destruct Hfin as (s & Hs & Hg' & Hm' & Hq' & Hd & Hwire & Hwait). exists s. split; [done|].
  rewrite (queued_0 _ Hn), app_nil_r in Hsub, Hlost. rewrite Hn in Harm.
  pose proof Hfr as Hfr'. injection Hfr' as _ _ _ _ _ _ Hpend _.
  split_and!; cbn [after_flush y_conn y_sock y_gh y_pend y_made y_lost y_armed]; try done.
  - by eapply table_inv_flush.
  - by eapply tracked_flush.
  - by rewrite Hpend.
  - destruct Hwire as [(_ & ->)|(_ & Hz & Hpre)]; [by apply sublist_app|].
    rewrite (queued_0 _ Hz), app_nil_r. destruct Hpre as [k Hk].
    etransitivity; [by apply (sublist_inserts_r k)|]. rewrite <- Hk. by apply sublist_app.
  - intros [Hl Hc]%orb_false_iff. destruct Hwire as [(_ & ->)|(Hc' & _)]; [by rewrite Hlost|congruence].
  - rewrite Harm. change (0 <? 0)%nat with false. cbn [orb]. rewrite Hwait. destruct (0 <? n_packets (f_conn f))%nat.
    + apply bool_decide_eq_true. intros E. apply (f_equal length) in E. rewrite length_app in E. cbn in E. lia.
    + apply bool_decide_eq_false. rewrite app_nil_r. tauto.
Qed.

Lemma inv_flush Y fuel mid ts_ns f s t :
  writev_ok -> quantum_ok -> sys_inv Y -> (flush_fuel (y_ng Y) (y_conn Y) <= fuel)%nat ->
  on_io_ready mode resend fuel mid ts_ns (y_ng Y) (y_conn Y) (Some (y_sock Y)) = Ok (f, t) -> f_sock f = Some s ->
  sys_inv (after_flush Y f s (f_cancel f)).
Proof.
  intros Hwv Hqn Hi Hfuel Hio Hs. apply obind_ok in Hio as ([f0 upd] & Hfl & Hio). injection Hio as -> _.
  destruct (decide (n_packets (y_conn Y) = 0%nat)) as [Hn|Hn].
  - destruct (flush_streams_spec mode resend mid (y_ng Y) (y_conn Y) (y_sock Y) fuel) as (f1 & upd1 & Hr & Hfin & _);
      [by apply sys_flushable|done..|].
    rewrite Hfl in Hr. injection Hr as <- <-. apply flush_frame in Hfl.
    destruct (inv_final Y f Hi Hn Hfin Hfl) as (s' & Hs' & Hinv). rewrite Hs in Hs'. by injection Hs' as ->.
  - pose proof Hi as (Htab & Hqc & Hg & Hm & Htr & Hp & Hsub & Hlost & Harm).
    unfold flush_streams in Hfl. rewrite (proj2 (Z.eqb_neq _ _)) in Hfl by (specialize (Hqn (y_ng Y)); lia).
    rewrite (proj2 (Nat.ltb_lt _ _)) in Hfl by lia. injection Hfl as <- <-. injection Hs as <-.
    split_and!; cbn [after_flush y_conn y_sock y_gh y_pend y_made y_lost y_armed f_conn f_log f_cancel]; try done.
    + intros k st Hf. change (sent k []) with (@nil Z). change (fins k []) with 0%nat. rewrite ghost_flush_nil. by apply Htr.
    + by rewrite app_nil_r.
    + rewrite orb_false_r, app_nil_r. done.
    + rewrite bool_decide_false, orb_false_r by tauto. done.
Qed.

(** The state between the resend of the old batch and the flush that follows it. *)
Definition resent Y (c : Connection) (s : S) : Sys C S :=
  mkSys c (y_ng Y) s (y_gh Y) (y_pend Y) (y_made Y) (y_lost Y) false.

(** Observers after a flush that offered nothing. *)
Lemma tracked_nil m G : table_tracked m G -> table_tracked m (fun k => ghost_flush (sent k []) (fins k []) (G k)).
Proof.
  intros Ht k st Hf. change (sent k []) with (@nil Z). change (fins k []) with 0%nat. rewrite ghost_flush_nil. by apply Ht.
Qed.

Lemma inv_resend Y fuel mid ts_ns f s t :
  writev_ok -> quantum_ok -> sys_inv Y -> y_armed Y = true -> (flush_fuel (y_ng Y) (y_conn Y) <= fuel)%nat ->
  resend_lambda mode resend fuel mid ts_ns (y_ng Y) (y_conn Y) (Some (y_sock Y)) = Ok (f, t) -> f_sock f = Some s ->
  sys_inv (after_flush (resent Y (y_conn Y) (y_sock Y)) f s
             (f_cancel f || (bool_decide (t = None) && (n_packets (f_conn f) =? 0)%nat))).
Proof.
  intros Hwv Hqn Hi Harmed Hfuel Hr Hs.
  pose proof Hi as (Htab & Hqc & Hg & Hm & Htr & Hp & Hsub & Hlost & Harm).
  rewrite Harmed in Harm. symmetry in Harm. apply Nat.ltb_lt in Harm.
  destruct (Connection_send_spec mode resend (y_conn Y) (y_sock Y) Hqc Harm Hg Hm)
    as (c2 & s2 & ok & cancel & k & Hsend & Hq2 & Hstr & Hg2 & Hm2 & Hw2 & Hcase).
  pose proof (send_frame _ _ _ _ _ _ _ _ Hsend) as Hfr. injection Hfr as _ _ _ _ _ _ Hpend _.
  assert (table_inv c2) as Htab2 by (unfold table_inv; by rewrite Hstr, Hpend).
  unfold resend_lambda in Hr. rewrite Hsend in Hr. cbn [obind] in Hr.
  destruct Hcase as [(-> & -> & Hn2 & Hw3 & Hwt)|[(-> & -> & Hn2 & Hqd2 & Hwt)|(-> & -> & Hn2 & Hwt)]].
  - apply obind_ok in Hr as ([f0 t0] & Hio & Hr). injection Hr as -> <-.
    rewrite bool_decide_false, orb_false_r by done.
    assert (sys_inv (after_flush (resent Y c2 s2) f s (f_cancel f))) as Hinv.
    { apply (inv_flush (resent Y c2 s2) fuel mid ts_ns f s t0); try done;
        [|unfold flush_fuel in Hfuel |- *; cbn; rewrite Hstr; exact Hfuel].
      split_and!; cbn; rewrite ?Hstr, ?Hpend, ?(queued_0 _ Hn2), ?app_nil_r, ?Hw3, ?Hn2; done. }
    unfold after_flush in Hinv |- *. cbn in Hinv |- *. by rewrite Hwt in Hinv.
  - injection Hr as <- <-. injection Hs as <-.
    assert (snd_wire s2 ++ queued c2 = snd_wire (y_sock Y) ++ queued (y_conn Y)) as Hcons
      by (by rewrite Hw2, Hqd2, <- app_assoc, take_drop).
    split_and!; cbn [after_flush resent y_conn y_sock y_gh y_pend y_made y_lost y_armed f_conn f_log f_cancel f_ng];
      rewrite ?Hstr, ?Hpend, ?Hcons, ?app_nil_r; try done.
    + by apply tracked_nil.
    + rewrite (proj2 (Nat.eqb_neq _ _)), andb_false_r, orb_false_r by lia. done.
    + cbn [orb]. rewrite Hwt, (proj2 (Nat.ltb_lt _ _)) by done. apply bool_decide_eq_true.
      intros E. apply (f_equal length) in E. rewrite length_app in E. cbn in E. lia.
  - injection Hr as <- <-. injection Hs as <-.
    split_and!; cbn [after_flush resent y_conn y_sock y_gh y_pend y_made y_lost y_armed f_conn f_log f_cancel f_ng];
      rewrite ?Hstr, ?Hpend, ?(queued_0 _ Hn2), ?app_nil_r; try done.
    + by apply tracked_nil.
    + rewrite Hw2. etransitivity; [|exact Hsub]. apply sublist_app; [done|apply sublist_take].
    + rewrite Hn2, bool_decide_true by done. cbn. rewrite orb_true_r. done.
    + rewrite Hwt, Hn2, bool_decide_false by tauto. done.
Qed.

(** A new stream of this side, and one the peer opened. *)
Lemma inv_new_stream dcb ccb g' c' id Y :
  sys_inv Y -> get_new_stream dcb ccb (y_ng Y) (y_conn Y) = (g', c', id) ->
  sys_inv (match id with
           | Some id => with_conn Y c' g' (set_ghost id ghost_new (y_gh Y)) (y_pend Y)
           | None => with_conn Y c' g' (y_gh Y) (y_pend Y ++ [ghost_new])
           end).
Proof.
  intros Hi Hn. pose proof Hi as (Htab & Hqc & Hg & Hm & Htr & Hp & _).
  pose proof (step_new dcb ccb (y_ng Y) (y_conn Y)) as Hts. apply table_inv_preserved in Hts; [|done]. rewrite Hn in Hts.
  unfold get_new_stream in Hn. destruct (ng_open_bidi_stream (y_ng Y)) as [g1 [rv1 id1]].
  destruct (rv1 =? 0); injection Hn as <- <- <-.
  - apply inv_streams; try done. apply tracked_assign; [done|].
    apply (tracks_promoted id1 (mkCS _ [])). apply tracks_new.
  - apply inv_streams; try done. apply Forall2_app; [done|]. constructor; [|done].
    apply (tracks_ready (mkCS _ [])). apply tracks_new.
Qed.

Lemma inv_opened id code c' e rv Y :
  sys_inv Y -> stream_opened id code (y_conn Y) = Ok (c', e, rv) ->
  sys_inv (with_conn Y c' (y_ng Y)
             (if bool_decide (map_find id (streams (y_conn Y)) = None) then set_ghost id ghost_new (y_gh Y) else y_gh Y) (y_pend Y)).
Proof.
  intros Hi Ho. pose proof Hi as (Htab & Hqc & Hg & Hm & Htr & Hp & _).
  pose proof (table_inv_preserved _ _ Htab (step_opened _ _ _ _ _ _ Ho)) as Hts.
  unfold stream_opened in Ho. destruct (match stream_open_cb _ with Some _ => _ | None => _ end) as [eo ac].
  assert (table_tracked (streams (y_conn Y)) (if bool_decide (map_find id (streams (y_conn Y)) = None)
            then set_ghost id ghost_new (y_gh Y) else y_gh Y)) as Hreset.
  { case_bool_decide as Hnone; [|done]. intros id' st' Hf'. unfold set_ghost.
    destruct (id' =? id) eqn:E; bools; [congruence|by apply Htr]. }
  destruct (negb (ac =? 0)).
  - destruct (Stream_close _ _). simplify_eq. destruct (y_conn Y) eqn:EY. rewrite <- EY in *.
    pose proof (inv_streams Y (streams (y_conn Y)) (pending_streams (y_conn Y)) (y_ng Y) _ _ Hi Hts Hreset Hp) as Hinv.
    by rewrite EY in Hinv |- *.
  - unfold map_emplace in Ho. destruct (map_find id (streams (y_conn Y))) as [?|] eqn:Hnone; [done|]. cbn in Ho. simplify_eq.
    rewrite bool_decide_true by done. apply inv_streams; try done. apply tracked_assign; [done|].
    apply (tracks_ready (mkCS _ [])). apply tracks_new.
Qed.

Lemma sys_inv_local Y Y' : sys_inv Y -> sys_local Y Y' -> sys_inv Y'.
Proof.
  intros Hi Hst. pose proof Hi as (Htab & Hqc & Hg & Hm & Htr & Hp & _).
  destruct Hst as [id op st st' e Y Hf Hop Hmem|i op st st' e gh Y Hst Hgh Hop Hmem|dcb ccb g' c' id Y Hn
    |avail g' c' G P Y Hc Hgp|id code c' e rv Y Ho|last id code c' e Y Hc|stale id n st c' e rv Y Hf Hn Hack Hmem
    |id data fin ops threw st st' es c' e rv Y Hf Hops Hmem Hcb Hr|g Y|oc d cl Y].
  - destruct (sys_entry _ _ _ Hi Hf) as [[Hid Hrd] Ht]. pose proof (run_op_frame _ _ _ _ Hop) as (_ & _ & E1 & E2).
    eapply inv_update; try done; [split; congruence|by eapply tracks_op].
  - pose proof (run_op_frame _ _ _ _ Hop) as (_ & _ & _ & E2). destruct Htab as (Hs & He & Hpr).
    apply inv_streams; [done| |done|apply Forall2_insert; [done|]].
    + split_and!; cbn; try done. apply Forall_insert; [done|]. rewrite E2. by eapply Forall_lookup_1 in Hpr.
    + eapply tracks_op; try done. eapply Forall2_lookup_lr; try done.
  - by eapply inv_new_stream.
  - pose proof (step_pending avail (y_ng Y) (y_conn Y)) as Hts. apply table_inv_preserved in Hts; [|done]. rewrite Hc in Hts.
    pose proof (tracked_pending avail 0 _ _ (y_ng Y) _ _ Htr Hp) as Htp. rewrite Hgp in Htp.
    unfold check_pending_streams in Hc. destruct (check_pending_loop _ _ _ _ _) as [[g1 m1] p1].
    injection Hc as <- <-. destruct Htp. by apply inv_streams.
  - by eapply inv_opened.
  - pose proof (table_inv_preserved _ _ Htab (step_closed _ _ _ _ _ _ _ Hc)) as Hts.
    apply stream_closed_erases in Hc as [->| ->]; [by destruct Y|]. apply inv_streams; try done. apply tracked_erase; [apply Htab|done].
  - destruct (sys_entry _ _ _ Hi Hf) as [He Ht]. unfold stream_ack in Hack. rewrite Hf in Hack.
    apply obind_ok in Hack as ([[st' e'] ub] & Ha & Hack). simplify_eq.
    eapply inv_update; try done; [by eapply acknowledge_entry|]. eapply tracks_ack; try done.
    apply Hmem. cbn. by rewrite map_find_update_eq, Hf.
  - by eapply inv_receive.
  - destruct Y. exact Hi.
  - destruct Hi as (_ & _ & _ & _ & _ & _ & Hs & Hl & Ha). split_and!; done.
Qed.

Lemma sys_inv_preserved Y Y' : writev_ok -> quantum_ok -> sys_inv Y -> sys_step mode resend Y Y' -> sys_inv Y'.
Proof.
  intros Hwv Hqn Hi Hst. destruct Hst as [Y1 Y2 Hl|fuel mid ts f s t Y1 Hfuel Hio Hs|fuel mid ts f s t Y1 Harm Hfuel Hr Hs].
  - by eapply sys_inv_local.
  - by eapply inv_flush.
  - by eapply inv_resend.
Qed.

Lemma sys_flush_returns Y fuel mid ts :
  writev_ok -> quantum_ok -> sys_inv Y -> (flush_fuel (y_ng Y) (y_conn Y) <= fuel)%nat -> exists f t s',
  on_io_ready mode resend fuel mid ts (y_ng Y) (y_conn Y) (Some (y_sock Y)) = Ok (f, t) /\ f_sock f = Some s'.
Proof.
  intros Hwv Hqn Hi Hfuel. pose proof (sys_flushable _ Hwv Hqn Hi) as Hfl.
  unfold on_io_ready. destruct (decide (n_packets (y_conn Y) = 0%nat)) as [Hn|Hn].
  - destruct (flush_streams_spec mode resend mid _ _ _ fuel Hfl Hn Hfuel) as (f & upd & -> & (s' & Hs & _) & _). cbn. eauto.
  - unfold flush_streams. rewrite (proj2 (Z.eqb_neq _ _)) by (specialize (Hqn (y_ng Y)); lia).
    rewrite (proj2 (Nat.ltb_lt _ _)) by lia. cbn. eauto.
Qed.

Lemma sys_resend_returns Y fuel mid ts :
  writev_ok -> quantum_ok -> sys_inv Y -> y_armed Y = true -> (flush_fuel (y_ng Y) (y_conn Y) <= fuel)%nat -> exists f t s',
  resend_lambda mode resend fuel mid ts (y_ng Y) (y_conn Y) (Some (y_sock Y)) = Ok (f, t) /\ f_sock f = Some s'.
Proof.
  intros Hwv Hqn Hi Ha Hfuel. pose proof (sys_flushable _ Hwv Hqn Hi) as Hfl.
  pose proof Hi as (_ & Hq & Hg & Hm & _ & _ & _ & _ & Harm).
  rewrite Ha in Harm. symmetry in Harm. apply Nat.ltb_lt in Harm. unfold resend_lambda.
  destruct (Connection_send_spec mode resend _ _ Hq Harm Hg Hm)
    as (c2 & s2 & ok & cancel & k & -> & Hq2 & Hstr & Hg2 & Hm2 & _ & Hcase). cbn [obind].
  destruct ok; [|by eauto]. destruct Hcase as [(_ & _ & Hn2 & _)|[(? & _)|(? & _)]]; [|done..].
  unfold on_io_ready. destruct (flush_streams_spec mode resend mid (y_ng Y) c2 s2 fuel) as (f & upd & -> & (s' & Hs & _) & _);
    [|done|by unfold flush_fuel in *; rewrite Hstr|cbn; eauto].
  destruct Hfl as (? & ? & _ & ? & ? & _). unfold flushable. rewrite Hstr. split_and!; (done || lia).
Qed.

Lemma sys_ack_returns Y stale id st n :
  sys_inv Y -> map_find id (streams (y_conn Y)) = Some st -> 0 <= n <= unacked (cs_stream st) ->
  exists c' e, stream_ack stale (ack_fuel n st) id n (y_conn Y) = Ok (c', e, 0).
Proof.
  intros Hi Hst Hn. unfold stream_ack. rewrite Hst. destruct (sys_entry _ _ _ Hi Hst) as [_ Ht].
  pose proof (tracks_bounds _ _ Ht) as (_ & _ & _ & [Hinv _] & _).
  destruct (acknowledge_spec stale n st Hinv Hn) as (st' & e & ub & -> & _). cbn. eauto.
Qed.
End invariant.

(** ** Properties of every reachable state *)

Section properties.
Context `{NgtcpConsts} {C : Type} `{Ngtcp2 C} {S : Type} `{SenderLaws S}.
Context (mode : send_mode) (resend : nat).

(** A connection just made, on a socket that has sent nothing. *)
Definition fresh_pair (c : Connection) (s : S) : Prop :=
  streams c = [] /\ pending_streams c = [] /\ queue_ok mode c /\ n_packets c = 0%nat /\
  snd_good s /\ snd_max s = MAX_BATCH mode /\ snd_wire s = [].

Lemma reachable_inv c g s Y :
  writev_ok -> quantum_ok -> fresh_pair c s -> rtc (sys_step mode resend) (sys_initial c g s) Y -> sys_inv mode Y.
Proof.
  intros Hwv Hqn (Hs & Hp & Hq & Hn & Hg & Hm & Hw) Hr.
  assert (sys_inv mode (sys_initial c g s)) as Hi.
  { split_and!; cbn; rewrite ?Hs, ?Hp, ?Hn, ?Hw, ?(queued_0 _ Hn); try done.
    split_and!; [rewrite Hs; constructor|by rewrite Hs|by rewrite Hp]. }
  revert Hi. induction Hr as [|Y1 Y2 Y3 Hst _ IH]; [done|]. intros Hi. apply IH. by eapply sys_inv_preserved.
Qed.
End properties.

(** What tracking means for the user of a stream. *)
Definition delivers (st : chunk_state) (gh : ghost) : Prop :=
  (exists vs, pending (cs_stream st) = Ok vs /\ gh_hist gh = gh_given gh ++ concat vs) /\
  0 <= gh_acked gh <= zlen (gh_given gh) /\
  gh_fins gh = (if sent_fin (cs_stream st) then [gh_given gh] else []) /\
  (forall k f n, gh_lims gh !! k = Some (f, n) -> Z.of_nat (inflight k (cs_stream st)) <= n /\ ring_safe k f (Z.to_nat n) st).

Lemma tracks_delivery st gh : tracks st gh -> delivers st gh.
Proof.
  intros Ht. pose proof (tracks_bounds _ _ Ht) as (Ha & Hu & Hle & [Hinv Hm] & Hc). destruct Ht as (Hrun & Hg & Hfin).
  split_and!; try done.
  - destruct (pending_content _ Hinv Hm) as (vs & Hp & Hvs & _). exists vs. split; [done|].
    rewrite Hg, Hvs, Hc, zdrop_zdrop by (unfold unacked in *; lia). unfold unacked. by rewrite ztake_zdrop.
  - rewrite Hg, zlen_ztake by lia. lia.
  - intros k f n Hk. split; [exact (stream_run_inflight _ _ _ _ k f n Hrun Hk)|exact (stream_run_ring _ _ _ _ k f n Hrun Hk)].
Qed.

(** Over the whole life of a connection, whatever the application, the peer and the network do,
    every stream delivers what was queued on it: the bytes handed to ngtcp2 so far followed by
    those [pending] offers next are exactly the bytes queued, in order; nothing is acknowledged
    that was not handed over; FIN is offered at most once, when everything queued had been handed
    over, and nothing is handed over after it; no chunk sender exceeds its limit, and a circular buffer of that many
    containers holds the bytes of its queued chunks. *)
Theorem lifetime_stream_delivery `{NgtcpConsts} {C : Type} `{Ngtcp2 C} {S : Type} `{SenderLaws S}
    (mode : send_mode) (resend : nat) (c : Connection) (g : C) (s : S) (Y : Sys C S) (id : Z) (st : chunk_state) :
  writev_ok -> quantum_ok -> fresh_pair mode c s -> rtc (sys_step mode resend) (sys_initial c g s) Y ->
  map_find id (streams (y_conn Y)) = Some st ->
  let gh := y_gh Y id in
  (exists vs, pending (cs_stream st) = Ok vs /\ gh_hist gh = gh_given gh ++ concat vs) /\
  0 <= gh_acked gh <= zlen (gh_given gh) /\
  gh_fins gh = (if sent_fin (cs_stream st) then [gh_given gh] else []) /\
  (forall k f n, gh_lims gh !! k = Some (f, n) -> Z.of_nat (inflight k (cs_stream st)) <= n /\ ring_safe k f (Z.to_nat n) st).
Proof.
  intros Hwv Hqn Hf Hr Hst gh. pose proof (reachable_inv _ _ _ _ _ _ Hwv Hqn Hf Hr) as Hi.
  destruct (sys_entry _ _ _ _ Hi Hst) as [_ Ht]. exact (tracks_delivery _ _ Ht).
Qed.

(** Over the whole life of a connection the packets on the wire followed by those in the batch
    are packets ngtcp2 finished, in that order and each at most once; as long as no send failed
    they are all of them; and a resend callback is queued on the socket exactly while packets
    are left in the batch. *)
Theorem lifetime_packet_conservation `{NgtcpConsts} {C : Type} `{Ngtcp2 C} {S : Type} `{SenderLaws S}
    (mode : send_mode) (resend : nat) (c : Connection) (g : C) (s : S) (Y : Sys C S) :
  writev_ok -> quantum_ok -> fresh_pair mode c s -> rtc (sys_step mode resend) (sys_initial c g s) Y ->
  snd_wire (y_sock Y) ++ queued (y_conn Y) `sublist_of` y_made Y /\
  (y_lost Y = false -> snd_wire (y_sock Y) ++ queued (y_conn Y) = y_made Y) /\
  (y_armed Y = true <-> (0 < n_packets (y_conn Y))%nat).
Proof.
  intros Hwv Hqn Hf Hr. pose proof (reachable_inv _ _ _ _ _ _ Hwv Hqn Hf Hr) as (_ & _ & _ & _ & _ & _ & Hs & Hl & ->).
  split_and!; [done..|]. apply Nat.ltb_lt.
Qed.

(** No reachable state of a connection is stuck: with the stated fuel a flush returns, a queued
    resend returns, and an acknowledgement of bytes in flight is accepted, each without a failed
    assertion, an overrun buffer or a dangling iterator. *)
Theorem lifetime_progress `{NgtcpConsts} {C : Type} `{Ngtcp2 C} {S : Type} `{SenderLaws S}
    (mode : send_mode) (resend : nat) (c : Connection) (g : C) (s : S) (Y : Sys C S) :
  writev_ok -> quantum_ok -> fresh_pair mode c s -> rtc (sys_step mode resend) (sys_initial c g s) Y ->
  (forall fuel mid ts, (flush_fuel (y_ng Y) (y_conn Y) <= fuel)%nat -> exists f t s',
     on_io_ready mode resend fuel mid ts (y_ng Y) (y_conn Y) (Some (y_sock Y)) = Ok (f, t) /\ f_sock f = Some s') /\
  (y_armed Y = true -> forall fuel mid ts, (flush_fuel (y_ng Y) (y_conn Y) <= fuel)%nat -> exists f t s',
     resend_lambda mode resend fuel mid ts (y_ng Y) (y_conn Y) (Some (y_sock Y)) = Ok (f, t) /\ f_sock f = Some s') /\
  (forall stale id st n, map_find id (streams (y_conn Y)) = Some st -> 0 <= n <= unacked (cs_stream st) ->
     exists c' e, stream_ack stale (ack_fuel n st) id n (y_conn Y) = Ok (c', e, 0)).
Proof.
  intros Hwv Hqn Hf Hr. pose proof (reachable_inv _ _ _ _ _ _ Hwv Hqn Hf Hr) as Hi.
  split_and!; intros; [by apply sys_flush_returns|by apply sys_resend_returns|by eapply sys_ack_returns].
Qed.

(** ** A worked example: a stream is opened, 2500 bytes are queued, and the connection
    is flushed. *)
Definition start_sys : Sys (Z * Z) udp_state :=
  sys_initial (new_connection empty_context OUTBOUND) (0, 8) example_sock.
Definition toy_step := @sys_step ngtcp2_consts _ toy_ngtcp2 _ udp_Sender SEND_GSO 9.

Lemma toy_quantum_ok : @quantum_ok _ toy_ngtcp2.
Proof. intros g. cbn. lia. Qed.

Lemma start_fresh : @fresh_pair ngtcp2_consts _ udp_Sender SEND_GSO (new_connection empty_context OUTBOUND) example_sock.
Proof.
  split_and!; try done; [|exact kernel_one_ok]. split_and!; [vm_compute; reflexivity..|vm_compute; lia|constructor|vm_compute; congruence].
Qed.

Lemma example_life :
  exists Y st, rtc toy_step start_sys Y /\ map_find 0 (streams (y_conn Y)) = Some st /\
    gh_hist (y_gh Y 0) = replicate 2500 7.
Proof.
  set (Y0 := start_sys). destruct (@get_new_stream _ toy_ngtcp2 None None (y_ng Y0) (y_conn Y0)) as [[g1 c1] id1] eqn:E1.
  pose (s1 := mkCS (set_ready (with_id (Stream_new None None (-1)) 0)) []).
  assert (id1 = Some 0 /\ streams c1 = [(0, s1)]) as [-> Hs1] by (injection E1 as <- <- <-; done).
  pose (Y1 := with_conn Y0 c1 g1 (set_ghost 0 ghost_new (y_gh Y0)) (y_pend Y0)).
  assert (toy_step Y0 Y1) as H1 by exact (sys_stream SEND_GSO 9 Y0 _ (sys_new None None g1 c1 (Some 0) Y0 E1)).
  destruct (run_op (USend (replicate 2500 7) 1) s1) as [[s2 e2]| | | |] eqn:E2; try discriminate.
  pose (Y2 := with_stream 0 s2 (ghost_op (USend (replicate 2500 7) 1) e2 (y_gh Y1 0)) Y1).
  assert (toy_step Y1 Y2) as H2.
  { apply sys_stream, (sys_user 0 (USend (replicate 2500 7) 1) s1 s2 e2); [cbn; by rewrite Hs1|exact E2|].
    injection E2 as <- <-. vm_compute. reflexivity. }
  assert (rtc toy_step Y0 Y2) as Hr2 by (eapply rtc_l; [exact H1|]; eapply rtc_l; [exact H2|]; apply rtc_refl).
  pose proof (reachable_inv SEND_GSO 9 _ _ _ _ toy_writev_ok toy_quantum_ok start_fresh Hr2) as Hi2.
  assert (@flush_fuel _ toy_ngtcp2 (y_ng Y2) (y_conn Y2) <= 30)%nat as Hfuel.
  { assert (length (streams (y_conn Y2)) = 1%nat) as Hlen by (cbn; rewrite Hs1; reflexivity).
    unfold flush_fuel. rewrite Hlen. vm_compute. lia. }
  destruct (sys_flush_returns SEND_GSO 9 Y2 30 1 77 toy_writev_ok toy_quantum_ok Hi2 Hfuel) as (f & t & s' & Hf & Hs').
  pose (Y3 := after_flush Y2 f s' (f_cancel f)).
  assert (toy_step Y2 Y3) as H3.
  { apply (sys_flush SEND_GSO 9 30 1 77 f s' t Y2); [exact Hfuel|exact Hf|exact Hs']. }
  assert (map_find 0 (streams (y_conn Y2)) = Some s2) as Hf2 by (cbn; rewrite Hs1; reflexivity).
  apply obind_ok in Hf as ([f0 upd] & Hf & E). injection E as -> _. apply flush_frame in Hf.
  injection Hf as _ _ _ _ _ _ _ Hkeys.
  assert (is_Some (map_find 0 (streams (y_conn Y3)))) as [st3 Hst3].
  { apply map_find_keys. cbn [Y3 after_flush y_conn]. rewrite Hkeys. apply map_find_keys. eauto. }
  exists Y3, st3. split_and!; [eapply rtc_r; [exact Hr2|exact H3]|exact Hst3|done].
Qed.

Lemma lifetime_stream_delivery_witness :
  exists Y st, rtc toy_step start_sys Y /\ map_find 0 (streams (y_conn Y)) = Some st /\
    let gh := y_gh Y 0 in
    gh_hist gh = replicate 2500 7 /\
    (exists vs, pending (cs_stream st) = Ok vs /\ gh_hist gh = gh_given gh ++ concat vs) /\
    0 <= gh_acked gh <= zlen (gh_given gh) /\
    gh_fins gh = (if sent_fin (cs_stream st) then [gh_given gh] else []) /\
    (forall k f n, gh_lims gh !! k = Some (f, n) -> Z.of_nat (inflight k (cs_stream st)) <= n /\ ring_safe k f (Z.to_nat n) st).
Proof.
  destruct example_life as (Y & st & Hr & Hf & Hh). exists Y, st. split; [exact Hr|]. split; [exact Hf|]. split; [exact Hh|].
  apply (@lifetime_stream_delivery ngtcp2_consts _ toy_ngtcp2 udp_state _ _ SEND_GSO 9
    (new_connection empty_context OUTBOUND) (0, 8) example_sock Y 0 st toy_writev_ok toy_quantum_ok start_fresh Hr Hf).
Defined.

Lemma lifetime_packet_conservation_witness :
  exists Y, rtc toy_step start_sys Y /\
    snd_wire (y_sock Y) ++ queued (y_conn Y) `sublist_of` y_made Y /\
    (y_lost Y = false -> snd_wire (y_sock Y) ++ queued (y_conn Y) = y_made Y) /\
    (y_armed Y = true <-> (0 < n_packets (y_conn Y))%nat).
Proof.
  destruct example_life as (Y & st & Hr & _). exists Y. split; [exact Hr|].
  apply (@lifetime_packet_conservation ngtcp2_consts _ toy_ngtcp2 udp_state _ _ SEND_GSO 9
    (new_connection empty_context OUTBOUND) (0, 8) example_sock Y toy_writev_ok toy_quantum_ok start_fresh Hr).
Defined.

Lemma lifetime_progress_witness :
  exists Y, rtc toy_step start_sys Y /\
    forall fuel mid ts, (@flush_fuel _ toy_ngtcp2 (y_ng Y) (y_conn Y) <= fuel)%nat -> exists f t s',
      @on_io_ready ngtcp2_consts _ toy_ngtcp2 _ udp_Sender SEND_GSO 9 fuel mid ts (y_ng Y) (y_conn Y) (Some (y_sock Y))
        = Ok (f, t) /\ f_sock f = Some s'.
Proof.
  destruct example_life as (Y & st & Hr & _). exists Y. split; [exact Hr|].
  apply (@lifetime_progress ngtcp2_consts _ toy_ngtcp2 udp_state _ _ SEND_GSO 9
    (new_connection empty_context OUTBOUND) (0, 8) example_sock Y toy_writev_ok toy_quantum_ok start_fresh Hr).
Defined.

(** ** A FIN offered to a congested connection is lost

    [sent_fin] is set when the FIN is offered, before the result of [ngtcp2_conn_writev_stream] is
    known; streams with the flag are not visited again. *)
Definition congested_ngtcp2 : Ngtcp2 (Z * Z) := {|
  ng_open_bidi_stream := @ng_open_bidi_stream _ toy_ngtcp2;
  ng_streams_bidi_left := @ng_streams_bidi_left _ toy_ngtcp2;
  ng_is_local_stream := @ng_is_local_stream _ toy_ngtcp2;
  ng_is_bidi_stream := @ng_is_bidi_stream _ toy_ngtcp2;
  ng_writev_stream := fun g _ _ _ => (g, mkWrite 0 (-1) 0 []);
  ng_path_max_tx_udp_payload_size := fun _ => 1200;
  ng_send_quantum := fun _ => 12000;
  ng_expiry := fun _ => 2 ^ 64 - 1;
|}.

Definition closing_conn : Connection :=
  with_streams (new_connection empty_context OUTBOUND)
    [(0, mkCS (Stream_close (set_ready (Stream_new None None 0)) 0).1 [])] [].

(** While ngtcp2 is congested the FIN of the closing stream is offered and nothing is written;
    once it is not congested any more, a flush offers neither the FIN nor anything else. *)
Theorem fin_lost_when_congested :
  match @flush_streams ngtcp2_consts _ congested_ngtcp2 _ udp_Sender SEND_GSO 9 30 0 (0, 8) closing_conn (Some example_sock) with
  | Ok (f, _) =>
      f_log f = [FFin 0] /\ n_packets (f_conn f) = 0%nat /\
      match @flush_streams ngtcp2_consts _ toy_ngtcp2 _ udp_Sender SEND_GSO 9 30 0 (f_ng f) (f_conn f) (f_sock f) with
      | Ok (f', _) => f_log f' = [] /\ n_packets (f_conn f') = 0%nat
      | _ => False
      end
  | _ => False
  end.
Proof. vm_compute. by split_and!. Qed.
