(* ===== verification/Traffic.v ===== *)
(** * Connections that share a socket

    All connections of an endpoint send through its one UDP socket, and so do the one-shot packets of the
    endpoint itself (close and version negotiation packets).  When the socket blocks, each of them
    queues a callback on it; when it is writeable again, the callbacks run in order (the handler of
    [wev_] in src/udp.cpp, the lambdas of [Connection::send] and [Endpoint::send_or_queue_packet]).

    The system here has the socket, any number of connections as in Lifetime.v, which come and go, and the
    packets that wait.  The callback of a connection is named by the number of the connection object, which is
    not used again after the object is destroyed: the lambda holds the plain pointer [this]. *)
From S2P Require Import Prelude StdMap Utils Stream Udp Sender EndpointSend Context Connection Flush Lifetime.
Import Cid Addr Io.

(** The same connection with another socket.  Within the shared system, each connection keeps the list of
    its own packets on the wire in this place. *)
Definition resock {C S S'} (s : S') (Y : Sys C S) : Sys C S' :=
  mkSys (y_conn Y) (y_ng Y) s (y_gh Y) (y_pend Y) (y_made Y) (y_lost Y) (y_armed Y).

(** A connection whose callback was just taken from the socket. *)
Definition disarm {C S} (Y : Sys C S) : Sys C S :=
  mkSys (y_conn Y) (y_ng Y) (y_sock Y) (y_gh Y) (y_pend Y) (y_made Y) (y_lost Y) false.

(** Connection objects: alive, or destroyed, with or without a callback left on the socket. *)
Inductive obj (C : Type) := Live (M : Sys C (list (list Z))) | Dead (dangling : bool).
Arguments Live {C}.
Arguments Dead {C}.

Record traffic (C S : Type) := mkTr {
  tr_sock : S;
  tr_objs : gmap nat (obj C);
  tr_pkts : list (list Z);                   (* one-shot packets that wait, in order *)
  tr_wire : list (option nat * list Z);      (* every packet on the wire and which connection sent it *)
}.
Arguments mkTr {C S}.
Arguments tr_sock {C S}.
Arguments tr_objs {C S}.
Arguments tr_pkts {C S}.
Arguments tr_wire {C S}.

(** What one callback draws from its environment. *)
Record cb_env := mkCE { ce_fuel : nat; ce_mid : nat; ce_ts : Z }.

Module Traf.
Section traffic.
Context `{NgtcpConsts} {C : Type} `{Ngtcp2 C} {S : Type} `{Sender S} `{!Wakeable S}.
Context (mode : send_mode) (retry : nat).
Implicit Types (T : traffic C S) (M : Sys C (list (list Z))).

(** The packets that reached the wire between two states of the socket. *)
Definition new_packets (s s' : S) : list (list Z) := drop (length (snd_wire s)) (snd_wire s').

Definition with_objs T o : traffic C S := mkTr (tr_sock T) o (tr_pkts T) (tr_wire T).

(** Connection [i] used the socket. *)
Definition flushed (i : nat) M (f : fstate C S) (s' : S) (failed : bool) T : traffic C S :=
  let s := tr_sock T in
  mkTr s' (<[i := Live (resock (y_sock M ++ new_packets s s') (after_flush (resock s M) f s' failed))]> (tr_objs T))
    (tr_pkts T) (tr_wire T ++ map (pair (Some i)) (new_packets s s')).

(** The io trigger of connection [i]. *)
Definition run_flush (i : nat) (env : cb_env) M T : outcome (traffic C S) :=
  let* (f, _) := on_io_ready mode i (ce_fuel env) (ce_mid env) (ce_ts env) (y_ng M) (y_conn M) (Some (tr_sock T)) in
  match f_sock f with Some s' => Ok (flushed i M f s' (f_cancel f) T) | None => Undefined end.

(** The lambda of [Connection::send]. *)
Definition run_resend (i : nat) (env : cb_env) M T : outcome (traffic C S) :=
  let* (f, t) := resend_lambda mode i (ce_fuel env) (ce_mid env) (ce_ts env) (y_ng M) (y_conn M) (Some (tr_sock T)) in
  match f_sock f with
  | Some s' => Ok (flushed i (disarm M) f s' (f_cancel f || (bool_decide (t = None) && (n_packets (f_conn f) =? 0)%nat)) T)
  | None => Undefined
  end.

(** A one-shot packet, at first or from the lambda of [send_or_queue_packet]. *)
Definition run_packet (buf : list Z) T : outcome (traffic C S) :=
  let* (so, q) := send_or_queue_packet (Some (tr_sock T)) buf 0 true retry in
  match so with
  | Some s' => Ok (mkTr s' (tr_objs T) (match q with QQueued => tr_pkts T ++ [buf] | _ => tr_pkts T end)
                     (tr_wire T ++ map (pair None) (new_packets (tr_sock T) s')))
  | None => Undefined
  end.

(** One callback: a packet, or a connection through its [this], which must still be there. *)
Definition run_callback (cb : nat) (env : cb_env) T : outcome (traffic C S) :=
  if (cb =? retry)%nat then
    match tr_pkts T with
    | buf :: rest => run_packet buf (mkTr (tr_sock T) (tr_objs T) rest (tr_wire T))
    | [] => Undefined
    end
  else match tr_objs T !! cb with
  | Some (Live M) => run_resend cb env M T
  | _ => Undefined
  end.

Fixpoint run_callbacks (cbs : list nat) (env : nat -> cb_env) T : outcome (traffic C S) :=
  match cbs with
  | [] => Ok T
  | cb :: cbs' => let* T1 := run_callback cb (env cb) T in run_callbacks cbs' env T1
  end.

(** The handler of [wev_]. *)
Definition writeable_fired (env : nat -> cb_env) T : outcome (traffic C S) :=
  let '(cbs, s) := snd_wake (tr_sock T) in
  run_callbacks cbs env (mkTr s (tr_objs T) (tr_pkts T) (tr_wire T)).

(** A connection just made. *)
Definition fresh_conn (c : Connection) : Prop :=
  streams c = [] /\ pending_streams c = [] /\ queue_ok mode c /\ n_packets c = 0%nat.
Definition newborn (c : Connection) (g : C) : Sys C (list (list Z)) := sys_initial c g [].

Definition enough (env : cb_env) M : Prop := (flush_fuel (y_ng M) (y_conn M) <= ce_fuel env)%nat.

Inductive traffic_step : traffic C S -> traffic C S -> Prop :=
  | tr_new i c g T :
      i <> retry -> tr_objs T !! i = None -> fresh_conn c ->
      traffic_step T (with_objs T (<[i := Live (newborn c g)]> (tr_objs T)))
  | tr_local i M M' T :
      tr_objs T !! i = Some (Live M) -> sys_local M M' ->
      traffic_step T (with_objs T (<[i := Live M']> (tr_objs T)))
  | tr_flush i env M T T' :
      tr_objs T !! i = Some (Live M) -> enough env M -> run_flush i env M T = Ok T' -> traffic_step T T'
  | tr_packet buf T T' :
      0 < zlen buf < 2 ^ 16 -> run_packet buf T = Ok T' -> traffic_step T T'
  | tr_writeable env T T' :
      (forall i M, tr_objs T !! i = Some (Live M) -> enough (env i) M) -> writeable_fired env T = Ok T' ->
      traffic_step T T'
  | tr_destroy i M T :
      tr_objs T !! i = Some (Live M) ->
      traffic_step T (with_objs T (<[i := Dead (y_armed M)]> (tr_objs T))).

Definition traffic_initial (s : S) : traffic C S := mkTr s ∅ [] [].
End traffic.
End Traf.
Export Traf.

(** ** One connection's view of the socket

    The same socket, with the wire counted from a point on and preceded by what the connection had sent
    before.  Sending does not look at the wire, so the functions of Flush.v are the same for both. *)
Section view.
Context `{NgtcpConsts} {C : Type} `{Ngtcp2 C} {S : Type} `{Hsnd : Sender S}.

Definition since (w0 own : list (list Z)) : Sender S := {|
  snd_send := snd_send;
  snd_wire := fun s => own ++ drop (length w0) (snd_wire s);
  snd_waiting := snd_waiting;
  snd_when_writeable := snd_when_writeable;
  snd_max := snd_max;
  snd_good := fun s => snd_good s /\ w0 `prefix_of` snd_wire s;
|}.

Lemma since_app (w0 own w d : list (list Z)) : w0 `prefix_of` w -> own ++ drop (length w0) (w ++ d) = (own ++ drop (length w0) w) ++ d.
Proof. intros Hp. apply prefix_length in Hp. by rewrite drop_app_le, app_assoc. Qed.

Lemma since_laws `{!SenderLaws S} w0 own : @SenderLaws S (since w0 own).
Proof.
  split; cbn.
  - intros s buf sizes ecn n [Hg Hp] Hb. destruct (snd_send_ok s buf sizes ecn n Hg Hb) as (s' & r & k & Hs & Hg' & Hm & Hwt & Hk & Hw & Hr & Hfl).
    exists s', r, k. rewrite Hw. split_and!; try assumption; [by apply prefix_app_r|by apply since_app].
  - intros s cb [Hg Hp]. destruct (snd_when_writeable_ok s cb Hg) as (Hg' & Hm & Hw & Hwt). by rewrite Hw.
Qed.
End view.

(** ** The invariant *)

(** How often a callback is queued. *)
Definition occurs (cb : nat) (l : list nat) : nat := length (filter (fun x => x = cb) l).
Definition sent_by (i : nat) (w : list (option nat * list Z)) : list (list Z) := map snd (filter (fun x => x.1 = Some i) w).

Arguments occurs : simpl never.
Arguments sent_by : simpl never.

Lemma occurs_app cb l1 l2 : occurs cb (l1 ++ l2) = (occurs cb l1 + occurs cb l2)%nat.
Proof. unfold occurs. by rewrite filter_app, length_app. Qed.
Lemma occurs_cons cb x l : occurs cb (x :: l) = ((if decide (x = cb) then 1 else 0) + occurs cb l)%nat.
Proof. unfold occurs. rewrite filter_cons. by destruct (decide (x = cb)). Qed.
Lemma occurs_if cb i (b : bool) : occurs cb (if b then [i] else []) = (if decide (i = cb) then Nat.b2n b else 0)%nat.
Proof. destruct b; [rewrite occurs_cons|]; destruct (decide (i = cb)); done. Qed.

Lemma occurs_elem cb l : (0 < occurs cb l)%nat -> cb ∈ l.
Proof.
  induction l as [|x l IH]; [unfold occurs; cbn; lia|]. rewrite occurs_cons. destruct (decide (x = cb)) as [->|]; intros Hx; [by left|right; by apply IH].
Qed.

Lemma sent_by_app i w1 w2 : sent_by i (w1 ++ w2) = sent_by i w1 ++ sent_by i w2.
Proof. unfold sent_by. by rewrite filter_app, map_app. Qed.
Lemma sent_by_tag i (o : option nat) d : sent_by i (map (pair o) d) = if decide (o = Some i) then d else [].
Proof.
  unfold sent_by. induction d as [|p d IH]; cbn [map]; [by destruct (decide _)|]. rewrite filter_cons. cbn [fst].
  destruct (decide (o = Some i)) as [E|E]; cbn [map]; [by rewrite IH|done].
Qed.
Lemma map_snd_tag (o : option nat) (d : list (list Z)) : map snd (map (pair o) d) = d.
Proof. rewrite map_map. cbn. apply map_id. Qed.

Section invariant.
Context `{NgtcpConsts} {C : Type} `{Ngtcp2 C} {S : Type} `{SenderLaws S}.
Context (mode : send_mode) (retry : nat).
Implicit Types (T : traffic C S) (M : Sys C (list (list Z))).

(** The list of a connection's own packets in the place of a socket: it is only read. *)
Definition ledger : Sender (list (list Z)) := {|
  snd_send := fun _ _ _ _ _ => AssertFail;
  snd_wire := fun w => w;
  snd_waiting := fun _ => [];
  snd_when_writeable := fun w _ => w;
  snd_max := fun _ => MAX_BATCH mode;
  snd_good := fun _ => True;
|}.
Definition member_inv M : Prop := @sys_inv _ _ (list (list Z)) ledger mode M.

Definition sock_ok (s : S) : Prop := snd_good s /\ snd_max s = MAX_BATCH mode.

Lemma member_view M s :
  member_inv M -> sock_ok s -> @sys_inv _ _ S (since (snd_wire s) (y_sock M)) mode (resock s M).
Proof.
  intros (Ht & Hq & _ & _ & Htr & Hp & Hs & Hl & Ha) [Hg Hm]. split_and!; cbn in *; rewrite ?drop_all, ?app_nil_r; done.
Qed.

Lemma view_member w0 own (Y : Sys C S) :
  @sys_inv _ _ S (since w0 own) mode Y ->
  member_inv (resock (own ++ drop (length w0) (snd_wire (y_sock Y))) Y) /\ sock_ok (y_sock Y) /\ w0 `prefix_of` snd_wire (y_sock Y).
Proof. intros (Ht & Hq & [Hg Hw] & Hm & Htr & Hp & Hs & Hl & Ha). split_and!; done. Qed.

(** Where a member's packets and callback are after it used the socket. *)
Definition used (i : nat) (armed : bool) M M' (s s' : S) : Prop :=
  member_inv M' /\ sock_ok s' /\ y_sock M' = y_sock M ++ new_packets s s' /\
  snd_wire s' = snd_wire s ++ new_packets s s' /\
  snd_waiting s' = snd_waiting s ++ (if y_armed M' && negb armed then [i] else []).

Lemma new_packets_prefix (s s' : S) : snd_wire s `prefix_of` snd_wire s' -> snd_wire s' = snd_wire s ++ new_packets s s'.
Proof. intros [k Hk]. unfold new_packets. by rewrite Hk, drop_app_length. Qed.

Lemma armed_packets M : member_inv M -> y_armed M = (0 <? n_packets (y_conn M))%nat.
Proof. by intros (_ & _ & _ & _ & _ & _ & _ & _ & ->). Qed.

Lemma member_flushable M s : writev_ok -> quantum_ok -> member_inv M -> sock_ok s -> flushable mode (y_ng M) (y_conn M) s.
Proof.
  intros Hwv Hqn Hi Hs. pose proof (since_laws (snd_wire s) (y_sock M)) as Hlaws.
  pose proof (@sys_flushable _ _ _ S (since (snd_wire s) (y_sock M)) mode (resock s M) Hwv Hqn (member_view _ _ Hi Hs)) as Hf.
  destruct Hf as (F1 & F2 & F3 & F4 & F5 & [F6 _] & F7). exact (conj F1 (conj F2 (conj F3 (conj F4 (conj F5 (conj F6 F7)))))).
Qed.

Lemma flush_used i env M s f t s' :
  writev_ok -> quantum_ok -> member_inv M -> sock_ok s -> enough env M ->
  on_io_ready mode i (ce_fuel env) (ce_mid env) (ce_ts env) (y_ng M) (y_conn M) (Some s) = Ok (f, t) -> f_sock f = Some s' ->
  let M' := resock (y_sock M ++ new_packets s s') (after_flush (resock s M) f s' (f_cancel f)) in
  used i (y_armed M) M M' s s'.
Proof.
  intros Hwv Hqn Hi Hs He Hio Hf M'. pose proof (since_laws (snd_wire s) (y_sock M)) as Hlaws.
  pose proof (@inv_flush _ _ _ S (since (snd_wire s) (y_sock M)) Hlaws mode i (resock s M) _ _ _ f s' t Hwv Hqn
    (member_view _ _ Hi Hs) He Hio Hf) as Hinv.
  apply view_member in Hinv as (Hm' & Hs' & Hw). cbn [after_flush y_sock] in Hs', Hw.
  split_and!; [exact Hm'|apply Hs'..|done|by apply new_packets_prefix|].
  assert (y_armed M' = (0 <? n_packets (f_conn f))%nat) as -> by exact (armed_packets _ Hm'). rewrite (armed_packets _ Hi).
  apply obind_ok in Hio as ([f0 upd] & Hfl & Hio). injection Hio as -> _.
  destruct (decide (n_packets (y_conn M) = 0%nat)) as [Hn|Hn].
  - destruct (flush_streams_spec mode i (ce_mid env) (y_ng M) (y_conn M) s (ce_fuel env)) as (f1 & upd1 & Hr & Hfin & _);
      [by apply member_flushable|done..|]. rewrite Hfl in Hr. injection Hr as <- <-.
    destruct Hfin as (s1 & Hs1 & _ & _ & _ & _ & _ & Hwt). rewrite Hf in Hs1. injection Hs1 as <-. rewrite Hwt, Hn. cbn [Nat.ltb Nat.leb negb].
    by rewrite andb_true_r.
  - unfold flush_streams in Hfl. rewrite (proj2 (Z.eqb_neq _ _)) in Hfl by (specialize (Hqn (y_ng M)); lia).
    rewrite (proj2 (Nat.ltb_lt _ _)) in Hfl by lia. injection Hfl as <- <-. injection Hf as <-. cbn [f_conn].
    rewrite (proj2 (Nat.ltb_lt 0 (n_packets (y_conn M)))) by lia. by rewrite app_nil_r.
Qed.

Lemma resend_waiting i env M s f t s' :
  writev_ok -> quantum_ok -> member_inv M -> sock_ok s -> enough env M -> y_armed M = true ->
  resend_lambda mode i (ce_fuel env) (ce_mid env) (ce_ts env) (y_ng M) (y_conn M) (Some s) = Ok (f, t) -> f_sock f = Some s' ->
  snd_waiting s' = snd_waiting s ++ (if (0 <? n_packets (f_conn f))%nat then [i] else []).
Proof.
  intros Hwv Hqn Hi Hs He Ha Hr Hf. pose proof (member_flushable _ _ Hwv Hqn Hi Hs) as (_ & Hq & Hqc & Hsort & Hok & Hg & Hm).
  rewrite (armed_packets _ Hi) in Ha. apply Nat.ltb_lt in Ha.
  destruct (Connection_send_spec mode i _ _ Hqc Ha Hg Hm)
    as (c2 & s2 & ok & cancel & k & Hsend & Hq2 & Hstr & Hg2 & Hm2 & _ & Hcase).
  unfold resend_lambda in Hr. rewrite Hsend in Hr. cbn [obind] in Hr.
  destruct Hcase as [(-> & -> & Hn2 & _ & Hwt)|[(-> & -> & Hn2 & _ & Hwt)|(-> & -> & Hn2 & Hwt)]].
  - apply obind_ok in Hr as ([f0 t0] & Hio & Hr). injection Hr as -> <-. apply obind_ok in Hio as ([f1 upd] & Hfl & Hio). injection Hio as -> _.
    destruct (flush_streams_spec mode i (ce_mid env) (y_ng M) c2 s2 (ce_fuel env)) as (f1 & upd1 & Hr & Hfin & _);
      [|done|by unfold enough, flush_fuel in *; rewrite Hstr|].
    { unfold flushable. rewrite Hstr. split_and!; (done || lia). }
    rewrite Hfl in Hr. injection Hr as <- <-. destruct Hfin as (s1 & Hs1 & _ & _ & _ & _ & _ & Hw). rewrite Hf in Hs1. injection Hs1 as <-. congruence.
  - injection Hr as <- <-. injection Hf as <-. cbn [f_conn]. by rewrite (proj2 (Nat.ltb_lt _ _)).
  - injection Hr as <- <-. injection Hf as <-. cbn [f_conn]. by rewrite Hn2, app_nil_r.
Qed.

Lemma resend_used i env M s f t s' :
  writev_ok -> quantum_ok -> member_inv M -> sock_ok s -> enough env M -> y_armed M = true ->
  resend_lambda mode i (ce_fuel env) (ce_mid env) (ce_ts env) (y_ng M) (y_conn M) (Some s) = Ok (f, t) -> f_sock f = Some s' ->
  let M' := resock (y_sock M ++ new_packets s s') (after_flush (resock s (disarm M)) f s'
    (f_cancel f || (bool_decide (t = None) && (n_packets (f_conn f) =? 0)%nat))) in
  used i false M M' s s'.
Proof.
  intros Hwv Hqn Hi Hs He Ha Hr Hf M'. pose proof (since_laws (snd_wire s) (y_sock M)) as Hlaws.
  pose proof (@inv_resend _ _ _ S (since (snd_wire s) (y_sock M)) Hlaws mode i (resock s M) _ _ _ f s' t Hwv Hqn
    (member_view _ _ Hi Hs) Ha He Hr Hf) as Hinv.
  apply view_member in Hinv as (Hm' & Hs' & Hw). cbn [after_flush y_sock] in Hs', Hw.
  split_and!; [exact Hm'|apply Hs'..|done|by apply new_packets_prefix|].
  assert (y_armed M' = (0 <? n_packets (f_conn f))%nat) as -> by exact (armed_packets _ Hm'). cbn [negb]. rewrite andb_true_r. exact (resend_waiting i env M s f t s' Hwv Hqn Hi Hs He Ha Hr Hf).
Qed.

(** How many callbacks of each name there must be. *)
Definition expected T (cb : nat) : nat :=
  if decide (cb = retry) then length (tr_pkts T)
  else match tr_objs T !! cb with
       | Some (Live M) => Nat.b2n (y_armed M)
       | Some (Dead b) => Nat.b2n b
       | None => 0
       end.

Definition small (buf : list Z) : Prop := 0 < zlen buf < 2 ^ 16.

(** [cbs] are the callbacks the running handler has still to call. *)
Record traffic_inv (cbs : list nat) T : Prop := {
  ti_sock : sock_ok (tr_sock T);
  ti_wire : map snd (tr_wire T) = snd_wire (tr_sock T);
  ti_live : forall i M, tr_objs T !! i = Some (Live M) -> member_inv M /\ y_sock M = sent_by i (tr_wire T);
  ti_new : forall i, tr_objs T !! i = None -> sent_by i (tr_wire T) = [];
  ti_waiting : forall cb, occurs cb (cbs ++ snd_waiting (tr_sock T)) = expected T cb;
  ti_pkts : Forall small (tr_pkts T);
  ti_retry : tr_objs T !! retry = None;
}.

Lemma live_not_retry cbs T i o : traffic_inv cbs T -> tr_objs T !! i = Some o -> i <> retry.
Proof. intros Hi Ho ->. by rewrite (ti_retry _ _ Hi) in Ho. Qed.

Lemma expected_insert T i o cb :
  i <> retry -> expected (with_objs T (<[i := o]> (tr_objs T))) cb =
    if decide (cb = i) then match o with Live M => Nat.b2n (y_armed M) | Dead b => Nat.b2n b end else expected T cb.
Proof.
  intros Hne. unfold expected. cbn. destruct (decide (cb = i)) as [->|Hc].
  - by rewrite decide_False, lookup_insert_eq.
  - by rewrite lookup_insert_ne.
Qed.

(** An object changes and the socket does not. *)
Lemma inv_object cbs T i o :
  traffic_inv cbs T -> i <> retry -> expected (with_objs T (<[i := o]> (tr_objs T))) i = expected T i ->
  (forall M, o = Live M -> member_inv M /\ y_sock M = sent_by i (tr_wire T)) ->
  traffic_inv cbs (with_objs T (<[i := o]> (tr_objs T))).
Proof.
  intros [Hs Hw Hl Hn Hwt Hp Hr] Hne He Ho. split; cbn; try done.
  - intros j M. destruct (decide (i = j)) as [<-|Hj]; [rewrite lookup_insert_eq|rewrite lookup_insert_ne by done; apply Hl].
    intros [= ->]. by apply Ho.
  - intros j. destruct (decide (i = j)) as [<-|Hj]; [by rewrite lookup_insert_eq|rewrite lookup_insert_ne by done; apply Hn].
  - intros cb. rewrite Hwt. destruct (decide (cb = i)) as [->|Hc]; [done|]. by rewrite expected_insert, decide_False.
  - by rewrite lookup_insert_ne.
Qed.

(** A connection used the socket; [pre] are callbacks that were taken from the list meanwhile. *)
Lemma inv_used cbs T i pre (armed : bool) M M' s' :
  traffic_inv (pre ++ cbs) T -> tr_objs T !! i = Some (Live M) -> used i armed M M' (tr_sock T) s' ->
  pre = (if y_armed M && negb armed then [i] else []) -> (armed = true -> y_armed M = true /\ y_armed M' = true) ->
  traffic_inv cbs (mkTr s' (<[i := Live M']> (tr_objs T)) (tr_pkts T)
                     (tr_wire T ++ map (pair (Some i)) (new_packets (tr_sock T) s'))).
Proof.
  intros Hi Ho (Hm & Hs' & Hown & Hw' & Hwt') -> Harm. pose proof (live_not_retry _ _ _ _ Hi Ho) as Hne.
  destruct Hi as [Hs Hw Hl Hn Hwt Hp Hr]. destruct (Hl _ _ Ho) as [_ Hs0].
  split; cbn; try done.
  - by rewrite map_app, map_snd_tag, Hw.
  - intros j M0. rewrite sent_by_app, sent_by_tag. destruct (decide (i = j)) as [<-|Hj].
    + rewrite lookup_insert_eq, decide_True by done. intros [= <-]. by rewrite Hown, Hs0.
    + rewrite lookup_insert_ne, decide_False, app_nil_r by congruence. apply Hl.
  - intros j. rewrite sent_by_app, sent_by_tag. destruct (decide (i = j)) as [<-|Hj]; [by rewrite lookup_insert_eq|].
    rewrite lookup_insert_ne, decide_False, app_nil_r by congruence. apply Hn.
  - intros cb. specialize (Hwt cb). rewrite Hwt', !occurs_app, !occurs_if in *.
    change (expected _ cb) with (expected (with_objs T (<[i := Live M']> (tr_objs T))) cb).
    rewrite expected_insert by done. unfold expected in *.
    repeat case_decide; simplify_eq; rewrite ?Ho in Hwt; try lia.
    destruct (y_armed M), (y_armed M'), armed; cbn in *; try lia; by destruct Harm.
  - by rewrite lookup_insert_ne.
Qed.

(** Only object [i] may differ. *)
Definition keeps_others (i : nat) T T' : Prop := forall j, j <> i -> tr_objs T' !! j = tr_objs T !! j.

Lemma run_flush_ok cbs i env M T :
  writev_ok -> quantum_ok -> traffic_inv cbs T -> tr_objs T !! i = Some (Live M) -> enough env M ->
  exists T', run_flush mode i env M T = Ok T' /\ traffic_inv cbs T' /\ keeps_others i T T'.
Proof.
  intros Hwv Hqn Hi Ho He. destruct (ti_live _ _ Hi _ _ Ho) as [Hm _]. pose proof (ti_sock _ _ Hi) as Hs.
  pose proof (since_laws (snd_wire (tr_sock T)) (y_sock M)) as Hlaws.
  destruct (@sys_flush_returns _ _ _ S (since (snd_wire (tr_sock T)) (y_sock M)) Hlaws mode i (resock (tr_sock T) M)
    (ce_fuel env) (ce_mid env) (ce_ts env) Hwv Hqn (member_view _ _ Hm Hs) He) as (f & t & s' & Hio & Hf).
  change (on_io_ready mode i (ce_fuel env) (ce_mid env) (ce_ts env) (y_ng M) (y_conn M) (Some (tr_sock T)) = Ok (f, t)) in Hio.
  pose proof (flush_used i env M _ f t s' Hwv Hqn Hm Hs He Hio Hf) as Hu.
  unfold run_flush. rewrite Hio. cbn [obind]. rewrite Hf. eexists. split; [reflexivity|]. split.
  - refine (inv_used cbs T i [] (y_armed M) M _ s' Hi Ho Hu _ _); [by destruct (y_armed M)|]. cbn. by intros ->.
  - intros j Hj. cbn. by rewrite lookup_insert_ne.
Qed.

Lemma run_resend_ok cbs i env M T :
  writev_ok -> quantum_ok -> traffic_inv (i :: cbs) T -> tr_objs T !! i = Some (Live M) -> enough env M ->
  exists T', run_resend mode i env M T = Ok T' /\ traffic_inv cbs T' /\ keeps_others i T T'.
Proof.
  intros Hwv Hqn Hi Ho He. destruct (ti_live _ _ Hi _ _ Ho) as [Hm _]. pose proof (ti_sock _ _ Hi) as Hs.
  assert (y_armed M = true) as Ha.
  { pose proof (ti_waiting _ _ Hi i) as Hwt. cbn [app] in Hwt. rewrite occurs_cons, decide_True in Hwt by done. unfold expected in Hwt.
    rewrite decide_False, Ho in Hwt by (by eapply live_not_retry). by destruct (y_armed M). }
  pose proof (since_laws (snd_wire (tr_sock T)) (y_sock M)) as Hlaws.
  destruct (@sys_resend_returns _ _ _ S (since (snd_wire (tr_sock T)) (y_sock M)) Hlaws mode i (resock (tr_sock T) M)
    (ce_fuel env) (ce_mid env) (ce_ts env) Hwv Hqn (member_view _ _ Hm Hs) Ha He) as (f & t & s' & Hr & Hf).
  change (resend_lambda mode i (ce_fuel env) (ce_mid env) (ce_ts env) (y_ng M) (y_conn M) (Some (tr_sock T)) = Ok (f, t)) in Hr.
  pose proof (resend_used i env M _ f t s' Hwv Hqn Hm Hs He Ha Hr Hf) as Hu.
  unfold run_resend. rewrite Hr. cbn [obind]. rewrite Hf. eexists. split; [reflexivity|]. split.
  - refine (inv_used cbs T i [i] false M _ s' Hi Ho Hu _ _); [by rewrite Ha|done].
  - intros j Hj. cbn. by rewrite lookup_insert_ne.
Qed.

Lemma MAX_BATCH_pos : (1 <= MAX_BATCH mode)%nat.
Proof. pose proof (MAX_BATCH_bounds mode). lia. Qed.

Lemma run_packet_ok cbs buf T :
  small buf -> traffic_inv cbs T ->
  exists T', run_packet retry buf T = Ok T' /\ traffic_inv cbs T' /\ tr_objs T' = tr_objs T.
Proof.
  intros Hb [[Hg Hmax] Hw Hl Hn Hwt Hp Hr]. pose proof MAX_BATCH_pos as Hpos.
  destruct (send_or_queue_spec (tr_sock T) buf 0 true retry Hg) as (s' & q & Hs & Hg' & Hm' & Hcase); [lia|done|].
  unfold run_packet. rewrite Hs. cbn [obind]. eexists. split; [reflexivity|]. split; [|done].
  assert (exists d, snd_wire s' = snd_wire (tr_sock T) ++ d) as [d Hd]
    by (destruct Hcase as [(_ & -> & _)|(r & _ & -> & _)]; [exists []; by rewrite app_nil_r|by eexists]).
  assert (forall j, sent_by j (tr_wire T ++ map (pair None) (new_packets (tr_sock T) s')) = sent_by j (tr_wire T)) as Hsb
    by (intros j; by rewrite sent_by_app, sent_by_tag, decide_False, app_nil_r).
  split; cbn [tr_sock tr_objs tr_pkts tr_wire]; try done.
  - split; [done|congruence].
  - unfold new_packets. by rewrite map_app, map_snd_tag, Hw, Hd, drop_app_length.
  - intros i M Ho. rewrite Hsb. by apply Hl.
  - intros i Ho. rewrite Hsb. by apply Hn.
  - intros cb. specialize (Hwt cb). unfold expected in *. cbn [tr_objs tr_pkts].
    destruct Hcase as [(-> & _ & ->)|(r & -> & _ & ->)]; [|done].
    rewrite app_assoc, occurs_app, Hwt, occurs_cons. change (occurs cb []) with 0%nat. rewrite length_app. cbn [length].
    repeat case_decide; simplify_eq; lia.
  - destruct Hcase as [(-> & _)|(r & -> & _)]; [|done]. apply Forall_app. split; [done|by constructor].
Qed.

(** The first packet is taken from its callback. *)
Definition pop (rest : list (list Z)) T : traffic C S := mkTr (tr_sock T) (tr_objs T) rest (tr_wire T).

Lemma inv_pop cbs T :
  traffic_inv (retry :: cbs) T -> exists buf rest, tr_pkts T = buf :: rest /\ small buf /\ traffic_inv cbs (pop rest T).
Proof.
  intros [Hs Hw Hl Hn Hwt Hp Hr]. pose proof (Hwt retry) as Hwr. cbn [app] in Hwr. rewrite occurs_cons, decide_True in Hwr by done.
  unfold expected in Hwr. rewrite decide_True in Hwr by done.
  destruct (tr_pkts T) as [|buf rest] eqn:Ep; [done|]. inversion Hp; subst. exists buf, rest. split_and!; try done.
  split; cbn; try done. intros cb. specialize (Hwt cb). cbn [app] in Hwt. rewrite occurs_cons in Hwt. unfold expected in *. cbn.
  rewrite Ep in Hwt. cbn [length] in Hwt. repeat case_decide; simplify_eq; lia.
Qed.

(** A callback through a pointer to a connection that is gone. *)
Definition dangling T (cb : nat) : Prop := tr_objs T !! cb = Some (Dead true).
Definition all_enough (env : nat -> cb_env) (cbs : list nat) T : Prop :=
  forall i M, i ∈ cbs -> tr_objs T !! i = Some (Live M) -> enough (env i) M.

Lemma run_callback_outcome cbs cb env T :
  writev_ok -> quantum_ok -> traffic_inv (cb :: cbs) T -> (forall M, tr_objs T !! cb = Some (Live M) -> enough env M) ->
  (dangling T cb /\ run_callback mode retry cb env T = Undefined) \/
  (~ dangling T cb /\ exists T', run_callback mode retry cb env T = Ok T' /\ traffic_inv cbs T' /\
     keeps_others cb T T' /\ (forall b, tr_objs T' !! cb <> Some (Dead b))).
Proof.
  intros Hwv Hqn Hi He. unfold run_callback, dangling. pose proof (ti_waiting _ _ Hi cb) as Hwt.
  cbn [app] in Hwt. rewrite occurs_cons, decide_True in Hwt by done.
  destruct (Nat.eqb_spec cb retry) as [Er|Er].
  - subst cb. rewrite (ti_retry _ _ Hi). right. split; [done|]. destruct (inv_pop cbs T Hi) as (buf & rest & -> & Hb & Hi0).
    destruct (run_packet_ok cbs buf _ Hb Hi0) as (T' & HT & Hi' & Ho). exists T'.
    split_and!; [done..|intros j _; by rewrite Ho|]. intros b. cbn in Ho. by rewrite Ho, (ti_retry _ _ Hi).
  - unfold expected in Hwt. rewrite decide_False in Hwt by done. destruct (tr_objs T !! cb) as [[M|[]]|] eqn:Ho; [|by left|done..].
    right. split; [done|]. destruct (run_resend_ok cbs cb env M T Hwv Hqn Hi Ho) as (T' & HT & Hi' & Hk); [by apply He|].
    exists T'. split_and!; [done..|]. intros b Hb. revert HT. unfold run_resend.
    intros ([f t] & _ & HT)%obind_ok. destruct (f_sock f); simplify_eq. cbn in Hb. by rewrite lookup_insert_eq in Hb.
Qed.

(** No connection has two callbacks. *)
Lemma callback_once cbs cb T o : traffic_inv (cb :: cbs) T -> tr_objs T !! cb = Some o -> cb ∉ cbs.
Proof.
  intros Hi Ho Hin. pose proof (ti_waiting _ _ Hi cb) as Hwt. unfold expected in Hwt.
  rewrite decide_False, Ho in Hwt by exact (live_not_retry _ _ _ _ Hi Ho). cbn [app] in Hwt.
  rewrite occurs_cons, decide_True, occurs_app in Hwt by done.
  assert (1 <= occurs cb cbs)%nat as Hoc by (apply list_elem_of_split in Hin as (l1 & l2 & ->); rewrite occurs_app, occurs_cons, decide_True by done; lia).
  destruct o as [M|b]; [destruct (y_armed M)|destruct b]; cbn in Hwt; lia.
Qed.

Lemma callback_enough cbs cb env T T1 :
  traffic_inv (cb :: cbs) T -> traffic_inv cbs T1 -> keeps_others cb T T1 -> all_enough env (cb :: cbs) T -> all_enough env cbs T1.
Proof.
  intros Hi Hi1 Hk He j M Hj Ho. destruct (decide (j = cb)) as [->|Hne]; [|apply He; [by right|by rewrite <- (Hk j Hne)]].
  exfalso. pose proof (live_not_retry _ _ _ _ Hi1 Ho) as Hnr. pose proof (ti_waiting _ _ Hi cb) as Hwt.
  cbn [app] in Hwt. rewrite occurs_cons, decide_True in Hwt by done. unfold expected in Hwt. rewrite decide_False in Hwt by done.
  destruct (tr_objs T !! cb) as [o|] eqn:Ho0; [|done]. by apply (callback_once _ _ _ _ Hi Ho0).
Qed.

Lemma run_callbacks_outcome cbs env T :
  writev_ok -> quantum_ok -> traffic_inv cbs T -> all_enough env cbs T ->
  (Exists (dangling T) cbs /\ run_callbacks mode retry cbs env T = Undefined) \/
  (Forall (fun cb => ~ dangling T cb) cbs /\ exists T', run_callbacks mode retry cbs env T = Ok T' /\ traffic_inv [] T').
Proof.
  intros Hwv Hqn. revert T. induction cbs as [|cb cbs IH]; intros T Hi He; cbn [run_callbacks].
  { right. split; [constructor|by eexists]. }
  destruct (run_callback_outcome cbs cb (env cb) T Hwv Hqn Hi) as [(Hd & ->)|(Hd & T1 & -> & Hi1 & Hk & Hdead)].
  { intros M. apply He. by left. }
  { left. split; [by left|done]. }
  assert (forall j, dangling T1 j -> j <> cb) as Hdj by (intros j Hj ->; by apply (Hdead true)).
  cbn [obind]. destruct (IH T1 Hi1) as [(Hex & Hr)|(Hall & T2 & Hr & Hi2)].
  - by eapply callback_enough.
  - left. split; [|done]. right. apply Exists_exists in Hex as (j & Hj & Hdg). apply Exists_exists. exists j. split; [done|].
    unfold dangling in *. by rewrite <- (Hk j (Hdj j Hdg)).
  - right. split; [|by eexists]. constructor; [done|]. apply Forall_forall. intros j Hj Hdg. rewrite Forall_forall in Hall.
    apply (Hall j Hj). unfold dangling in *. rewrite (Hk j); [done|]. intros ->. by apply (callback_once _ _ _ _ Hi Hdg).
Qed.
End invariant.

Lemma run_flush_objs `{NgtcpConsts} {C : Type} `{Ngtcp2 C} {S : Type} `{Sender S} mode i env M (T T' : traffic C S) :
  run_flush mode i env M T = Ok T' -> exists M', tr_objs T' = <[i := Live M']> (tr_objs T).
Proof. unfold run_flush. intros ([f t] & _ & ET)%obind_ok. destruct (f_sock f); simplify_eq. by eexists. Qed.

(** Steps on streams keep a connection's packets and callback. *)
Lemma local_keeps {C S} `{NgtcpConsts} `{Ngtcp2 C} (Y Y' : Sys C S) :
  sys_local Y Y' -> y_sock Y' = y_sock Y /\ y_armed Y' = y_armed Y /\ y_made Y' = y_made Y /\ y_lost Y' = y_lost Y.
Proof. destruct 1 as [| |dcb ccb g' c' [id|] Y| | | | | | |]; done. Qed.

Section reachable.
Context `{NgtcpConsts} {C : Type} `{Ngtcp2 C} {S : Type} `{SenderLaws S} `{!Wakeable S, !WakeableLaws S}.
Context (mode : send_mode) (retry : nat).
Implicit Types (T : traffic C S) (M : Sys C (list (list Z))).

Lemma newborn_inv (c : Connection) (g : C) : fresh_conn mode c -> member_inv mode (newborn c g).
Proof.
  intros (Hs & Hp & Hq & Hn). split_and!; cbn; rewrite ?Hs, ?Hp, ?Hn, ?(queued_0 _ Hn); try done.
  split_and!; [rewrite Hs; constructor|by rewrite Hs|by rewrite Hp].
Qed.

(** The callbacks are taken from the socket. *)
Lemma inv_wake T :
  traffic_inv mode retry [] T ->
  let '(cbs, s) := snd_wake (tr_sock T) in
  cbs = snd_waiting (tr_sock T) /\ traffic_inv mode retry cbs (mkTr s (tr_objs T) (tr_pkts T) (tr_wire T)).
Proof.
  intros [[Hg Hm] Hw Hl Hn Hwt Hp Hr]. pose proof (snd_wake_ok _ Hg) as Hk. destruct (snd_wake (tr_sock T)) as [cbs s].
  destruct Hk as (-> & Hwt' & Hg' & Hm' & Hw'). split; [done|].
  split; cbn; try done; [split; [done|congruence]|congruence|]. intros cb. rewrite Hwt', app_nil_r. apply Hwt.
Qed.

Lemma writeable_outcome_inv env T :
  writev_ok -> quantum_ok -> traffic_inv mode retry [] T ->
  (forall i M, tr_objs T !! i = Some (Live M) -> enough (env i) M) ->
  (Exists (dangling T) (snd_waiting (tr_sock T)) /\ writeable_fired mode retry env T = Undefined) \/
  (Forall (fun cb => ~ dangling T cb) (snd_waiting (tr_sock T)) /\
   exists T', writeable_fired mode retry env T = Ok T' /\ traffic_inv mode retry [] T').
Proof.
  intros Hwv Hqn Hi He. pose proof (inv_wake T Hi) as Hk. unfold writeable_fired.
  destruct (snd_wake (tr_sock T)) as [cbs s]. destruct Hk as [-> Hi'].
  apply (run_callbacks_outcome mode retry _ env _ Hwv Hqn Hi'). intros i M _. apply He.
Qed.

Lemma traffic_inv_step T T' :
  writev_ok -> quantum_ok -> traffic_inv mode retry [] T -> traffic_step mode retry T T' -> traffic_inv mode retry [] T'.
Proof.
  intros Hwv Hqn Hi Hst. destruct Hst as [i c g T Hne Ho Hf|i M M' T Ho Hl|i env M T T' Ho He Hr|buf T T' Hb Hr|env T T' He Hr|i M T Ho].
  - apply inv_object; try done.
    + rewrite expected_insert, decide_True by done. unfold expected. by rewrite decide_False, Ho.
    + intros M [= <-]. split; [by apply newborn_inv|]. by rewrite (ti_new _ _ _ _ Hi).
  - destruct (ti_live _ _ _ _ Hi _ _ Ho) as [Hm Hs]. pose proof (live_not_retry _ _ _ _ _ _ Hi Ho) as Hne.
    destruct (local_keeps _ _ Hl) as (Es & Ea & _). apply inv_object; try done.
    + rewrite expected_insert, decide_True by done. unfold expected. by rewrite decide_False, Ho, Ea.
    + intros M0 [= <-]. rewrite Es. split; [|done]. by eapply sys_inv_local.
  - destruct (run_flush_ok mode retry [] i env M T Hwv Hqn Hi Ho He) as (T1 & Hr1 & Hi1 & _). congruence.
  - destruct (run_packet_ok mode retry [] buf T Hb Hi) as (T1 & Hr1 & Hi1 & _). congruence.
  - destruct (writeable_outcome_inv env T Hwv Hqn Hi He) as [(_ & Hu)|(_ & T1 & Hr1 & Hi1)]; congruence.
  - pose proof (live_not_retry _ _ _ _ _ _ Hi Ho) as Hne. apply inv_object; try done.
    rewrite expected_insert, decide_True by done. unfold expected. by rewrite decide_False, Ho.
Qed.

(** A socket that was not used yet. *)
Definition fresh_sock (s : S) : Prop := sock_ok mode s /\ snd_wire s = [] /\ snd_waiting s = [].

Lemma traffic_reachable_inv s T :
  writev_ok -> quantum_ok -> fresh_sock s -> rtc (traffic_step mode retry) (traffic_initial s) T -> traffic_inv mode retry [] T.
Proof.
  intros Hwv Hqn (Hs & Hw & Hwt) Hr. assert (traffic_inv mode retry [] (@traffic_initial C S s)) as Hi.
  { split; cbn; try done. intros cb. rewrite Hwt. unfold expected. cbn. by case_decide. }
  revert Hi. induction Hr as [|T1 T2 T3 Hst _ IH]; [done|]. intros Hi. apply IH. by eapply traffic_inv_step.
Qed.
End reachable.

(** C2: connections that share a socket do not lose, duplicate, reorder or mix up packets: at any time the
    packets on the wire are those in the record of who sent what; of each connection the packets on the wire
    followed by those in its batch are packets ngtcp2 finished for it, in order and each at most once, and all of
    them as long as none of its sends failed; it waits for the socket, once, exactly while packets
    are left in its batch, and of the one-shot packets those not yet sent wait. *)
Theorem shared_packets `{NgtcpConsts} {C : Type} `{Ngtcp2 C} {S : Type} `{SenderLaws S} `{!Wakeable S, !WakeableLaws S}
    (mode : send_mode) (retry : nat) (s : S) (T : traffic C S) (i : nat) (M : Sys C (list (list Z))) :
  writev_ok -> quantum_ok -> fresh_sock mode s -> rtc (traffic_step mode retry) (traffic_initial s) T ->
  tr_objs T !! i = Some (Live M) ->
  let c := y_conn M in
  snd_wire (tr_sock T) = map snd (tr_wire T) /\
  sent_by i (tr_wire T) ++ queued c `sublist_of` y_made M /\
  (y_lost M = false -> sent_by i (tr_wire T) ++ queued c = y_made M) /\
  occurs i (snd_waiting (tr_sock T)) = (if (0 <? n_packets c)%nat then 1 else 0)%nat /\
  occurs retry (snd_waiting (tr_sock T)) = length (tr_pkts T).
Proof.
  intros Hwv Hqn Hf Hr Ho c. pose proof (traffic_reachable_inv mode retry s T Hwv Hqn Hf Hr) as Hi.
  destruct (ti_live _ _ _ _ Hi _ _ Ho) as [Hm Hs]. pose proof Hm as (_ & _ & _ & _ & _ & _ & Hsub & Hall & Harm). cbn in Hsub, Hall.
  rewrite <- Hs. split_and!; [by rewrite (ti_wire _ _ _ _ Hi)|done..| |].
  - pose proof (ti_waiting _ _ _ _ Hi i) as Hwt. cbn [app] in Hwt. rewrite Hwt. unfold expected.
    rewrite decide_False, Ho, Harm by exact (live_not_retry _ _ _ _ _ _ Hi Ho). unfold c. by destruct (0 <? _)%nat.
  - pose proof (ti_waiting _ _ _ _ Hi retry) as Hwt. cbn [app] in Hwt. rewrite Hwt. unfold expected. by rewrite decide_True.
Qed.

(** C1: every stream of every connection delivers what was queued on it, however many connections share the
    socket and whatever they, the application, the peers and the network do: the bytes handed to ngtcp2
    followed by those [pending] offers next are exactly the bytes queued, in order; nothing
    is acknowledged that was not handed over; FIN is offered at most once, when everything queued had
    been handed over, and nothing is handed over after it; no chunk sender exceeds its limit, and a circular buffer of that
    many containers holds the bytes of all its queued chunks. *)
Theorem shared_stream_delivery `{NgtcpConsts} {C : Type} `{Ngtcp2 C} {S : Type} `{SenderLaws S} `{!Wakeable S, !WakeableLaws S}
    (mode : send_mode) (retry : nat) (s : S) (T : traffic C S) (i : nat) (M : Sys C (list (list Z))) (id : Z) (st : chunk_state) :
  writev_ok -> quantum_ok -> fresh_sock mode s -> rtc (traffic_step mode retry) (traffic_initial s) T ->
  tr_objs T !! i = Some (Live M) -> map_find id (streams (y_conn M)) = Some st ->
  let gh := y_gh M id in
  (exists vs, pending (cs_stream st) = Ok vs /\ gh_hist gh = gh_given gh ++ concat vs) /\
  0 <= gh_acked gh <= zlen (gh_given gh) /\
  gh_fins gh = (if sent_fin (cs_stream st) then [gh_given gh] else []) /\
  (forall k f n, gh_lims gh !! k = Some (f, n) -> Z.of_nat (inflight k (cs_stream st)) <= n /\ ring_safe k f (Z.to_nat n) st).
Proof.
  intros Hwv Hqn Hf Hr Ho Hst. pose proof (traffic_reachable_inv mode retry s T Hwv Hqn Hf Hr) as Hi.
  destruct (ti_live _ _ _ _ Hi _ _ Ho) as [(_ & _ & _ & _ & Htr & _) _]. apply tracks_delivery. by apply Htr.
Qed.

(** C23: what happens when the socket becomes writeable: if one of the waiting callbacks is of a connection that was
    destroyed while its socket was blocked, the handler reads freed memory; otherwise it runs all callbacks, in
    order, and returns. *)
Theorem writeable_outcome `{NgtcpConsts} {C : Type} `{Ngtcp2 C} {S : Type} `{SenderLaws S} `{!Wakeable S, !WakeableLaws S}
    (mode : send_mode) (retry : nat) (s : S) (T : traffic C S) (env : nat -> cb_env) :
  writev_ok -> quantum_ok -> fresh_sock mode s -> rtc (traffic_step mode retry) (traffic_initial s) T ->
  (forall i M, tr_objs T !! i = Some (Live M) -> enough (env i) M) ->
  ((exists i, tr_objs T !! i = Some (Dead true)) <-> writeable_fired mode retry env T = Undefined) /\
  ((forall i, tr_objs T !! i <> Some (Dead true)) <-> exists T', writeable_fired mode retry env T = Ok T').
Proof.
  intros Hwv Hqn Hf Hr He. pose proof (traffic_reachable_inv mode retry s T Hwv Hqn Hf Hr) as Hi.
  assert ((exists i, dangling T i) <-> Exists (dangling T) (snd_waiting (tr_sock T))) as Hd.
  { rewrite Exists_exists. split; intros (i & Hx); exists i; [split; [|done]|apply Hx].
    pose proof (ti_waiting _ _ _ _ Hi i) as Hwt. cbn [app] in Hwt. unfold expected in Hwt.
    rewrite decide_False, Hx in Hwt by exact (live_not_retry _ _ _ _ _ _ Hi Hx). by apply occurs_elem; cbn in Hwt; lia. }
  destruct (writeable_outcome_inv mode retry env T Hwv Hqn Hi He) as [(Hex & Hu)|(Hall & T' & HT & _)].
  - rewrite Hu. split; split; try done.
    + intros _. by apply Hd.
    + intros Hno. apply Hd in Hex as [i Hx]. by destruct (Hno i).
    + by intros [T' HT].
  - rewrite HT. assert (forall i, tr_objs T !! i <> Some (Dead true)) as Hno.
    { intros i Hx. assert (Exists (dangling T) (snd_waiting (tr_sock T))) as Hex by (apply Hd; by exists i).
      apply Exists_exists in Hex as (j & Hj & Hdj). rewrite Forall_forall in Hall. by apply (Hall j). }
    split; split; try done; [|by intros _; eexists]. intros [i Hx]. by destruct (Hno i).
Qed.

(** ** A worked example: two connections, each with 2500 bytes on a stream, share a socket that is blocked *)
Section example.
#[local] Existing Instances ngtcp2_consts toy_ngtcp2 udp_Sender.

Definition idle_conn : Connection := new_connection empty_context OUTBOUND.
Definition shared_sock (k : kernel) : udp_state := example_udp SEND_GSO k.
Definition shared_step := @traffic_step ngtcp2_consts _ toy_ngtcp2 _ udp_Sender udp_Wakeable SEND_GSO 0.
Definition example_env : cb_env := mkCE 30 1 77.

Definition opened : Sys (Z * Z) (list (list Z)) :=
  let M := newborn idle_conn (0, 8) in
  let '(g, c, _) := get_new_stream None None (y_ng M) (y_conn M) in
  with_conn M c g (set_ghost 0 ghost_new (y_gh M)) (y_pend M).
Definition opened_stream : chunk_state := mkCS (set_ready (with_id (Stream_new None None (-1)) 0)) [].
Definition queued_bytes : Stream * list effect := Stream_send (cs_stream opened_stream) (replicate 2500 7) (KUser 1).
Definition busy_stream : chunk_state := mkCS queued_bytes.1 [].
Definition busy : Sys (Z * Z) (list (list Z)) :=
  with_stream 0 busy_stream (ghost_op (USend (replicate 2500 7) 1) queued_bytes.2 (y_gh opened 0)) opened.

Lemma busy_steps : sys_local (newborn idle_conn (0, 8)) opened /\ sys_local opened busy.
Proof.
  split; [exact (sys_new None None _ _ (Some 0) (newborn idle_conn (0, 8)) eq_refl)|].
  refine (sys_user 0 (USend (replicate 2500 7) 1) opened_stream busy_stream _ opened _ _ _); [reflexivity..|].
  unfold in_memory. vm_compute. reflexivity.
Qed.

Lemma idle_fresh : fresh_conn SEND_GSO idle_conn.
Proof. destruct start_fresh as (? & ? & ? & ? & _). by split_and!. Qed.

Lemma shared_sock_fresh k : kernel_ok k -> fresh_sock SEND_GSO (shared_sock k).
Proof. intros Hk. by split_and!. Qed.

Lemma kernel_blocked_ok : kernel_ok kernel_blocked.
Proof. intros i msgs. by cbn. Qed.

(** Making a connection with a busy stream. *)
Lemma make_busy i (T : traffic (Z * Z) udp_state) :
  i <> 0%nat -> tr_objs T !! i = None -> rtc shared_step T (with_objs T (<[i := Live busy]> (tr_objs T))).
Proof.
  intros Hi Ho. destruct busy_steps as [H1 H2].
  eapply rtc_l; [apply (tr_new SEND_GSO 0 i idle_conn (0, 8)); [done|done|exact idle_fresh]|].
  eapply rtc_l; [eapply (tr_local SEND_GSO 0 i); [apply lookup_insert_eq|exact H1]|].
  eapply rtc_l; [eapply (tr_local SEND_GSO 0 i); [apply lookup_insert_eq|exact H2]|].
  unfold with_objs. cbn. rewrite !insert_insert_eq. apply rtc_refl.
Qed.

Definition two_busy (k : kernel) : traffic (Z * Z) udp_state :=
  mkTr (shared_sock k) (<[2%nat := Live busy]> (<[1%nat := Live busy]> ∅)) [] [].

Lemma two_busy_reachable k : rtc shared_step (traffic_initial (shared_sock k)) (two_busy k).
Proof.
  etransitivity; [apply (make_busy 1); done|]. apply (make_busy 2); [done|]. reflexivity.
Qed.

Lemma busy_enough : enough example_env busy.
Proof. unfold enough. vm_compute. lia. Qed.

(** Connection 1 is flushed into the blocked socket. *)
Lemma example_blocked :
  exists T M, rtc shared_step (traffic_initial (shared_sock kernel_blocked)) T /\ tr_objs T !! 1%nat = Some (Live M) /\
    tr_objs T !! 2%nat = Some (Live busy) /\ y_armed M = true /\
    (forall i M', tr_objs T !! i = Some (Live M') -> i = 1%nat \/ M' = busy).
Proof.
  set (T0 := two_busy kernel_blocked).
  destruct (ok_test (run_flush SEND_GSO 1 example_env busy T0)
    (fun T => match tr_objs T !! 1%nat with Some (Live M) => y_armed M | _ => false end)) as (T & ET & Hrun); [vm_compute; reflexivity|].
  assert (rtc shared_step (traffic_initial (shared_sock kernel_blocked)) T) as Hr.
  { eapply rtc_r; [apply (two_busy_reachable kernel_blocked)|].
    exact (tr_flush SEND_GSO 0 1 example_env busy T0 T eq_refl busy_enough ET). }
  destruct (run_flush_objs _ _ _ _ _ _ ET) as [M1 Ho].
  assert (tr_objs T !! 2%nat = Some (Live busy)) as H2 by (rewrite Ho, lookup_insert_ne by done; reflexivity).
  destruct (tr_objs T !! 1%nat) as [[M|]|] eqn:H1; [|discriminate Hrun..].
  clear ET. exists T, M. split; [exact Hr|]. split; [exact H1|]. split; [exact H2|]. split; [exact Hrun|].
  intros i M'. rewrite Ho. unfold T0, two_busy. cbn [tr_objs]. generalize busy. intros B.
  intros [[<- _]|[_ [[_ [= <-]]|[_ [[_ [= <-]]|[_ Hx]]%lookup_insert_Some]]%lookup_insert_Some]]%lookup_insert_Some; auto.
  by rewrite lookup_empty in Hx.
Qed.
End example.

Lemma shared_packets_witness :
  exists T M, rtc shared_step (traffic_initial (shared_sock kernel_blocked)) T /\ tr_objs T !! 1%nat = Some (Live M) /\
    y_armed M = true /\ sent_by 1 (tr_wire T) ++ queued (y_conn M) `sublist_of` y_made M /\
    occurs 1 (snd_waiting (tr_sock T)) = (if (0 <? n_packets (y_conn M))%nat then 1 else 0)%nat.
Proof.
  destruct example_blocked as (T & M & Hr & Ho & _ & Ha & _). exists T, M. split; [exact Hr|]. split; [exact Ho|]. split; [exact Ha|].
  destruct (@shared_packets ngtcp2_consts _ toy_ngtcp2 udp_state _ _ _ _ SEND_GSO 0 (shared_sock kernel_blocked) T 1 M
    toy_writev_ok toy_quantum_ok (shared_sock_fresh _ kernel_blocked_ok) Hr Ho) as (_ & Hs & _ & Hw & _). split; [exact Hs|exact Hw].
Defined.

Lemma shared_stream_delivery_witness :
  exists T M st, rtc shared_step (traffic_initial (shared_sock kernel_blocked)) T /\ tr_objs T !! 2%nat = Some (Live M) /\
    map_find 0 (streams (y_conn M)) = Some st /\ gh_hist (y_gh M 0) = replicate 2500 7 /\ delivers st (y_gh M 0).
Proof.
  destruct example_blocked as (T & M & Hr & _ & Ho & _). exists T, busy, busy_stream. split; [exact Hr|]. split; [exact Ho|].
  split; [reflexivity|]. split; [reflexivity|].
  apply (@shared_stream_delivery ngtcp2_consts _ toy_ngtcp2 udp_state _ _ _ _ SEND_GSO 0 (shared_sock kernel_blocked) T 2 busy 0 busy_stream
    toy_writev_ok toy_quantum_ok (shared_sock_fresh _ kernel_blocked_ok) Hr Ho eq_refl).
Defined.

(** A connection is destroyed while the socket is blocked: the next time it is writeable, its callback runs. *)
Lemma writeable_outcome_witness :
  exists T, rtc shared_step (traffic_initial (shared_sock kernel_blocked)) T /\ tr_objs T !! 1%nat = Some (Dead true) /\
    @writeable_fired ngtcp2_consts _ toy_ngtcp2 _ udp_Sender udp_Wakeable SEND_GSO 0 (fun _ => example_env) T = Undefined.
Proof.
  destruct example_blocked as (T & M & Hr & Ho & H2 & Ha & Hall).
  set (T' := with_objs T (<[1%nat := Dead (y_armed M)]> (tr_objs T))).
  assert (rtc shared_step (traffic_initial (shared_sock kernel_blocked)) T') as Hr'
    by (eapply rtc_r; [exact Hr|exact (tr_destroy SEND_GSO 0 1 M T Ho)]).
  assert (tr_objs T' !! 1%nat = Some (Dead true)) as Hd by (cbn; rewrite lookup_insert_eq, Ha; reflexivity).
  exists T'. split; [exact Hr'|]. split; [exact Hd|].
  apply (@writeable_outcome ngtcp2_consts _ toy_ngtcp2 udp_state _ _ _ _ SEND_GSO 0 (shared_sock kernel_blocked) T' (fun _ => example_env)
    toy_writev_ok toy_quantum_ok (shared_sock_fresh _ kernel_blocked_ok) Hr'); [|by exists 1%nat].
  intros i M0. cbn. intros [[_ ?]|[Hi HM]]%lookup_insert_Some; [done|]. destruct (Hall _ _ HM) as [-> | ->]; [done|exact busy_enough].
Defined.
