(* ===== verification/Endpoint.v ===== *)
(** * Endpoints

    Models include/quic/endpoint.hpp and src/endpoint.cpp (the sending half is in
    EndpointSend.v): the table of connections, dispatch of received packets, accepting and
    making connections, closing, draining and timeouts.

    [conns] is an [unordered_map] whose keys all come from [ConnectionID::random]; it is a
    finite map from what [operator==] compares, and loops over it take the iteration order as an
    argument.  A null [shared_ptr] is [None]. *)
From S2P Require Import Prelude StdMap Utils Stream Udp Sender EndpointSend Context Connection.
Import Cid Addr Io.

(** What [operator==] of connection ids looks at. *)
Definition cid_key (c : ConnectionID) : Z * list Z := (datalen c, take (Z.to_nat (datalen c)) (data c)).

Lemma cid_key_eqb a b : ConnectionID_eqb a b = true <-> cid_key a = cid_key b.
Proof.
  rewrite ConnectionID_eqb_spec. unfold cid_key. split.
  - intros [E1 E2]. rewrite E2, E1. done.
  - intros [= E1 E2]. split; [done|]. by rewrite E2, E1.
Qed.

(** ** ngtcp2 and TLS, as the endpoint uses them *)

(** The fields of [ngtcp2_version_cid] and [ngtcp2_pkt_hd] that are read. *)
Record version_cid := mkVid { v_dcid : list Z; v_dcidlen : Z; v_scid : list Z; v_scidlen : Z }.
Record pkt_hd := mkHd { hd_type : Z; hd_tokenlen : Z; hd_scid : ConnectionID }.

(** The functions of ngtcp2 that the endpoint calls.  What they are given besides (the time, the path and the packet
    info, whose ECN is always 0) is not an argument here: [C] is all that a result of ngtcp2 depends on, so an instance keeps the
    current time and path in [C], which between the calls of this library may change in any way (see [call_ngtcp2] of Whole.v),
    and no theorem assumes that two calls with the same bytes give the same result. *)
Class Ngtcp2Ep (C : Type) := {
  ng_in_closing_period : C -> bool;
  ng_pto : C -> Z;
  ng_decode_version_cid : list Z -> Z * version_cid;
  ng_accept : list Z -> Z * pkt_hd;
  (* reading a packet calls back into the connection *)
  ng_read_pkt : C -> Connection -> list Z -> C * Connection * list effect * Z;
  (* the result, and the bytes written *)
  ng_write_connection_close : C -> Z -> C * Z * list Z;
  ng_write_version_negotiation : Z -> version_cid -> list Z -> Z * list Z;
  (* ngtcp2_conn_client_new / ngtcp2_conn_server_new *)
  ng_conn_new : Direction -> ConnectionID -> ConnectionID -> Z * C;
  (* TLSCreds::make_session: does it throw? *)
  tls_session_fails : nat -> Direction -> bool;
}.

(** What an endpoint does that others see. *)
Inductive ep_event :=
  | XClosingCb (cb : nat)                       (* Connection::on_closing *)
  | XIoReady (cid : ConnectionID)               (* Connection::io_ready *)
  | XConn (cid : ConnectionID) (e : list effect) (* what reading a packet made the connection do *)
  | XPacket (buf : list Z) (q : queue_outcome). (* a one-shot packet and what became of it *)

Module Ep.
Section endpoint.
Context `{NgtcpConsts} {C : Type} `{Ngtcp2Ep C} {S : Type} `{Sender S}.

(** A connection with its ngtcp2 state. *)
Record conn := mkC { cn : Connection; ng : C }.

Record Endpoint := mkEp {
  socket : option S;
  accepting_inbound : bool;
  outbound_ctx : option ContextBase;
  inbound_ctx : option ContextBase;
  conns : gmap (Z * list Z) (option conn);
  draining : list (Z * ConnectionID);   (* std::map<time_point, ConnectionID> *)
  events : list ep_event;
}.

Definition with_conns (e : Endpoint) m :=
  mkEp (socket e) (accepting_inbound e) (outbound_ctx e) (inbound_ctx e) m (draining e) (events e).
Definition with_draining (e : Endpoint) d :=
  mkEp (socket e) (accepting_inbound e) (outbound_ctx e) (inbound_ctx e) (conns e) d (events e).
Definition emit (e : Endpoint) l :=
  mkEp (socket e) (accepting_inbound e) (outbound_ctx e) (inbound_ctx e) (conns e) (draining e) (events e ++ l).
Definition with_socket (e : Endpoint) s :=
  mkEp s (accepting_inbound e) (outbound_ctx e) (inbound_ctx e) (conns e) (draining e) (events e).

(** [Endpoint::get_conn]. *)
Definition get_conn (id : ConnectionID) (e : Endpoint) : option conn :=
  match conns e !! cid_key id with Some (Some k) => Some k | _ => None end.

(** Changing a connection through a reference to it. *)
Definition set_conn (k : conn) (e : Endpoint) : Endpoint :=
  with_conns e (<[cid_key (source_cid (cn k)) := Some k]> (conns e)).

Definition closing_event (o : option nat) : list ep_event :=
  match o with Some cb => [XClosingCb cb] | None => [] end.

(** [Endpoint::delete_connection]. *)
Definition delete_connection (cid : ConnectionID) (e : Endpoint) : outcome Endpoint :=
  match conns e !! cid_key cid with
  | None => Ok e
  | Some None => Undefined
  | Some (Some k) =>
      let '(_, cb) := call_closing (cn k) in
      Ok (emit (with_conns e (base.delete (cid_key cid) (conns e))) (closing_event cb))
  end.

(** [Endpoint::drain_connection] at time [now]: [get_time() + pto * 3 * 1ns] is computed in
    unsigned 64-bit nanoseconds and converted to the signed time points of the table. *)
Definition drain_time (now : Z) (g : C) : Z := i64 (u64 (now + u64 (ng_pto g * 3))).
Definition drain_connection (now : Z) (k : conn) (e : Endpoint) : Endpoint :=
  if Conn.draining (cn k) then e
  else
    let '(c1, cb) := call_closing (cn k) in
    let e1 := set_conn (mkC (drain c1) (ng k)) (emit e (closing_event cb)) in
    with_draining e1 (map_emplace (drain_time now (ng k)) (source_cid c1) (draining e1)).1.

(** A one-shot packet; [retry] names the callback that sends it again. *)
Definition send_one (retry : nat) (buf : list Z) (has_cb : bool) (e : Endpoint) : outcome (Endpoint * queue_outcome) :=
  let* (s, q) := send_or_queue_packet (socket e) buf 0 has_cb retry in
  Ok (emit (with_socket e s) [XPacket buf q], q).

(** A buffer of [max_payload_size] zero bytes with [bs] written at its start. *)
Definition payload_buffer (bs : list Z) : list Z :=
  bs ++ replicate (Z.to_nat (max_payload_size - zlen bs)) 0.

(** [Endpoint::close_connection]. *)
Definition close_connection (retry : nat) (k : conn) (code : Z) (e : Endpoint) : outcome Endpoint :=
  if closing (cn k) || Conn.draining (cn k) then Ok e
  else if code =? NGTCP2_ERR_IDLE_CLOSE then delete_connection (source_cid (cn k)) e
  else
    let '(g, written, bs) := ng_write_connection_close (ng k) code in
    let e1 := set_conn (mkC (cn k) g) e in
    if written <=? 0 then delete_connection (source_cid (cn k)) e1
    else
      assert_then (written <=? max_payload_size)
        (let* (e2, q) := send_one retry (payload_buffer bs) true e1 in
         match q with
         | QCallback r => if failure r then delete_connection (source_cid (cn k)) e2 else Ok e2
         | _ => Ok e2
         end).

(** [Endpoint::close_conns]: [order] is the iteration order of the map.  Erasing the element the
    loop is at leaves its iterator dangling. *)
Definition dir_matches (d : option Direction) (k : conn) : bool :=
  match d with None => true | Some d => bool_decide (dir (cn k) = d) end.

Fixpoint close_conns (retry : nat) (d : option Direction) (order : list (Z * list Z)) (e : Endpoint) : outcome Endpoint :=
  match order with
  | [] => Ok e
  | key :: order' =>
      match conns e !! key with
      | None | Some None => Undefined
      | Some (Some k) =>
          if dir_matches d k then
            let* e1 := close_connection retry k NGTCP2_NO_ERROR e in
            match conns e1 !! key with
            | None => Undefined
            | Some _ => close_conns retry d order' e1
            end
          else close_conns retry d order' e
      end
  end.

(** [Endpoint::get_all_conns]; without a direction null entries are listed too. *)
Fixpoint get_all_conns (d : option Direction) (order : list (Z * list Z)) (e : Endpoint) : outcome (list (option conn)) :=
  match order with
  | [] => Ok []
  | key :: order' =>
      match d, conns e !! key with
      | _, None => Undefined
      | Some _, Some None => Undefined
      | None, Some None => let* l := get_all_conns d order' e in Ok (None :: l)
      | _, Some (Some k) =>
          let* l := get_all_conns d order' e in Ok (if dir_matches d k then Some k :: l else l)
      end
  end.

(** [Endpoint::check_timeouts].  [f] is the iterator to the element that was first when the
    function was called, named by its key; erasing that element leaves it dangling ([None]). *)
Fixpoint timeouts_loop (fuel : nat) (now : Z) (f : option Z) (e : Endpoint) : outcome Endpoint :=
  if bool_decide (draining e = []) then Ok e
  else
    match f with
    | None => Undefined
    | Some t =>
        match map_find t (draining e) with
        | None => Undefined
        | Some cid =>
            if t <? now then
              match fuel with
              | O => OutOfFuel
              | Datatypes.S fuel' =>
                  timeouts_loop fuel' now None
                    (with_draining (with_conns e (base.delete (cid_key cid) (conns e))) (map_erase t (draining e)))
              end
            else Ok e
        end
    end.
Definition check_timeouts (now : Z) (e : Endpoint) : outcome Endpoint :=
  timeouts_loop (length (draining e)) now (fst <$> head (draining e)) e.

(** ** Making connections *)

(** [Connection::Connection], [setup_tls_session] and [make_conn].  When ngtcp2 reports an error,
    [connptr] is uninitialised and is used before the code is looked at; a context without
    credentials has a null [tls_creds]. *)
Definition make_conn (scid dcid : ConnectionID) (ctx : ContextBase) (d : Direction) : outcome conn :=
  let '(rv, g) := ng_conn_new d scid dcid in
  match tls_creds ctx with
  | None => Undefined
  | Some creds =>
      if negb (rv =? 0) then Undefined
      else if tls_session_fails creds d then Throw runtime_error
      else Ok (mkC (mkConn scid ctx d None false false [] []
                      (replicate (Z.to_nat (NGTCP2_MAX_PMTUD_UDP_PAYLOAD_SIZE * Z.of_nat DATAGRAM_BATCH_SIZE)) 0)
                      (replicate DATAGRAM_BATCH_SIZE 0) 0 0 0) g)
  end.

(** The [for (;;)] of [connect] and [accept_initial_connection]: draw random ids until one is not
    in the table.  The result tells what [make_conn] came to; if it threw, the null entry made by
    [emplace] stays. *)
Inductive made := Made (k : conn) | MakeThrew (x : exn).

Fixpoint emplace_conn (fuel : nat) (rnd : nat -> list Z) (i : nat) (dcid : nat -> ConnectionID) (ctx : ContextBase)
    (d : Direction) (e : Endpoint) : outcome (Endpoint * made) :=
  match fuel with
  | O => OutOfFuel
  | Datatypes.S fuel' =>
      let cid := ConnectionID_random (rnd i) in
      match conns e !! cid_key cid with
      | Some _ => emplace_conn fuel' rnd (Datatypes.S i) dcid ctx d e
      | None =>
          match make_conn cid (dcid i) ctx d with
          | Ok k => Ok (emit (with_conns e (<[cid_key cid := Some k]> (conns e))) [XIoReady cid], Made k)
          | Throw x => Ok (with_conns e (<[cid_key cid := None]> (conns e)), MakeThrew x)
          | AssertFail => AssertFail
          | Undefined => Undefined
          | OutOfFuel => OutOfFuel
          end
      end
  end.

(** [Endpoint::connect], as run on the event loop; the exception goes to the caller's future. *)
Definition connect (fuel : nat) (rnd : nat -> list Z) (dcid : nat -> ConnectionID) (opts : list opt) (e : Endpoint) :
    outcome (Endpoint * made) :=
  let ctx := OutboundContext_new opts in
  emplace_conn fuel rnd 0 dcid ctx OUTBOUND
    (mkEp (socket e) (accepting_inbound e) (Some ctx) (inbound_ctx e) (conns e) (draining e) (events e)).

(** [Endpoint::listen]. *)
Definition listen (opts : list opt) (e : Endpoint) : Endpoint :=
  mkEp (socket e) true (outbound_ctx e) (Some (InboundContext_new opts)) (conns e) (draining e) (events e).

(** [Endpoint::accept_initial_connection]. *)
Definition accept_initial_connection (fuel : nat) (rnd : nat -> list Z) (pkt : list Z) (e : Endpoint) :
    outcome (Endpoint * option conn) :=
  let '(rv, hdr) := ng_accept pkt in
  if rv <? 0 then Ok (e, None)
  else if hd_type hdr =? NGTCP2_PKT_0RTT then Ok (e, None)
  else if (hd_type hdr =? NGTCP2_PKT_INITIAL) && negb (hd_tokenlen hdr =? 0) then Ok (e, None)
  else match inbound_ctx e with
  | None => Undefined
  | Some ctx =>
      let* (e1, m) := emplace_conn fuel rnd 0 (fun _ => hd_scid hdr) ctx INBOUND e in
      match m with Made k => Ok (e1, Some k) | MakeThrew x => Throw x end
  end.

(** ** Received packets *)

(** [Endpoint::send_version_negotiation]; [first] is the random first byte. *)
Definition versions : list Z :=
  0x1a2a3a4a :: map (fun i => NGTCP2_PROTO_VER_MIN + Z.of_nat i)
                 (seq 0 (Z.to_nat (NGTCP2_PROTO_VER_MAX - NGTCP2_PROTO_VER_MIN + 1))).
Definition send_version_negotiation (retry : nat) (first : Z) (vid : version_cid) (e : Endpoint) : outcome Endpoint :=
  let '(nwrite, bs) := ng_write_version_negotiation first vid versions in
  if nwrite <=? 0 then Ok e
  else let* (e1, _) := send_one retry (payload_buffer bs) false e in Ok e1.

(** [Endpoint::handle_packet_connid]; [fresh] is the uninitialised array of the new id. *)
Definition handle_packet_connid (retry : nat) (first : Z) (fresh pkt : list Z) (e : Endpoint) :
    outcome (Endpoint * option ConnectionID) :=
  let '(rv, vid) := ng_decode_version_cid pkt in
  if rv =? NGTCP2_ERR_VERSION_NEGOTIATION then
    let* e1 := send_version_negotiation retry first vid e in Ok (e1, None)
  else if negb (rv =? 0) then Ok (e, None)
  else if NGTCP2_MAX_CIDLEN <? v_dcidlen vid then Ok (e, None)
  else let* cid := ConnectionID_copy fresh (v_dcid vid) (v_dcidlen vid) in Ok (e, Some cid).

(** [Endpoint::read_packet]. *)
Definition read_packet (retry : nat) (now : Z) (k : conn) (pkt : list Z) (e : Endpoint) : outcome (Endpoint * io_result) :=
  let '(g, c, eff, rv) := ng_read_pkt (ng k) (cn k) pkt in
  let k1 := mkC c g in
  let e1 := emit (set_conn k1 e) [XConn (source_cid c) eff] in
  let* e2 :=
    if rv =? 0 then Ok (emit e1 [XIoReady (source_cid c)])
    else if rv =? NGTCP2_ERR_DRAINING then Ok (drain_connection now k1 e1)
    else if rv =? NGTCP2_ERR_PROTO then close_connection retry k1 rv e1
    else if rv =? NGTCP2_ERR_DROP_CONN then delete_connection (source_cid c) e1
    else if rv =? NGTCP2_ERR_CRYPTO then delete_connection (source_cid c) e1
    else close_connection retry k1 rv e1 in
  Ok (e2, io_ngtcp2 rv).

(** [Endpoint::handle_conn_packet]. *)
Definition handle_conn_packet (retry : nat) (now : Z) (k : conn) (pkt : list Z) (e : Endpoint) : outcome Endpoint :=
  if ng_in_closing_period (ng k) then delete_connection (source_cid (cn k)) e
  else let* (e1, _) := read_packet retry now k pkt e in Ok e1.

(** [Endpoint::handle_packet]. *)
Definition handle_packet (fuel : nat) (rnd : nat -> list Z) (retry : nat) (first : Z) (fresh : list Z) (now : Z)
    (pkt : list Z) (e : Endpoint) : outcome Endpoint :=
  let* (e1, dcid_opt) := handle_packet_connid retry first fresh pkt e in
  match dcid_opt with
  | None => Ok e1
  | Some dcid =>
      match get_conn dcid e1 with
      | Some k => handle_conn_packet retry now k pkt e1
      | None =>
          if accepting_inbound e1 then
            let* (e2, ko) := accept_initial_connection fuel rnd pkt e1 in
            match ko with
            | None => Ok e2
            | Some k => handle_conn_packet retry now k pkt e2
            end
          else Ok e1
      end
  end.
End endpoint.
Arguments conn C : clear implicits.
Arguments Endpoint C S : clear implicits.
End Ep.
Export Ep.

(** ** Which connections an operation can touch *)

Section frame.
Context `{NgtcpConsts} {C : Type} `{Ngtcp2Ep C} {S : Type} `{Sender S}.
Implicit Types (e : Endpoint C S) (k : conn C).

(** Only the entry under [key] may differ. *)
Definition only_touches (key : Z * list Z) e e' : Prop :=
  forall key', key' <> key -> conns e' !! key' = conns e !! key'.

#[export] Instance only_touches_preorder key : PreOrder (only_touches key).
Proof.
  split; [by intros e key' Hne|]. intros e1 e2 e3 H12 H23 key' Hne. by rewrite H23, H12.
Qed.

Lemma set_conn_touches k e : only_touches (cid_key (source_cid (cn k))) e (set_conn k e).
Proof. intros key' Hne. cbn. by apply lookup_insert_ne. Qed.

Lemma delete_connection_touches cid e e' :
  delete_connection cid e = Ok e' -> only_touches (cid_key cid) e e'.
Proof.
  unfold delete_connection. destruct (conns e !! cid_key cid) as [[k|]|]; [|done|by intros [= <-]].
  destruct (call_closing (cn k)) as [c cb]. intros [= <-] key' Hne. cbn. by apply lookup_delete_ne.
Qed.

Lemma drain_connection_touches now k e : only_touches (cid_key (source_cid (cn k))) e (drain_connection now k e).
Proof.
  unfold drain_connection. destruct (Conn.draining (cn k)); [done|].
  unfold call_closing. destruct (on_closing (cn k)); intros key' Hne; cbn; by apply lookup_insert_ne.
Qed.

Lemma send_one_frame retry buf cb e e' q :
  send_one retry buf cb e = Ok (e', q) ->
  conns e' = conns e /\ draining e' = draining e /\ events e' = events e ++ [XPacket buf q].
Proof. unfold send_one. intros ([s q'] & _ & Hr)%obind_ok. by injection Hr as <- <-. Qed.

Lemma close_connection_touches retry k code e e' :
  close_connection retry k code e = Ok e' -> only_touches (cid_key (source_cid (cn k))) e e'.
Proof.
  unfold close_connection. destruct (closing (cn k) || Conn.draining (cn k)); [by intros [= <-]|].
  destruct (code =? NGTCP2_ERR_IDLE_CLOSE); [apply delete_connection_touches|].
  destruct (ng_write_connection_close (ng k) code) as [[g w] bs].
  pose proof (set_conn_touches (mkC (cn k) g) e) as Hs.
  destruct (w <=? 0); [intros Hd%delete_connection_touches; by etransitivity|].
  intros [_ ([e2 q] & Hsend & Hr)%obind_ok]%assert_then_ok. destruct (send_one_frame _ _ _ _ _ _ Hsend) as (Hc & _).
  assert (only_touches (cid_key (source_cid (cn k))) e e2) as H2.
  { intros key' Hne. rewrite Hc. by apply Hs. }
  destruct q as [r| |r|]; try (by injection Hr as <-).
  destruct (failure r); [apply delete_connection_touches in Hr; by etransitivity|by injection Hr as <-].
Qed.

(** Reading a packet runs callbacks of the connection, which cannot change its id. *)
Definition read_keeps_id : Prop :=
  forall g c pkt, let '(_, c', _, _) := ng_read_pkt g c pkt in source_cid c' = source_cid c.

Lemma handle_conn_packet_touches retry now k pkt e e' :
  read_keeps_id -> handle_conn_packet retry now k pkt e = Ok e' -> only_touches (cid_key (source_cid (cn k))) e e'.
Proof.
  intros Hrd. unfold handle_conn_packet. destruct (ng_in_closing_period (ng k)); [apply delete_connection_touches|].
  intros ([e1 r] & Hr & [= <-])%obind_ok. unfold read_packet in Hr.
  specialize (Hrd (ng k) (cn k) pkt). destruct (ng_read_pkt (ng k) (cn k) pkt) as [[[g c] eff] rv].
  apply obind_ok in Hr as (e2 & H2 & [= <- <-]). rewrite <- Hrd.
  set (e0 := emit (set_conn (mkC c g) e) _) in H2.
  assert (only_touches (cid_key (source_cid c)) e e0) as He0 by (apply (set_conn_touches (mkC c g) e)).
  transitivity e0; [done|].
  destruct (rv =? 0); [by injection H2 as <-|].
  destruct (rv =? NGTCP2_ERR_DRAINING); [injection H2 as <-; apply (drain_connection_touches now (mkC c g))|].
  destruct (rv =? NGTCP2_ERR_PROTO); [by apply close_connection_touches in H2|].
  destruct (rv =? NGTCP2_ERR_DROP_CONN); [by apply delete_connection_touches in H2|].
  destruct (rv =? NGTCP2_ERR_CRYPTO); [by apply delete_connection_touches in H2|].
  by apply close_connection_touches in H2.
Qed.
End frame.

(** ** Fresh ids *)

Section fresh.
Context `{NgtcpConsts} {C : Type} `{Ngtcp2Ep C} {S : Type} `{Sender S}.
Implicit Types (e : Endpoint C S).

(** What the search for an unused id leaves behind. *)
Definition emplaced (ctx : ContextBase) (d : Direction) e (r : Endpoint C S * made) : Prop :=
  exists key, conns e !! key = None /\ only_touches key e r.1 /\ draining r.1 = draining e /\
    match r.2 with
    | Made k => conns r.1 !! key = Some (Some k) /\ cid_key (source_cid (cn k)) = key /\
        dir (cn k) = d /\ context (cn k) = ctx /\ closing (cn k) = false /\ Conn.draining (cn k) = false /\
        streams (cn k) = [] /\ n_packets (cn k) = 0%nat
    | MakeThrew _ => conns r.1 !! key = Some None
    end.

Lemma make_conn_fields scid dcid ctx d k :
  make_conn scid dcid ctx d = Ok k ->
  source_cid (cn k) = scid /\ dir (cn k) = d /\ context (cn k) = ctx /\ closing (cn k) = false /\
  Conn.draining (cn k) = false /\ streams (cn k) = [] /\ n_packets (cn k) = 0%nat.
Proof.
  unfold make_conn. destruct (ng_conn_new d scid dcid) as [rv g]. destruct (tls_creds ctx) as [t|]; [|done].
  destruct (negb (rv =? 0)); [done|]. destruct (tls_session_fails t d); [done|]. by intros [= <-].
Qed.

Lemma emplace_conn_emplaced fuel rnd i dcid ctx d e r :
  emplace_conn fuel rnd i dcid ctx d e = Ok r -> emplaced ctx d e r.
Proof.
  revert i. induction fuel as [|fuel IH]; intros i; cbn [emplace_conn]; [done|].
  set (cid := ConnectionID_random (rnd i)). destruct (conns e !! cid_key cid) eqn:Hn; [apply IH|].
  destruct (make_conn cid (dcid i) ctx d) as [k| | |x|] eqn:Hm; intros [= <-]; exists (cid_key cid);
    (split_and!; [done|intros key' Hne; cbn; by apply lookup_insert_ne|done|]); cbn; [|by apply lookup_insert_eq].
  apply make_conn_fields in Hm as (<- & Hm). split_and!; try apply Hm; [apply lookup_insert_eq|done].
Qed.

(** The first [n] draws of [rnd] are byte arrays that fill an id, and no two give the same id. *)
Definition drawn (rnd : nat -> list Z) (i : nat) : Z * list Z := cid_key (ConnectionID_random (rnd i)).
Definition fresh_draws (n : nat) (rnd : nat -> list Z) : Prop :=
  (forall a, (a < n)%nat -> zlen (rnd a) = NGTCP2_MAX_CIDLEN /\ Forall is_u8 (rnd a)) /\
  (forall a b, (a < n)%nat -> (b < n)%nat -> drawn rnd a = drawn rnd b -> a = b).

Lemma fresh_draws_le n m rnd : (n <= m)%nat -> fresh_draws m rnd -> fresh_draws n rnd.
Proof. intros Hle [Hb Hi]. split; [intros a Ha; apply Hb; lia|intros a b Ha Hb'; apply Hi; lia]. Qed.

(** Among more distinct ids than the table has entries one is unused. *)
Lemma unused_draw n rnd e :
  fresh_draws n rnd -> (size (conns e) < n)%nat -> exists j, (j < n)%nat /\ conns e !! drawn rnd j = None.
Proof.
  intros [_ Hinj] Hsz. destruct (decide (Exists (fun j => conns e !! drawn rnd j = None) (seq 0 n))) as [Hx|Hx].
  { apply Exists_exists in Hx as (j & Hj%elem_of_seq & Hn). exists j. split; [lia|done]. }
  apply not_Exists_Forall in Hx; [|apply _]. rewrite Forall_forall in Hx. exfalso.
  assert (list_to_set (C := gset _) (map (drawn rnd) (seq 0 n)) ⊆ dom (conns e)) as Hsub.
  { intros key (j & -> & Hj)%elem_of_list_to_set%list_elem_of_fmap. specialize (Hx j Hj). cbn in Hx.
    apply elem_of_dom. by destruct (conns e !! drawn rnd j). }
  apply subseteq_size in Hsub. rewrite size_list_to_set, length_map, length_seq, size_dom in Hsub; [lia|].
  apply NoDup_fmap_2_strong; [|apply NoDup_seq]. intros a b Ha%elem_of_seq Hb%elem_of_seq. apply Hinj; lia.
Qed.

(** The search takes the first unused draw, if there is one within the fuel. *)
Lemma emplace_conn_makes fuel rnd i j dcid ctx d e :
  (i <= j < i + fuel)%nat -> conns e !! drawn rnd j = None ->
  (forall scid dc, exists k, make_conn (C := C) scid dc ctx d = Ok k) ->
  exists e' k n, emplace_conn fuel rnd i dcid ctx d e = Ok (e', Made k) /\
    source_cid (cn k) = ConnectionID_random (rnd n) /\ (i <= n <= j)%nat /\ conns e !! drawn rnd n = None /\
    (forall m, (i <= m < n)%nat -> conns e !! drawn rnd m <> None) /\
    e' = emit (with_conns e (<[drawn rnd n := Some k]> (conns e))) [XIoReady (ConnectionID_random (rnd n))].
Proof.
  intros Hj Hn Hmk. revert i Hj. induction fuel as [|fuel IH]; intros i Hj; [lia|]. cbn [emplace_conn].
  fold (drawn rnd i). destruct (conns e !! drawn rnd i) eqn:Hi.
  - assert (i <> j) by (intros ->; congruence). destruct (IH (Datatypes.S i)) as (e' & k & n & He & Hid & Hle & Hu & Hf & Heq); [lia|].
    exists e', k, n. split_and!; try done; try lia. intros m Hm. destruct (decide (m = i)) as [->|]; [congruence|apply Hf; lia].
  - destruct (Hmk (ConnectionID_random (rnd i)) (dcid i)) as [k Hk]. rewrite Hk.
    pose proof (make_conn_fields _ _ _ _ _ Hk) as (Hid & _). do 2 eexists. exists i. split_and!; try done; try lia.
Qed.

(** With fresh draws, one more than the table has entries is enough. *)
Lemma emplace_conn_fresh fuel rnd dcid ctx d e :
  fresh_draws (Datatypes.S (size (conns e))) rnd -> (size (conns e) < fuel)%nat ->
  (forall scid dc, exists k, make_conn (C := C) scid dc ctx d = Ok k) ->
  exists e' k n, emplace_conn fuel rnd 0 dcid ctx d e = Ok (e', Made k) /\
    source_cid (cn k) = ConnectionID_random (rnd n) /\ (n <= size (conns e))%nat /\ conns e !! drawn rnd n = None /\
    (forall m, (m < n)%nat -> conns e !! drawn rnd m <> None) /\
    e' = emit (with_conns e (<[drawn rnd n := Some k]> (conns e))) [XIoReady (ConnectionID_random (rnd n))].
Proof.
  intros Hfr Hfuel Hmk. destruct (unused_draw _ _ e Hfr ltac:(lia)) as (j & Hj & Hn).
  destruct (emplace_conn_makes fuel rnd 0 j dcid ctx d e ltac:(lia) Hn Hmk) as (e' & k & n & He & Hid & Hle & Hu & Hf & Heq).
  exists e', k, n. split_and!; try done; [lia|]. intros m Hm. apply Hf. lia.
Qed.
End fresh.

(** ** Dispatch of received packets *)

Section dispatch.
Context `{NgtcpConsts} {C : Type} `{Ngtcp2Ep C} {S : Type} `{Sender S}.
Implicit Types (e : Endpoint C S).

(** Connections are filed under their own ids and never marked as closing; the draining table is
    a map. *)
Definition ep_inv e : Prop :=
  (forall key k, conns e !! key = Some (Some k) -> cid_key (source_cid (cn k)) = key /\ closing (cn k) = false) /\
  sorted_keys (draining e).

Lemma get_conn_key e id k : ep_inv e -> get_conn id e = Some k -> cid_key (source_cid (cn k)) = cid_key id.
Proof.
  intros [Hk _]. unfold get_conn. destruct (conns e !! cid_key id) as [[k'|]|] eqn:Hf; intros [= <-]. by apply Hk.
Qed.

Lemma send_version_negotiation_conns retry first vid e e' :
  send_version_negotiation retry first vid e = Ok e' -> conns e' = conns e.
Proof.
  unfold send_version_negotiation. destruct (ng_write_version_negotiation first vid versions) as [nw bs].
  destruct (nw <=? 0); [by intros [= <-]|]. intros ([e1 q] & Hs & [= <-])%obind_ok. by apply send_one_frame in Hs as (? & _).
Qed.

(** Dispatch of a received packet.  A packet whose header cannot be decoded, or whose id is too
    long, changes no connection; a packet for a known id touches that connection only; a packet
    for an unknown id is dropped unless the endpoint listens, and then touches only an entry
    that did not exist before. *)
Theorem handle_packet_dispatch fuel rnd retry (first : Z) (fresh : list Z) (now : Z) (pkt : list Z) e e' :
  read_keeps_id (C := C) -> ep_inv e -> handle_packet fuel rnd retry first fresh now pkt e = Ok e' ->
  let '(rv, vid) := ng_decode_version_cid (C := C) pkt in
  if negb (rv =? 0) || (rv =? NGTCP2_ERR_VERSION_NEGOTIATION) || (NGTCP2_MAX_CIDLEN <? v_dcidlen vid)
  then conns e' = conns e
  else exists dcid, ConnectionID_copy fresh (v_dcid vid) (v_dcidlen vid) = Ok dcid /\
    match get_conn dcid e with
    | Some _ => only_touches (cid_key dcid) e e'
    | None => if accepting_inbound e then conns e' = conns e \/ exists key, conns e !! key = None /\ only_touches key e e'
              else e' = e
    end.
Proof.
  intros Hrd Hinv Hh. unfold handle_packet, handle_packet_connid in Hh.
  destruct (ng_decode_version_cid pkt) as [rv vid].
  destruct (rv =? NGTCP2_ERR_VERSION_NEGOTIATION).
  { rewrite orb_true_r. simpl. rewrite obind_assoc in Hh. apply obind_ok in Hh as (e1 & H1' & [= <-]).
    by eapply send_version_negotiation_conns. }
  destruct (negb (rv =? 0)); [by injection Hh as <-|]. simpl.
  destruct (NGTCP2_MAX_CIDLEN <? v_dcidlen vid); [by injection Hh as <-|].
  rewrite obind_assoc in Hh. apply obind_ok in Hh as (dcid & Hd & Hh). cbn [obind] in Hh.
  exists dcid. split; [done|]. destruct (get_conn dcid e) as [k|] eqn:Hg.
  { rewrite <- (get_conn_key e dcid k Hinv Hg). by eapply handle_conn_packet_touches. }
  destruct (accepting_inbound e); [|by injection Hh as <-].
  apply obind_ok in Hh as ([e2 ko] & Hacc & Hh). unfold accept_initial_connection in Hacc.
  destruct (ng_accept pkt) as [arv hdr].
  destruct (arv <? 0); [simplify_eq; by left|]. destruct (hd_type hdr =? NGTCP2_PKT_0RTT); [simplify_eq; by left|].
  destruct (_ && _); [simplify_eq; by left|]. destruct (inbound_ctx e) as [ctx|]; [|done].
  apply obind_ok in Hacc as ([e3 m] & Hem & Hacc). right.
  apply emplace_conn_emplaced in Hem as (key & Hn & Ht & _ & Hm). exists key. split; [done|].
  destruct m as [k|x]; [|done]. injection Hacc as <- <-. simpl in *. destruct Hm as (_ & <- & _).
  etransitivity; [exact Ht|]. by eapply handle_conn_packet_touches.
Qed.

(** C29: connecting ends and disturbs nothing: if the first draws, one more than there are
    connections, are different 20-byte ids, and ngtcp2 and TLS make the connection, the new
    connection is filed under the first drawn id that was not in use; it starts without streams or
    queued packets, its [io_ready] has been signalled, and every other entry of the table, the
    draining table and the socket are unchanged. *)
Theorem connect_fresh fuel (rnd : nat -> list Z) dcid (opts : list opt) creds e :
  fresh_draws (Datatypes.S (size (conns e))) rnd ->
  (size (conns e) < fuel)%nat -> tls_creds (OutboundContext_new opts) = Some creds ->
  (forall scid dcid, (ng_conn_new (C := C) OUTBOUND scid dcid).1 = 0) -> tls_session_fails (C := C) creds OUTBOUND = false ->
  exists e' k n, connect fuel rnd dcid opts e = Ok (e', Made k) /\
    (n <= size (conns e))%nat /\ conns e !! drawn rnd n = None /\ (forall m, (m < n)%nat -> conns e !! drawn rnd m <> None) /\
    source_cid (cn k) = ConnectionID_random (rnd n) /\ conns e' !! drawn rnd n = Some (Some k) /\
    dir (cn k) = OUTBOUND /\ closing (cn k) = false /\ Conn.draining (cn k) = false /\
    streams (cn k) = [] /\ n_packets (cn k) = 0%nat /\ only_touches (drawn rnd n) e e' /\
    draining e' = draining e /\ socket e' = socket e /\ events e' = events e ++ [XIoReady (source_cid (cn k))].
Proof.
  intros Hfr Hfuel Hcr Hnew Htls. unfold connect.
  set (ctx := OutboundContext_new opts) in *. set (e1 := mkEp (socket e) _ (Some ctx) _ _ _ _).
  assert (forall scid dc, exists k, make_conn (C := C) scid dc ctx OUTBOUND = Ok k) as Hmk.
  { intros scid dc. unfold make_conn. specialize (Hnew scid dc). destruct (ng_conn_new OUTBOUND scid dc) as [rv g].
    simpl in Hnew. rewrite Hcr, Hnew, Htls. by eexists. }
  destruct (emplace_conn_fresh fuel rnd dcid ctx OUTBOUND e1 Hfr Hfuel Hmk) as (e' & k & n & Hr & Hid & Hle & Hn & Hfst & He').
  exists e', k, n. rewrite Hr. apply emplace_conn_emplaced in Hr as (key & _ & _ & _ & Hf & Hkey & Hdir & _ & Hcl & Hdr & Hs & Hp).
  rewrite Hid in *. subst e'. cbn in *. split_and!; try done; [apply lookup_insert_eq|].
  intros key' Hne. cbn. by apply lookup_insert_ne.
Qed.
End dispatch.

(** ** Draining and timeouts *)

Section timeouts.
Context `{NgtcpConsts} {C : Type} `{Ngtcp2Ep C} {S : Type} `{Sender S}.
Implicit Types (e : Endpoint C S) (k : conn C).

(** Putting a connection into the draining state: its closing callback runs once and is
    cleared, the entry is marked, and its removal is scheduled three PTOs later; draining it
    again changes nothing. *)
Theorem drain_connection_schedules (now : Z) k e :
  Conn.draining (cn k) = false -> 0 <= now -> 0 <= ng_pto (ng k) -> now + ng_pto (ng k) * 3 < 2 ^ 63 ->
  map_find (now + ng_pto (ng k) * 3) (draining e) = None ->
  let e' := drain_connection now k e in
  exists k', conns e' !! cid_key (source_cid (cn k)) = Some (Some k') /\
    Conn.draining (cn k') = true /\ on_closing (cn k') = None /\ ng k' = ng k /\
    map_find (now + ng_pto (ng k) * 3) (draining e') = Some (source_cid (cn k)) /\
    events e' = events e ++ closing_event (on_closing (cn k)) /\
    forall now', drain_connection now' k' e' = e'.
Proof.
  intros Hd Hnow Hp Hlt Hf. unfold drain_connection at 1. cbn zeta. rewrite Hd. unfold drain_time.
  rewrite u64_add_u64, u64_small, i64_small by (unfold is_u64; lia).
  unfold call_closing. destruct (on_closing (cn k)) as [cb|] eqn:Hcb; cbn; unfold map_emplace; cbn; rewrite Hf; cbn;
    (eexists; split_and!; [by apply lookup_insert_eq|done..|apply map_find_assign_eq|done|done]).
Qed.

(** Two connections drained in the same instant with the same PTO: the second is marked as
    draining, but its removal is not scheduled, since the table is keyed by time and [emplace]
    keeps the first entry. *)
Theorem drain_time_collision (now : Z) k1 k2 e :
  Conn.draining (cn k1) = false -> Conn.draining (cn k2) = false ->
  cid_key (source_cid (cn k1)) <> cid_key (source_cid (cn k2)) ->
  ng_pto (ng k1) = ng_pto (ng k2) -> draining e = [] ->
  let e' := drain_connection now k2 (drain_connection now k1 e) in
  draining e' = [(drain_time now (ng k1), source_cid (cn k1))] /\
  exists k', conns e' !! cid_key (source_cid (cn k2)) = Some (Some k') /\ Conn.draining (cn k') = true.
Proof.
  intros Hd1 Hd2 Hne Hp He. unfold drain_connection, drain_time. cbn zeta. rewrite Hd1, Hd2, <- Hp.
  unfold call_closing. destruct (on_closing (cn k1)), (on_closing (cn k2)); cbn; rewrite He; cbn;
    unfold map_emplace; cbn; rewrite Z.eqb_refl; cbn; (split; [done|]); eexists; (split; [by apply lookup_insert_eq|done]).
Qed.

(** C39: [check_timeouts].  Nothing happens before the first deadline has passed; the only draining
    connection is removed once its deadline has passed; but with two or more draining
    connections and the first deadline passed, the loop goes on to read through the iterator it
    has just erased. *)
Theorem check_timeouts_outcomes (now t : Z) (cid : ConnectionID) (rest : list (Z * ConnectionID)) e :
  draining e = (t, cid) :: rest ->
  (now <= t -> check_timeouts now e = Ok e) /\
  (t < now -> rest = [] -> exists e', check_timeouts now e = Ok e' /\ draining e' = [] /\
     conns e' = base.delete (cid_key cid) (conns e)) /\
  (t < now -> rest <> [] -> check_timeouts now e = Undefined).
Proof.
  intros Hd. unfold check_timeouts. rewrite Hd. cbn [length head fmap option_fmap option_map timeouts_loop fst].
  rewrite bool_decide_false, Hd by (by rewrite Hd). cbn [map_find map_erase]. rewrite Z.eqb_refl. split_and!.
  - intros Ht. by rewrite (proj2 (Z.ltb_ge _ _)).
  - intros Ht ->. rewrite (proj2 (Z.ltb_lt _ _)) by done. by eexists.
  - intros Ht Hr. rewrite (proj2 (Z.ltb_lt _ _)) by done. destruct rest; [done|]. by destruct rest.
Qed.

(** ** Failed connections *)

(** When the TLS session cannot be made, [connect] reports the exception but leaves a null entry
    in the table; closing all connections, or listing those of one direction, then goes through
    the null pointer. *)
Lemma failed_connect_leaves_null fuel rnd dcid (opts : list opt) creds e key :
  conns e = ∅ -> tls_creds (OutboundContext_new opts) = Some creds ->
  (ng_conn_new (C := C) OUTBOUND (ConnectionID_random (rnd 0%nat)) (dcid 0%nat)).1 = 0 ->
  tls_session_fails (C := C) creds OUTBOUND = true -> (0 < fuel)%nat ->
  key = cid_key (ConnectionID_random (rnd 0%nat)) ->
  exists e', connect fuel rnd dcid opts e = Ok (e', MakeThrew runtime_error) /\ conns e' = {[ key := None ]} /\
    (forall retry d, close_conns retry d [key] e' = Undefined) /\
    (forall d, get_all_conns (Some d) [key] e' = Undefined) /\ get_all_conns None [key] e' = Ok [None].
Proof.
  intros He Hcr Hnew Htls Hfuel ->. destruct fuel as [|fuel]; [lia|]. unfold connect. cbn [emplace_conn conns].
  rewrite He, lookup_empty. unfold make_conn. destruct (ng_conn_new _ _ _) as [rv g]. simpl in Hnew.
  rewrite Hcr, Hnew, Htls. cbn. eexists. split; [done|]. cbn. rewrite insert_empty.
  split_and!; try done; intros; by rewrite lookup_singleton_eq.
Qed.
End timeouts.

(** ** Closing *)

Section closing.
Context `{NgtcpConsts} {C : Type} `{Ngtcp2Ep C} {S : Type} `{SenderLaws S}.
Implicit Types (e : Endpoint C S) (k : conn C).

Definition live k : bool := negb (closing (cn k) || Conn.draining (cn k)).

(** A socket that can take a datagram of [max_payload_size]. *)
Definition socket_ready e : Prop :=
  exists s, socket e = Some s /\ snd_good s /\ (1 <= snd_max s)%nat.

(** What ngtcp2 documents of [ngtcp2_conn_write_connection_close] when it succeeds. *)
Definition close_written k (code written : Z) (g : C) (bs : list Z) : Prop :=
  ng_write_connection_close (ng k) code = (g, written, bs) /\ 0 < written <= max_payload_size /\ zlen bs = written.

Lemma payload_buffer_len bs : zlen bs <= max_payload_size -> zlen (payload_buffer bs) = max_payload_size.
Proof. intros Hl. unfold payload_buffer. rewrite zlen_app. unfold zlen at 2. rewrite length_replicate. lia. Qed.

(** The packets a list of events put on the wire, and the callbacks it left waiting. *)
Definition on_wire (l : list ep_event) : list (list Z) :=
  concat (map (fun x => match x with XPacket buf (QDone r) => if success r then [buf] else [] | _ => [] end) l).
Definition to_retry (retry : nat) (l : list ep_event) : list nat :=
  concat (map (fun x => match x with XPacket _ QQueued => [retry] | _ => [] end) l).

(** What became of the socket. *)
Definition wired (retry : nat) (l : list ep_event) e e' : Prop :=
  exists s s', socket e = Some s /\ socket e' = Some s' /\ snd_wire s' = snd_wire s ++ on_wire l /\
    snd_waiting s' = snd_waiting s ++ to_retry retry l.

Lemma wired_nil retry e : socket_ready e -> wired retry [] e e.
Proof. intros (s & Hs & _). exists s, s. by rewrite !app_nil_r. Qed.

Lemma wired_app retry l1 l2 e1 e2 e3 : wired retry l1 e1 e2 -> wired retry l2 e2 e3 -> wired retry (l1 ++ l2) e1 e3.
Proof.
  intros (s1 & s2 & H1' & H2' & Hw & Hq) (s2' & s3 & H3' & H4' & Hw' & Hq'). rewrite H2' in H3'. injection H3' as <-.
  exists s1, s3. unfold on_wire, to_retry in *. rewrite !map_app, !concat_app, Hw', Hw, Hq', Hq, <- !app_assoc. done.
Qed.

Lemma send_one_ready retry buf cb e :
  socket_ready e -> 0 < zlen buf < 2 ^ 16 ->
  exists e' q, send_one retry buf cb e = Ok (e', q) /\ socket_ready e' /\
    (q = QQueued \/ exists r, q = QDone r) /\ wired retry [XPacket buf q] e e'.
Proof.
  intros (s & Hs & Hg & Hm) Hb. unfold send_one. rewrite Hs.
  destruct (send_or_queue_spec s buf 0 cb retry Hg Hm Hb) as (s' & q & -> & Hg' & Hm' & Hcase). cbn [obind].
  assert (socket_ready (emit (with_socket e (Some s')) [XPacket buf q])) as Hr by (exists s'; split_and!; [done..|cbn; lia]).
  destruct Hcase as [(-> & Hw & Hwt)|(r & -> & Hw & Hwt)]; do 2 eexists; (split; [reflexivity|]); (split; [done|]); (split; [by eauto|]);
    exists s, s'; unfold on_wire, to_retry; cbn; rewrite ?app_nil_r; done.
Qed.

Lemma close_connection_sends retry k code e written g bs :
  0 < max_payload_size < 2 ^ 16 -> live k = true -> code <> NGTCP2_ERR_IDLE_CLOSE -> socket_ready e ->
  close_written k code written g bs ->
  exists e' q, close_connection retry k code e = Ok e' /\ socket_ready e' /\ (q = QQueued \/ exists r, q = QDone r) /\
    events e' = events e ++ [XPacket (payload_buffer bs) q] /\
    conns e' = <[cid_key (source_cid (cn k)) := Some (mkC (cn k) g)]> (conns e) /\ draining e' = draining e /\
    wired retry [XPacket (payload_buffer bs) q] e e'.
Proof.
  intros Hm Hl Hc Hr (Hw & Hwr & Hlen). unfold live in Hl. bools.
  unfold close_connection.
  replace (closing (cn k) || Conn.draining (cn k)) with false by (symmetry; apply orb_false_iff; done).
  rewrite (proj2 (Z.eqb_neq _ _)) by done. rewrite Hw.
  rewrite (proj2 (Z.leb_gt _ _)), (proj2 (Z.leb_le _ _)) by lia. cbn [assert_then].
  destruct (send_one_ready retry (payload_buffer bs) true (set_conn (mkC (cn k) g) e))
    as (e' & q & Hs & Hr' & Hq & Hwire); [done|rewrite payload_buffer_len; lia|].
  rewrite Hs. cbn [obind]. destruct (send_one_frame _ _ _ _ _ _ Hs) as (Fc & Fd & Fe). exists e', q.
  destruct Hq as [->|[r ->]]; (split; [done|]); split_and!; eauto.
Qed.

(** Closing a live connection sends one datagram, which begins with the close packet ngtcp2
    wrote but is always [max_payload_size] bytes long, zero-filled after the packet; the
    connection stays in the table and is not marked as closing, so that closing it again sends
    another close packet. *)
Theorem close_packet_padded retry k (code written : Z) (g : C) (bs : list Z) e :
  0 < max_payload_size < 2 ^ 16 -> live k = true -> code <> NGTCP2_ERR_IDLE_CLOSE -> socket_ready e ->
  close_written k code written g bs ->
  exists e' buf q, close_connection retry k code e = Ok e' /\ events e' = events e ++ [XPacket buf q] /\
    zlen buf = max_payload_size /\ ztake written buf = bs /\ (forall b, b ∈ zdrop written buf -> b = 0) /\
    (exists k', conns e' !! cid_key (source_cid (cn k)) = Some (Some k') /\ live k' = true) /\
    (forall s s' r, q = QDone r -> success r = true -> socket e = Some s -> socket e' = Some s' ->
       snd_wire s' = snd_wire s ++ [buf]).
Proof.
  intros Hm Hl Hc Hr Hcw. destruct (close_connection_sends retry k code e written g bs Hm Hl Hc Hr Hcw)
    as (e' & q & Hcl & _ & _ & He & Hcn & _ & Hw). destruct Hcw as (_ & Hwr & Hlen).
  exists e', (payload_buffer bs), q. split_and!; try done.
  - apply payload_buffer_len. lia.
  - unfold payload_buffer, ztake, zlen in *. rewrite take_app_le, firstn_all2 by lia. done.
  - unfold payload_buffer. rewrite zdrop_app_ge by lia. rewrite Hlen, Z.sub_diag, zdrop_0.
    intros b Hb. by apply elem_of_replicate in Hb as [-> _].
  - rewrite Hcn. exists (mkC (cn k) g). by rewrite lookup_insert_eq.
  - intros s s' r -> Hok Hs Hs'. destruct Hw as (s0 & s1 & ? & ? & Hwire & _). simplify_eq.
    rewrite Hwire. unfold on_wire. cbn. by rewrite Hok.
Qed.

(** ** Closing all connections *)

Definition to_close (d : option Direction) e (key : Z * list Z) : bool :=
  match conns e !! key with Some (Some k) => dir_matches d k && live k | _ => false end.

Lemma to_close_frame d key (order : list (Z * list Z)) e e1 :
  only_touches key e e1 -> key ∉ order ->
  filter (fun key => to_close d e1 key = true) order = filter (fun key => to_close d e key = true) order.
Proof.
  intros Ht. induction order as [|key' order IH]; [done|]. intros [Hne Hni]%not_elem_of_cons.
  assert (to_close d e1 key' = to_close d e key') as Heq by (unfold to_close; rewrite Ht; done).
  destruct (to_close d e key') eqn:E.
  - rewrite !filter_cons_True by done. by rewrite IH.
  - rewrite !filter_cons_False by congruence. by apply IH.
Qed.

(** Closing [key] sent [x]: the close packet ngtcp2 wrote for that connection, which was handed to the
    socket: it is waiting for the socket, or the socket has given its answer; the connection
    keeps its entry. *)
Definition closed_one e e' (key : Z * list Z) (x : ep_event) : Prop :=
  exists k written g bs q, conns e !! key = Some (Some k) /\ close_written k NGTCP2_NO_ERROR written g bs /\
    x = XPacket (payload_buffer bs) q /\ (q = QQueued \/ exists r, q = QDone r) /\
    conns e' !! key = Some (Some (mkC (cn k) g)).

(** What closing did to an endpoint: [sent] is the packets with the connections they were written for,
    which are those [to_close] selects in [order], in that order. *)
Definition closed (retry : nat) (d : option Direction) (order : list (Z * list Z)) e e' : Prop :=
  exists sent, map fst sent = filter (fun key => to_close d e key = true) order /\
    events e' = events e ++ map snd sent /\ Forall (fun p => closed_one e e' p.1 p.2) sent /\
    (forall key, key ∉ map fst sent -> conns e' !! key = conns e !! key) /\ draining e' = draining e /\
    wired retry (map snd sent) e e'.

(** ngtcp2 can write a close packet for every connection that is to be closed. *)
Definition closes_written (d : option Direction) (order : list (Z * list Z)) e : Prop :=
  forall key k, key ∈ order -> conns e !! key = Some (Some k) -> to_close d e key = true ->
    exists written g bs, close_written k NGTCP2_NO_ERROR written g bs.

Lemma closed_nil retry d e : socket_ready e -> closed retry d [] e e.
Proof. intros Hr. exists []. cbn. rewrite app_nil_r. split_and!; [done..|by apply wired_nil]. Qed.

(** A connection that need not be closed, and one that is. *)
Lemma closed_skip retry d key order e e' :
  to_close d e key = false -> closed retry d order e e' -> closed retry d (key :: order) e e'.
Proof. intros Ht Hc. unfold closed. rewrite filter_cons_False by congruence. exact Hc. Qed.

Lemma closed_cons retry d key order e e1 e' k written g bs q :
  conns e !! key = Some (Some k) -> to_close d e key = true -> key ∉ order ->
  close_written k NGTCP2_NO_ERROR written g bs -> (q = QQueued \/ exists r, q = QDone r) ->
  events e1 = events e ++ [XPacket (payload_buffer bs) q] -> conns e1 = <[key := Some (mkC (cn k) g)]> (conns e) ->
  draining e1 = draining e -> wired retry [XPacket (payload_buffer bs) q] e e1 ->
  closed retry d order e1 e' -> closed retry d (key :: order) e e'.
Proof.
  intros Hk Htc Hni Hcw Hq He Hc Hd Hw (sent & Hs & Hev & Hall & Hoth & Hdr & Hwd).
  assert (only_touches key e e1) as Ht by (intros key' Hk'; rewrite Hc; by apply lookup_insert_ne).
  rewrite (to_close_frame d key order e e1 Ht Hni) in Hs.
  assert (key ∉ map fst sent) as Hns by (rewrite Hs; intros [_ Hin]%list_elem_of_filter; done).
  exists ((key, XPacket (payload_buffer bs) q) :: sent). cbn [map fst snd]. rewrite filter_cons_True by done. split_and!.
  - by rewrite Hs.
  - by rewrite Hev, He, <- app_assoc.
  - constructor; [exists k, written, g, bs, q; split_and!; try done; cbn; rewrite Hoth by done; rewrite Hc; apply lookup_insert_eq|].
    apply Forall_forall. intros [key' x] Hin. rewrite Forall_forall in Hall.
    destruct (Hall _ Hin) as (k' & w' & g' & bs' & q' & Hk' & Hrest). exists k', w', g', bs', q'. split; [|done].
    cbn in Hk'. rewrite Ht in Hk'; [done|]. intros ->. apply Hns. by apply (list_elem_of_fmap_2 fst) in Hin.
  - intros key' [Hne Hni']%not_elem_of_cons. rewrite Hoth by done. by apply Ht.
  - congruence.
  - by eapply (wired_app retry [_]).
Qed.

(** Closing all connections (or those of one direction) of an endpoint without null entries,
    when ngtcp2 can write a close packet for each: every live connection that matches gets
    exactly one close packet, and no connection is added or removed; the wire has grown by exactly
    the packets the socket took, in order, and each packet the socket had no room for waits
    for it to become writeable. *)
Lemma close_conns_sends_all retry d (order : list (Z * list Z)) e :
  0 < max_payload_size < 2 ^ 16 -> NGTCP2_NO_ERROR <> NGTCP2_ERR_IDLE_CLOSE -> socket_ready e ->
  NoDup order -> (forall key, key ∈ order -> exists k, conns e !! key = Some (Some k)) -> ep_inv e -> closes_written d order e ->
  exists e', close_conns retry d order e = Ok e' /\ closed retry d order e e'.
Proof.
  intros Hm Hne Hr Hnd. revert e Hr. induction Hnd as [|key order Hni Hnd IH]; intros e Hr Hall [Hinv Hsort] Hw.
  { exists e. split; [done|by apply closed_nil]. }
  cbn [close_conns]. destruct (Hall key (list_elem_of_here _ _)) as [k Hk]. rewrite Hk.
  destruct (Hinv key k Hk) as [Hkey Hcl].
  assert (to_close d e key = dir_matches d k && live k) as Htc by (unfold to_close; by rewrite Hk).
  destruct (dir_matches d k && live k) eqn:Edl.
  - destruct (Hw key k (list_elem_of_here _ _) Hk Htc) as (written & g & bs & Hcw). apply andb_prop in Edl as [Ed El]. rewrite Ed.
    destruct (close_connection_sends retry k NGTCP2_NO_ERROR e written g bs Hm El Hne Hr Hcw)
      as (e1 & q & Hcl1 & Hr1 & Hq & He1 & Hcn1 & Hd1 & Hw1). rewrite Hcl1. cbn [obind].
    rewrite Hkey in Hcn1. rewrite Hcn1, lookup_insert_eq.
    destruct (IH e1 Hr1) as (e' & Hc & Hcd).
    + intros key' Hin. rewrite Hcn1, lookup_insert_ne by (by intros ->). apply Hall. by right.
    + split; [|by rewrite Hd1]. intros key' k'. rewrite Hcn1. intros [[<- [= <-]]|[_ ?]]%lookup_insert_Some; eauto.
    + intros key' k' Hin Hk' Ht'. unfold to_close in Ht'. rewrite Hk' in Ht'. rewrite Hcn1 in Hk'.
      rewrite lookup_insert_ne in Hk' by (by intros ->). apply (Hw key'); [by right|done|unfold to_close; by rewrite Hk'].
    + exists e'. split; [done|]. by eapply closed_cons.
  - destruct (IH e Hr) as (e' & Hc & Hcd); [intros key' Hin; apply Hall; by right|done|intros key' k' Hin; apply Hw; by right|].
    exists e'. split; [|by apply closed_skip]. destruct (dir_matches d k); [|done]. cbn [andb] in Edl.
    unfold close_connection, live in *. bools. rewrite Edl. cbn [obind]. by rewrite Hk.
Qed.

(** If ngtcp2 cannot write a close packet for a connection, [close_conns] erases the entry its
    loop is at and then advances the dangling iterator. *)
Theorem close_conns_erases_current retry d (order : list (Z * list Z)) e key k g written bs :
  conns e !! key = Some (Some k) -> cid_key (source_cid (cn k)) = key -> live k = true -> dir_matches d k = true ->
  NGTCP2_NO_ERROR <> NGTCP2_ERR_IDLE_CLOSE ->
  ng_write_connection_close (ng k) NGTCP2_NO_ERROR = (g, written, bs) -> written <= 0 ->
  close_conns retry d (key :: order) e = Undefined.
Proof.
  intros Hk <- Hl Hd Hne Hw Hle. cbn [close_conns]. rewrite Hk, Hd. unfold live in Hl. bools.
  unfold close_connection. replace (closing (cn k) || Conn.draining (cn k)) with false by (symmetry; by apply orb_false_iff).
  rewrite (proj2 (Z.eqb_neq _ _)) by done. rewrite Hw, (proj2 (Z.leb_le _ _)) by done.
  unfold delete_connection. cbn. rewrite lookup_insert_eq. unfold call_closing. cbn.
  destruct (on_closing (cn k)); cbn; by rewrite lookup_delete_eq.
Qed.
End closing.

(** ** The endpoint invariant *)

Section invariant.
Context `{NgtcpConsts} {C : Type} `{Ngtcp2Ep C} {S : Type} `{Sender S}.
Implicit Types (e : Endpoint C S) (k : conn C).

(** Callbacks that run while a packet is read change neither the id nor the closing flag. *)
Definition read_ok : Prop :=
  forall g c pkt, let '(_, c', _, _) := ng_read_pkt g c pkt in source_cid c' = source_cid c /\ closing c' = closing c.

Lemma inv_conns e e' : conns e' = conns e -> draining e' = draining e -> ep_inv e -> ep_inv e'.
Proof. unfold ep_inv. by intros -> ->. Qed.

Lemma inv_set_conn k e : ep_inv e -> closing (cn k) = false -> ep_inv (set_conn k e).
Proof.
  intros [Hk Hs] Hc. split; [|done]. intros key k'. cbn. intros [[<- [= <-]]|[_ ?]]%lookup_insert_Some; eauto.
Qed.

Lemma inv_delete_connection cid e e' : ep_inv e -> delete_connection cid e = Ok e' -> ep_inv e'.
Proof.
  intros [Hk Hs]. unfold delete_connection. destruct (conns e !! cid_key cid) as [[k|]|]; [|done|by intros [= <-]].
  destruct (call_closing (cn k)). intros [= <-]. split; [|done]. cbn. intros key k' [_ ?]%lookup_delete_Some. eauto.
Qed.

Lemma inv_drain now k e : ep_inv e -> closing (cn k) = false -> ep_inv (drain_connection now k e).
Proof.
  intros Hi Hc. unfold drain_connection. destruct (Conn.draining (cn k)); [done|].
  assert (closing (call_closing (cn k)).1 = false) as Hc' by (unfold call_closing; by destruct (on_closing (cn k))).
  destruct (call_closing (cn k)) as [c1 cb]. simpl in Hc'.
  destruct (inv_set_conn (mkC (drain c1) (ng k)) (emit e (closing_event cb))) as [Hk Hs]; [exact Hi|done|].
  split; [exact Hk|]. cbn in *. by apply sorted_emplace.
Qed.

Lemma inv_close_connection retry k code e e' :
  ep_inv e -> close_connection retry k code e = Ok e' -> ep_inv e'.
Proof.
  intros Hi. unfold close_connection. destruct (closing (cn k) || Conn.draining (cn k)) eqn:El; [by intros [= <-]|].
  bools. destruct (code =? NGTCP2_ERR_IDLE_CLOSE); [by apply inv_delete_connection|].
  destruct (ng_write_connection_close (ng k) code) as [[g w] bs].
  assert (ep_inv (set_conn (mkC (cn k) g) e)) as Hi' by (by apply inv_set_conn).
  destruct (w <=? 0); [by apply inv_delete_connection|].
  intros [_ ([e2 q] & Hs & Hr)%obind_ok]%assert_then_ok. destruct (send_one_frame _ _ _ _ _ _ Hs) as (Hc & Hd & _).
  assert (ep_inv e2) as Hi2 by (by eapply inv_conns).
  destruct q as [r| |r|]; try (by injection Hr as <-).
  destruct (failure r); [by eapply inv_delete_connection|by injection Hr as <-].
Qed.

Lemma inv_handle_conn_packet retry now k pkt e e' :
  read_ok -> ep_inv e -> closing (cn k) = false -> handle_conn_packet retry now k pkt e = Ok e' -> ep_inv e'.
Proof.
  intros Hrd Hi Hc. unfold handle_conn_packet. destruct (ng_in_closing_period (ng k)); [by apply inv_delete_connection|].
  intros ([e1 r] & Hr & [= <-])%obind_ok. unfold read_packet in Hr.
  specialize (Hrd (ng k) (cn k) pkt). destruct (ng_read_pkt (ng k) (cn k) pkt) as [[[g c] eff] rv].
  destruct Hrd as [_ Hc']. apply obind_ok in Hr as (e2 & H2' & [= <- <-]).
  set (e0 := emit (set_conn (mkC c g) e) _) in H2'.
  assert (ep_inv e0) as He0 by (apply (inv_set_conn (mkC c g) e Hi); cbn; congruence).
  destruct (rv =? 0); [by injection H2' as <-|].
  destruct (rv =? NGTCP2_ERR_DRAINING); [injection H2' as <-; apply inv_drain; [done|cbn; congruence]|].
  destruct (rv =? NGTCP2_ERR_PROTO); [by eapply inv_close_connection|].
  destruct (rv =? NGTCP2_ERR_DROP_CONN); [by eapply inv_delete_connection|].
  destruct (rv =? NGTCP2_ERR_CRYPTO); [by eapply inv_delete_connection|by eapply inv_close_connection].
Qed.

Lemma inv_emplaced ctx d e e' m : ep_inv e -> emplaced ctx d e (e', m) -> ep_inv e'.
Proof.
  intros [Hk Hs] (key & Hn & Ht & Hd & Hm). cbn in *. split; [|by rewrite Hd]. intros key' k' Hf.
  destruct (decide (key' = key)) as [->|Hne]; [|rewrite Ht in Hf by done; eauto].
  destruct m as [k|x]; [destruct Hm as (Hm & <- & _ & _ & ? & _)|]; simplify_eq. done.
Qed.

Lemma inv_handle_packet fuel rnd retry first fresh now pkt e e' :
  read_ok -> ep_inv e -> handle_packet fuel rnd retry first fresh now pkt e = Ok e' -> ep_inv e'.
Proof.
  intros Hrd Hi ([e1 o] & H1' & Hr)%obind_ok. unfold handle_packet_connid, send_version_negotiation in H1'.
  destruct (ng_decode_version_cid pkt) as [rv vid].
  assert (ep_inv e1) as Hi1.
  { destruct (rv =? NGTCP2_ERR_VERSION_NEGOTIATION).
    - apply obind_ok in H1' as (e2 & H2' & [= <- <-]).
      destruct (ng_write_version_negotiation first vid versions) as [nw bs]. destruct (nw <=? 0); [by injection H2' as <-|].
      apply obind_ok in H2' as ([e3 q] & (Hc & Hd & _)%send_one_frame & [= <-]). by eapply inv_conns.
    - destruct (negb (rv =? 0)); [by simplify_eq|]. destruct (NGTCP2_MAX_CIDLEN <? v_dcidlen vid); [by simplify_eq|].
      apply obind_ok in H1' as (? & _ & [= <- <-]). done. }
  destruct o as [dcid|]; [|by injection Hr as <-]. destruct (get_conn dcid e1) as [k|] eqn:Hg.
  - eapply inv_handle_conn_packet; [done..| |done]. unfold get_conn in Hg.
    destruct (conns e1 !! cid_key dcid) as [[k'|]|] eqn:Hf; simplify_eq. by eapply Hi1.
  - destruct (accepting_inbound e1); [|by injection Hr as <-]. apply obind_ok in Hr as ([e2 ko] & Ha & Hr).
    unfold accept_initial_connection in Ha. destruct (ng_accept pkt) as [arv hdr].
    destruct (arv <? 0); [by simplify_eq|]. destruct (hd_type hdr =? NGTCP2_PKT_0RTT); [by simplify_eq|].
    destruct (_ && _); [by simplify_eq|]. destruct (inbound_ctx e1) as [ctx|]; [|done].
    apply obind_ok in Ha as ([e3 m] & Hem%emplace_conn_emplaced & Ha).
    pose proof (inv_emplaced _ _ _ _ _ Hi1 Hem) as Hi3. destruct m as [k|x]; [|done]. simplify_eq.
    eapply inv_handle_conn_packet; [done..| |done]. by destruct Hem as (? & _ & _ & _ & _ & _ & _ & _ & ? & _).
Qed.

End invariant.

(** ** A worked example *)

(** A toy ngtcp2 whose packets are just the destination id; its state is the PTO. *)
Definition toy_ep (written : Z) (tls_fails : bool) : Ngtcp2Ep Z := {|
  ng_in_closing_period := fun _ => false;
  ng_pto := fun g => g;
  ng_decode_version_cid := fun pkt => (0, mkVid pkt (zlen pkt) [] 0);
  ng_accept := fun _ => (0, mkHd 16 0 (mkCID (replicate 20 1) 20));
  ng_read_pkt := fun g c _ => (g, c, [], 0);
  ng_write_connection_close := fun g _ => (g, written, replicate (Z.to_nat written) 1);
  ng_write_version_negotiation := fun _ _ _ => (1, [5]);
  ng_conn_new := fun _ _ _ => (0, 100);
  tls_session_fails := fun _ _ => tls_fails;
|}.

Definition toy_rnd (i : nat) : list Z := replicate 19 0 ++ [u8 (Z.of_nat i)].

Definition example_ep (k : kernel) : Endpoint Z udp_state :=
  mkEp (Some (example_udp SEND_GSO k)) false None None ∅ [] [].

Definition example_k (i : nat) : conn Z :=
  mkC (mkConn (@ConnectionID_random ngtcp2_consts (toy_rnd i)) empty_context OUTBOUND (Some i) false false [] []
         [] [] 0 0 0) 100.

Definition example_ep2 (k : kernel) : Endpoint Z udp_state :=
  set_conn (example_k 1) (set_conn (example_k 0) (example_ep k)).

Lemma toy_rnd_inj a b :
  (a < 256)%nat -> (b < 256)%nat -> @drawn ngtcp2_consts toy_rnd a = @drawn ngtcp2_consts toy_rnd b -> a = b.
Proof.
  intros Ha Hb. unfold drawn, cid_key. simpl. intros [= E]. unfold u8, wrap in E.
  rewrite !Z.mod_small in E by lia. by apply Nat2Z.inj.
Qed.

(** A generator of different 20-byte ids. *)
Lemma toy_fresh_draws i n : (i + n <= 256)%nat -> @fresh_draws ngtcp2_consts n (fun j => toy_rnd (i + j)).
Proof.
  intros Hn. split.
  - intros a Ha. split; [done|]. unfold toy_rnd. apply Forall_app. split; [apply Forall_replicate; unfold is_u8; lia|].
    constructor; [|constructor]. apply u8_bound.
  - intros a b Ha Hb E. apply (toy_rnd_inj (i + a) (i + b)) in E; lia.
Qed.

Lemma handle_packet_dispatch_witness :
  exists e', @handle_packet ngtcp2_consts _ (toy_ep 30 false) _ _ 9 toy_rnd 1 0 (replicate 20 0) 1000 (toy_rnd 1) (example_ep2 kernel_all) = Ok e' /\
    only_touches (cid_key (mkCID (toy_rnd 1) 20)) (example_ep2 kernel_all) e'.
Proof.
  eexists. split; [vm_compute; reflexivity|].
  pose proof (@handle_packet_dispatch ngtcp2_consts _ (toy_ep 30 false) _ _ 9 toy_rnd 1 0 (replicate 20 0) 1000 (toy_rnd 1)
    (example_ep2 kernel_all)) as Hd.
  destruct (Hd _ ltac:(intros g c pkt; reflexivity)
    ltac:(split; [intros key k; cbn; intros [[<- [= <-]]|[_ [[<- [= <-]]|[_ Hx]]%lookup_insert_Some]]%lookup_insert_Some;
                  [done..|by rewrite lookup_empty in Hx]|constructor])
    ltac:(vm_compute; reflexivity)) as (dcid & Hc & Ht).
  vm_compute in Hc. injection Hc as <-. exact Ht.
Defined.

Lemma connect_fresh_witness :
  exists e' k, @connect ngtcp2_consts _ (toy_ep 30 false) udp_state 3 toy_rnd (fun _ => mkCID [] 0) [OptTls 4] (example_ep2 kernel_all) = Ok (e', Made k) /\
    source_cid (cn k) = mkCID (toy_rnd 2) 20 /\ only_touches (20, toy_rnd 2) (example_ep2 kernel_all) e'.
Proof.
  destruct (@connect_fresh ngtcp2_consts _ (toy_ep 30 false) udp_state 3 toy_rnd (fun _ => mkCID [] 0) [OptTls 4] 4 (example_ep2 kernel_all))
    as (e' & k & n & He & Hle & Hn & _ & Hid & _ & _ & _ & _ & _ & _ & Ht & _).
  - apply (toy_fresh_draws 0). vm_compute. lia.
  - vm_compute. lia.
  - reflexivity.
  - reflexivity.
  - reflexivity.
  - assert (n = 2%nat) as ->; [|by exists e', k].
    vm_compute in Hle. destruct n as [|[|[|n]]]; [by vm_compute in Hn..|done|lia].
Defined.

Lemma drain_connection_schedules_witness :
  exists k', conns (@drain_connection _ (toy_ep 30 false) _ 1000 (example_k 0) (example_ep2 kernel_all))
               !! cid_key (source_cid (cn (example_k 0))) = Some (Some k') /\ Conn.draining (cn k') = true.
Proof.
  destruct (@drain_connection_schedules _ (toy_ep 30 false) udp_state 1000 (example_k 0) (example_ep2 kernel_all))
    as (k' & ? & ? & _); [reflexivity|lia|simpl; lia..|reflexivity|]. by exists k'.
Defined.

Lemma drain_time_collision_witness :
  draining (@drain_connection _ (toy_ep 30 false) _ 1000 (example_k 1)
     (@drain_connection _ (toy_ep 30 false) _ 1000 (example_k 0) (example_ep2 kernel_all)))
  = [(1300, source_cid (cn (example_k 0)))].
Proof.
  refine (proj1 (@drain_time_collision _ (toy_ep 30 false) udp_state 1000 (example_k 0) (example_k 1)
    (example_ep2 kernel_all) _ _ _ _ _)); try reflexivity. vm_compute. congruence.
Defined.

Lemma check_timeouts_outcomes_witness :
  @check_timeouts Z udp_state 5000 (with_draining (example_ep2 kernel_all)
    [(1300, source_cid (cn (example_k 0))); (1301, source_cid (cn (example_k 1)))]) = Undefined.
Proof.
  refine (proj2 (proj2 (check_timeouts_outcomes 5000 1300 (source_cid (cn (example_k 0)))
    [(1301, source_cid (cn (example_k 1)))] (with_draining (example_ep2 kernel_all) _) eq_refl)) _ _); [lia|done].
Defined.

Lemma failed_connect_leaves_null_witness :
  exists e', @connect ngtcp2_consts _ (toy_ep 30 true) udp_state 1 toy_rnd (fun _ => mkCID [] 0) [OptTls 4] (example_ep kernel_all) = Ok (e', MakeThrew runtime_error) /\
    conns e' = {[ cid_key (mkCID (toy_rnd 0) 20) := None ]}.
Proof.
  destruct (@failed_connect_leaves_null ngtcp2_consts _ (toy_ep 30 true) udp_state udp_Sender 1 toy_rnd (fun _ => mkCID [] 0) [OptTls 4] 4
    (example_ep kernel_all) (cid_key (mkCID (toy_rnd 0) 20))) as (e' & ? & ? & _); [reflexivity..|lia|reflexivity|]. by exists e'.
Defined.

Lemma example_socket_ready m : (exists x, m = mkEp (Some (example_udp SEND_GSO kernel_all)) false None None x [] []) ->
  @socket_ready Z udp_state _ m.
Proof. intros [x ->]. eexists. split; [reflexivity|]. split; [exact kernel_all_ok|]. vm_compute. lia. Qed.

Lemma close_packet_padded_witness :
  exists e' buf q, @close_connection ngtcp2_consts _ (toy_ep 30 false) _ _ 5 (example_k 0) 0 (example_ep2 kernel_all) = Ok e' /\
    events e' = events (example_ep2 kernel_all) ++ [XPacket buf q] /\ zlen buf = 1452.
Proof.
  destruct (@close_packet_padded ngtcp2_consts _ (toy_ep 30 false) udp_state _ _ 5 (example_k 0) 0 30 100 (replicate 30 1)
    (example_ep2 kernel_all)) as (e' & buf & q & ? & ? & ? & _).
  - done.
  - reflexivity.
  - done.
  - apply example_socket_ready. by eexists.
  - split_and!; done.
  - by exists e', buf, q.
Defined.

Lemma close_conns_sends_all_witness :
  exists e', @close_conns ngtcp2_consts _ (toy_ep 30 false) _ _ 5 None
     [cid_key (source_cid (cn (example_k 0))); cid_key (source_cid (cn (example_k 1)))] (example_ep2 kernel_all) = Ok e' /\
    length (events e') = 2%nat.
Proof.
  destruct (@close_conns_sends_all ngtcp2_consts _ (toy_ep 30 false) udp_state _ _ 5 None
     [cid_key (source_cid (cn (example_k 0))); cid_key (source_cid (cn (example_k 1)))] (example_ep2 kernel_all))
    as (e' & He & sent & Hs & Hev & _).
  - done.
  - done.
  - apply example_socket_ready. by eexists.
  - apply (bool_decide_unpack _). vm_compute. exact I.
  - intros key [->|[->|[]%not_elem_of_nil]%elem_of_cons]%elem_of_cons; eexists; vm_compute; reflexivity.
  - split; [|constructor]. intros key k. cbn. intros [[<- [= <-]]|[_ [[<- [= <-]]|[_ Hx]]%lookup_insert_Some]]%lookup_insert_Some;
      [done..|by rewrite lookup_empty in Hx].
  - intros key k _ _ _. exists 30, (ng k), (replicate 30 1). split_and!; done.
  - exists e'. split; [exact He|]. rewrite Hev. cbn. rewrite length_map, <- (length_map fst), Hs. vm_compute. reflexivity.
Defined.

Lemma close_conns_erases_current_witness :
  @close_conns ngtcp2_consts _ (toy_ep (-1) false) _ udp_Sender 5 None [cid_key (source_cid (cn (example_k 0)))] (example_ep2 kernel_all) = Undefined.
Proof.
  apply (@close_conns_erases_current ngtcp2_consts _ (toy_ep (-1) false) udp_state _ 5 None [] (example_ep2 kernel_all) _
           (example_k 0) 100 (-1) []); try (vm_compute; reflexivity); [done|lia].
Defined.
