(* ===== verification/Network.v ===== *)
(** * Network: the job queue and shutdown

    Models include/quic/network.hpp and src/network.cpp.  [call_soon] is two atomic steps of the
    calling thread (the locked push, then [event_active]); the event loop thread enters the
    waker's callback (which makes the event inactive), swaps the queue under the lock, and runs
    the jobs one by one.  Steps of different threads interleave freely. *)
From S2P Require Import Prelude Utils.
Import Addr.

(** The job of [close] captured a reference to the parameter [graceful] in the frame of [close] on the
    thread [owner]. *)
Inductive job :=
  | JUser (id : nat)
  | JClose (prom : nat) (owner : nat) (graceful : bool).

(** The state of [process_job_queue]. *)
Inductive phase := Idle | Entered | Running (swapped : list job).

Inductive nevent :=
  | NRan (id : nat)           (* a job of the user *)
  | NCloseConns (ep : nat)    (* Endpoint::close_conns *)
  | NLoopExit                 (* event_base_loopexit *)
  | NFulfilled (prom : nat).  (* promise::set_value *)
#[export] Instance nevent_eq_dec : EqDecision nevent.
Proof. solve_decision. Defined.

Module Net.
Record Network := mkNet {
  loop_thread_id : nat;
  has_loop_thread : bool;
  running : bool;
  endpoint_map : list (Address * option nat);
  job_queue : list job;
  job_waker : bool;                 (* is the event active? *)
  pushing : list nat;               (* threads between the push and event_active *)
  loop_phase : phase;
  nlog : list nevent;
  pushed : list job;                (* all jobs ever queued, in order *)
  executed : list job;              (* all queued jobs run so far, in order *)
  close_frame : option nat;         (* the thread whose frame of close, with its lambda, is live *)
}.

Definition with_queue n q w p ph pu ex :=
  mkNet (loop_thread_id n) (has_loop_thread n) (running n) (endpoint_map n) q w p ph (nlog n) pu ex (close_frame n).
Definition with_world n r m l :=
  mkNet (loop_thread_id n) (has_loop_thread n) r m (job_queue n) (job_waker n) (pushing n) (loop_phase n)
    l (pushed n) (executed n) (close_frame n).
Definition with_frame n f :=
  mkNet (loop_thread_id n) (has_loop_thread n) (running n) (endpoint_map n) (job_queue n) (job_waker n) (pushing n) (loop_phase n)
    (nlog n) (pushed n) (executed n) f.

Definition in_event_loop (tid : nat) (n : Network) : bool := (tid =? loop_thread_id n)%nat.

(** [call_soon]: the locked section, and the wakeup. *)
Definition call_soon_push (tid : nat) (j : job) (n : Network) : Network :=
  with_queue n (job_queue n ++ [j]) (job_waker n) (tid :: pushing n) (loop_phase n) (pushed n ++ [j]) (executed n).
Definition remove_one (tid : nat) (l : list nat) : list nat :=
  match list_find (fun t => t = tid) l with Some (i, _) => base.delete i l | None => l end.
Definition call_soon_wake (tid : nat) (n : Network) : Network :=
  with_queue n (job_queue n) true (remove_one tid (pushing n)) (loop_phase n) (pushed n) (executed n).

(** [close_final]. *)
Definition close_final (prom : nat) (n : Network) : Network :=
  with_world n (running n) []
    (nlog n ++ (if has_loop_thread n then [NLoopExit] else []) ++ [NFulfilled prom]).

(** [close_all], which runs at once, since it is called on the event loop. *)
Fixpoint close_endpoints (m : list (Address * option nat)) : outcome (list nevent) :=
  match m with
  | [] => Ok []
  | (_, None) :: _ => Undefined
  | (_, Some ep) :: m' => let* l := close_endpoints m' in Ok (NCloseConns ep :: l)
  end.
Definition close_all (prom : nat) (n : Network) : outcome Network :=
  let* l := close_endpoints (endpoint_map n) in
  Ok (close_final prom (with_world n (running n) (endpoint_map n) (nlog n ++ l))).

(** Running a job; the lambda of [close] reads [graceful] only if there are endpoints, through the
    reference to the frame of [close]. *)
Definition run_job (j : job) (n : Network) : outcome Network :=
  match j with
  | JUser id => Ok (with_world n (running n) (endpoint_map n) (nlog n ++ [NRan id]))
  | JClose prom owner graceful =>
      if bool_decide (endpoint_map n = []) then Ok (close_final prom n)
      else
        if bool_decide (close_frame n = Some owner)
        then (if graceful then close_all prom n else Ok (close_final prom n)) else Undefined
  end.

(** [call]. *)
Definition call (tid : nat) (j : job) (n : Network) : outcome Network :=
  if in_event_loop tid n then run_job j n else Ok (call_soon_push tid j n).

(** [close]: its frame is live from here on; on the event loop the lambda has run when [close] returns, on
    another thread [close_returns] ends the frame, once [call_soon] is done. *)
Definition close (tid prom : nat) (graceful : bool) (n : Network) : outcome Network :=
  if negb (running n) then Ok (with_world n (running n) (endpoint_map n) (nlog n ++ [NFulfilled prom]))
  else
    let* n' := call tid (JClose prom tid graceful) (with_frame (with_world n false (endpoint_map n) (nlog n)) (Some tid)) in
    Ok (if in_event_loop tid n then with_frame n' None else n').
Definition close_returns (n : Network) : Network := with_frame n None.

(** The event loop enters the waker's callback; [process_job_queue] swaps, runs one job, ends. *)
Definition waker_fires (n : Network) : Network :=
  with_queue n (job_queue n) false (pushing n) Entered (pushed n) (executed n).
Definition process_swap (n : Network) : Network :=
  with_queue n [] (job_waker n) (pushing n) (Running (job_queue n)) (pushed n) (executed n).
Definition process_one (j : job) (rest : list job) (n : Network) : outcome Network :=
  run_job j (with_queue n (job_queue n) (job_waker n) (pushing n) (Running rest) (pushed n) (executed n ++ [j])).
Definition process_end (n : Network) : Network :=
  with_queue n (job_queue n) (job_waker n) (pushing n) Idle (pushed n) (executed n).

(** [Network::endpoint]: [make] is the result of [Endpoint]'s constructor.  [emplace] comes first,
    so that an exception leaves a null entry. *)
Fixpoint map_lookup (a : Address) (m : list (Address * option nat)) : option (option nat) :=
  match m with
  | [] => None
  | (b, v) :: m' => if Address_eqb a b then Some v else map_lookup a m'
  end.
Definition endpoint (a : Address) (make : outcome nat) (n : Network) : Network * outcome (option nat) :=
  match map_lookup a (endpoint_map n) with
  | Some v => (n, Ok v)
  | None =>
      match make with
      | Ok ep => (with_world n (running n) (endpoint_map n ++ [(a, Some ep)]) (nlog n), Ok (Some ep))
      | Throw x => (with_world n (running n) (endpoint_map n ++ [(a, None)]) (nlog n), Throw x)
      | AssertFail => (n, AssertFail)
      | Undefined => (n, Undefined)
      | OutOfFuel => (n, OutOfFuel)
      end
  end.

(** Interleavings of any number of threads with the event loop. *)
Inductive net_step : Network -> Network -> Prop :=
  | net_push tid id n : net_step n (call_soon_push tid (JUser id) n)
  | net_wake tid n : tid ∈ pushing n -> net_step n (call_soon_wake tid n)
  | net_close tid prom g n n' : close tid prom g n = Ok n' -> net_step n n'
  | net_endpoint a make n : net_step n (endpoint a make n).1
  | net_fire n : loop_phase n = Idle -> job_waker n = true -> net_step n (waker_fires n)
  | net_swap n : loop_phase n = Entered -> net_step n (process_swap n)
  | net_run j rest n n' : loop_phase n = Running (j :: rest) -> process_one j rest n = Ok n' -> net_step n n'
  | net_end n : loop_phase n = Running [] -> net_step n (process_end n)
  | net_return tid n : close_frame n = Some tid -> tid ∉ pushing n -> net_step n (close_returns n).

Definition network_new (tid : nat) (owned : bool) : Network :=
  mkNet tid owned true [] [] false [] Idle [] [] [] None.
End Net.
Export Net.

(** ** The queue *)

(** Jobs between the queue and their execution. *)
Definition in_loop (p : phase) : list job := match p with Running l => l | _ => [] end.

(** Every queued job is executed, being executed or in the queue, once and in order; and a
    non-empty queue has a wakeup on its way. *)
Definition queue_inv (n : Network) : Prop :=
  pushed n = executed n ++ in_loop (loop_phase n) ++ job_queue n /\
  (job_queue n <> [] -> job_waker n = true \/ pushing n <> [] \/ loop_phase n = Entered).

Lemma run_job_queue j n n' :
  run_job j n = Ok n' ->
  job_queue n' = job_queue n /\ job_waker n' = job_waker n /\ pushing n' = pushing n /\
  loop_phase n' = loop_phase n /\ pushed n' = pushed n /\ executed n' = executed n /\
  (endpoint_map n = [] -> endpoint_map n' = []).
Proof.
  destruct j as [id|prom owner g]; cbn [run_job]; [by intros [= <-]|].
  destruct (bool_decide (endpoint_map n = [])); [by intros [= <-]|].
  destruct (bool_decide (close_frame n = Some owner)); [|done].
  destruct g; [|by intros [= <-]]. by intros (l & _ & [= <-])%obind_ok.
Qed.

Lemma queue_inv_push tid j n : queue_inv n -> queue_inv (call_soon_push tid j n).
Proof. intros [H1 _]. split; cbn; [|by auto]. by rewrite H1, <- !app_assoc. Qed.

Lemma endpoint_queue a make n :
  let n' := (endpoint a make n).1 in
  job_queue n' = job_queue n /\ job_waker n' = job_waker n /\ pushing n' = pushing n /\
  loop_phase n' = loop_phase n /\ pushed n' = pushed n /\ executed n' = executed n /\
  running n' = running n /\ nlog n' = nlog n /\ has_loop_thread n' = has_loop_thread n.
Proof. unfold endpoint. destruct (map_lookup _ _); [done|]. by destruct make. Qed.

(** What [close] does while the network runs: the lambda runs at once, or is queued. *)
Lemma close_running tid prom g n n' :
  running n = true -> close tid prom g n = Ok n' ->
  let n0 := with_frame (with_world n false (endpoint_map n) (nlog n)) (Some tid) in
  (in_event_loop tid n = true /\ exists n1, run_job (JClose prom tid g) n0 = Ok n1 /\ n' = with_frame n1 None) \/
  (in_event_loop tid n = false /\ n' = call_soon_push tid (JClose prom tid g) n0).
Proof.
  intros Hr Hc. unfold close in Hc. rewrite Hr in Hc. cbn [negb] in Hc. apply obind_ok in Hc as (n1 & Hc & [= <-]).
  unfold call in Hc. change (in_event_loop tid (with_frame _ _)) with (in_event_loop tid n) in Hc.
  destruct (in_event_loop tid n); [left|right]; [eauto|]. by injection Hc as <-.
Qed.

Lemma queue_inv_step n n' : queue_inv n -> net_step n n' -> queue_inv n'.
Proof.
  intros Hi Hst. pose proof Hi as [H1 H2].
  destruct Hst as [tid id n|tid n Ht|tid prom g n n' Hc|a make n|n Hp Hw|n Hp|j rest n n' Hp Hr|n Hp|tid n _ _]; [..|done].
  - by apply queue_inv_push.
  - split; cbn; auto.
  - destruct (running n) eqn:Er; [|unfold close in Hc; rewrite Er in Hc; injection Hc as <-; done].
    destruct (close_running _ _ _ _ _ Er Hc) as [(_ & n1 & Hr & ->)|(_ & ->)]; [|by apply queue_inv_push].
    apply run_job_queue in Hr as (E1 & E2 & E3 & E4 & E5 & E6 & _). unfold queue_inv. cbn. by rewrite E1, E2, E3, E4, E5, E6.
  - destruct (endpoint_queue a make n) as (E1 & E2 & E3 & E4 & E5 & E6 & _). unfold queue_inv. by rewrite E1, E2, E3, E4, E5, E6.
  - split; cbn; [by rewrite Hp in H1|auto].
  - split; cbn; [|done]. rewrite Hp in H1. cbn in H1. by rewrite app_nil_r.
  - apply run_job_queue in Hr as (E1 & E2 & E3 & E4 & E5 & E6 & _). unfold queue_inv. rewrite E1, E2, E3, E4, E5, E6.
    cbn. rewrite Hp in H1, H2. split; [by rewrite H1, <- app_assoc|]. intros Hq. destruct (H2 Hq) as [?|[?|?]]; auto.
  - split; cbn; [by rewrite Hp in H1|]. rewrite Hp in H2. intros Hq. destruct (H2 Hq) as [?|[?|?]]; auto.
Qed.

Lemma queue_inv_reachable tid owned n : rtc net_step (network_new tid owned) n -> queue_inv n.
Proof.
  intros Hr. assert (queue_inv (network_new tid owned)) as Hi by done. revert Hi.
  induction Hr as [|n1 n2 n3 Hst _ IH]; [done|]. intros Hi. apply IH. by eapply queue_inv_step.
Qed.

(** C12: the job queue hands over exactly once and in order, under every interleaving of callers
    with the event loop: the jobs run so far are a prefix of the jobs queued so far; and there
    is no lost wakeup: once no caller is between its push and its wakeup, no event is active and
    the loop is idle, every job has run. *)
Theorem job_queue_fifo (tid : nat) (owned : bool) (n : Network) :
  rtc net_step (network_new tid owned) n ->
  executed n `prefix_of` pushed n /\
  (pushing n = [] -> job_waker n = false -> loop_phase n = Idle -> executed n = pushed n).
Proof.
  intros Hr. destruct (queue_inv_reachable _ _ _ Hr) as [H1 H2].
  split; [rewrite H1; by eexists|]. intros Hp Hw Hl. rewrite Hl in *. cbn in *.
  destruct (job_queue n) as [|j q]; [by rewrite app_nil_r in H1|].
  destruct (H2 ltac:(done)) as [?|[?|?]]; congruence.
Qed.

Lemma job_queue_fifo_witness :
  exists n, rtc net_step (network_new 1 true) n /\ executed n `prefix_of` pushed n /\ length (executed n) = 1%nat /\
    length (pushed n) = 2%nat.
Proof.
  pose (n2 := call_soon_wake 7 (call_soon_push 7 (JUser 5) (network_new 1 true))).
  assert (exists n, process_one (JUser 5) [] (call_soon_push 8 (JUser 6) (process_swap (waker_fires n2))) = Ok n /\
            length (executed n) = 1%nat /\ length (pushed n) = 2%nat) as (n & Hn & H1 & H2)
    by (eexists; split_and!; vm_compute; reflexivity).
  assert (rtc net_step (network_new 1 true) n) as Hr.
  { eapply rtc_l; [apply (net_push 7 5)|]. eapply rtc_l; [apply (net_wake 7); left|].
    eapply rtc_l; [apply net_fire; reflexivity|]. eapply rtc_l; [apply net_swap; reflexivity|].
    eapply rtc_l; [apply (net_push 8 6)|]. eapply rtc_l; [|apply rtc_refl]. by eapply (net_run (JUser 5) []). }
  exists n. split; [exact Hr|]. split_and!; [exact (proj1 (job_queue_fifo 1 true n Hr))|done..].
Defined.

(** ** Progress *)

(** Has the loop been told to exit?  It then finishes what it is doing, but need not look at its
    events again. *)
Definition loop_exited (n : Network) : bool := bool_decide (NLoopExit ∈ nlog n).

(** Steps that finish what was begun: callers that still have to wake the loop or to return from
    [close], and the loop. *)
Inductive loop_step : Network -> Network -> Prop :=
  | loop_wake tid n : tid ∈ pushing n -> loop_step n (call_soon_wake tid n)
  | loop_return tid n : close_frame n = Some tid -> tid ∉ pushing n -> loop_step n (close_returns n)
  | loop_fire n : loop_exited n = false -> loop_phase n = Idle -> job_waker n = true -> loop_step n (waker_fires n)
  | loop_swap n : loop_phase n = Entered -> loop_step n (process_swap n)
  | loop_run j rest n n' : loop_phase n = Running (j :: rest) -> process_one j rest n = Ok n' -> loop_step n n'
  | loop_end n : loop_phase n = Running [] -> loop_step n (process_end n).

Lemma loop_net_step n n' : loop_step n n' -> net_step n n'.
Proof. intros []; by econstructor. Qed.

Lemma loop_net_steps n n' : rtc loop_step n n' -> rtc net_step n n'.
Proof. apply rtc_subrel. exact loop_net_step. Qed.

(** What is left to do: each of these steps makes it less, so that every run of them ends. *)
Definition weight (n : Network) : nat :=
  5 * length (pushing n) + (if job_waker n then 4 else 0) + length (job_queue n) +
  (if close_frame n then 1 else 0) +
  match loop_phase n with Idle => 0 | Entered => 3 | Running l => 1 + length l end.

Lemma remove_one_length tid l : tid ∈ l -> length l = S (length (remove_one tid l)).
Proof.
  intros Hin. unfold remove_one. destruct (list_find_elem_of (fun t => t = tid) l tid Hin eq_refl) as [[i x] Hf]. rewrite Hf.
  apply list_find_Some in Hf as (Hl & _). pose proof (length_delete l i (mk_is_Some _ _ Hl)). apply lookup_lt_Some in Hl. lia.
Qed.

Lemma run_job_frame j n n' : run_job j n = Ok n' -> close_frame n' = close_frame n.
Proof.
  destruct j as [id|prom owner g]; cbn [run_job]; [by intros [= <-]|].
  destruct (bool_decide (endpoint_map n = [])); [by intros [= <-]|].
  destruct (bool_decide (close_frame n = Some owner)); [|done].
  destruct g; [|by intros [= <-]]. by intros (l & _ & [= <-])%obind_ok.
Qed.

Lemma loop_step_weight n n' : loop_step n n' -> (weight n' < weight n)%nat.
Proof.
  unfold weight. intros [tid m Ht|tid m Hf _|m Hx Hp Hw|m Hp|j rest m m' Hp Hr|m Hp].
  - cbn. rewrite (remove_one_length _ _ Ht). destruct (job_waker m), (close_frame m); lia.
  - cbn. rewrite Hf. lia.
  - cbn. rewrite Hp, Hw. destruct (close_frame m); lia.
  - cbn. rewrite Hp. destruct (job_waker m), (close_frame m); lia.
  - pose proof (run_job_frame _ _ _ Hr) as Ef. apply run_job_queue in Hr as (E1 & E2 & E3 & E4 & _). rewrite E1, E2, E3, E4, Ef, Hp. cbn.
    destruct (job_waker m), (close_frame m); lia.
  - cbn. rewrite Hp. destruct (job_waker m), (close_frame m); cbn; lia.
Qed.

Lemma loop_terminates n : sn loop_step n.
Proof.
  remember (weight n) as w eqn:Hw. revert n Hw. induction w as [w IH] using (well_founded_induction lt_wf). intros n ->.
  constructor. intros n' Hst. eapply IH; [|done]. by apply loop_step_weight.
Qed.

Definition is_user (j : job) : bool := match j with JUser _ => true | _ => false end.

(** The jobs that are still to run, in order. *)
Definition outstanding (n : Network) : list job := in_loop (loop_phase n) ++ job_queue n.

(** What a step of the loop does to them: nothing, or the first is run. *)
Lemma loop_step_cases n n' :
  loop_step n n' ->
  (outstanding n' = outstanding n /\ executed n' = executed n /\ nlog n' = nlog n /\ endpoint_map n' = endpoint_map n /\
   (close_frame n = None -> close_frame n' = None)) \/
  (exists j n0, outstanding n = j :: outstanding n' /\ executed n' = executed n ++ [j] /\ run_job j n0 = Ok n' /\
     nlog n0 = nlog n /\ endpoint_map n0 = endpoint_map n /\ close_frame n0 = close_frame n).
Proof.
  unfold outstanding. intros [tid m Ht|tid m Hf _|m Hx Hp Hw|m Hp|j rest m m' Hp Hr|m Hp]; [by left..| | | |].
  - left. cbn. by rewrite Hp.
  - left. cbn. rewrite Hp. cbn. by rewrite app_nil_r.
  - right. exists j, (with_queue m (job_queue m) (job_waker m) (pushing m) (Running rest) (pushed m) (executed m ++ [j])).
    pose proof Hr as Hr'. apply run_job_queue in Hr' as (E1 & _ & _ & E4 & _ & E6 & _). rewrite E1, E4, E6, Hp. done.
  - left. cbn. by rewrite Hp.
Qed.

Lemma loop_pushed n n' : rtc loop_step n n' -> pushed n' = pushed n.
Proof.
  induction 1 as [|n1 n2 n3 Hst _ IH]; [done|]. rewrite IH. destruct Hst; try done.
  match goal with Hr : process_one _ _ _ = Ok _ |- _ => by apply run_job_queue in Hr as (_ & _ & _ & _ & ? & _) end.
Qed.

Lemma loop_can_step n : (exists n', loop_step n n') \/ nf loop_step n.
Proof.
  destruct (pushing n) as [|t ts] eqn:Ht; [|left; exists (call_soon_wake t n); apply loop_wake; rewrite Ht; left].
  destruct (close_frame n) as [t|] eqn:Hf.
  { left. exists (close_returns n). apply (loop_return t); [done|]. rewrite Ht. by intros ?%elem_of_nil. }
  assert (forall tid, tid ∈ pushing n -> False) as Hnp by (intros tid; rewrite Ht; by intros ?%elem_of_nil).
  destruct (loop_phase n) as [| |[|j rest]] eqn:Hl; [|left; eexists; by apply loop_swap|left; eexists; by apply loop_end|].
  - destruct (job_waker n && negb (loop_exited n)) eqn:E; bools; [left; eexists; by apply loop_fire|].
    right. intros [n' Hst]. destruct Hst; [by eapply Hnp|congruence| |congruence..].
    match goal with Hx : loop_exited _ = false, Hw : job_waker _ = true |- _ => by rewrite Hx, Hw in E end.
  - destruct (process_one j rest n) as [n'| | | |] eqn:Hr; [left; exists n'; by eapply loop_run|..];
      (right; intros [n' Hst]; destruct Hst; [by eapply Hnp|congruence..]).
Qed.

(** A run of the loop that has to end does end. *)
Lemma sn_ends n : sn loop_step n -> exists n', rtc loop_step n n' /\ nf loop_step n'.
Proof.
  induction 1 as [n _ IH]. destruct (loop_can_step n) as [[n' Hst]|Hno]; [|by exists n].
  destruct (IH n' Hst) as (n2 & Hs & Hnf). exists n2. split; [by eapply rtc_l|done].
Qed.

Lemma user_run j n n' : is_user j = true -> run_job j n = Ok n' -> loop_exited n' = loop_exited n /\ endpoint_map n' = endpoint_map n.
Proof.
  destruct j as [id|]; [|done]. intros _ [= <-]. split; [|done]. unfold loop_exited. cbn.
  apply bool_decide_ext. rewrite elem_of_app. split; [|by left]. intros [?|?%list_elem_of_singleton]; done.
Qed.

Lemma runnable j n : endpoint_map n = [] \/ is_user j = true -> exists n', run_job j n = Ok n'.
Proof.
  destruct j as [id|prom o g]; cbn [run_job is_user]; [by eexists|]. intros [He|]; [|done]. rewrite bool_decide_true by done. by eexists.
Qed.

(** Where only a job can still be run: the callers are done, and the loop waits or is at a job. *)
Lemma loop_at_job n :
  (forall n', loop_step n n' -> executed n' <> executed n) ->
  pushing n = [] /\ close_frame n = None /\
  ((loop_phase n = Idle /\ (job_waker n = true -> loop_exited n = true)) \/ exists j rest, loop_phase n = Running (j :: rest)).
Proof.
  intros Hno. assert (pushing n = []) as Hp.
  { destruct (pushing n) as [|t ts] eqn:Ht; [done|]. destruct (Hno (call_soon_wake t n)); [|done]. apply loop_wake. rewrite Ht. left. }
  split; [done|]. split.
  { destruct (close_frame n) as [t|] eqn:Hf; [|done]. destruct (Hno (close_returns n)); [|done].
    apply (loop_return t); [done|]. rewrite Hp. by intros ?%elem_of_nil. }
  destruct (loop_phase n) as [| |[|j rest]] eqn:Hl; [..|right; by eauto].
  - left. split; [done|]. intros Hw. destruct (loop_exited n) eqn:Hx; [done|]. destruct (Hno (waker_fires n)); [|done]. by apply loop_fire.
  - destruct (Hno (process_swap n)); [|done]. by apply loop_swap.
  - destruct (Hno (process_end n)); [|done]. by apply loop_end.
Qed.

(** Where a run of the loop can end: there, with a job that it cannot run. *)
Lemma loop_stuck n :
  nf loop_step n ->
  pushing n = [] /\ close_frame n = None /\
  ((loop_phase n = Idle /\ (job_waker n = true -> loop_exited n = true)) \/
   exists j rest, loop_phase n = Running (j :: rest) /\ forall n', process_one j rest n <> Ok n').
Proof.
  intros Hnf. assert (forall n', loop_step n n' -> False) as Hno by (intros n' Hst; apply Hnf; by eexists).
  destruct (loop_at_job n) as (Hp & Hf & Hcase); [intros n' Hst _; by eapply Hno|]. split_and!; [done..|].
  destruct Hcase as [?|(j & rest & Hl)]; [by left|right]. exists j, rest. split; [done|]. intros n' Hn'. apply (Hno n'). by eapply loop_run.
Qed.

(** The loop will run all of the outstanding jobs: only the last can make it exit, and all can be
    run. *)
Definition will_drain (n : Network) : Prop :=
  outstanding n = [] \/
  (loop_exited n = false /\ forallb is_user (removelast (outstanding n)) = true /\
   (endpoint_map n = [] \/ forallb is_user (outstanding n) = true)).

Lemma will_drain_step n n' : will_drain n -> loop_step n n' -> will_drain n'.
Proof.
  unfold will_drain. intros Hd Hst. destruct (loop_step_cases _ _ Hst) as [(Ho & _ & Hl & He & _)|(j & n0 & Ho & _ & Hr & Hl & He & _)].
  { unfold loop_exited in *. by rewrite Ho, Hl, He. }
  rewrite Ho in Hd. destruct (outstanding n') as [|j' o] eqn:Ho'; [by left|]. right.
  destruct Hd as [|(Hx & Hu & Hh)]; [done|]. cbn [removelast forallb] in Hu. apply andb_prop in Hu as [Hj Hu].
  destruct (user_run _ _ _ Hj Hr) as [E1 E2]. unfold loop_exited in *. rewrite E1, Hl, E2, He. split_and!; [done|done|].
  destruct Hh as [?|Hh]; [by left|right]. cbn [forallb] in Hh. by apply andb_prop in Hh as [_ ?].
Qed.

Lemma will_drain_end n : queue_inv n -> will_drain n -> nf loop_step n -> executed n = pushed n.
Proof.
  intros [Hq Hw] Hd Hnf. destruct (loop_stuck n Hnf) as (Hp & _ & Hcase).
  destruct Hcase as [[Hi Hwk]|(j & rest & Hl & Hno)].
  - rewrite Hi in Hq. cbn in Hq. destruct (job_queue n) as [|j q] eqn:Hjq; [by rewrite app_nil_r in Hq|].
    destruct Hd as [Ho|(Hx & _)]; [unfold outstanding in Ho; rewrite Hi, Hjq in Ho; done|].
    destruct (Hw ltac:(done)) as [Ha|[Ha|Ha]]; [rewrite (Hwk Ha) in Hx; done|done|congruence].
  - unfold will_drain, outstanding in Hd. rewrite Hl in Hd. cbn in Hd. destruct Hd as [|(_ & _ & Hh)]; [done|].
    destruct (runnable j (with_queue n (job_queue n) (job_waker n) (pushing n) (Running rest) (pushed n) (executed n ++ [j]))) as [n' Hn'];
      [destruct Hh as [?|[? _]%andb_prop]; [by left|by right]|]. by destruct (Hno n').
Qed.

(** Every run of the loop from such a state ends, and when it does all jobs have run. *)
Lemma drains_all n :
  queue_inv n -> will_drain n -> forall n', rtc loop_step n n' -> nf loop_step n' -> executed n' = pushed n.
Proof.
  intros Hq Hd n' Hr Hnf. rewrite <- (loop_pushed _ _ Hr). clear -Hq Hd Hr Hnf. induction Hr as [|n1 n2 n3 Hst _ IH]; [by apply will_drain_end|].
  apply IH; [|by eapply will_drain_step|done]. eapply queue_inv_step; [done|by apply loop_net_step].
Qed.

(** C19: progress.  Take any reachable state whose outstanding jobs are user jobs (a close job may
    make the loop exit before jobs queued behind it run) and in which the loop has not been told
    to exit.  However the steps of the callers that are still to wake the loop and of the
    loop itself are scheduled from there on, with nothing else being queued, they come to an end, and
    then all jobs that were queued have run, in order. *)
Theorem job_queue_drains (tid : nat) (owned : bool) (n : Network) :
  rtc net_step (network_new tid owned) n -> loop_exited n = false -> forallb is_user (outstanding n) = true ->
  sn loop_step n /\
  forall n', rtc loop_step n n' -> nf loop_step n' -> executed n' = pushed n /\ loop_phase n' = Idle /\ pushing n' = [].
Proof.
  intros Hr Hx Hu. split; [apply loop_terminates|]. intros n' Hs Hnf. pose proof (queue_inv_reachable _ _ _ Hr) as Hq.
  assert (will_drain n) as Hd.
  { right. split_and!; [done| |by right]. destruct (outstanding n) as [|j o] eqn:Ho; [done|]. rewrite <- Ho in *.
    rewrite (app_removelast_last j), forallb_app in Hu by (by rewrite Ho). by apply andb_prop in Hu as [? _]. }
  pose proof (drains_all n Hq Hd n' Hs Hnf) as Hex. destruct (loop_stuck n' Hnf) as (Hp & _ & [[Hi _]|(j & rest & Hl & _)]); [done|].
  assert (queue_inv n') as [Hq' _] by (eapply queue_inv_reachable; etransitivity; [exact Hr|by apply loop_net_steps]).
  rewrite Hl, (loop_pushed _ _ Hs), Hex in Hq'. cbn in Hq'. apply (f_equal length) in Hq'. rewrite !length_app in Hq'. cbn in Hq'. lia.
Qed.

Lemma job_queue_drains_witness :
  let n := call_soon_push 7 (JUser 5) (network_new 1 true) in
  sn loop_step n /\ (forall n', rtc loop_step n n' -> nf loop_step n' -> executed n' = [JUser 5]) /\
  exists n', rtc loop_step n n' /\ executed n' = [JUser 5].
Proof.
  intros n. assert (rtc net_step (network_new 1 true) n) as Hr by (eapply rtc_l; [apply (net_push 7 5)|apply rtc_refl]).
  destruct (job_queue_drains 1 true n Hr eq_refl eq_refl) as [Hsn Hall]. split_and!; [exact Hsn|intros n' H1 H2; exact (proj1 (Hall n' H1 H2))|].
  assert (exists n', process_one (JUser 5) [] (process_swap (waker_fires (call_soon_wake 7 n))) = Ok n' /\ executed n' = [JUser 5])
    as (n' & Hn' & He) by (eexists; split; vm_compute; reflexivity).
  exists n'. split; [|exact He]. eapply rtc_l; [apply (loop_wake 7); left|]. eapply rtc_l; [apply loop_fire; reflexivity|].
  eapply rtc_l; [apply loop_swap; reflexivity|]. eapply rtc_l; [|apply rtc_refl]. by eapply (loop_run (JUser 5) []).
Defined.

(** ** Shutdown *)

Definition n_close_jobs (l : list job) : nat := length (filter (fun j => is_user j = false) l).

Arguments n_close_jobs : simpl never.

Lemma n_close_jobs_app a b : n_close_jobs (a ++ b) = (n_close_jobs a + n_close_jobs b)%nat.
Proof. unfold n_close_jobs. by rewrite filter_app, length_app. Qed.

Lemma n_close_jobs_cons j l : n_close_jobs (j :: l) = ((if is_user j then 0 else 1) + n_close_jobs l)%nat.
Proof. by destruct j. Qed.

Lemma n_close_jobs_0 l : n_close_jobs l = 0%nat -> forallb is_user l = true.
Proof. induction l as [|j l IH]; [done|]. rewrite n_close_jobs_cons. destruct j; cbn; [auto|lia]. Qed.

Definition close_inv (n : Network) : Prop :=
  (n_close_jobs (pushed n) <= 1)%nat /\ (running n = true -> n_close_jobs (pushed n) = 0%nat).

Lemma run_job_running j n n' : run_job j n = Ok n' -> running n' = running n.
Proof.
  destruct j as [id|prom owner g]; cbn [run_job]; [by intros [= <-]|].
  destruct (bool_decide (endpoint_map n = [])); [by intros [= <-]|].
  destruct (bool_decide (close_frame n = Some owner)); [|done].
  destruct g; [|by intros [= <-]]. by intros (l & _ & [= <-])%obind_ok.
Qed.

Lemma close_inv_step n n' : close_inv n -> net_step n n' -> close_inv n'.
Proof.
  intros [H1 H2] Hst. unfold close_inv.
  destruct Hst as [tid id n|tid n Ht|tid prom g n n' Hc|a make n|n Hp Hw|n Hp|j rest n n' Hp Hr|n Hp|tid n _ _]; try done.
  - cbn. rewrite n_close_jobs_app. change (n_close_jobs [JUser id]) with 0%nat. by rewrite Nat.add_0_r.
  - destruct (running n) eqn:Er; [|unfold close in Hc; rewrite Er in Hc; injection Hc as <-; by split].
    destruct (close_running _ _ _ _ _ Er Hc) as [(_ & n1 & Hr & ->)|(_ & ->)].
    + pose proof (run_job_running _ _ _ Hr) as E'. apply run_job_queue in Hr as (_ & _ & _ & _ & E & _).
      cbn in *. rewrite E, E'. split; [lia|done].
    + cbn. rewrite n_close_jobs_app. rewrite H2 by done. split; [|done]. apply Nat.le_refl.
  - destruct (endpoint_queue a make n) as (_ & _ & _ & _ & E1 & _ & E2 & _). by rewrite E1, E2.
  - unfold process_one in Hr. pose proof Hr as Hr'. apply run_job_running in Hr'. apply run_job_queue in Hr as (_ & _ & _ & _ & E & _).
    rewrite E, Hr'. done.
Qed.

(** What running a job adds to the log. *)
Lemma run_job_log j n n' :
  run_job j n = Ok n' ->
  has_loop_thread n' = has_loop_thread n /\
  exists l, nlog n' = nlog n ++ l /\
    match j with
    | JUser _ => NLoopExit ∉ l
    | JClose prom _ _ => NFulfilled prom ∈ l /\ (has_loop_thread n = true -> NLoopExit ∈ l)
    end.
Proof.
  assert (forall prom m l0, nlog m = nlog n ++ l0 -> has_loop_thread m = has_loop_thread n ->
    has_loop_thread (close_final prom m) = has_loop_thread n /\
    exists l, nlog (close_final prom m) = nlog n ++ l /\ NFulfilled prom ∈ l /\ (has_loop_thread n = true -> NLoopExit ∈ l)) as Hf.
  { intros prom m l0 Hm Ht. split; [done|]. cbn. rewrite Hm, Ht, <- app_assoc. eexists. split; [done|].
    destruct (has_loop_thread n); set_solver. }
  destruct j as [id|prom owner g]; cbn [run_job].
  - intros [= <-]. split; [done|]. exists [NRan id]. split; [done|]. set_solver.
  - destruct (bool_decide (endpoint_map n = [])); [intros [= <-]; apply (Hf prom n []); by rewrite ?app_nil_r|].
    destruct (bool_decide (close_frame n = Some owner)); [|done].
    destruct g; [|intros [= <-]; apply (Hf prom n []); by rewrite ?app_nil_r].
    intros (l & _ & [= <-])%obind_ok. by apply (Hf prom _ l).
Qed.

(** A network that is running has not been told to exit; a close job that was run has fulfilled its
    promise; and a network that is not running has a close job, or was closed on the loop. *)
Definition exit_inv (n : Network) : Prop :=
  (running n = true -> NLoopExit ∉ nlog n) /\
  (forall prom o g, JClose prom o g ∈ executed n -> NFulfilled prom ∈ nlog n /\ (has_loop_thread n = true -> NLoopExit ∈ nlog n)) /\
  (running n = false -> (exists prom o g, JClose prom o g ∈ pushed n) \/ (has_loop_thread n = true -> NLoopExit ∈ nlog n)).

(** The log only grows, and the other fields the invariant reads are kept. *)
Lemma exit_inv_log n n' l :
  (running n', executed n', pushed n', has_loop_thread n') = (running n, executed n, pushed n, has_loop_thread n) ->
  nlog n' = nlog n ++ l -> NLoopExit ∉ l -> exit_inv n -> exit_inv n'.
Proof.
  intros [= E1 E2 E3 E4] El Hl (H1 & H2 & H3). unfold exit_inv. rewrite E1, E2, E3, E4, El. split_and!.
  - intros Hr. specialize (H1 Hr). set_solver.
  - intros p o g [? ?]%H2. set_solver.
  - intros [?|?]%H3; [by left|right]. set_solver.
Qed.

Lemma exit_inv_close tid prom g n n' : exit_inv n -> close tid prom g n = Ok n' -> exit_inv n'.
Proof.
  intros Hi Hc. destruct (running n) eqn:Er.
  2: { unfold close in Hc. rewrite Er in Hc. injection Hc as <-. eapply (exit_inv_log n _ [NFulfilled prom]); [cbn; by rewrite Er|done|set_solver|done]. }
  destruct Hi as (H1 & H2 & _). destruct (close_running _ _ _ _ _ Er Hc) as [(_ & n1 & Hr & ->)|(_ & ->)].
  - pose proof (run_job_running _ _ _ Hr) as E0. destruct (run_job_log _ _ _ Hr) as (E1 & l & E2 & Hl).
    apply run_job_queue in Hr as (_ & _ & _ & _ & _ & E3 & _). unfold exit_inv. cbn in *. rewrite E0, E1, E2, E3. split_and!; [done|..].
    + intros p o g0 [? ?]%H2. set_solver.
    + intros _. right. set_solver.
  - unfold exit_inv. cbn. split_and!; [done|done|]. intros _. left. exists prom, tid, g. set_solver.
Qed.

Lemma exit_inv_step n n' : queue_inv n -> close_inv n -> exit_inv n -> net_step n n' -> exit_inv n'.
Proof.
  intros [Hq _] [_ Hc] Hi Hst. pose proof Hi as (H1 & H2 & H3).
  destruct Hst as [tid id n|tid n Ht|tid prom g n n' Hcl|a make n|n Hp Hw|n Hp|j rest n n' Hp Hr|n Hp|tid n _ _]; try exact Hi.
  - unfold exit_inv. cbn. split_and!; [done|done|]. intros [(p & o & g & ?)|?]%H3; [left|by right]. exists p, o, g. set_solver.
  - by eapply exit_inv_close.
  - destruct (endpoint_queue a make n) as (_ & _ & _ & _ & E0 & E1 & E2 & E3 & E4). unfold exit_inv. by rewrite E0, E1, E2, E3, E4.
  - unfold process_one in Hr. pose proof (run_job_running _ _ _ Hr) as E0. destruct (run_job_log _ _ _ Hr) as (E1 & l & E2 & Hj).
    apply run_job_queue in Hr as (_ & _ & _ & _ & E4 & E3 & _). unfold exit_inv. cbn in *. rewrite E0, E1, E2, E3, E4. split_and!.
    + intros Hrun. rewrite Hp in Hq. cbn in Hq. specialize (Hc Hrun). rewrite Hq, n_close_jobs_app, n_close_jobs_cons in Hc.
      destruct j as [id|]; [set_solver|cbn in Hc; lia].
    + intros p o g. rewrite elem_of_app, list_elem_of_singleton. intros [[? ?]%H2|<-]; set_solver.
    + intros [?|?]%H3; [by left|right]. set_solver.
Qed.

Lemma exit_inv_reachable tid owned n : rtc net_step (network_new tid owned) n -> close_inv n /\ exit_inv n.
Proof.
  intros Hr. assert (queue_inv (network_new tid owned) /\ close_inv (network_new tid owned) /\ exit_inv (network_new tid owned)) as Hi.
  { split_and!; [done|split; [apply Nat.le_0_l|done]|split_and!; set_solver]. }
  revert Hi. induction Hr as [|n1 n2 n3 Hst _ IH]; [by intros (_ & ? & ?)|]. intros (H1 & H2 & H3). apply IH.
  split_and!; [by eapply queue_inv_step|by eapply close_inv_step|by eapply exit_inv_step].
Qed.

(** Shutdown is requested at most once: however often and from however many threads [close] is
    called, at most one close job is ever queued, and none before the first call; every later
    call completes its own future at once. *)
Theorem close_scheduled_once (tid : nat) (owned : bool) (n : Network) :
  rtc net_step (network_new tid owned) n ->
  (n_close_jobs (pushed n) <= 1)%nat /\ (running n = true -> n_close_jobs (pushed n) = 0%nat) /\
  (running n = false -> forall t prom g, exists n', close t prom g n = Ok n' /\ pushed n' = pushed n /\
     nlog n' = nlog n ++ [NFulfilled prom]).
Proof.
  intros Hr. destruct (exit_inv_reachable _ _ _ Hr) as [[H1 H2] _].
  split_and!; [done..|]. intros Hrun t prom g. unfold close. rewrite Hrun. by eexists.
Qed.

Lemma close_scheduled_once_witness :
  exists n, rtc net_step (network_new 1 true) n /\ (n_close_jobs (pushed n) <= 1)%nat /\ n_close_jobs (pushed n) = 1%nat.
Proof.
  assert (exists n, close 7 40 true (network_new 1 true) = Ok n /\ n_close_jobs (pushed n) = 1%nat) as (n & Hn & H1)
    by (eexists; split; vm_compute; reflexivity).
  assert (rtc net_step (network_new 1 true) n) as Hr by (eapply rtc_l; [by eapply net_close|apply rtc_refl]).
  exists n. split; [exact Hr|]. split; [exact (proj1 (close_scheduled_once 1 true n Hr))|done].
Defined.

(** [Network::~Network] on the thread [tid]: [close().get()], then the loop thread is joined.  What
    the destructor waits for is the promise and, if the network owns the loop, its exit. *)
Definition Network_destroy (tid prom : nat) (n : Network) : outcome Network := close tid prom true n.
Definition destroyed (prom : nat) (n : Network) : Prop :=
  NFulfilled prom ∈ nlog n /\ (has_loop_thread n = true -> NLoopExit ∈ nlog n).

Lemma loop_frame n n' :
  rtc loop_step n n' -> running n' = running n /\ (forall x, x ∈ nlog n -> x ∈ nlog n') /\ has_loop_thread n' = has_loop_thread n.
Proof.
  induction 1 as [|n1 n2 n3 Hst _ (IH1 & IH2 & IH3)]; [done|].
  assert (running n2 = running n1 /\ (exists l, nlog n2 = nlog n1 ++ l) /\ has_loop_thread n2 = has_loop_thread n1) as (E1 & [l Hl] & E3).
  { destruct Hst; try (split_and!; [done|exists []; by rewrite app_nil_r|done]).
    match goal with Hr : process_one _ _ _ = Ok _ |- _ => pose proof (run_job_running _ _ _ Hr); destruct (run_job_log _ _ _ Hr) as (? & l & ? & _) end.
    split_and!; [done|by exists l|done]. }
  split_and!; [congruence| |congruence]. intros x Hx. apply IH2. rewrite Hl. set_solver.
Qed.

(** Without endpoints every job can be run; when a run of the loop has ended, it has been told to exit or all
    jobs have run. *)
Lemma ends_exited n n' :
  queue_inv n -> endpoint_map n = [] -> rtc loop_step n n' -> nf loop_step n' -> loop_exited n' = true \/ executed n' = pushed n.
Proof.
  intros Hq He Hr Hnf. rewrite <- (loop_pushed _ _ Hr). induction Hr as [n|n1 n2 n3 Hst _ IH].
  - destruct (loop_stuck n Hnf) as (Hp & _ & [[Hi Hw]|(j & rest & Hl & Hno)]).
    + destruct Hq as [Hq Hwk]. rewrite Hi in Hq. cbn in Hq. destruct (job_queue n); [right; by rewrite app_nil_r in Hq|].
      left. destruct (Hwk ltac:(done)) as [Ha|[Ha|Ha]]; [auto|done|congruence].
    + destruct (runnable j (with_queue n (job_queue n) (job_waker n) (pushing n) (Running rest) (pushed n) (executed n ++ [j]))) as [n' Hn'];
        [by left|]. by destruct (Hno n').
  - apply IH; [eapply queue_inv_step; [done|by apply loop_net_step]| |done].
    destruct (loop_step_cases _ _ Hst) as [(_ & _ & _ & -> & _)|(j & n0 & _ & _ & Hr & _ & E & _)]; [done|].
    apply run_job_queue in Hr as (_ & _ & _ & _ & _ & _ & Hm). apply Hm. congruence.
Qed.

(** When [close] is called by another thread while the network runs, its job is the last. *)
Lemma close_queued tid prom g n n1 :
  running n = true -> in_event_loop tid n = false -> close tid prom g n = Ok n1 ->
  n1 = call_soon_push tid (JClose prom tid g) (with_frame (with_world n false (endpoint_map n) (nlog n)) (Some tid)) /\
  outstanding n1 = outstanding n ++ [JClose prom tid g].
Proof.
  intros Hr Hl Hc. destruct (close_running _ _ _ _ _ Hr Hc) as [(Hl' & _)|(_ & ->)]; [congruence|]. split; [done|].
  unfold outstanding. cbn. by rewrite app_assoc.
Qed.

Lemma running_users ltid owned n :
  rtc net_step (network_new ltid owned) n -> running n = true -> loop_exited n = false /\ forallb is_user (outstanding n) = true.
Proof.
  intros Hr Hrun. destruct (queue_inv_reachable _ _ _ Hr) as [Hq _]. destruct (exit_inv_reachable _ _ _ Hr) as [[_ Hc] [Hx _]].
  split; [by apply bool_decide_false, Hx|]. apply n_close_jobs_0. specialize (Hc Hrun). unfold outstanding.
  rewrite Hq, !n_close_jobs_app in Hc. rewrite n_close_jobs_app. lia.
Qed.

Lemma close_total tid prom g n : in_event_loop tid n = false -> exists n1, close tid prom g n = Ok n1.
Proof.
  intros Hl. unfold close, call. change (in_event_loop tid (with_frame _ _)) with (in_event_loop tid n). rewrite Hl.
  destruct (negb (running n)); by eexists.
Qed.

(** C16: the destructor does not hang.  Take any reachable state of a network without endpoints, with
    whatever jobs queued or being run and whatever callers still to wake the loop, and let a thread
    other than the loop's destroy it.  However the remaining steps of the callers and of the
    loop are scheduled, they come to an end, and then the promise the destructor waits for is
    fulfilled and, if the network owns the loop's thread, the loop has been told to exit, so
    that the join returns; if the network had not been closed before, all jobs queued so far have
    run by then.  If it had, the promise is fulfilled at once. *)
Theorem destructor_completes (ltid tid prom : nat) (owned : bool) (n : Network) :
  rtc net_step (network_new ltid owned) n -> endpoint_map n = [] -> in_event_loop tid n = false ->
  exists n1, Network_destroy tid prom n = Ok n1 /\ (running n = false -> NFulfilled prom ∈ nlog n1) /\ sn loop_step n1 /\
    forall n2, rtc loop_step n1 n2 -> nf loop_step n2 ->
      destroyed prom n2 /\ (running n = true -> executed n2 = pushed n1).
Proof.
  intros Hr He Hl. unfold Network_destroy. destruct (close_total tid prom true n Hl) as [n1 Hn1].
  assert (rtc net_step (network_new ltid owned) n1) as Hr1 by (eapply rtc_r; [exact Hr|by eapply net_close]).
  exists n1. split; [done|]. split; [|split; [apply loop_terminates|]].
  { intros Hrun. unfold close in Hn1. rewrite Hrun in Hn1. injection Hn1 as <-. cbn. set_solver. }
  intros n2 Hs Hnf. pose proof (queue_inv_reachable _ _ _ Hr1) as Hq1.
  destruct (exit_inv_reachable ltid owned n2) as [_ (_ & H2 & H3)]; [etransitivity; [exact Hr1|by apply loop_net_steps]|].
  pose proof (loop_frame _ _ Hs) as (Hrun2 & Hlog & _).
  destruct (running n) eqn:Er.
  - destruct (close_queued _ _ _ _ _ Er Hl Hn1) as [E1 Ho]. destruct (running_users _ _ _ Hr Er) as [Hx Hu].
    assert (executed n2 = pushed n1) as Hex.
    { apply (drains_all n1); [done| |done|done]. right. rewrite Ho, E1. split_and!; [done|by rewrite removelast_last|by left]. }
    split; [|done]. apply (H2 prom tid true). rewrite Hex, E1. cbn. set_solver.
  - unfold close in Hn1. rewrite Er in Hn1. injection Hn1 as <-. split; [|done]. split; [apply Hlog; cbn; set_solver|].
    intros Ho. destruct (ends_exited _ _ Hq1 He Hs Hnf) as [Hx|Hex]; [by apply bool_decide_eq_true in Hx|].
    destruct H3 as [(p & o & g & Hin)|?]; [exact Hrun2|..|by auto].
    rewrite (loop_pushed _ _ Hs), <- Hex in Hin. by apply (H2 p o g Hin).
Qed.

Lemma destructor_completes_witness :
  let n := call_soon_push 7 (JUser 5) (network_new 1 true) in
  exists n1 n2, Network_destroy 2 40 n = Ok n1 /\ rtc loop_step n1 n2 /\ nf loop_step n2 /\
    executed n2 = [JUser 5; JClose 40 2 true] /\ destroyed 40 n2.
Proof.
  intros n. destruct (destructor_completes 1 2 40 true n) as (n1 & Hn1 & _ & Hsn & Hall);
    [eapply rtc_l; [apply (net_push 7 5)|apply rtc_refl]|reflexivity..|].
  destruct (sn_ends n1 Hsn) as (n2 & Hs & Hnf). exists n1, n2. destruct (Hall n2 Hs Hnf) as [Hd Hex].
  split_and!; [exact Hn1|exact Hs|exact Hnf| |exact Hd]. rewrite (Hex eq_refl). vm_compute in Hn1. injection Hn1 as <-. reflexivity.
Defined.

Lemma close_endpoints_ok m :
  Forall (fun e => is_Some (snd e)) m ->
  close_endpoints m = Ok (map (fun e => NCloseConns (default 0%nat (snd e))) m).
Proof. induction 1 as [|[a [ep|]] m [? Hx] _ IH]; [done| |done]. simpl. by rewrite IH. Qed.

(** A close called on the event loop thread completes before it returns: a graceful one first
    closes the connections of every endpoint, then the table is emptied, the loop is told to
    exit if the network owns its thread, and the promise is fulfilled, once. *)
Theorem close_on_loop_completes (tid prom : nat) (graceful : bool) (n : Network) :
  running n = true -> in_event_loop tid n = true -> Forall (fun e => is_Some (snd e)) (endpoint_map n) ->
  exists n', close tid prom graceful n = Ok n' /\ running n' = false /\ endpoint_map n' = [] /\ pushed n' = pushed n /\
    nlog n' = nlog n ++
      (if graceful then map (fun e => NCloseConns (default 0%nat (snd e))) (endpoint_map n) else []) ++
      (if has_loop_thread n then [NLoopExit] else []) ++ [NFulfilled prom].
Proof.
  intros Hr Hl Hall. unfold close, call. rewrite Hr. cbn [negb].
  change (in_event_loop tid (with_frame _ _)) with (in_event_loop tid n). rewrite Hl. cbn [run_job].
  destruct (bool_decide (endpoint_map (with_frame (with_world n false (endpoint_map n) (nlog n)) (Some tid)) = [])) eqn:Eb.
  - apply bool_decide_eq_true in Eb. cbn in Eb. rewrite Eb. eexists. split; [done|]. cbn. by destruct graceful.
  - cbn [close_frame with_frame]. rewrite bool_decide_true by done. destruct graceful; [|by eexists]. unfold close_all. cbn [endpoint_map with_world with_frame].
    rewrite (close_endpoints_ok _ Hall). cbn [obind]. eexists. split; [done|]. cbn. by rewrite <- app_assoc.
Qed.

Lemma close_on_loop_completes_witness :
  let n := with_world (network_new 1 true) true [(Address_default, Some 3%nat)] [] in
  exists n', close 1 40 true n = Ok n' /\ nlog n' = [NCloseConns 3; NLoopExit; NFulfilled 40].
Proof.
  intros n. destruct (close_on_loop_completes 1 40 true n) as (n' & ? & _ & _ & _ & Hl);
    [reflexivity|reflexivity|repeat constructor; by eexists|]. by exists n'.
Defined.

(** The close job is still to run, as the last one, on a network with endpoints. *)
Definition close_waits (prom tid : nat) (g : bool) (n : Network) : Prop :=
  endpoint_map n <> [] /\ loop_exited n = false /\
  exists us, outstanding n = us ++ [JClose prom tid g] /\ forallb is_user us = true.

Lemma close_waits_step prom tid g n n' :
  close_waits prom tid g n -> loop_step n n' ->
  JClose prom tid g ∈ executed n' \/ close_waits prom tid g n'.
Proof.
  intros (He & Hx & us & Ho & Hu) Hst. unfold close_waits.
  destruct (loop_step_cases _ _ Hst) as [(Eo & _ & El & Em & _)|(j & n0 & Eo & Ee & Hr & El & Em & _)].
  { right. unfold loop_exited in *. rewrite El, Em, Eo. split_and!; [done..|]. by exists us. }
  rewrite Eo in Ho. destruct us as [|u us]; cbn in Ho; injection Ho as -> Ho; [left; rewrite Ee; set_solver|right].
  cbn in Hu. apply andb_prop in Hu as [Hu1 Hu2]. destruct (user_run _ _ _ Hu1 Hr) as [E1 E2].
  unfold loop_exited in *. rewrite E1, E2, El, Em. split_and!; [done..|]. by exists us.
Qed.

Lemma close_waits_run prom tid g n n' :
  close_waits prom tid g n -> rtc loop_step n n' -> JClose prom tid g ∉ executed n' -> close_waits prom tid g n'.
Proof.
  intros Hcw Hr Hne. assert (JClose prom tid g ∈ executed n' \/ close_waits prom tid g n') as [|]; [|done..].
  clear Hne. assert (JClose prom tid g ∈ executed n \/ close_waits prom tid g n) as H by (by right). clear Hcw. revert H.
  induction Hr as [|n1 n2 n3 Hst _ IH]; [done|]. intros H. apply IH. destruct H as [Hin|Hcw]; [left|by eapply close_waits_step].
  destruct (loop_step_cases _ _ Hst) as [(_ & -> & _)|(j & n0 & _ & -> & _)]; [done|]. set_solver.
Qed.

(** With the frame gone, the only place where a run of the loop can end is the close job, whose next
    step is undefined. *)
Lemma dangling_end prom tid g n :
  queue_inv n -> close_waits prom tid g n -> nf loop_step n ->
  loop_phase n = Running [JClose prom tid g] /\ process_one (JClose prom tid g) [] n = Undefined.
Proof.
  intros [Hq Hw] (He & Hx & us & Ho & Hu) Hnf. destruct (loop_stuck n Hnf) as (Hp & Hf & [[Hi Hwk]|(j & rest & Hl & Hno)]).
  - unfold outstanding in Ho. rewrite Hi in Ho. cbn in Ho. assert (job_queue n <> []) as Hne by (rewrite Ho; by destruct us).
    destruct (Hw Hne) as [Ha|[Ha|Ha]]; [rewrite (Hwk Ha) in Hx; done|done|congruence].
  - unfold outstanding in Ho. rewrite Hl in Ho. cbn in Ho. destruct us as [|u us]; cbn in Ho; injection Ho as -> Ho.
    + apply app_eq_nil in Ho as [-> _]. split; [done|]. unfold process_one. cbn [run_job endpoint_map with_queue close_frame].
      rewrite bool_decide_false by done. by rewrite Hf.
    + cbn in Hu. apply andb_prop in Hu as [Hu _].
      destruct (runnable u (with_queue n (job_queue n) (job_waker n) (pushing n) (Running rest) (pushed n) (executed n ++ [u]))) as [n' Hn'];
        [by right|]. by destruct (Hno n').
Qed.

Lemma dangling_run prom tid g n n' :
  queue_inv n -> close_waits prom tid g n -> close_frame n = None -> rtc loop_step n n' -> nf loop_step n' ->
  loop_phase n' = Running [JClose prom tid g] /\ process_one (JClose prom tid g) [] n' = Undefined.
Proof.
  intros Hq Hcw Hf Hr Hnf. induction Hr as [|n1 n2 n3 Hst _ IH]; [by apply dangling_end|].
  assert (queue_inv n2) as Hq2 by (eapply queue_inv_step; [done|by apply loop_net_step]).
  pose proof Hcw as (He & Hx & us & Ho & Hu).
  destruct (loop_step_cases _ _ Hst) as [(Eo & _ & El & Em & Hfr)|(j & n0 & Eo & _ & Hrj & El & Em & Ef)].
  { apply IH; [done| |by auto|done]. unfold close_waits, loop_exited in *. rewrite El, Em, Eo. split_and!; [done..|]. by exists us. }
  rewrite Eo in Ho. destruct us as [|u us]; cbn in Ho; injection Ho as -> Ho.
  - exfalso. cbn [run_job] in Hrj. rewrite bool_decide_false in Hrj by congruence. by rewrite Ef, Hf in Hrj.
  - cbn in Hu. apply andb_prop in Hu as [Hu1 Hu2]. destruct (user_run _ _ _ Hu1 Hrj) as [E1 E2].
    apply IH; [done| |by rewrite (run_job_frame _ _ _ Hrj), Ef|done].
    unfold close_waits, loop_exited in *. rewrite E1, E2, El, Em. split_and!; [done..|]. by exists us.
Qed.

(** C38: a close called on a thread other than the loop's (as the destructor does) while there are
    endpoints: if [close] returns before the loop has run its job, then however the loop goes on, it
    comes to that job, and running it is undefined: the lambda reads the parameter of [close] through
    a reference into a frame that is gone.  [close] can always return first; only if the loop
    runs the job while the caller is still inside [close] is the read defined. *)
Theorem close_reads_dangling_reference (ltid tid prom : nat) (owned graceful : bool) (n : Network) :
  rtc net_step (network_new ltid owned) n -> running n = true -> in_event_loop tid n = false -> endpoint_map n <> [] ->
  tid ∉ pushing n ->
  exists n1, close tid prom graceful n = Ok n1 /\
    (exists n2, rtc loop_step n1 n2 /\ close_frame n2 = None /\ JClose prom tid graceful ∉ executed n2) /\
    (forall n2, rtc loop_step n1 n2 -> close_frame n2 = None -> JClose prom tid graceful ∉ executed n2 ->
       sn loop_step n2 /\
       forall n3, rtc loop_step n2 n3 -> nf loop_step n3 ->
         loop_phase n3 = Running [JClose prom tid graceful] /\ process_one (JClose prom tid graceful) [] n3 = Undefined) /\
    (forall n2 rest, rtc loop_step n1 n2 -> loop_phase n2 = Running (JClose prom tid graceful :: rest) ->
       close_frame n2 = Some tid -> Forall (fun e => is_Some e.2) (endpoint_map n2) ->
       exists n3, process_one (JClose prom tid graceful) rest n2 = Ok n3 /\ NFulfilled prom ∈ nlog n3).
Proof.
  intros Hr Hrun Hl He Ht. destruct (close_total tid prom graceful n Hl) as [n1 Hn1].
  assert (rtc net_step (network_new ltid owned) n1) as Hr1 by (eapply rtc_r; [exact Hr|by eapply net_close]).
  destruct (close_queued _ _ _ _ _ Hrun Hl Hn1) as [E1 Ho]. destruct (running_users _ _ _ Hr Hrun) as [Hx Hu].
  assert (close_waits prom tid graceful n1) as Hcw by (split_and!; [by rewrite E1|by rewrite E1|by exists (outstanding n)]).
  exists n1. split; [done|]. split_and!.
  - exists (close_returns (call_soon_wake tid n1)). split; [|split; [done|]].
    + eapply rtc_l; [apply (loop_wake tid); rewrite E1; left|]. apply rtc_once, (loop_return tid); rewrite E1; [done|].
      cbn. unfold remove_one. cbn. by rewrite decide_True.
    + rewrite E1. cbn. intros Hin. destruct (exit_inv_reachable _ _ _ Hr) as [[_ Hc] _]. specialize (Hc Hrun).
      destruct (queue_inv_reachable _ _ _ Hr) as [Hq _]. apply n_close_jobs_0 in Hc. rewrite Hq, forallb_app in Hc.
      apply andb_prop in Hc as [Hc _]. rewrite forallb_forall in Hc. specialize (Hc _ (proj1 (list_elem_of_In _ _) Hin)). done.
  - intros n2 Hs Hf Hne. split; [apply loop_terminates|]. intros n3 Hs3 Hnf. apply (dangling_run prom tid graceful n2 n3); try done.
    + eapply queue_inv_reachable. etransitivity; [exact Hr1|by apply loop_net_steps].
    + by eapply close_waits_run.
  - intros n2 rest Hs Hp Hf Hall. unfold process_one. cbn [run_job endpoint_map with_queue close_frame].
    rewrite (bool_decide_true _ Hf). destruct (bool_decide _), graceful; [eexists; split; [done|]; cbn; set_solver..| |eexists; split; [done|]; cbn; set_solver].
    unfold close_all. cbn [endpoint_map with_queue]. rewrite (close_endpoints_ok _ Hall). eexists. split; [done|]. cbn. set_solver.
Qed.

Lemma close_reads_dangling_reference_witness :
  let n := (endpoint Address_default (Ok 3%nat) (network_new 1 true)).1 in
  exists n1 n3, close 2 40 true n = Ok n1 /\ rtc loop_step n1 n3 /\ process_one (JClose 40 2 true) [] n3 = Undefined.
Proof.
  intros n. destruct (close_reads_dangling_reference 1 2 40 true true n) as (n1 & Hn1 & (n2 & Hs & Hf & Hne) & Hall & _).
  - apply rtc_once. apply net_endpoint.
  - reflexivity.
  - reflexivity.
  - done.
  - by intros ?%elem_of_nil.
  - destruct (Hall n2 Hs Hf Hne) as [Hsn H3]. destruct (sn_ends n2 Hsn) as (n3 & Hs3 & Hnf). exists n1, n3.
    split_and!; [exact Hn1|by etransitivity|exact (proj2 (H3 n3 Hs3 Hnf))].
Defined.

(** ** Endpoints *)

Lemma map_lookup_congruent a b m : Address_eqb b a = true -> map_lookup b m = map_lookup a m.
Proof.
  intros Hab. induction m as [|[c w] m IH]; simpl; [done|]. rewrite IH.
  assert (Address_eqb b c = Address_eqb a c) as ->; [|done].
  apply eq_true_iff_eq. split; intros Hc; eapply Address_eqb_trans; try done. by rewrite Address_eqb_sym.
Qed.

Lemma map_lookup_added a b v m :
  map_lookup a m = None -> Address_eqb b a = true -> map_lookup b (m ++ [(a, v)]) = Some v.
Proof.
  intros Hn Hab. rewrite <- (map_lookup_congruent a b m Hab) in Hn. induction m as [|[c w] m IH]; simpl in *; [by rewrite Hab|].
  destruct (Address_eqb b c); [done|auto].
Qed.

Lemma close_endpoints_null a m : close_endpoints (m ++ [(a, None)]) = Undefined.
Proof. induction m as [|[c [w|]] m IH]; simpl; [done| |done]. by rewrite IH. Qed.

(** One endpoint per local address: asking again for an address that compares equal returns the
    endpoint made the first time and changes nothing.  If the constructor threw, the address is
    left with a null pointer: later calls return it, and a graceful close goes through it. *)
Theorem endpoint_per_address (a b : Address) (make make' : outcome nat) (n : Network) :
  map_lookup a (endpoint_map n) = None -> Address_eqb b a = true ->
  (forall ep, make = Ok ep -> exists n1, endpoint a make n = (n1, Ok (Some ep)) /\
     endpoint b make' n1 = (n1, Ok (Some ep))) /\
  (forall x, make = Throw x -> exists n1, endpoint a make n = (n1, Throw x) /\
     endpoint b make' n1 = (n1, Ok None) /\ forall prom, close_all prom n1 = Undefined).
Proof.
  intros Hn Hab.
  split; intros v ->; unfold endpoint at 1; rewrite Hn; eexists; (split; [reflexivity|]); unfold endpoint;
    cbn [endpoint_map with_world]; rewrite (map_lookup_added a b _ _ Hn Hab); [done|].
  split; [done|]. intros prom. unfold close_all. cbn [endpoint_map with_world]. by rewrite close_endpoints_null.
Qed.

Lemma endpoint_per_address_witness :
  let a := mkAddress (store_at 0 [2; 0; 21; 124] zero_storage) 16 in
  exists n1, endpoint a (Throw (system_error 98)) (network_new 1 true) = (n1, Throw (system_error 98)) /\
    endpoint a (Ok 4%nat) n1 = (n1, Ok None) /\ forall prom, close_all prom n1 = Undefined.
Proof.
  intros a. refine (proj2 (endpoint_per_address a a (Throw (system_error 98)) (Ok 4%nat) (network_new 1 true) _ _) _ _);
    vm_compute; reflexivity.
Defined.
