(* ===== verification/Threads.v ===== *)
(** * Streams used from several threads

    [Stream::send] and [Stream::close] hand a lambda to [Network::call]: it runs at once on the event loop
    thread, and is queued from any other.  [Stream::send_chunks] asks for its first chunks on the calling
    thread and sends each with [Stream::send], while the event loop, whenever a chunk is acknowledged, asks the
    same chunk sender for the next.  Here the threads, the job queue of Network.v and the stream objects of
    Stream.v are one system whose steps interleave.  A lambda holds the stream by [this] only, so an object
    may be gone when it runs. *)
From S2P Require Import Prelude StdMap Utils Stream Network.

(** The lambdas of [Stream::send] and [Stream::close], for a stream object. *)
Inductive stream_call := CSend (data : list Z) (ka : keep_alive) | CClose (code : Z).
Record task := mkTask { t_obj : nat; t_call : stream_call }.

Record threads := mkTh {
  th_net : Network;
  th_jobs : list (nat * task);               (* the lambda of job [JUser i], and the thread that made the call *)
  th_objs : gmap nat chunk_state;            (* the stream objects that exist *)
  th_hand : gmap nat (nat * nat * list Z);   (* threads in [chunk_sender::make]: the stream, the sender, the chunk in hand *)
  th_calls : list (nat * task);              (* the calls made, in order *)
  th_ran : list (nat * task);                (* those that took effect, in order *)
}.

Module Thr.
Definition run_call (c : stream_call) (st : chunk_state) : chunk_state :=
  match c with
  | CSend data ka => mkCS (Stream_send (cs_stream st) data ka).1 (cs_senders st)
  | CClose code => mkCS (Stream_close (cs_stream st) code).1 (cs_senders st)
  end.

Definition with_net T n : threads := mkTh n (th_jobs T) (th_objs T) (th_hand T) (th_calls T) (th_ran T).
Definition with_obj T obj st : threads :=
  mkTh (th_net T) (th_jobs T) (<[obj := st]> (th_objs T)) (th_hand T) (th_calls T) (th_ran T).
Definition with_hand T h : threads := mkTh (th_net T) (th_jobs T) (th_objs T) h (th_calls T) (th_ran T).

(** A lambda runs, through its [this]. *)
Definition run_task (x : nat * task) T : outcome threads :=
  match th_objs T !! t_obj x.2 with
  | None => Undefined
  | Some st =>
      Ok (mkTh (th_net T) (th_jobs T) (<[t_obj x.2 := run_call (t_call x.2) st]> (th_objs T)) (th_hand T)
            (th_calls T) (th_ran T ++ [x]))
  end.

(** [Stream::send] and [Stream::close] on the thread [tid]. *)
Definition stream_op (tid : nat) (t : task) T : outcome threads :=
  let* n := call tid (JUser (length (th_jobs T))) (th_net T) in
  let T1 := mkTh n (th_jobs T ++ [(tid, t)]) (th_objs T) (th_hand T) (th_calls T ++ [(tid, t)]) (th_ran T) in
  if in_event_loop tid (th_net T) then run_task (tid, t) T1 else Ok T1.

(** The event loop runs the job at the front. *)
Definition run_next (i : nat) (rest : list job) T : outcome threads :=
  match th_jobs T !! i with
  | None => Undefined
  | Some x => let* n := process_one (JUser i) rest (th_net T) in run_task x (with_net T n)
  end.

(** [send_chunks] on the thread [tid]: the sender is made; then, for each initial chunk, [queue_next_chunk]
    asks for it and sends it. *)
Definition start_chunks (obj : nat) (f : nat -> list Z) (done : bool) T : outcome threads :=
  match th_objs T !! obj with
  | None => Undefined
  | Some st => Ok (with_obj T obj (mkCS (cs_stream st) (cs_senders st ++ [mkSender (Some f) 0 done])))
  end.
Definition take_chunk (tid obj k : nat) T : outcome threads :=
  match th_objs T !! obj with
  | None => Undefined
  | Some st =>
      match cs_senders st !! k with
      | Some (mkSender (Some f) n d) =>
          if bool_decide (f n = []) then Ok (with_obj T obj (mkCS (cs_stream st) (<[k := mkSender None (S n) d]> (cs_senders st))))
          else Ok (with_hand (with_obj T obj (mkCS (cs_stream st) (<[k := mkSender (Some f) (S n) d]> (cs_senders st))))
                     (<[tid := (obj, k, f n)]> (th_hand T)))
      | _ => Ok T
      end
  end.
Definition put_chunk (tid : nat) T : outcome threads :=
  match th_hand T !! tid with
  | None => Ok T
  | Some (obj, k, data) => stream_op tid (mkTask obj (CSend data (KChunk k))) (with_hand T (base.delete tid (th_hand T)))
  end.

(** The chunks the event loop sent itself, when it queued the first ones or acknowledged others. *)
Definition chunk_tasks (loop obj : nat) (e : list effect) : list (nat * task) :=
  omap (fun x => match x with ENextChunk k (b :: bs) => Some (loop, mkTask obj (CSend (b :: bs) (KChunk k))) | _ => None end) e.

Definition loop_sent (obj : nat) (st' : chunk_state) (e : list effect) T : threads :=
  let x := chunk_tasks (loop_thread_id (th_net T)) obj e in
  mkTh (th_net T) (th_jobs T) (<[obj := st']> (th_objs T)) (th_hand T) (th_calls T ++ x) (th_ran T ++ x).

(** The keep-alive of a caller is not a chunk's. *)
Definition user_call (c : stream_call) : bool := match c with CSend _ (KChunk _) => false | _ => true end.

Definition user_jobs (l : list job) : list nat := omap (fun j => match j with JUser i => Some i | JClose _ _ _ => None end) l.
Definition in_bounds T : Prop := forall obj st, th_objs T !! obj = Some st -> zlen (content (cs_stream st)) < 2 ^ 64.

Inductive th_step : threads -> threads -> Prop :=
  | th_call tid t T T' : user_call (t_call t) = true -> stream_op tid t T = Ok T' -> in_bounds T' -> th_step T T'
  | th_start obj f d T T' : start_chunks obj f d T = Ok T' -> th_step T T'
  | th_queue obj k st st' e T :      (* [queue_next_chunk] on the event loop's thread *)
      th_objs T !! obj = Some st -> queue_next_chunk k st = (st', e) -> zlen (content (cs_stream st')) < 2 ^ 64 ->
      th_step T (loop_sent obj st' e T)
  | th_take tid obj k T T' :         (* and on another *)
      in_event_loop tid (th_net T) = false -> th_hand T !! tid = None -> take_chunk tid obj k T = Ok T' -> th_step T T'
  | th_put tid T T' : put_chunk tid T = Ok T' -> in_bounds T' -> th_step T T'
  | th_job i rest T T' :
      loop_phase (th_net T) = Running (JUser i :: rest) -> run_next i rest T = Ok T' -> in_bounds T' -> th_step T T'
  | th_other n T :            (* wakeups, the loop between jobs, endpoints and closing *)
      net_step (th_net T) n -> user_jobs (pushed n) = user_jobs (pushed (th_net T)) ->
      user_jobs (executed n) = user_jobs (executed (th_net T)) -> th_step T (with_net T n)
  | th_wrote obj n st T :     (* the event loop writes stream data *)
      th_objs T !! obj = Some st -> 0 <= n <= unsent (cs_stream st) ->
      th_step T (with_obj T obj (mkCS (Stream_wrote (cs_stream st) n) (cs_senders st)))
  | th_acked stale obj n st st' e ub T :
      th_objs T !! obj = Some st -> 0 <= n <= unacked (cs_stream st) ->
      acknowledge stale (ack_fuel n st) n st = Ok (st', e, ub) -> zlen (content (cs_stream st')) < 2 ^ 64 ->
      th_step T (loop_sent obj st' e T)
  | th_new obj dcb ccb id T :
      th_objs T !! obj = None -> Forall (fun x => t_obj x.2 <> obj) (th_calls T ++ th_ran T) ->
      th_step T (with_obj T obj (mkCS (Stream_new dcb ccb id) []))
  | th_destroy obj T :
      th_step T (mkTh (th_net T) (th_jobs T) (base.delete obj (th_objs T)) (th_hand T) (th_calls T) (th_ran T)).

Definition th_initial (loop : nat) (owned : bool) : threads := mkTh (network_new loop owned) [] ∅ ∅ [] [].
End Thr.
Export Thr.

(** ** The invariant *)

Definition by_thread (tid : nat) (l : list (nat * task)) : list (nat * task) := filter (fun x => x.1 = tid) l.
Definition call_bytes (c : stream_call) : list Z := match c with CSend data _ => data | CClose _ => [] end.
(** The bytes sent on a stream object by some calls. *)
Definition sent_to (obj : nat) (l : list (nat * task)) : list Z :=
  concat (map (fun x => call_bytes (t_call x.2)) (filter (fun x => t_obj x.2 = obj) l)).
(** The calls that some jobs make. *)
Definition tasks_of (jobs : list (nat * task)) (l : list job) : list (nat * task) := omap (fun i => jobs !! i) (user_jobs l).

Lemma by_thread_app tid a b : by_thread tid (a ++ b) = by_thread tid a ++ by_thread tid b.
Proof. apply filter_app. Qed.
Lemma sent_to_app obj a b : sent_to obj (a ++ b) = sent_to obj a ++ sent_to obj b.
Proof. unfold sent_to. by rewrite filter_app, map_app, concat_app. Qed.
Lemma user_jobs_app a b : user_jobs (a ++ b) = user_jobs a ++ user_jobs b.
Proof. apply omap_app. Qed.
Lemma tasks_of_app jobs a b : tasks_of jobs (a ++ b) = tasks_of jobs a ++ tasks_of jobs b.
Proof. unfold tasks_of. by rewrite user_jobs_app, omap_app. Qed.

(** More jobs do not change those there are. *)
Lemma tasks_of_more jobs x l :
  Forall (fun i => i < length jobs)%nat (user_jobs l) -> tasks_of (jobs ++ [x]) l = tasks_of jobs l.
Proof.
  unfold tasks_of. induction (user_jobs l) as [|i u IH]; [done|]. intros [Hi Hu]%Forall_cons. cbn.
  rewrite lookup_app_l by done. by rewrite IH.
Qed.

Lemma sent_to_other obj l : Forall (fun x => t_obj x.2 <> obj) l -> sent_to obj l = [].
Proof.
  unfold sent_to. induction 1 as [|x l Hx _ IH]; [done|]. rewrite filter_cons, decide_False by done. exact IH.
Qed.

Lemma sent_to_one obj x : sent_to obj [x] = if decide (t_obj x.2 = obj) then call_bytes (t_call x.2) else [].
Proof.
  unfold sent_to. rewrite filter_cons. case_decide; [|done]. cbn. by rewrite app_nil_r.
Qed.

Lemma chunk_tasks_bytes loop obj obj' e :
  sent_to obj' (chunk_tasks loop obj e) = if decide (obj = obj') then chunk_bytes e else [].
Proof.
  induction e as [|x e IH]; [by case_decide|]. destruct x as [| | | | | | | |k [|b bs]|]; try exact IH.
  change (chunk_tasks loop obj (ENextChunk k (b :: bs) :: e)) with
    ([(loop, mkTask obj (CSend (b :: bs) (KChunk k)))] ++ chunk_tasks loop obj e).
  rewrite sent_to_app, IH, sent_to_one. cbn [snd t_obj t_call call_bytes]. by case_decide.
Qed.

Lemma chunk_tasks_thread loop obj e tid : tid <> loop -> by_thread tid (chunk_tasks loop obj e) = [].
Proof.
  intros Hne. induction e as [|x e IH]; [done|]. destruct x as [| | | | | | | |k [|b bs]|]; try exact IH.
  change (chunk_tasks loop obj (ENextChunk k (b :: bs) :: e)) with
    ([(loop, mkTask obj (CSend (b :: bs) (KChunk k)))] ++ chunk_tasks loop obj e).
  rewrite by_thread_app, IH. unfold by_thread. by rewrite filter_cons, decide_False.
Qed.

(** The event loop's thread stays. *)
Lemma net_step_loop n n' : net_step n n' -> loop_thread_id n' = loop_thread_id n.
Proof.
  assert (forall j m m', run_job j m = Ok m' -> loop_thread_id m' = loop_thread_id m) as Hrun.
  { intros [id|prom o g] m m'; cbn [run_job]; [by intros [= <-]|]. destruct (bool_decide _); [by intros [= <-]|].
    destruct (bool_decide _); [|done]. destruct g; [|by intros [= <-]]. by intros (l & _ & [= <-])%obind_ok. }
  intros Hs. destruct Hs as [| |tid prom g n n' Hc|a make n| | |j rest n n' _ Hr| |]; try done.
  - destruct (running n) eqn:Er; [|unfold close in Hc; rewrite Er in Hc; by injection Hc as <-].
    destruct (close_running _ _ _ _ _ Er Hc) as [(_ & n1 & Hr%Hrun & ->)|(_ & ->)]; done.
  - unfold endpoint. destruct (map_lookup _ _); [done|]. by destruct make.
  - by apply Hrun in Hr.
Qed.

Section inv.
Context (loop : nat).

Record th_inv (T : threads) : Prop := {
  ti_queue : queue_inv (th_net T);
  ti_loop : loop_thread_id (th_net T) = loop;
  ti_ids : Forall (fun i => i < length (th_jobs T))%nat (user_jobs (pushed (th_net T)));
  ti_foreign : Forall (fun x => x.1 <> loop) (tasks_of (th_jobs T) (pushed (th_net T)));
  ti_calls : forall tid, tid <> loop -> by_thread tid (th_calls T) = by_thread tid (tasks_of (th_jobs T) (pushed (th_net T)));
  ti_ran : forall tid, tid <> loop -> by_thread tid (th_ran T) = by_thread tid (tasks_of (th_jobs T) (executed (th_net T)));
  ti_own : by_thread loop (th_calls T) = by_thread loop (th_ran T);
  ti_objs : forall obj st, th_objs T !! obj = Some st -> exists acked, simulates st (sent_to obj (th_ran T)) acked;
}.

Lemma th_inv_initial owned : th_inv (th_initial loop owned).
Proof. by split. Qed.

(** Calls take effect on one object. *)
Lemma run_call_simulates st hist acked c :
  simulates st hist acked -> zlen (content (cs_stream (run_call c st))) < 2 ^ 64 -> simulates (run_call c st) (hist ++ call_bytes c) acked.
Proof.
  destruct c as [data ka|code]; cbn [run_call call_bytes cs_stream]; intros Hs Hb; [by apply simulates_send|].
  rewrite app_nil_r. by apply simulates_close.
Qed.

Lemma run_task_objs x T T' :
  run_task x T = Ok T' -> in_bounds T' ->
  (forall obj st, th_objs T !! obj = Some st -> exists acked, simulates st (sent_to obj (th_ran T)) acked) ->
  (forall obj st, th_objs T' !! obj = Some st -> exists acked, simulates st (sent_to obj (th_ran T')) acked) /\
  th_net T' = th_net T /\ th_jobs T' = th_jobs T /\ th_calls T' = th_calls T /\ th_ran T' = th_ran T ++ [x].
Proof.
  unfold run_task. destruct (th_objs T !! t_obj x.2) as [st|] eqn:Ho; [|done]. intros [= <-] Hb Hi. split; [|done].
  cbn [th_objs th_ran]. intros obj st'. rewrite sent_to_app, sent_to_one. intros [[<- <-]|[Hne Hst']]%lookup_insert_Some.
  - rewrite decide_True by done. destruct (Hi _ _ Ho) as [acked Hs]. exists acked. apply run_call_simulates; [done|].
    apply (Hb (t_obj x.2)). cbn. by rewrite lookup_insert_eq.
  - rewrite decide_False, app_nil_r by done. by apply Hi.
Qed.

(** Changes to the streams that no call is part of. *)
Lemma inv_with_obj T obj st :
  th_inv T -> (exists acked, simulates st (sent_to obj (th_ran T)) acked) -> th_inv (with_obj T obj st).
Proof.
  intros [H1 H2 H3 H4 H5 H6 H7 H8] Hs. split; try done. cbn. intros obj' st' [[<- <-]|[_ Ho]]%lookup_insert_Some; [done|]. by apply H8.
Qed.

Lemma inv_with_hand T h : th_inv T -> th_inv (with_hand T h).
Proof. intros []. by split. Qed.

(** A call from the event loop's thread takes effect at once; one from another thread is queued. *)
Lemma inv_stream_op tid t T T' : th_inv T -> stream_op tid t T = Ok T' -> in_bounds T' -> th_inv T'.
Proof.
  intros [Hq Hl Hid Hfo Hc Hr Hown Ho] Hop Hb. unfold stream_op, call in Hop. unfold in_event_loop in Hop. rewrite Hl in Hop.
  destruct (Nat.eqb_spec tid loop) as [->|Hne]; cbn [run_job obind] in Hop.
  - apply run_task_objs in Hop as (Ho' & En & Ej & Ec & Er); [|done..]. rewrite Er in Ho'. cbn [th_net th_jobs th_calls th_ran] in *.
    split; rewrite ?En, ?Ej, ?Ec, ?Er; cbn [loop_thread_id pushed executed with_world]; try done.
    + eapply Forall_impl; [exact Hid|]. intros i Hi. cbn in Hi |- *. rewrite length_app. lia.
    + by rewrite tasks_of_more.
    + intros tid Hne. rewrite tasks_of_more, by_thread_app, Hc by done. unfold by_thread at 2.
      by rewrite filter_cons, decide_False, app_nil_r by done.
    + intros tid Hne. rewrite tasks_of_more, by_thread_app, Hr; [|done|].
      * unfold by_thread at 2. by rewrite filter_cons, decide_False, app_nil_r by done.
      * destruct Hq as [Hp _]. rewrite Hp, user_jobs_app in Hid. by apply Forall_app in Hid as [? _].
    + by rewrite !by_thread_app, Hown.
  - injection Hop as <-. cbn in Hb. assert (Forall (fun i => i < length (th_jobs T))%nat (user_jobs (executed (th_net T)))) as Hide.
    { destruct Hq as [Hp _]. rewrite Hp, user_jobs_app in Hid. by apply Forall_app in Hid as [? _]. }
    assert (tasks_of (th_jobs T ++ [(tid, t)]) (pushed (th_net T) ++ [JUser (length (th_jobs T))]) =
            tasks_of (th_jobs T) (pushed (th_net T)) ++ [(tid, t)]) as Ht.
    { rewrite tasks_of_app, tasks_of_more by done. f_equal. unfold tasks_of. cbn. by rewrite list_lookup_middle. }
    split; cbn [th_net th_jobs th_calls th_ran th_objs call_soon_push with_queue pushed executed loop_thread_id]; try done.
    + by apply queue_inv_push.
    + rewrite user_jobs_app, length_app. apply Forall_app. split; [|repeat constructor; cbn; lia].
      eapply Forall_impl; [exact Hid|]. intros i Hi. cbn in *. lia.
    + rewrite Ht. apply Forall_app. split; [done|]. by repeat constructor.
    + intros tid' Hne'. by rewrite Ht, !by_thread_app, Hc.
    + intros tid' Hne'. by rewrite tasks_of_more, Hr.
    + rewrite by_thread_app, Hown. unfold by_thread at 2. by rewrite filter_cons, decide_False, app_nil_r by done.
Qed.

Lemma inv_run_next i rest T T' :
  th_inv T -> loop_phase (th_net T) = Running (JUser i :: rest) -> run_next i rest T = Ok T' -> in_bounds T' -> th_inv T'.
Proof.
  intros [Hq Hl Hid Hfo Hc Hr Hown Ho] Hp Hrun Hb. unfold run_next in Hrun. destruct (th_jobs T !! i) as [x|] eqn:Hx; [|done].
  apply obind_ok in Hrun as (n & Hn & Hrun). assert (net_step (th_net T) n) as Hst by (by eapply net_run).
  pose proof Hn as [= En]. apply run_task_objs in Hrun as (Ho' & En' & Ej & Ec & Er); [|done..].
  rewrite Er in Ho'. cbn [th_net th_jobs th_calls th_ran with_net] in *.
  assert (pushed n = pushed (th_net T)) as Ep by (by rewrite <- En). assert (executed n = executed (th_net T) ++ [JUser i]) as Ee by (by rewrite <- En).
  assert (x.1 <> loop) as Hne.
  { rewrite Forall_forall in Hfo. apply Hfo. unfold tasks_of. apply list_elem_of_omap. exists i. split; [|done].
    destruct Hq as [Hpu _]. rewrite Hpu, !user_jobs_app, Hp. apply elem_of_app. right. apply elem_of_app. left. left. }
  split; rewrite ?En', ?Ej, ?Ec, ?Er, ?Ep; try done.
  - by eapply queue_inv_step.
  - by rewrite (net_step_loop _ _ Hst).
  - intros tid Htid. rewrite Ee, tasks_of_app, !by_thread_app, Hr by done. f_equal. unfold tasks_of. cbn. by rewrite Hx.
  - rewrite by_thread_app, Hown. unfold by_thread at 3. by rewrite filter_cons, decide_False, app_nil_r by done.
Qed.

Lemma inv_loop_sent obj st st' e T :
  th_inv T -> th_objs T !! obj = Some st ->
  (forall hist acked, simulates st hist acked -> exists acked', simulates st' (hist ++ chunk_bytes e) acked') ->
  th_inv (loop_sent obj st' e T).
Proof.
  intros [Hq Hl Hid Hfo Hc Hr Hown Ho] Hst Hs. unfold loop_sent. rewrite Hl.
  split; cbn [th_net th_jobs th_calls th_ran th_objs]; try done.
  - intros tid Hne. by rewrite by_thread_app, chunk_tasks_thread, app_nil_r, Hc.
  - intros tid Hne. by rewrite by_thread_app, chunk_tasks_thread, app_nil_r, Hr.
  - by rewrite !by_thread_app, Hown.
  - intros obj' st1. rewrite sent_to_app, chunk_tasks_bytes. intros [[<- <-]|[Hne Hst1]]%lookup_insert_Some.
    + rewrite decide_True by done. destruct (Ho _ _ Hst) as [acked Ha]. by eapply Hs.
    + rewrite decide_False, app_nil_r by done. by apply Ho.
Qed.

Lemma th_inv_step T T' : th_inv T -> th_step T T' -> th_inv T'.
Proof.
  intros Hi Hst. pose proof Hi as [Hq Hl Hid Hfo Hc Hr Hown Ho].
  destruct Hst as [tid t T T' _ Hop Hb|obj f d T T' Hop|obj k st st' e T Hst Hqc Hb|tid obj k T T' _ _ Hop|tid T T' Hop Hb|i rest T T' Hp Hrun Hb|n T Hn Hpu Hex
    |obj n st T Hst Hn|stale obj n st st' e ub T Hst Hn Hack Hb|obj dcb ccb id T Hno Hf|obj T].
  - by eapply inv_stream_op.
  - unfold start_chunks in Hop. destruct (th_objs T !! obj) as [st|] eqn:Hst; [|done]. injection Hop as <-.
    apply inv_with_obj; [done|]. exact (Ho _ _ Hst).
  - eapply inv_loop_sent; [done..|]. intros hist acked Hs. exists acked. pose proof (queue_next_chunk_spec k st) as Hsp.
    rewrite Hqc in Hsp. destruct Hsp as (new & Hs' & _ & <- & _). by eapply simulates_append.
  - unfold take_chunk in Hop. destruct (th_objs T !! obj) as [st|] eqn:Hst; [|done]. specialize (Ho _ _ Hst).
    destruct (cs_senders st !! k) as [[[f|] n d]|]; [|by injection Hop as <-..].
    destruct (bool_decide _); injection Hop as <-; [|apply inv_with_hand]; by apply inv_with_obj.
  - unfold put_chunk in Hop. destruct (th_hand T !! tid) as [[[obj k] data]|]; [|by injection Hop as <-].
    eapply inv_stream_op; [|exact Hop|done]. by apply inv_with_hand.
  - by eapply inv_run_next.
  - assert (forall J, tasks_of J (pushed n) = tasks_of J (pushed (th_net T))) as Ep by (intros; unfold tasks_of; by rewrite Hpu).
    assert (forall J, tasks_of J (executed n) = tasks_of J (executed (th_net T))) as Ee by (intros; unfold tasks_of; by rewrite Hex).
    split; cbn [with_net th_net th_jobs th_calls th_ran th_objs]; rewrite ?Hpu, ?Ep; try done.
    + by eapply queue_inv_step.
    + by rewrite (net_step_loop _ _ Hn).
    + intros tid Hne. by rewrite Ee, Hr.
  - apply inv_with_obj; [done|]. destruct (Ho _ _ Hst) as [acked Hs]. exists acked. by apply simulates_wrote.
  - eapply inv_loop_sent; [done..|]. intros hist acked Hs. exists (acked + n). by eapply simulates_ack.
  - apply Forall_app in Hf as [_ Hf]. apply inv_with_obj; [done|]. exists 0. rewrite sent_to_other by done. apply simulates_new.
  - split; cbn; try done. intros obj' st [_ Hst]%lookup_delete_Some. by apply Ho.
Qed.

Lemma th_reachable_inv owned T : rtc th_step (th_initial loop owned) T -> th_inv T.
Proof.
  intros Hr. pose proof (th_inv_initial owned) as Hi. revert Hi. induction Hr as [|T1 T2 T3 Hst _ IH]; [done|].
  intros Hi. apply IH. by eapply th_inv_step.
Qed.
End inv.

Lemma tasks_of_prefix jobs a b : a `prefix_of` b -> tasks_of jobs a `prefix_of` tasks_of jobs b.
Proof. intros [c ->]. rewrite tasks_of_app. by eexists. Qed.

Lemma by_thread_prefix tid a b : a `prefix_of` b -> by_thread tid a `prefix_of` by_thread tid b.
Proof. intros [c ->]. rewrite by_thread_app. by eexists. Qed.

(** C13: streams used from any number of threads: under every interleaving, the calls of each thread take effect in the
    order it made them, none twice, and all of them once the queue has been worked off; and what a stream object holds
    is always the bytes of the calls that took effect on it, in that order, less an acknowledged prefix. *)
Theorem threads_in_order (loop : nat) (owned : bool) (T : threads) (tid : nat) :
  rtc th_step (th_initial loop owned) T ->
  by_thread tid (th_ran T) `prefix_of` by_thread tid (th_calls T) /\
  (pushing (th_net T) = [] -> job_waker (th_net T) = false -> loop_phase (th_net T) = Idle ->
     by_thread tid (th_ran T) = by_thread tid (th_calls T)) /\
  (forall obj st, th_objs T !! obj = Some st ->
     exists acked, 0 <= acked /\ content (cs_stream st) = zdrop acked (sent_to obj (th_ran T))).
Proof.
  intros Hr%th_reachable_inv. destruct Hr as [[Hp Hw] Hl Hid Hfo Hc Hr Hown Ho].
  assert (executed (th_net T) `prefix_of` pushed (th_net T)) as Hpre by (rewrite Hp; by eexists).
  split_and!.
  - destruct (decide (tid = loop)) as [->|Hne]; [by rewrite Hown|]. rewrite Hc, Hr by done.
    by apply by_thread_prefix, tasks_of_prefix.
  - intros H1 H2 H3. destruct (decide (tid = loop)) as [->|Hne]; [done|]. rewrite Hc, Hr, Hp, H3 by done. cbn [in_loop app].
    destruct (job_queue (th_net T)) as [|j q] eqn:Eq; [by rewrite app_nil_r|].
    destruct (Hw ltac:(done)) as [?|[?|?]]; congruence.
  - intros obj st Hst. destruct (Ho _ _ Hst) as [acked (_ & _ & [Ha _] & Hcont)]. by exists acked.
Qed.

(** ** Calls that wait for the loop *)

(** Steps that finish what was begun: the calls that are queued, and what the loop and the callers do between them. *)
Inductive th_loop_step : threads -> threads -> Prop :=
  | tl_job i rest T T' :
      loop_phase (th_net T) = Running (JUser i :: rest) -> run_next i rest T = Ok T' -> th_loop_step T T'
  | tl_net n T : loop_step (th_net T) n -> executed n = executed (th_net T) -> th_loop_step T (with_net T n).

(** The calls that are still to be run, in order. *)
Definition waiting_calls (T : threads) : list (nat * task) := tasks_of (th_jobs T) (outstanding (th_net T)).
Definition object_alive (T : threads) (x : nat * task) : Prop := is_Some (th_objs T !! t_obj x.2).

Lemma run_next_ok i rest T T' :
  loop_phase (th_net T) = Running (JUser i :: rest) -> run_next i rest T = Ok T' ->
  loop_step (th_net T) (th_net T') /\ exists x, th_jobs T !! i = Some x /\ th_jobs T' = th_jobs T /\ th_ran T' = th_ran T ++ [x] /\
    object_alive T x /\ (forall y, object_alive T' y <-> object_alive T y).
Proof.
  intros Hp Hr. unfold run_next in Hr. destruct (th_jobs T !! i) as [x|] eqn:Hx; [|done]. apply obind_ok in Hr as (n & Hn & Hr).
  unfold run_task in Hr. cbn [th_objs with_net] in Hr. destruct (th_objs T !! t_obj x.2) as [st|] eqn:Ho; [|done]. injection Hr as <-.
  split; [by eapply loop_run|]. exists x. split_and!; [done..|by eexists|]. intros y. unfold object_alive. cbn.
  rewrite lookup_insert_is_Some. split; [intros [<-|[_ ?]]; [by eexists|done]|]. intros Hy. destruct (decide (t_obj x.2 = t_obj y.2)); auto.
Qed.

Lemma run_next_fails i rest T x :
  th_jobs T !! i = Some x -> (forall T', run_next i rest T <> Ok T') -> ~ object_alive T x /\ run_next i rest T = Undefined.
Proof.
  intros Hx Hno. unfold run_next, run_task, object_alive in *. rewrite Hx in *. cbn [process_one run_job obind th_objs with_net] in *.
  destruct (th_objs T !! t_obj x.2) as [st|]; [by edestruct Hno|]. split; [by intros []|done].
Qed.

Lemma th_loop_net T T' : th_loop_step T T' -> loop_step (th_net T) (th_net T').
Proof. intros [i rest T0 T1 Hp Hr|n T0 Hn _]; [by destruct (run_next_ok _ _ _ _ Hp Hr)|done]. Qed.

Lemma th_loop_terminates T : sn th_loop_step T.
Proof.
  assert (forall n T, sn loop_step n -> th_net T = n -> sn th_loop_step T) as Hsn; [|by apply (Hsn (th_net T)); [apply loop_terminates|]].
  intros n T0 Hsn. revert T0. induction Hsn as [n _ IH]. intros T0 <-. constructor. intros T1 Hst. by apply (IH (th_net T1)); [apply th_loop_net|].
Qed.

(** The loop has worked off [ran] and is not going to exit. *)
Record working (T0 : threads) (ran : list (nat * task)) (T : threads) : Prop := {
  w_queue : queue_inv (th_net T);
  w_exit : loop_exited (th_net T) = false;
  w_users : forallb is_user (outstanding (th_net T)) = true;
  w_jobs : th_jobs T = th_jobs T0;
  w_ids : Forall (fun i => i < length (th_jobs T))%nat (user_jobs (outstanding (th_net T)));
  w_alive : forall y, object_alive T y <-> object_alive T0 y;
  w_ran : th_ran T = th_ran T0 ++ ran;
  w_calls : waiting_calls T0 = ran ++ waiting_calls T;
  w_done : Forall (object_alive T0) ran;
}.

Lemma working_step T0 ran T T' : working T0 ran T -> th_loop_step T T' -> exists ran', working T0 ran' T'.
Proof.
  intros [Hq Hx Hu Hj Hid Ha Hr Hc Hd] Hst. pose proof (th_loop_net _ _ Hst) as Hn.
  assert (queue_inv (th_net T')) as Hq' by (eapply queue_inv_step; [done|by apply loop_net_step]).
  destruct Hst as [i rest T T' Hp Hrn|n T _ Hex].
  - destruct (run_next_ok _ _ _ _ Hp Hrn) as (_ & x & Hi & Ej & Er & Hal & Ea).
    destruct (loop_step_cases _ _ Hn) as [(_ & He & _)|(j & n0 & Eo & Ee & Hrj & El & _)].
    { unfold run_next in Hrn. rewrite Hi in Hrn. apply obind_ok in Hrn as (n & Hn1 & Hrn). unfold run_task in Hrn.
      destruct (th_objs (with_net T n) !! t_obj x.2); [|done]. injection Hrn as <-. unfold process_one in Hn1. apply run_job_queue in Hn1 as (_ & _ & _ & _ & _ & E6 & _).
      cbn in He, E6. rewrite E6 in He. apply (f_equal length) in He. rewrite length_app in He. cbn in He. lia. }
    assert (j = JUser i) as ->. { unfold outstanding at 1 in Eo. rewrite Hp in Eo. by injection Eo. }
    destruct (user_run (JUser i) _ _ eq_refl Hrj) as [E1 _].
    rewrite Eo in Hu, Hid. cbn in Hu. change (user_jobs (JUser i :: outstanding (th_net T'))) with (i :: user_jobs (outstanding (th_net T'))) in Hid.
    apply Forall_cons in Hid as [_ Hid]. exists (ran ++ [x]). split; try done.
    + unfold loop_exited in *. by rewrite E1, El.
    + congruence.
    + by rewrite Ej.
    + intros y. by rewrite Ea.
    + by rewrite Er, Hr, <- app_assoc.
    + rewrite Hc, <- app_assoc. f_equal. unfold waiting_calls. rewrite Eo, Ej. unfold tasks_of. cbn. by rewrite Hi.
    + apply Forall_app. split; [done|]. constructor; [by apply Ha|constructor].
  - exists ran. destruct (loop_step_cases _ _ Hn) as [(Eo & _ & El & _)|(j & n0 & _ & Ee & _)].
    + cbn [with_net th_net] in *. split; unfold waiting_calls, loop_exited in *; cbn [with_net th_net th_jobs th_ran]; rewrite ?Eo, ?El; done.
    + cbn [with_net th_net] in *. rewrite Hex in Ee. apply (f_equal length) in Ee. rewrite length_app in Ee. cbn in Ee. lia.
Qed.

Lemma working_run T0 ran T T' : working T0 ran T -> rtc th_loop_step T T' -> exists ran', working T0 ran' T'.
Proof.
  intros Hw Hr. revert ran Hw. induction Hr as [|T1 T2 T3 Hst _ IH]; intros ran Hw; [by exists ran|].
  destruct (working_step _ _ _ _ Hw Hst) as [ran' Hw']. by eapply IH.
Qed.

(** A run of the loop ends with every call run, or at a call whose stream is gone. *)
Lemma working_end T0 ran T :
  working T0 ran T -> nf th_loop_step T ->
  waiting_calls T = [] \/
  exists i x rest, loop_phase (th_net T) = Running (JUser i :: rest) /\ head (waiting_calls T) = Some x /\ ~ object_alive T x /\
    run_next i rest T = Undefined.
Proof.
  intros [Hq Hx Hu Hj Hid Ha Hr Hc _] Hnf.
  destruct (loop_at_job (th_net T)) as (Hp & _ & Hcase).
  { intros n Hst He. apply Hnf. exists (with_net T n). by apply tl_net. }
  destruct Hcase as [[Hi Hwk]|(j & rest & Hl)].
  - left. unfold waiting_calls, outstanding. rewrite Hi. cbn. destruct (job_queue (th_net T)) eqn:Eq; [done|].
    destruct Hq as [_ Hw]. rewrite Eq, Hi, Hp in Hw. destruct (Hw ltac:(done)) as [Hb|[?|?]]; [|done..]. rewrite (Hwk Hb) in Hx. done.
  - right. assert (outstanding (th_net T) = j :: rest ++ job_queue (th_net T)) as Eo by (unfold outstanding; by rewrite Hl).
    rewrite Eo in Hu, Hid. destruct j as [i|]; [|done]. apply Forall_cons in Hid as [Hi _].
    apply lookup_lt_is_Some in Hi as [x Hxi]. exists i, x, rest. split; [done|].
    destruct (run_next_fails i rest T x Hxi) as [Hna Hun].
    { intros T' HT'. apply Hnf. exists T'. by eapply tl_job. }
    split_and!; [|done..]. unfold waiting_calls. rewrite Eo. unfold tasks_of. cbn. by rewrite Hxi.
Qed.


(** ** The order of chunks *)

(** The chunks of sender [k] among some effects, and what it means that they were asked for in order between two
    states of the senders. *)
Definition given (k : nat) (e : list effect) : list (list Z) :=
  omap (fun x => match x with ENextChunk k' (b :: bs) => if decide (k' = k) then Some (b :: bs) else None | _ => None end) e.
Definition asked (s : list chunk_sender) (e : list effect) (s' : list chunk_sender) : Prop :=
  length s' = length s /\ (forall k, (length s <= k)%nat -> given k e = []) /\
  forall k f n' d, s' !! k = Some (mkSender (Some f) n' d) ->
    exists n, s !! k = Some (mkSender (Some f) n d) /\ (n <= n')%nat /\ given k e = map f (seq n (n' - n)).

Lemma asked_refl s e : (forall k, given k e = []) -> asked s e s.
Proof. intros He. split_and!; [done..|]. intros k f n d Hk. exists n. split_and!; [done..|]. by rewrite Nat.sub_diag, He. Qed.

Lemma asked_trans s1 e1 s2 e2 s3 : asked s1 e1 s2 -> asked s2 e2 s3 -> asked s1 (e1 ++ e2) s3.
Proof.
  intros (L12 & N12 & H12) (L23 & N23 & H23). unfold asked, given in *. split_and!; [congruence| |].
  { intros k Hk. by rewrite omap_app, N12, N23 by lia. }
  intros k f n3 d Hk. destruct (H23 _ _ _ _ Hk) as (n2 & H2 & Hle2 & Hg2).
  destruct (H12 _ _ _ _ H2) as (n1 & H1 & Hle1 & Hg1). exists n1. split; [done|]. split; [lia|].
  rewrite omap_app, Hg1, Hg2, <- map_app. f_equal.
  replace (n3 - n1)%nat with ((n2 - n1) + (n3 - n2))%nat by lia. rewrite seq_app. do 2 f_equal. lia.
Qed.

Lemma queue_next_chunk_asked k st :
  asked (cs_senders st) (queue_next_chunk k st).2 (cs_senders (queue_next_chunk k st).1).
Proof.
  unfold queue_next_chunk. destruct (cs_senders st !! k) as [[[f|] n d]|] eqn:Hk; cbn [next_chunk calls has_done]; [|by apply asked_refl..].
  pose proof (lookup_lt_Some _ _ _ Hk) as Hlen. case_bool_decide as Hf.
  - assert (forall j, given j (ENextChunk k (f n) :: (if d then [EDone k] else [])) = []) as Hg by (intros j; rewrite Hf; by destruct d).
    cbn [fst snd cs_senders]. split; [by rewrite length_insert|]. split; [by intros; apply Hg|].
    intros k' f' n' d' [(_ & [=] & _)|[Hne Hk']]%list_lookup_insert_Some.
    exists n'. split_and!; [done..|]. by rewrite Nat.sub_diag, Hg.
  - unfold Stream_send, append_buffer. cbn [fst snd cs_senders].
    assert (forall j, given j (ENextChunk k (f n) :: (if ready (cs_stream st) then [EIoReady] else [])) = if decide (k = j) then [f n] else []) as Hg.
    { intros j. destruct (f n) as [|b bs]; [done|]. unfold given. cbn. case_decide; by destruct (ready _). }
    split; [by rewrite length_insert|]. split; [intros j Hj; by rewrite Hg, decide_False by lia|].
    intros k' f' n' d' [(-> & [= <- <- <-] & Hlt)|[Hne Hk']]%list_lookup_insert_Some.
    + exists n. split; [done|]. split; [lia|]. rewrite Hg, decide_True by done. by replace (S n - n)%nat with 1%nat by lia.
    + exists n'. split; [done|]. split; [done|]. by rewrite Hg, decide_False, Nat.sub_diag by congruence.
Qed.

Lemma pop_front_asked st : asked (cs_senders st) (pop_front st).2 (cs_senders (pop_front st).1).
Proof.
  unfold pop_front. destruct (user_buffers (cs_stream st)) as [|[b [|u|k]] rest]; [by apply asked_refl..|].
  apply (queue_next_chunk_asked k (mkCS _ (cs_senders st))).
Qed.

Lemma ack_loop_asked stale fuel bytes st b st' e ub :
  ack_loop stale fuel bytes st = Ok (b, st', e, ub) -> asked (cs_senders st) e (cs_senders st').
Proof.
  apply (ack_loop_closed (fun s e s' => asked (cs_senders s) e (cs_senders s'))); [by intros; apply asked_refl|apply pop_front_asked|].
  intros. by eapply asked_trans.
Qed.

Lemma acknowledge_asked stale fuel bytes st st' e ub :
  acknowledge stale fuel bytes st = Ok (st', e, ub) -> asked (cs_senders st) e (cs_senders st').
Proof.
  unfold acknowledge. intros [_ H]%assert_then_ok. apply obind_ok in H as ([[[b st2] e2] ub2] & Hl%ack_loop_asked & H).
  destruct (b =? 0); [by simplify_eq|]. destruct (user_buffers (cs_stream st2)) as [|[f ka] rest]; by simplify_eq.
Qed.

(** The chunks of a sender that were sent on a stream object. *)
Definition chunks_of (obj k : nat) (l : list (nat * task)) : list (list Z) :=
  omap (fun x : nat * task => match t_call x.2 with
    | CSend data (KChunk k') => if decide (t_obj x.2 = obj /\ k' = k) then Some data else None
    | _ => None
    end) l.

Lemma chunks_of_app obj k a b : chunks_of obj k (a ++ b) = chunks_of obj k a ++ chunks_of obj k b.
Proof. apply omap_app. Qed.

Lemma chunks_of_tasks loop obj obj' k e : chunks_of obj' k (chunk_tasks loop obj e) = if decide (obj = obj') then given k e else [].
Proof.
  induction e as [|x e IH]; [by case_decide|]. destruct x as [| | | | | | | |j [|b bs]|]; try exact IH.
  unfold chunks_of, chunk_tasks, given in *. cbn. rewrite IH. repeat case_decide; naive_solver.
Qed.

Lemma chunks_of_user obj k x : user_call (t_call x.2) = true -> chunks_of obj k [x] = [].
Proof. unfold chunks_of. cbn. by destruct (t_call x.2) as [data [| |j]|]. Qed.

Lemma chunks_of_other obj k l : Forall (fun x => t_obj x.2 <> obj) l -> chunks_of obj k l = [].
Proof.
  unfold chunks_of. induction 1 as [|x l Hx _ IH]; [done|]. cbn. rewrite IH. destruct (t_call x.2) as [data [| |j]|]; try done.
  rewrite decide_False; [done|]. naive_solver.
Qed.

(** Runs in which no thread but the event loop's asks a chunk sender for chunks. *)
Definition loop_chunks_step (T T' : threads) : Prop := th_step T T' /\ th_hand T' = ∅.

Record chunk_inv (T : threads) : Prop := {
  ci_hand : th_hand T = ∅;
  ci_jobs : Forall (fun x => user_call (t_call x.2) = true) (th_jobs T);
  ci_order : forall obj st k f n d, th_objs T !! obj = Some st -> cs_senders st !! k = Some (mkSender (Some f) n d) ->
    chunks_of obj k (th_ran T) = map f (seq 0 n);
  ci_new : forall obj st k, th_objs T !! obj = Some st -> (length (cs_senders st) <= k)%nat -> chunks_of obj k (th_ran T) = [];
}.

(** A stream whose senders were asked in order, while other streams are left alone. *)
Lemma chunk_inv_asked T T' obj st st' e :
  chunk_inv T -> th_objs T !! obj = Some st -> asked (cs_senders st) e (cs_senders st') ->
  th_hand T' = ∅ -> Forall (fun x => user_call (t_call x.2) = true) (th_jobs T') -> th_objs T' = <[obj := st']> (th_objs T) ->
  (forall obj' k, chunks_of obj' k (th_ran T') = chunks_of obj' k (th_ran T) ++ if decide (obj = obj') then given k e else []) ->
  chunk_inv T'.
Proof.
  intros [_ _ Ho Hn] Hst (Hl & Hnone & Ha) Hh Hj Eo Er. split; [done..| |]; rewrite Eo.
  - intros obj' st1 k f n' d [[<- <-]|[Hne Hst1]]%lookup_insert_Some Hk; rewrite Er.
    + rewrite decide_True by done. destruct (Ha _ _ _ _ Hk) as (n & Hkn & Hle & ->). rewrite (Ho _ _ _ _ _ _ Hst Hkn), <- map_app.
      f_equal. replace n' with (n + (n' - n))%nat at 2 by lia. by rewrite seq_app.
    + rewrite decide_False, app_nil_r by done. by eapply Ho.
  - intros obj' st1 k [[<- <-]|[Hne Hst1]]%lookup_insert_Some Hk; rewrite Er.
    + rewrite decide_True, (Hn _ _ _ Hst), Hnone by (done || lia). done.
    + rewrite decide_False, app_nil_r by done. by eapply Hn.
Qed.

Lemma run_call_senders c st : cs_senders (run_call c st) = cs_senders st.
Proof. by destruct c. Qed.

Lemma run_task_chunks x T T' :
  chunk_inv T -> user_call (t_call x.2) = true -> run_task x T = Ok T' -> chunk_inv T'.
Proof.
  intros Hi Hu Hr. unfold run_task in Hr. destruct (th_objs T !! t_obj x.2) as [st|] eqn:Hst; [|done]. injection Hr as <-.
  eapply (chunk_inv_asked T _ (t_obj x.2) st (run_call (t_call x.2) st) []); [done|done| |apply Hi|apply Hi|done|].
  - rewrite run_call_senders. by apply asked_refl.
  - intros obj' k. cbn [th_ran]. rewrite chunks_of_app, chunks_of_user by done. by case_decide.
Qed.

Lemma chunk_inv_same T T' :
  chunk_inv T -> th_hand T' = ∅ -> Forall (fun x => user_call (t_call x.2) = true) (th_jobs T') ->
  th_objs T' ⊆ th_objs T -> th_ran T' = th_ran T -> chunk_inv T'.
Proof.
  intros [_ _ Ho Hn] Hh Hj Hs Er. split; [done..| |]; rewrite Er; intros obj st k.
  - intros f n d Hst. apply Ho. by eapply lookup_weaken.
  - intros Hst. apply Hn. by eapply lookup_weaken.
Qed.

Lemma stream_op_chunks tid t T T' :
  chunk_inv T -> user_call (t_call t) = true -> stream_op tid t T = Ok T' -> chunk_inv T'.
Proof.
  intros Hi Hu Hop. unfold stream_op in Hop. apply obind_ok in Hop as (n & _ & Hop).
  match type of Hop with context [run_task _ ?T1] => assert (chunk_inv T1) as Hi1 end.
  { eapply chunk_inv_same; [exact Hi|apply Hi| |done|done]. cbn [th_jobs]. apply Forall_app. split; [apply Hi|]. by repeat constructor. }
  destruct (in_event_loop _ _); [|by injection Hop as <-]. exact (run_task_chunks (tid, t) _ _ Hi1 Hu Hop).
Qed.

Lemma chunk_inv_step T T' : chunk_inv T -> loop_chunks_step T T' -> chunk_inv T'.
Proof.
  intros Hi [Hst Hh]. pose proof Hi as [Hh0 Hj Ho Hn].
  destruct Hst as [tid t T T' Hu Hop _|obj f d T T' Hop|obj k st st' e T Hst Hqc _|tid obj k T T' _ _ Hop|tid T T' Hop _|i rest T T' Hp Hrun _
    |n T _ _ _|obj n st T Hst _|stale obj n st st' e ub T Hst _ Hack _|obj dcb ccb id T Hno Hf|obj T].
  - by eapply stream_op_chunks.
  - unfold start_chunks in Hop. destruct (th_objs T !! obj) as [st|] eqn:Hst; [|done]. injection Hop as <-. cbn in Hh.
    split; [done..| |]; cbn [with_obj th_objs th_ran]; intros obj' st' k.
    + intros g n d' [[<- <-]|[_ Hst']]%lookup_insert_Some; [|by apply Ho]. cbn [cs_senders].
      intros [Hk|[Hk Hs]]%lookup_app_Some; [by eapply Ho|]. apply list_lookup_singleton_Some in Hs as [Hz Hs]. simplify_eq.
      by eapply (Hn _ _ _ Hst).
    + intros [[<- <-]|[_ Hst']]%lookup_insert_Some; [|by apply Hn]. cbn [cs_senders]. rewrite length_app. intros Hk.
      apply (Hn _ _ _ Hst). lia.
  - pose proof (queue_next_chunk_asked k st) as Ha. rewrite Hqc in Ha.
    eapply (chunk_inv_asked T _ obj st st' e); try done. intros obj' k'. cbn [loop_sent th_ran]. by rewrite chunks_of_app, chunks_of_tasks.
  - unfold take_chunk in Hop. destruct (th_objs T !! obj) as [st|] eqn:Hst; [|done].
    destruct (cs_senders st !! k) as [[[f|] n d]|] eqn:Hk; [|by injection Hop as <-..].
    destruct (bool_decide _); injection Hop as <-; [|cbn in Hh; by apply insert_non_empty in Hh].
    eapply (chunk_inv_asked T _ obj st _ []); try done; [|intros obj' k'; cbn; case_decide; by rewrite app_nil_r].
    cbn [cs_senders]. split; [by rewrite length_insert|]. split; [done|].
    intros k' f' n' d' [(_ & [=] & _)|[_ Hk']]%list_lookup_insert_Some. exists n'. split_and!; [done..|]. by rewrite Nat.sub_diag.
  - unfold put_chunk in Hop. rewrite Hh0, lookup_empty in Hop. by injection Hop as <-.
  - unfold run_next in Hrun. destruct (th_jobs T !! i) as [x|] eqn:Hx; [|done]. apply obind_ok in Hrun as (n & _ & Hrun).
    apply (run_task_chunks x _ _ (chunk_inv_same T (with_net T n) Hi Hh0 Hj ltac:(done) eq_refl)); [|exact Hrun].
    exact (Forall_lookup_1 _ _ _ _ Hj Hx).
  - by eapply chunk_inv_same.
  - eapply (chunk_inv_asked T _ obj st _ []); try done; [by apply asked_refl|]. intros obj' k'. cbn. case_decide; by rewrite app_nil_r.
  - pose proof (acknowledge_asked _ _ _ _ _ _ _ Hack) as Ha.
    eapply (chunk_inv_asked T _ obj st st' e); try done. intros obj' k'. cbn [loop_sent th_ran]. by rewrite chunks_of_app, chunks_of_tasks.
  - apply Forall_app in Hf as [_ Hf]. split; [done..| |]; cbn [with_obj th_objs th_ran]; intros obj' st' k.
    + intros f n d [[<- <-]|[_ Hst']]%lookup_insert_Some; [done|by apply Ho].
    + intros [[<- <-]|[_ Hst']]%lookup_insert_Some Hk; [by apply chunks_of_other|by eapply Hn].
  - eapply chunk_inv_same; try done. cbn. apply delete_subseteq.
Qed.

(** C14: as long as [send_chunks] is only used on the event loop's thread, the chunks of a sender are sent in the order its
    callback gave them, none left out and none twice, whatever else other threads send on the stream. *)
Theorem loop_chunks_in_order (loop : nat) (owned : bool) (T : threads) (obj k n : nat) (st : chunk_state) (f : nat -> list Z) (d : bool) :
  rtc loop_chunks_step (th_initial loop owned) T -> th_objs T !! obj = Some st ->
  cs_senders st !! k = Some (mkSender (Some f) n d) ->
  chunks_of obj k (th_ran T) = map f (seq 0 n).
Proof.
  intros Hr. assert (chunk_inv (th_initial loop owned)) as Hi by (split; try done; intros ? ? ? ? ? ?; by rewrite lookup_empty).
  revert Hi. induction Hr as [T|T1 T2 T3 Hst _ IH]; intros Hi; [by apply Hi|]. apply IH. by eapply chunk_inv_step.
Qed.

(** ** Worked examples *)

Lemma in_bounds_check T :
  forallb (fun x => zlen (content (cs_stream x.2)) <? 2 ^ 64) (map_to_list (th_objs T)) = true -> in_bounds T.
Proof.
  intros H obj st Hst. rewrite forallb_forall in H. specialize (H (obj, st)). apply Z.ltb_lt. apply H.
  apply list_elem_of_In, elem_of_map_to_list. exact Hst.
Qed.

(** A stream, and a sender of three chunks, two of them at first. *)
Definition three (n : nat) : list Z := if (n <? 3)%nat then [Z.of_nat n + 1] else [].
Definition forced (o : outcome threads) : threads := match o with Ok T => T | _ => th_initial 1 true end.
Definition woken (tid : nat) (T : threads) : threads := with_net T (process_swap (waker_fires (call_soon_wake tid (th_net T)))).
Definition ended_queue (T : threads) : threads := with_net T (process_end (th_net T)).

Definition on_stream : threads := with_obj (th_initial 1 true) 0 (mkCS (Stream_new None None 0) []).
Definition started : threads := forced (start_chunks 0 three false on_stream).

Lemma started_reachable : th_step (th_initial 1 true) on_stream /\ th_step on_stream started.
Proof. split; [apply th_new; [reflexivity|constructor]|by apply (th_start 0 three false)]. Qed.

(** Thread 7 has made a call; the loop is woken and takes the queue; the queue was worked off. *)
Lemma woken_reachable tid T :
  tid ∈ pushing (th_net T) -> loop_phase (th_net T) = Idle -> rtc th_step T (woken tid T).
Proof.
  intros Hp Hi. eapply rtc_l; [apply (th_other (call_soon_wake tid (th_net T))); [by constructor|done..]|].
  eapply rtc_l; [apply (th_other (waker_fires (call_soon_wake tid (th_net T)))); [by constructor|done..]|].
  apply rtc_once. apply (th_other (process_swap (waker_fires (call_soon_wake tid (th_net T))))); [by constructor|done..].
Qed.

Lemma ended_reachable T : loop_phase (th_net T) = Running [] -> th_step T (ended_queue T).
Proof. intros H. apply (th_other (process_end (th_net T))); [by constructor|done..]. Qed.

(** Thread 7 sends its first chunk, which the loop queues and writes; then it has its second chunk in hand. *)
Definition first_put : threads := forced (put_chunk 7 (forced (take_chunk 7 0 0 started))).
Definition first_queued : threads := ended_queue (forced (run_next 0 [] (woken 7 first_put))).
Definition first_written : threads :=
  with_obj first_queued 0 (mkCS (Stream_wrote (cs_stream (default (mkCS (Stream_new None None 0) []) (th_objs first_queued !! 0%nat))) 1)
                             (cs_senders (default (mkCS (Stream_new None None 0) []) (th_objs first_queued !! 0%nat)))).
Definition in_hand : threads := forced (take_chunk 7 0 0 first_written).

Lemma in_hand_reachable : rtc th_step started in_hand.
Proof.
  eapply rtc_l; [apply (th_take 7 0 0 _ (forced (take_chunk 7 0 0 started))); vm_compute; reflexivity|].
  eapply rtc_l; [apply (th_put 7 _ first_put); [vm_compute; reflexivity|apply in_bounds_check; vm_compute; reflexivity]|].
  etransitivity; [apply (woken_reachable 7 first_put); [vm_compute; left|reflexivity]|].
  eapply rtc_l; [apply (th_job 0 [] _ (forced (run_next 0 [] (woken 7 first_put))));
    [reflexivity|vm_compute; reflexivity|apply in_bounds_check; vm_compute; reflexivity]|].
  eapply rtc_l; [apply ended_reachable; vm_compute; reflexivity|].
  eapply rtc_l; [eapply (th_wrote 0 1 (default (mkCS (Stream_new None None 0) []) (th_objs first_queued !! 0%nat)));
    [vm_compute; reflexivity|vm_compute; by split]|].
  apply rtc_once. apply (th_take 7 0 0 first_written in_hand); vm_compute; reflexivity.
Qed.

(** The first chunk is acknowledged, so that the loop asks for the next one; only then thread 7 goes on. *)
Definition stream_of (T : threads) : chunk_state := default (mkCS (Stream_new None None 0) []) (th_objs T !! 0%nat).
Definition ack_first : chunk_state * list effect :=
  match acknowledge 0 (ack_fuel 1 (stream_of in_hand)) 1 (stream_of in_hand) with
  | Ok (st, e, _) => (st, e)
  | _ => (stream_of in_hand, [])
  end.
Definition overtaken : threads := forced (put_chunk 7 (loop_sent 0 ack_first.1 ack_first.2 in_hand)).
Definition swapped : threads := ended_queue (forced (run_next 1 [] (woken 7 overtaken))).

Lemma swapped_reachable : rtc th_step in_hand swapped.
Proof.
  eapply rtc_l; [eapply (th_acked 0 0 1 (stream_of in_hand) ack_first.1 ack_first.2 false);
    [vm_compute; reflexivity|vm_compute; by split|vm_compute; reflexivity|vm_compute; reflexivity]|].
  eapply rtc_l; [apply (th_put 7 _ overtaken); [vm_compute; reflexivity|apply in_bounds_check; vm_compute; reflexivity]|].
  etransitivity; [apply (woken_reachable 7 overtaken); [vm_compute; left|vm_compute; reflexivity]|].
  eapply rtc_l; [apply (th_job 1 [] _ (forced (run_next 1 [] (woken 7 overtaken))));
    [vm_compute; reflexivity|vm_compute; reflexivity|apply in_bounds_check; vm_compute; reflexivity]|].
  apply rtc_once, ended_reachable. vm_compute. reflexivity.
Qed.

(** C36: [send_chunks] on any other thread can put the chunks on the stream in another order than its callback
    gave them: while that thread has a chunk in hand, the event loop may ask for the next one and send it first. *)
Theorem foreign_chunks_reordered :
  exists T st, rtc th_step (th_initial 1 true) T /\ th_objs T !! 0%nat = Some st /\ cs_senders st = [mkSender (Some three) 3 false] /\
    chunks_of 0 0 (th_ran T) = [three 0; three 2; three 1] /\ content (cs_stream st) = three 2 ++ three 1.
Proof.
  exists swapped, (stream_of swapped). split_and!; try (vm_compute; reflexivity).
  destruct started_reachable as [H1 H2]. eapply rtc_l; [exact H1|]. eapply rtc_l; [exact H2|].
  etransitivity; [exact in_hand_reachable|exact swapped_reachable].
Qed.

Lemma threads_in_order_witness :
  by_thread 7 (th_ran swapped) = by_thread 7 (th_calls swapped) /\ length (by_thread 7 (th_calls swapped)) = 2%nat.
Proof.
  split; [|vm_compute; reflexivity]. destruct started_reachable as [H1 H2].
  apply (threads_in_order 1 true swapped 7); [|vm_compute; reflexivity..].
  eapply rtc_l; [exact H1|]. eapply rtc_l; [exact H2|]. etransitivity; [exact in_hand_reachable|exact swapped_reachable].
Defined.

(** The stream is destroyed between the call and the job. *)
Definition orphaned : threads :=
  let T := woken 7 first_put in mkTh (th_net T) (th_jobs T) (base.delete 0%nat (th_objs T)) (th_hand T) (th_calls T) (th_ran T).


(** On the event loop's thread the first two chunks are queued in order. *)
Lemma loop_chunks_in_order_witness :
  exists T st, rtc loop_chunks_step (th_initial 1 true) T /\ th_objs T !! 0%nat = Some st /\ cs_senders st = [mkSender (Some three) 2 false] /\
    chunks_of 0 0 (th_ran T) = [three 0; three 1].
Proof.
  pose (q1 := queue_next_chunk 0 (stream_of started)). pose (T1 := loop_sent 0 q1.1 q1.2 started).
  pose (q2 := queue_next_chunk 0 (stream_of T1)). pose (T2 := loop_sent 0 q2.1 q2.2 T1).
  assert (rtc loop_chunks_step (th_initial 1 true) T2) as Hr.
  { destruct started_reachable as [H1 H2]. eapply rtc_l; [split; [exact H1|reflexivity]|]. eapply rtc_l; [split; [exact H2|reflexivity]|].
    eapply rtc_l; [split; [apply (th_queue 0 0 (stream_of started) q1.1 q1.2); vm_compute; reflexivity|reflexivity]|].
    apply rtc_once. split; [apply (th_queue 0 0 (stream_of T1) q2.1 q2.2); vm_compute; reflexivity|reflexivity]. }
  exists T2, (stream_of T2). split; [exact Hr|]. split; [vm_compute; reflexivity|]. split; [vm_compute; reflexivity|].
  apply (loop_chunks_in_order 1 true T2 0 0 2 (stream_of T2) three false Hr); vm_compute; reflexivity.
Defined.
