(* ===== verification/Setup.v ===== *)
(** * Construction: sockets, endpoints and the event loop

    Models the constructors and destructors that make system and libevent calls: [UDPSocket] of
    src/udp.cpp, [Endpoint] of src/endpoint.cpp, [Network] of src/network.cpp, and how
    [Network::endpoint] uses them.

    The operating system and libevent are parameters: the result and errno of each call, as a
    function of the call, and the name a socket is bound to.  What a constructor does is the list of calls
    it makes, which is kept also when an exception ends it. *)
From S2P Require Import Prelude StdMap Utils Text Gnutls Stream Udp Sender EndpointSend Context Connection Endpoint Network.
Import Cid Addr Io.

(** The events of the program. *)
Inductive ev := EvRead | EvWrite | EvExpiry | EvJobWaker | EvIo | EvRetransmit.
#[export] Instance ev_eq_dec : EqDecision ev.
Proof. solve_decision. Defined.

Inductive sys_call :=
  | SSocket (family : Z)
  | SBind (fd : Z) (name : list Z)
  | SGetsockname (fd : Z)
  | SSetNonblock (fd : Z)                                (* fcntl(fd, F_SETFL, O_NONBLOCK) *)
  | SSetsockopt (fd level name value size : Z)
  | SClose (fd : Z)
  | SEventNew (e : ev) (fd : Z) (persist : bool)         (* event_new *)
  | SEventAdd (e : ev) (timeout_us : option Z)           (* event_add *)
  | SEventFree (e : ev)                                  (* event_free *)
  | SSetLogCallback                                      (* event_set_log_callback *)
  | SUseThreads                                          (* evthread_use_pthreads *)
  | SGetMethods                                          (* event_get_supported_methods *)
  | SConfigNew                                           (* event_config_new *)
  | SConfigFlag (flag : Z)                               (* event_config_set_flag *)
  | SBaseNew                                             (* event_base_new_with_config *)
  | SBaseMethod                                          (* event_base_get_method *)
  | SThreadStart                                         (* std::thread *)
  | SConfigFree.                                         (* event_config_free *)
#[export] Instance sys_call_eq_dec : EqDecision sys_call.
Proof. solve_decision. Defined.

Definition sysm : Type -> Type := traced sys_call.

Definition IPV6_RECVTCLASS : Z := 66.
Definition IP_RECVTOS : Z := 13.
Definition EVENT_BASE_FLAG_EPOLL_USE_CHANGELIST : Z := 16.
Definition EVENT_BASE_FLAG_PRECISE_TIMER : Z := 32.

Module Setup.
Section sys.
Variable sys : sys_call -> Z * Z.
Variable sockname : Z -> list Z.

(** A call whose result is looked at by the caller, and a call wrapped in [check_rv]. *)
Definition scall (c : sys_call) : sysm Z := ([c], Ok (sys c).1).
Definition scheck (c : sys_call) : sysm Z := ([c], check_rv (sys c).1 (sys c).2).

(** Making an event, which is a null pointer when the result is 0, and adding it. *)
Definition event_new (e : ev) (fd : Z) (persist : bool) : sysm bool :=
  let! p := scall (SEventNew e fd persist) in tret (negb (p =? 0)).
Definition event_add (e : ev) (made : bool) (timeout_us : option Z) : sysm unit :=
  if made then tdo (SEventAdd e timeout_us) else tlift Undefined.

(** [getsockname(fd, a, a.socklen_ptr())]: the name is cut to the length given, and the length is
    set to that of the name. *)
Definition getsockname (fd : Z) (a : Address) : sysm Address :=
  let! _ := scheck (SGetsockname fd) in
  let name := sockname fd in
  tret (mkAddress (memmove (sock_addr a) name (Nat.min (Z.to_nat (addrlen a)) (length name))) (zlen name)).

(** [UDPSocket::set_ecn]: one byte is passed; a failure is only logged. *)
Definition set_ecn_call (fd : Z) (s : UDPSocket) : sys_call :=
  if is_ipv6 (bound s) then SSetsockopt fd IPPROTO_IPV6 IPV6_TCLASS (ecn s) 1
  else SSetsockopt fd IPPROTO_IP IP_TOS (ecn s) 1.
Definition set_ecn (fd : Z) (s : UDPSocket) : sysm UDPSocket :=
  let! _ := scall (set_ecn_call fd s) in
  tret (mkSock (bound s) (ecn s) (ecn_updates s ++ [ecn s]) (writeable s) (wev_added s)).

(** [UDPSocket::UDPSocket] for the event loop [ev_loop] (is it non-null?); the file descriptor and
    the socket. *)
Definition UDPSocket_new (ev_loop : bool) (addr : Address) (has_callback : bool) : sysm (Z * UDPSocket) :=
  let! _ := tlift (assert_then ev_loop (Ok tt)) in
  let! _ := tlift (if has_callback then Ok tt else Throw logic_error) in
  let! fd := scheck (SSocket (if is_ipv6 addr then AF_INET6 else AF_INET)) in
  let! _ := scheck (SBind fd (ztake (addrlen addr) (sock_addr addr))) in
  let! bound := getsockname fd Address_default in
  let! _ := scheck (SSetNonblock fd) in
  let! _ := scheck (if is_ipv6 addr then SSetsockopt fd IPPROTO_IPV6 IPV6_RECVTCLASS 1 4
                    else SSetsockopt fd IPPROTO_IP IP_RECVTOS 1 4) in
  let! s := set_ecn fd (mkSock bound 0 [] [] false) in
  let! rev := event_new EvRead fd true in
  let! _ := event_add EvRead rev None in
  let! _ := event_new EvWrite fd false in
  tret (fd, s).

(** [event_deleter], for an event that was made or a null pointer. *)
Definition event_deleter (e : ev) (made : bool) : sysm unit := if made then tdo (SEventFree e) else tret tt.

(** [UDPSocket::~UDPSocket], and the members destroyed after it: the callbacks that wait are dropped, and the
    events freed, of which [wev_] may be null. *)
Definition UDPSocket_destroy (fd : Z) (wev : bool) : sysm unit :=
  let! _ := tdo (SClose fd) in
  let! _ := event_deleter EvWrite wev in
  event_deleter EvRead true.

(** [Endpoint::Endpoint]. *)
Definition Endpoint_new {C : Type} (ev_loop : bool) (listen_addr : Address) : sysm (Endpoint C (Z * UDPSocket)) :=
  let! s := UDPSocket_new ev_loop listen_addr true in
  let! timer := event_new EvExpiry (-1) true in
  let! _ := event_add EvExpiry timer (Some 250000) in
  tret (mkEp (Some s) false None None ∅ [] []).

(** [Network::endpoint] with the constructor it calls; [id] names the new endpoint. *)
Definition Network_endpoint (C : Type) (id : nat) (a : Address) (n : Network) : list sys_call * (Network * outcome (option nat)) :=
  match map_lookup a (endpoint_map n) with
  | Some _ => ([], endpoint a (Ok id) n)
  | None =>
      let '(t, r) := Endpoint_new (C := C) true a in
      (t, endpoint a (let* _ := r in Ok id) n)
  end.

(** ** The event loop *)

(** [Network::setup_job_waker]. *)
Definition setup_job_waker : sysm unit :=
  let! waker := event_new EvJobWaker (-1) false in
  tlift (assert_then waker (Ok tt)).

(** [Network::Network(loop_ptr, thread_id)]. *)
Definition Network_new_loop (ev_loop : bool) (tid : nat) : sysm Network :=
  let! _ := tlift (assert_then ev_loop (Ok tt)) in
  let! _ := setup_job_waker in
  tret (network_new tid false).

(** [Network::Network()]: [once] is the function's static variable, [tid] the new thread's id.  A
    null event base is used without a check. *)
Definition Network_new (once : bool) (tid : nat) : sysm (Network * bool) :=
  let! _ := if once then tret tt else (let! _ := tdo SSetLogCallback in tdo SUseThreads) in
  let! _ := tdo SGetMethods in
  let! _ := tdo SConfigNew in
  let! _ := tdo (SConfigFlag EVENT_BASE_FLAG_PRECISE_TIMER) in
  let! _ := tdo (SConfigFlag EVENT_BASE_FLAG_EPOLL_USE_CHANGELIST) in
  let! base := scall SBaseNew in
  let! _ := if base =? 0 then tlift Undefined else tdo SBaseMethod in
  let! _ := setup_job_waker in
  let! _ := tdo SThreadStart in
  let! _ := tdo SConfigFree in
  tret (network_new tid true, true).

(** Any number of networks, one after the other. *)
Fixpoint networks (k : nat) (once : bool) : sysm (list Network) :=
  match k with
  | O => tret []
  | Datatypes.S k' =>
      let! r := Network_new once k' in
      let! l := networks k' r.2 in
      tret (r.1 :: l)
  end.
End sys.

(** The callback [setup_libevent_logging] installs: what is logged, and whether the process is
    aborted. *)
Inductive level := LDebug | LInfo | LWarning | LError.
Definition libevent_log (severity : Z) (msg : list Z) : list (level * list Z) * bool :=
  ((if severity =? 3 then [(LError, msg)]
    else if severity =? 2 then [(LWarning, msg)]
    else if severity =? 1 then [(LInfo, msg)]
    else if severity =? 0 then [(LDebug, msg)]
    else []), true).

(** ** The callbacks of a connection *)

(** The members of [ngtcp2_callbacks] that are set, and the functions they are set to: those of
    ngtcp2's crypto helper, named by their slot, and those of connection.cpp. *)
Inductive slot :=
  | cb_client_initial | cb_recv_client_initial | cb_recv_crypto_data | cb_encrypt | cb_decrypt | cb_hp_mask | cb_recv_stream_data
  | cb_acked_stream_data_offset | cb_stream_open | cb_stream_close | cb_recv_retry | cb_extend_max_local_streams_bidi | cb_rand
  | cb_get_new_connection_id | cb_update_key | cb_stream_reset | cb_delete_crypto_aead_ctx | cb_delete_crypto_cipher_ctx
  | cb_get_path_challenge_data | cb_version_negotiation.
#[export] Instance slot_eq_dec : EqDecision slot.
Proof. solve_decision. Defined.
Inductive handler :=
  | Crypto (s : slot)                        (* ngtcp2_crypto_<slot>_cb *)
  | H_recv_stream_data | H_acked_stream_data_offset | H_on_stream_open | H_on_stream_close | H_on_stream_reset
  | H_extend_max_local_streams_bidi | H_rand_cb | H_get_new_connection_id_cb.

(** The assignments of [Connection::init], in order, and those the constructor adds. *)
Definition init_callbacks : list (slot * handler) :=
  [(cb_recv_crypto_data, Crypto cb_recv_crypto_data); (cb_encrypt, Crypto cb_encrypt); (cb_decrypt, Crypto cb_decrypt); (cb_hp_mask, Crypto cb_hp_mask);
   (cb_recv_stream_data, H_recv_stream_data); (cb_acked_stream_data_offset, H_acked_stream_data_offset);
   (cb_stream_close, H_on_stream_close); (cb_extend_max_local_streams_bidi, H_extend_max_local_streams_bidi); (cb_rand, H_rand_cb);
   (cb_get_new_connection_id, H_get_new_connection_id_cb); (cb_update_key, Crypto cb_update_key); (cb_stream_reset, H_on_stream_reset);
   (cb_delete_crypto_aead_ctx, Crypto cb_delete_crypto_aead_ctx); (cb_delete_crypto_cipher_ctx, Crypto cb_delete_crypto_cipher_ctx);
   (cb_get_path_challenge_data, Crypto cb_get_path_challenge_data); (cb_version_negotiation, Crypto cb_version_negotiation);
   (cb_stream_open, H_on_stream_open)].
Definition connection_callbacks (d : Direction) : list (slot * handler) :=
  init_callbacks ++
  match d with
  | OUTBOUND => [(cb_client_initial, Crypto cb_client_initial); (cb_recv_retry, Crypto cb_recv_retry)]
  | INBOUND => [(cb_recv_client_initial, Crypto cb_recv_client_initial)]
  end.

(** The events [Connection::init] makes; is [io_trigger] there? *)
Definition init_events (sys : sys_call -> Z * Z) : sysm bool :=
  let! io := event_new sys EvIo (-1) false in
  let! timer := event_new sys EvRetransmit (-1) false in
  let! _ := event_add EvRetransmit timer None in
  tret io.

(** ** Windows: finding the message functions *)

Inductive guid := WSAID_WSARECVMSG | WSAID_WSASENDMSG.
Inductive wsa_call := WSocket | WIoctl (g : guid).

(** [init_wsa_bs]: [ioctl] is what WSAIoctl finds for an id, if anything; the state is the pair of
    global pointers WSARecvMsg and WSASendMsg. *)
Section wsa.
Context {F : Type}.
Variable ioctl : guid -> option F.

Definition init_wsa_bs (st : option F * option F) : traced wsa_call (option F * option F) :=
  match st with
  | (Some _, Some _) => tret st
  | _ =>
      let! _ := tdo WSocket in
      let! _ := tdo (WIoctl WSAID_WSARECVMSG) in
      match ioctl WSAID_WSARECVMSG with
      | None => tlift (Throw runtime_error)
      | Some f =>
          let! _ := tdo (WIoctl WSAID_WSARECVMSG) in
          match ioctl WSAID_WSARECVMSG with
          | None => tlift (Throw runtime_error)
          | Some g => tret (Some f, Some g)
          end
      end
  end.
End wsa.
End Setup.
Export Setup.

(** ** Sockets *)

Section socket.
Variable sys : sys_call -> Z * Z.
Variable sockname : Z -> list Z.

(** [event_new] returns a null pointer only when there is no memory. *)
Definition events_made : Prop := forall e fd persist, (sys (SEventNew e fd persist)).1 <> 0.

(** The descriptor and the address a socket for [addr] gets. *)
Definition socket_call (addr : Address) : sys_call := SSocket (if is_ipv6 addr then AF_INET6 else AF_INET).
Definition socket_fd (addr : Address) : Z := (sys (socket_call addr)).1.
Definition socket_bound (addr : Address) : Address :=
  let name := sockname (socket_fd addr) in
  mkAddress (memmove (sock_addr Address_default) name (Nat.min 28 (length name))) (zlen name).
Definition new_socket (addr : Address) : UDPSocket := mkSock (socket_bound addr) 0 [0] [] false.

(** The calls in their order, and those whose failure is fatal. *)
Definition socket_plan (addr : Address) : list sys_call :=
  let fd := socket_fd addr in
  [socket_call addr; SBind fd (ztake (addrlen addr) (sock_addr addr)); SGetsockname fd; SSetNonblock fd;
   (if is_ipv6 addr then SSetsockopt fd IPPROTO_IPV6 IPV6_RECVTCLASS 1 4 else SSetsockopt fd IPPROTO_IP IP_RECVTOS 1 4);
   set_ecn_call fd (new_socket addr);
   SEventNew EvRead fd true; SEventAdd EvRead None; SEventNew EvWrite fd false].
Definition endpoint_plan (addr : Address) : list sys_call :=
  socket_plan addr ++ [SEventNew EvExpiry (-1) true; SEventAdd EvExpiry (Some 250000)].
Definition fatal (c : sys_call) : bool :=
  match c with
  | SSocket _ | SBind _ _ | SGetsockname _ | SSetNonblock _ => true
  | SSetsockopt _ _ name _ _ => (name =? IPV6_RECVTCLASS) || (name =? IP_RECVTOS)
  | _ => false
  end.
Definition sys_fails (c : sys_call) : option exn :=
  if fatal c && ((sys c).1 =? -1) then Some (system_error (sys c).2) else None.

(** A plan that ends with [v]. *)
Definition plan {A} (l : list sys_call) (v : A) : sysm A :=
  let '(t, r) := run_calls sys_fails l in (t, let* _ := r in Ok v).

Lemma plan_cons_ok {A} c l (v : A) :
  sys_fails c = None -> plan (c :: l) v = let '(t, r) := plan l v in (c :: t, r).
Proof. intros H. unfold plan. cbn. rewrite H. by destruct (run_calls sys_fails l). Qed.

Lemma plan_check {A} c l (v : A) k :
  fatal c = true -> k (sys c).1 = plan l v -> tbind (scheck sys c) k = plan (c :: l) v.
Proof.
  intros Hf Hk. unfold tbind, scheck, check_rv. cbn. unfold plan. cbn. unfold sys_fails at 1. rewrite Hf. cbn [andb].
  destruct ((sys c).1 =? -1) eqn:E; cbn; [done|]. rewrite Hk. unfold plan. by destruct (run_calls sys_fails l).
Qed.

Lemma plan_call {A} c l (v : A) k :
  fatal c = false -> k (sys c).1 = plan l v -> tbind (scall sys c) k = plan (c :: l) v.
Proof.
  intros Hf Hk. rewrite plan_cons_ok by (unfold sys_fails; by rewrite Hf). unfold tbind, scall. cbn. rewrite Hk.
  by destruct (plan l v).
Qed.

Lemma plan_do {A} c l (v : A) k :
  fatal c = false -> k tt = plan l v -> tbind (tdo c) k = plan (c :: l) v.
Proof.
  intros Hf Hk. rewrite plan_cons_ok by (unfold sys_fails; by rewrite Hf). unfold tbind, tdo. cbn. rewrite Hk.
  by destruct (plan l v).
Qed.

Lemma plan_event {A} e fd persist l (v : A) k :
  events_made -> k true = plan l v -> tbind (event_new sys e fd persist) k = plan (SEventNew e fd persist :: l) v.
Proof.
  intros He Hk. unfold event_new. rewrite tbind_assoc. apply plan_call; [done|].
  rewrite (proj2 (Z.eqb_neq _ _) (He e fd persist)). cbn [negb]. by rewrite tbind_ret.
Qed.

Lemma plan_app {A B} l l' (v : A) (w : B) k :
  k v = plan l' w -> tbind (plan l v) k = plan (l ++ l') w.
Proof.
  intros Hk. induction l as [|c l IH]; [exact (eq_trans (tbind_ret v k) Hk)|].
  cbn [app]. destruct (sys_fails c) as [x|] eqn:Hc.
  - unfold plan. cbn. by rewrite Hc.
  - rewrite !plan_cons_ok by done. rewrite <- IH. unfold tbind. destruct (plan l v) as [t [a| | | |]]; cbn; try done.
    by destruct (k a).
Qed.

Lemma socket_new_plan (addr : Address) :
  events_made -> UDPSocket_new sys sockname true addr true = plan (socket_plan addr) (socket_fd addr, new_socket addr).
Proof.
  intros He. unfold UDPSocket_new, socket_plan. cbn [assert_then]. rewrite !tbind_lift.
  apply plan_check; [done|]. apply plan_check; [done|]. unfold getsockname. rewrite tbind_assoc.
  apply plan_check; [done|]. rewrite tbind_ret. apply plan_check; [done|].
  apply plan_check; [by destruct (is_ipv6 addr)|]. unfold set_ecn. rewrite tbind_assoc.
  apply (plan_call (set_ecn_call (socket_fd addr) (new_socket addr))).
  { unfold set_ecn_call. by destruct (is_ipv6 _). }
  rewrite tbind_ret. apply plan_event; [done|]. apply plan_do; [done|]. by apply plan_event.
Qed.

(** An endpoint is made by the calls of [endpoint_plan], in that order: a UDP socket of the
    family of its address is bound to it, made non-blocking and registered for reading before the
    timeout check is set to every 250 ms; the failure of any call but the one that sets the ECN
    mark ends it with that call's errno, and the endpoint that results has no connections
    and refuses to accept any. *)
Theorem endpoint_new_plan {C : Type} (addr : Address) :
  events_made ->
  Endpoint_new sys sockname true addr =
    plan (endpoint_plan addr) (mkEp (C := C) (Some (socket_fd addr, new_socket addr)) false None None ∅ [] []).
Proof.
  intros He. unfold Endpoint_new, endpoint_plan. rewrite socket_new_plan by done.
  apply plan_app. apply plan_event; [done|]. by apply plan_do.
Qed.
End socket.

(** ** Descriptors *)

Section descriptors.
Variable sys : sys_call -> Z * Z.
Variable sockname : Z -> list Z.

(** Descriptors left open by a list of calls. *)
Fixpoint open_fds (t : list sys_call) : Z :=
  match t with
  | [] => 0
  | SSocket f :: t' => (if (sys (SSocket f)).1 =? -1 then 0 else 1) + open_fds t'
  | SClose _ :: t' => open_fds t' - 1
  | _ :: t' => open_fds t'
  end.

Lemma open_fds_app a b : open_fds (a ++ b) = open_fds a + open_fds b.
Proof. induction a as [|[] a IH]; cbn; lia. Qed.

(** Only the first call of a plan opens a descriptor, and none closes one. *)
Lemma plan_fds addr a b :
  endpoint_plan sys sockname addr = a ++ b -> a <> [] ->
  open_fds a = if socket_fd sys addr =? -1 then 0 else 1.
Proof.
  intros Hp Ha. destruct a as [|c a]; [done|]. unfold endpoint_plan, socket_plan in Hp. cbn in Hp. injection Hp as <- Hp.
  cbn. fold (socket_call addr). change (sys (socket_call addr)).1 with (socket_fd sys addr).
  assert (Forall (fun c => open_fds [c] = 0) a) as HF.
  { apply (Forall_app (fun c => open_fds [c] = 0) a b). rewrite <- Hp. unfold set_ecn_call.
    repeat (constructor; [by repeat destruct (is_ipv6 _)|]). constructor. }
  assert (open_fds a = 0) as ->; [|lia]. clear Hp. induction HF as [|c a Hc _ IH]; [done|].
  change (c :: a) with ([c] ++ a). by rewrite open_fds_app, Hc, IH.
Qed.

(** The constructors do not release what they acquired: a socket that could be opened but not
    bound, named, made non-blocking or asked for ECN stays open when the constructor of the
    endpoint throws, since the destructor of an object that was not constructed does not run;
    the descriptor of a constructed socket is closed by its destructor. *)
Theorem endpoint_fd_closed_or_leaked {C : Type} (addr : Address) :
  events_made sys -> socket_fd sys addr <> -1 ->
  let '(t, r) := Endpoint_new (C := C) sys sockname true addr in
  match r with
  | Ok e => open_fds (t ++ (UDPSocket_destroy (socket_fd sys addr) true).1) = 0 /\
            socket e = Some (socket_fd sys addr, new_socket sys sockname addr)
  | Throw (system_error _) => open_fds t = 1
  | _ => False
  end.
Proof.
  intros He Hfd. rewrite endpoint_new_plan by done. unfold plan.
  destruct (run_calls_cases (sys_fails sys) (endpoint_plan sys sockname addr)) as [[_ ->]|(a & c & b & x & Hp & _ & Hc & ->)]; cbn [obind].
  - split; [|done]. rewrite open_fds_app, (plan_fds addr _ []) by (rewrite ?app_nil_r; done).
    by rewrite (proj2 (Z.eqb_neq _ _) Hfd).
  - unfold sys_fails in Hc. destruct (fatal c && _); [|done]. injection Hc as <-.
    rewrite (plan_fds addr (a ++ [c]) b); [by rewrite (proj2 (Z.eqb_neq _ _) Hfd)|by rewrite <- app_assoc|by destruct a].
Qed.
End descriptors.

(** A system on which only binding fails, with EADDRINUSE, and one on which everything succeeds. *)
Definition sys_bind_fails (c : sys_call) : Z * Z :=
  match c with SBind _ _ => (-1, 98) | SSocket _ => (7, 0) | SEventNew _ _ _ | SBaseNew => (4096, 0) | _ => (0, 0) end.
Definition sys_all_ok (c : sys_call) : Z * Z :=
  match c with SSocket _ => (7, 0) | SEventNew _ _ _ | SBaseNew => (4096, 0) | _ => (0, 0) end.
Definition sockname_loopback (fd : Z) : list Z := [2; 0; 21; 124; 127; 0; 0; 1] ++ replicate 8 0.

Lemma endpoint_new_plan_witness :
  exists e, (Endpoint_new (C := unit) sys_all_ok sockname_loopback true Address_default).2 = Ok e /\
    bound <$> (snd <$> socket e) = Some (mkAddress (sockname_loopback 7 ++ replicate 112 0) 16).
Proof.
  rewrite (endpoint_new_plan sys_all_ok sockname_loopback Address_default) by done. eexists. split; vm_compute; reflexivity.
Defined.

Lemma endpoint_fd_closed_or_leaked_witness :
  let t := (Endpoint_new (C := unit) sys_bind_fails sockname_loopback true Address_default).1 in
  length t = 2%nat /\ open_fds sys_bind_fails t = 1.
Proof.
  split; [reflexivity|]. pose proof (endpoint_fd_closed_or_leaked sys_bind_fails sockname_loopback (C := unit) Address_default) as H.
  apply H; [intros e fd p; done|done].
Defined.

(** ** Endpoints of a network *)

(** C24: asking a network for an endpoint at a new address (or one that compares equal): when the
    constructor succeeds, later requests return the same endpoint without any system call;
    when it throws, e.g. because the port is taken, the exception reaches the caller, but
    later requests return a null pointer without an exception, and a graceful close of the network
    dereferences it. *)
Theorem network_endpoint_requests (sys : sys_call -> Z * Z) (sockname : Z -> list Z) (C : Type) (id id' : nat) (a b : Address) (n : Network) :
  events_made sys -> map_lookup a (endpoint_map n) = None -> Address_eqb b a = true ->
  let '(t, (n1, r)) := Network_endpoint sys sockname C id a n in
  match r with
  | Ok ep => t = endpoint_plan sys sockname a /\ ep = Some id /\
             Network_endpoint sys sockname C id' b n1 = ([], (n1, Ok (Some id)))
  | Throw x => (exists c, c ∈ endpoint_plan sys sockname a /\ sys_fails sys c = Some x) /\
               Network_endpoint sys sockname C id' b n1 = ([], (n1, Ok None)) /\ forall prom, close_all prom n1 = Undefined
  | _ => False
  end.
Proof.
  intros He Hn Hab. unfold Network_endpoint. rewrite Hn, endpoint_new_plan by done. unfold plan.
  destruct (run_calls_cases (sys_fails sys) (endpoint_plan sys sockname a)) as [[_ ->]|(l & c & l' & x & Hp & _ & Hc & ->)];
    cbn [obind]; unfold endpoint; rewrite Hn; cbn [endpoint_map with_world];
    rewrite (map_lookup_added a b _ _ Hn Hab); [done|].
  split_and!; [|done|].
  - exists c. split; [|done]. rewrite Hp. apply elem_of_app. right. left.
  - intros prom. unfold close_all. cbn [endpoint_map with_world]. by rewrite close_endpoints_null.
Qed.

Lemma network_endpoint_requests_witness :
  let a := mkAddress (store_at 0 [2; 0; 21; 124] zero_storage) 16 in
  let n1 := (Network_endpoint sys_bind_fails sockname_loopback unit 4 a (network_new 1 true)).2.1 in
  (Network_endpoint sys_bind_fails sockname_loopback unit 4 a (network_new 1 true)).2.2 = Throw (system_error 98) /\
  Network_endpoint sys_bind_fails sockname_loopback unit 5 a n1 = ([], (n1, Ok None)) /\ forall prom, close_all prom n1 = Undefined.
Proof.
  intros a n1. split; [reflexivity|].
  apply (network_endpoint_requests sys_bind_fails sockname_loopback unit 4 5 a a (network_new 1 true)); [intros e fd p; done|reflexivity..].
Defined.

(** ** libevent is set up once, before the first event base *)

Section event_loop.
Variable sys : sys_call -> Z * Z.

(** What one construction does after the part that is done once. *)
Definition network_calls : list sys_call :=
  [SGetMethods; SConfigNew; SConfigFlag EVENT_BASE_FLAG_PRECISE_TIMER; SConfigFlag EVENT_BASE_FLAG_EPOLL_USE_CHANGELIST;
   SBaseNew; SBaseMethod; SEventNew EvJobWaker (-1) false; SThreadStart; SConfigFree].

Lemma network_new_calls once tid :
  events_made sys -> (sys SBaseNew).1 <> 0 ->
  Network_new sys once tid =
    ((if once then [] else [SSetLogCallback; SUseThreads]) ++ network_calls, Ok (network_new tid true, true)).
Proof.
  intros He Hb. unfold Network_new, setup_job_waker, event_new, scall.
  pose proof (proj2 (Z.eqb_neq _ _) (He EvJobWaker (-1) false)) as Hw.
  apply Z.eqb_neq in Hb. destruct once; unfold tbind; cbn; rewrite Hb; cbn; rewrite Hw; done.
Qed.

(** However many networks with their own event loop a process makes, libevent's log callback
    and its thread support are set exactly once, before any event base is made; every network
    starts out running on a loop thread of its own, with no endpoints and an empty queue. *)
Theorem libevent_set_up_once (k : nat) :
  events_made sys -> (sys SBaseNew).1 <> 0 ->
  networks sys (Datatypes.S k) false =
    (SSetLogCallback :: SUseThreads :: concat (replicate (Datatypes.S k) network_calls),
     Ok (map (fun tid => network_new tid true) (rev (seq 0 (Datatypes.S k))))).
Proof.
  intros He Hb.
  assert (forall k, networks sys k true =
    (concat (replicate k network_calls), Ok (map (fun tid => network_new tid true) (rev (seq 0 k))))) as Hgen.
  { induction k0 as [|k0 IH]; [done|]. cbn [networks]. rewrite network_new_calls by done. unfold tbind at 1. cbn [fst snd].
    rewrite IH, seq_S, rev_app_distr. unfold tbind. cbn. by rewrite app_nil_r. }
  cbn [networks]. rewrite network_new_calls by done. unfold tbind at 1. cbn [fst snd]. rewrite Hgen, seq_S, rev_app_distr.
  unfold tbind. cbn. by rewrite app_nil_r.
Qed.
End event_loop.

Lemma libevent_set_up_once_witness :
  length (filter (fun c => c = SUseThreads) (networks sys_all_ok 3 false).1) = 1%nat.
Proof. rewrite (libevent_set_up_once sys_all_ok 2); [reflexivity|intros e fd p; done|done]. Defined.

(** ** Connections and their TLS sessions *)

(** ngtcp2 and TLS as an endpoint uses them, with the sessions of gnutls_crypto.cpp: a session
    fails where [GNUTLSCreds::make_session] throws. *)
Definition with_tls {C : Type} (base : Ngtcp2Ep C) (rv : tls_call -> Z) : Ngtcp2Ep C := {|
  ng_in_closing_period := ng_in_closing_period;
  ng_pto := ng_pto;
  ng_decode_version_cid := ng_decode_version_cid;
  ng_accept := ng_accept;
  ng_read_pkt := ng_read_pkt;
  ng_write_connection_close := ng_write_connection_close;
  ng_write_version_negotiation := ng_write_version_negotiation;
  ng_conn_new := ng_conn_new;
  tls_session_fails := fun _ d => match (make_session rv (bool_decide (d = OUTBOUND))).2 with Ok _ => false | _ => true end;
|}.

(** C25: a connection attempt whose TLS session cannot be set up, whichever GnuTLS call it is that fails:
    the caller gets the exception, but the table keeps a null entry, which closing all
    connections or listing those of one direction dereferences, and, unless it was
    gnutls_init that failed, the GnuTLS session stays allocated. *)
Theorem connect_tls_failure `{NgtcpConsts} {C : Type} (base : Ngtcp2Ep C) {S : Type} `{Sender S} (rv : tls_call -> Z)
    (fuel : nat) rnd dcid (opts : list opt) (creds : nat) (e : Endpoint C S) (key : Z * list Z) :
  (exists c, c ∈ session_plan true /\ session_fails rv c <> None) ->
  conns e = ∅ -> tls_creds (OutboundContext_new opts) = Some creds ->
  (ng_conn_new OUTBOUND (ConnectionID_random (rnd 0%nat)) (dcid 0%nat)).1 = 0 -> (0 < fuel)%nat ->
  key = cid_key (ConnectionID_random (rnd 0%nat)) ->
  open_sessions rv (make_session rv true).1 = (if rv (CInit true) <? 0 then 0 else 1) /\
  exists e', @connect _ _ (with_tls base rv) _ fuel rnd dcid opts e = Ok (e', MakeThrew runtime_error) /\
    conns e' = {[ key := None ]} /\
    (forall retry d, @close_conns _ _ (with_tls base rv) _ _ retry d [key] e' = Undefined) /\
    (forall d, get_all_conns (Some d) [key] e' = Undefined).
Proof.
  intros (c & Hin & Hc) He Hcr Hnew Hfuel ->. pose proof (session_trace rv true) as Ht.
  assert ((make_session rv true).2 <> Ok tt) as Hno.
  { rewrite session_runs_plan. destruct (run_calls_cases (session_fails rv) (session_plan true)) as [[Hall _]|(a & c' & b & x & _ & _ & _ & ->)]; [|done].
    by destruct Hc; apply Hall. }
  destruct (make_session rv true) as [t r] eqn:Hs. destruct Ht as (Hr & _ & Ho). split; [done|].
  destruct (@failed_connect_leaves_null _ _ (with_tls base rv) S _ fuel rnd dcid opts creds e
    (cid_key (ConnectionID_random (rnd 0%nat))) He Hcr Hnew) as (e' & ? & ? & ? & ? & _);
    [|done|done|by exists e']. cbn [tls_session_fails with_tls].
  rewrite bool_decide_true, Hs by done. cbn in *. by destruct Hr as [-> | ->].
Qed.

(** The client's server name is refused, after the session was initialised. *)
Lemma connect_tls_failure_witness :
  let rv c := match c with CSetServerName => -50 | _ => 0 end in
  open_sessions rv (make_session rv true).1 = 1 /\
  exists e', @connect ngtcp2_consts _ (with_tls (toy_ep 30 false) rv) udp_state 1 toy_rnd (fun _ => mkCID [] 0) [OptTls 4]
      (example_ep kernel_all) = Ok (e', MakeThrew runtime_error) /\
    conns e' = {[ cid_key (mkCID (toy_rnd 0) 20) := None ]}.
Proof.
  intros rv.
  destruct (@connect_tls_failure ngtcp2_consts _ (toy_ep 30 false) udp_state udp_Sender rv 1 toy_rnd (fun _ => mkCID [] 0) [OptTls 4] 4
    (example_ep kernel_all) (cid_key (mkCID (toy_rnd 0) 20))) as (Ho & e' & ? & ? & _).
  - exists CSetServerName. split; [|done]. apply (bool_decide_unpack _). vm_compute. exact I.
  - reflexivity.
  - reflexivity.
  - reflexivity.
  - lia.
  - reflexivity.
  - split; [exact Ho|]. by exists e'.
Defined.

(** ** Callbacks and pointers *)

(** Each callback is set once; client and server differ in how a handshake starts only. *)
Lemma callbacks_set_once (d : Direction) :
  NoDup (map fst (connection_callbacks d)) /\
  (forall s, s ∈ map fst (connection_callbacks d) <->
     match s with
     | cb_client_initial | cb_recv_retry => d = OUTBOUND
     | cb_recv_client_initial => d = INBOUND
     | _ => True
     end).
Proof.
  split; [apply (bool_decide_unpack _); by destruct d|]. intros s.
  assert (bool_decide (s ∈ map fst (connection_callbacks d)) =
    match s with
    | cb_client_initial | cb_recv_retry => bool_decide (d = OUTBOUND)
    | cb_recv_client_initial => bool_decide (d = INBOUND)
    | _ => true
    end) as Hb by (by destruct s, d).
  rewrite <- (bool_decide_spec (s ∈ _)), Hb. destruct s; cbn; rewrite ?bool_decide_spec; done.
Qed.

(** Both pointers are looked up with the id of WSARecvMsg: on Windows, packets would be sent with
    the receive function. *)
Lemma wsa_send_is_recv {F : Type} (ioctl : guid -> option F) (st st' : option F * option F) :
  st.1 = None \/ st.2 = None -> (init_wsa_bs ioctl st).2 = Ok st' -> st'.2 = ioctl WSAID_WSARECVMSG /\ st'.1 = st'.2.
Proof.
  intros Hst. unfold init_wsa_bs. destruct st as [[f|] [g|]]; cbn in Hst; [by destruct Hst|..];
    unfold tbind; cbn; destruct (ioctl WSAID_WSARECVMSG) as [h|]; cbn; intros [= <-]; done.
Qed.
