(* ===== verification/Teardown.v ===== *)
(** * Destruction: connections, endpoints and what they own

    The objects that own events, file descriptors, GnuTLS sessions and ngtcp2 connections, from
    construction to destruction: the members of [Connection] (include/quic/connection.hpp) and [Endpoint]
    (include/quic/endpoint.hpp) in the reverse of the order they are declared in, with the destructors of
    streams, sockets, sessions and events, and the unwinding of a constructor that throws.

    What is done is a list of calls.  Whether another [shared_ptr] to a stream or a connection is held
    elsewhere is an argument, and so is the order in which a container destroys its elements. *)
From S2P Require Import Prelude StdMap Utils Text Gnutls Stream Udp Sender EndpointSend Context Connection Endpoint Network Setup.
Import Cid Addr Io.

Inductive own_call :=
  | OSys (c : sys_call)
  | OTls (c : tls_call)
  | ONgNew (d : Direction)       (* ngtcp2_conn_client_new, ngtcp2_conn_server_new *)
  | ONgTls                       (* ngtcp2_conn_set_tls_native_handle *)
  | ONgDel                       (* ngtcp2_conn_del *)
  | OStream (e : effect).        (* what the destruction of a stream does *)

Definition relabel {E E' A} (f : E -> E') (c : traced E A) : traced E' A := (map f c.1, c.2).

Module Teardown.
Section teardown.
Variable sys : sys_call -> Z * Z.
Variable tls_rv : tls_call -> Z.

(** The members of a connection after its containers of streams; [tls_session] and [io_trigger] may be null, and
    the context, which shares the credentials, may be the last to hold them. *)
Definition Connection_members (io session creds_last : bool) : traced own_call unit :=
  let! _ := relabel OSys (event_deleter EvIo io) in
  let! _ := relabel OSys (event_deleter EvRetransmit true) in
  let! _ := if session then relabel OTls GNUTLSSession_destroy else tret tt in
  let! _ := tdo ONgDel in
  if creds_last then relabel OTls GNUTLSCreds_destroy else tret tt.

(** [Connection::Connection]: the result of [ngtcp2_conn_client_new] or [server_new] is [ng_rv]; if that is an
    error, the pointer it was to set is used all the same.  If the session throws, the members made so far
    are destroyed. *)
Definition Connection_new (ng_rv : Z) (d : Direction) : traced own_call bool :=
  let! io := relabel OSys (init_events sys) in
  let! _ := tdo (ONgNew d) in
  let! _ := tlift (if ng_rv =? 0 then Ok tt else Undefined) in
  match relabel OTls (make_session tls_rv (bool_decide (d = OUTBOUND))) with
  | (t, Throw x) => (t ++ (Connection_members io false false).1, Throw x)
  | c => let! _ := c in let! _ := tdo ONgTls in tret io
  end.

(** A container of streams, in the order it destroys them, each with whether this is the last reference. *)
Fixpoint release_streams (l : list (chunk_state * bool)) : traced own_call unit :=
  match l with
  | [] => tret tt
  | (st, last) :: l' =>
      let! e := tlift (Stream_release last st) in
      let! _ := (map OStream e, Ok tt) in
      release_streams l'
  end.

(** [Connection::~Connection]. *)
Definition Connection_destroy (pend strs : list (chunk_state * bool)) (io creds_last : bool) : traced own_call unit :=
  let! _ := release_streams pend in
  let! _ := release_streams strs in
  Connection_members io true creds_last.

(** How the connections of an endpoint go: filed under its key, each is null, or held elsewhere as well, or
    destroyed, with its streams in the order of their containers. *)
Inductive fate :=
  | FNull
  | FHeld
  | FDestroyed (pend strs : list (chunk_state * bool)) (io creds_last : bool).

Definition release_conn (f : fate) : traced own_call unit :=
  match f with
  | FNull | FHeld => tret tt
  | FDestroyed pend strs io creds_last => Connection_destroy pend strs io creds_last
  end.

Fixpoint release_conns (l : list ((Z * list Z) * fate)) : traced (option (Z * list Z) * own_call) unit :=
  match l with
  | [] => tret tt
  | (key, f) :: l' =>
      let! _ := relabel (pair (Some key)) (release_conn f) in
      release_conns l'
  end.

(** [Endpoint::~Endpoint]: [draining], [conns], the contexts, which may be the last to hold their
    credentials, the socket, the timer. *)
Definition Endpoint_destroy (fd : Z) (wev inbound_last outbound_last : bool) (l : list ((Z * list Z) * fate)) :
    traced (option (Z * list Z) * own_call) unit :=
  let! _ := release_conns l in
  let! _ := if inbound_last then relabel (fun c => (None, OTls c)) GNUTLSCreds_destroy else tret tt in
  let! _ := if outbound_last then relabel (fun c => (None, OTls c)) GNUTLSCreds_destroy else tret tt in
  let! _ := relabel (fun c => (None, OSys c)) (UDPSocket_destroy fd wev) in
  relabel (fun c => (None, OSys c)) (event_deleter EvExpiry true).

(** [Endpoint::delete_connection] with what erasing the entry comes to. *)
Definition delete_and_release {C S} (f : fate) (cid : ConnectionID) (e : Endpoint C S) : traced own_call (Endpoint C S) :=
  match conns e !! cid_key cid with
  | None => tlift (delete_connection cid e)
  | Some _ =>
      let! e' := tlift (delete_connection cid e) in
      let! _ := release_conn f in
      tret e'
  end.
End teardown.
End Teardown.
Export Teardown.

(** ** Streams *)

(** The signals of the end of a stream among the calls. *)
Definition stream_effects (t : list own_call) : list effect :=
  concat (map (fun c => match c with OStream e => [e] | _ => [] end) t).
Definition ended (t : list own_call) : list effect := filter (fun x => ends x = true) (stream_effects t).

(** The streams that are destroyed, and the close callbacks their destructors run. *)
Definition cut_off (l : list (chunk_state * bool)) : bool := existsb (fun x => x.2 && sends_on x.1) l.
Definition expired (l : list (chunk_state * bool)) : list effect :=
  concat (map (fun x : chunk_state * bool => if x.2 then Stream_destroy (cs_stream x.1) else []) l).

Lemma ended_app a b : ended (a ++ b) = ended a ++ ended b.
Proof. unfold ended, stream_effects. by rewrite map_app, concat_app, filter_app. Qed.

Lemma ended_streams e : ended (map OStream e) = filter (fun x => ends x = true) e.
Proof. unfold ended, stream_effects. f_equal. induction e as [|x e IH]; [done|]. cbn. by rewrite IH. Qed.

Lemma n_ends_nil e : n_ends e = 0%nat -> filter (fun x => ends x = true) e = [].
Proof. intros H. by apply length_zero_iff_nil. Qed.

Lemma destroy_ends s : filter (fun x => ends x = true) (Stream_destroy s) = Stream_destroy s.
Proof. unfold Stream_destroy, call_close_cb. by destruct (close_callback _), (is_closing s). Qed.

Lemma release_streams_outcome l :
  if cut_off l then (release_streams l).2 = Undefined
  else exists e, release_streams l = (map OStream e, Ok tt) /\ ended (map OStream e) = expired l.
Proof.
  induction l as [|[st last] l IH]; [by exists []|]. cbn [release_streams cut_off existsb fst snd].
  assert (if last && sends_on st then Stream_release last st = Undefined
          else exists e, Stream_release last st = Ok e /\ ended (map OStream e) = if last then Stream_destroy (cs_stream st) else []) as Hst.
  { destruct last; [|by exists []]. pose proof (Stream_release_outcome st) as H. cbn [andb]. destruct (sends_on st); [done|].
    destruct H as (e & -> & He%n_ends_nil). eexists. split; [done|]. by rewrite ended_streams, filter_app, He, destroy_ends, app_nil_r. }
  destruct (last && sends_on st); cbn [orb]; [by rewrite Hst|]. destruct Hst as (e & -> & He). rewrite tbind_lift.
  unfold tbind. cbn [fst snd]. change (existsb _ l) with (cut_off l).
  destruct (cut_off l); [destruct (release_streams l); cbn in *; by subst|]. destruct IH as (e' & -> & He').
  exists (e ++ e'). rewrite map_app. split; [done|]. rewrite ended_app, He, He'. done.
Qed.

Lemma members_ended io session creds_last : ended (Connection_members io session creds_last).1 = [].
Proof. by destruct io, session, creds_last. Qed.

Lemma Connection_destroy_outcome pend strs io creds_last :
  if cut_off (pend ++ strs) then (Connection_destroy pend strs io creds_last).2 = Undefined
  else exists e, Connection_destroy pend strs io creds_last = (map OStream e ++ (Connection_members io true creds_last).1, Ok tt) /\
    ended (map OStream e) = expired (pend ++ strs).
Proof.
  unfold Connection_destroy. unfold cut_off at 1. rewrite existsb_app. fold (cut_off pend) (cut_off strs).
  pose proof (release_streams_outcome pend) as Hp. destruct (cut_off pend); cbn [orb].
  { unfold tbind. destruct (release_streams pend). cbn in *. by subst. }
  destruct Hp as (e1 & -> & H1). pose proof (release_streams_outcome strs) as Hs. unfold tbind at 1. cbn [fst snd].
  destruct (cut_off strs). { unfold tbind. destruct (release_streams strs). cbn in *. by subst. }
  destruct Hs as (e2 & -> & H2). unfold tbind at 1. cbn [fst snd]. exists (e1 ++ e2).
  unfold expired. rewrite map_app, map_app, concat_app, ended_app, H1, H2. split; [|done].
  destruct io, creds_last; cbn; by rewrite <- !app_assoc.
Qed.

(** A connection whose streams all have a close callback, none of them held elsewhere. *)
Lemma expired_count (l : list (chunk_state * bool)) (sts : list chunk_state) :
  map fst l ≡ₚ sts -> Forall (fun x => x.2 = true) l -> Forall (fun st => is_Some (close_callback (cs_stream st))) sts ->
  length (expired l) = length (filter (fun st => is_closing (cs_stream st) = false) sts) /\
  Forall (fun x => exists cb id, x = ECloseCb cb id STREAM_ERROR_CONNECTION_EXPIRED) (expired l).
Proof.
  intros Hp Hl Hcb. rewrite <- Hp in Hcb |- *. clear Hp. induction Hl as [|[st b] l Hb _ IH]; [done|]. cbn in Hb. subst b.
  cbn in Hcb. apply Forall_cons in Hcb as [[cb Hcb] Htl]. destruct (IH Htl) as [IHn IHf]. unfold expired. cbn [map concat fst snd].
  fold (expired l). rewrite filter_cons, length_app, IHn. unfold Stream_destroy, call_close_cb. cbn [close_callback with_shut]. rewrite Hcb.
  destruct (is_closing (cs_stream st)); cbn; [done|]. split; [done|]. constructor; [by eexists _, _|done].
Qed.


(** ** Resources *)

Inductive resource := REvent (e : ev) | RFd | RSession | RNgtcp2.

Section resources.
Variable sys : sys_call -> Z * Z.
Variable tls_rv : tls_call -> Z.
Variable ng_rv : Z.

(** Does a call acquire or release a resource? *)
Definition acquires (r : resource) (c : own_call) : bool :=
  match r, c with
  | REvent e, OSys (SEventNew e' fd p) => bool_decide (e = e') && negb ((sys (SEventNew e' fd p)).1 =? 0)
  | RFd, OSys (SSocket f) => negb ((sys (SSocket f)).1 =? -1)
  | RSession, OTls (CInit b) => negb (tls_rv (CInit b) <? 0)
  | RNgtcp2, ONgNew _ => ng_rv =? 0
  | _, _ => false
  end.
Definition releases (r : resource) (c : own_call) : bool :=
  match r, c with
  | REvent e, OSys (SEventFree e') => bool_decide (e = e')
  | RFd, OSys (SClose _) => true
  | RSession, OTls CDeinit => true
  | RNgtcp2, ONgDel => true
  | _, _ => false
  end.

(** Is a resource held after some calls, if it was [held] before?  None if it was acquired while held, or released
    while not held. *)
Fixpoint track (r : resource) (held : bool) (t : list own_call) : option bool :=
  match t with
  | [] => Some held
  | c :: t' =>
      if acquires r c then if held then None else track r true t'
      else if releases r c then if held then track r false t' else None
      else track r held t'
  end.

Lemma track_app r h a b : track r h (a ++ b) = track r h a ≫= fun h' => track r h' b.
Proof.
  revert h. induction a as [|c a IH]; intros h; [done|]. cbn.
  destruct (acquires r c); [by destruct h|]. destruct (releases r c); [by destruct h|]. apply IH.
Qed.

Definition unrelated (r : resource) (c : own_call) : Prop := acquires r c = false /\ releases r c = false.

Lemma track_unrelated r h t : Forall (unrelated r) t -> track r h t = Some h.
Proof. induction 1 as [|c t [Ha Hr] _ IH]; cbn; [done|]. by rewrite Ha, Hr. Qed.

Lemma streams_unrelated r e : Forall (unrelated r) (map OStream e).
Proof. induction e; constructor; [by destruct r|done]. Qed.

Lemma tls_unrelated r t : r <> RSession -> Forall (unrelated r) (map OTls t).
Proof. intros Hr. induction t; constructor; [by destruct r|done]. Qed.

Lemma session_track is_client :
  track RSession false (map OTls (make_session tls_rv is_client).1) = Some (negb (tls_rv (CInit is_client) <? 0)).
Proof.
  unfold make_session, GNUTLSSession_new, set_tls_hook_functions. destruct is_client; unfold check_call, tcall, tbind; cbn;
    (destruct (tls_rv (CInit _) <? 0) eqn:E; cbn; [by rewrite E|]);
    repeat match goal with |- context [tls_rv ?c <? 0] => destruct (tls_rv c <? 0) eqn:?; cbn end; rewrite ?E; done.
Qed.

(** The members of a connection release what it holds. *)
Lemma members_track r h io session creds_last :
  h = (match r with REvent EvIo => io | REvent EvRetransmit => true | RSession => session | RNgtcp2 => true | _ => false end) ->
  track r h (Connection_members io session creds_last).1 = Some false.
Proof. intros ->. by destruct io, session, creds_last, r as [[]| | |]. Qed.

Lemma init_events_track r io :
  (init_events sys).2 = Ok io ->
  track r false (map OSys (init_events sys).1) =
    Some (match r with REvent EvIo => io | REvent EvRetransmit => true | _ => false end).
Proof.
  unfold init_events, event_new, event_add, scall, tbind, tret, tdo, tlift. cbn.
  destruct ((sys (SEventNew EvRetransmit (-1) false)).1 =? 0) eqn:Et; cbn; [done|]. intros [= <-].
  destruct r as [[]| | |]; cbn; try done.
  - by destruct ((sys (SEventNew EvIo (-1) false)).1 =? 0).
  - by rewrite Et.
Qed.

(** What the constructor of a connection comes to. *)
Lemma Connection_new_cases d :
  let is_client := bool_decide (d = OUTBOUND) in
  match (init_events sys).2 with
  | Ok io =>
      if negb (ng_rv =? 0) then (Connection_new sys tls_rv ng_rv d).2 = Undefined
      else Connection_new sys tls_rv ng_rv d =
        (map OSys (init_events sys).1 ++ [ONgNew d] ++ map OTls (make_session tls_rv is_client).1 ++
          match (make_session tls_rv is_client).2 with Ok _ => [ONgTls] | _ => (Connection_members io false false).1 end,
         match (make_session tls_rv is_client).2 with Ok _ => Ok io | _ => Throw runtime_error end)
  | _ => (init_events sys).2 = Undefined /\ (Connection_new sys tls_rv ng_rv d).2 = Undefined
  end.
Proof.
  intros is_client. unfold Connection_new. fold is_client. pose proof (session_trace tls_rv is_client) as Hs.
  destruct (make_session tls_rv is_client) as [ts r]. destruct Hs as [Hr _].
  assert ((init_events sys).2 = Undefined \/ exists io, (init_events sys).2 = Ok io) as Hi.
  { unfold init_events, event_new, event_add, scall, tbind, tret, tdo, tlift. cbn.
    destruct ((sys (SEventNew EvRetransmit (-1) false)).1 =? 0); cbn; eauto. }
  destruct (init_events sys) as [ti ri]. unfold relabel. cbn [fst snd] in *. destruct Hi as [->|[io ->]]; [done|].
  destruct (ng_rv =? 0); cbn [negb]; [|done]. destruct Hr as [->| ->]; unfold tbind, tdo, tret, tlift; cbn; by rewrite ?app_nil_r.
Qed.

(** What is held when the session was tried. *)
Lemma made_track r io d :
  (init_events sys).2 = Ok io -> ng_rv = 0 ->
  track r false (map OSys (init_events sys).1 ++ [ONgNew d] ++ map OTls (make_session tls_rv (bool_decide (d = OUTBOUND))).1) =
    Some (match r with
          | REvent EvIo => io | REvent EvRetransmit | RNgtcp2 => true
          | RSession => negb (tls_rv (CInit (bool_decide (d = OUTBOUND))) <? 0)
          | _ => false
          end).
Proof.
  intros Hi Hn. rewrite track_app, (init_events_track r io Hi). cbn [mbind option_bind]. rewrite track_app.
  assert (r = RSession \/ r <> RSession) as [->|Hr] by (destruct r; auto); [apply session_track|].
  assert (track r (match r with REvent EvIo => io | REvent EvRetransmit => true | _ => false end) [ONgNew d] =
    Some (match r with REvent EvIo => io | REvent EvRetransmit | RNgtcp2 => true | _ => false end)) as ->.
  { destruct r as [[]| | |]; try done. cbn. by rewrite Hn. }
  cbn [mbind option_bind]. rewrite track_unrelated by (by apply tls_unrelated). by destruct r as [[]| | |].
Qed.
End resources.

(** C21: everything a connection owns is acquired and released once: if the constructor returns, then after the
    destructor its two events, its ngtcp2 connection and its GnuTLS session are free, each released exactly once and
    never before it was acquired, whatever its streams do and whoever holds them; if it throws, because the
    session could not be set up, the same holds of the events and the ngtcp2 connection, while a session that
    [gnutls_init] made stays allocated; it is undefined if ngtcp2 makes no connection or the timer cannot be allocated. *)
Theorem connection_lifecycle (sys : sys_call -> Z * Z) (tls_rv : tls_call -> Z) (ng_rv : Z) (d : Direction) :
  let '(t, r) := Connection_new sys tls_rv ng_rv d in
  match r with
  | Ok io => forall pend strs creds_last res, cut_off (pend ++ strs) = false ->
      exists t', Connection_destroy pend strs io creds_last = (t', Ok tt) /\ track sys tls_rv ng_rv res false (t ++ t') = Some false
  | Throw x => x = runtime_error /\ (forall res, res <> RSession -> track sys tls_rv ng_rv res false t = Some false) /\
      track sys tls_rv ng_rv RSession false t = Some (negb (tls_rv (CInit (bool_decide (d = OUTBOUND))) <? 0))
  | Undefined => ng_rv <> 0 \/ (init_events sys).2 = Undefined
  | _ => False
  end.
Proof.
  pose proof (Connection_new_cases sys tls_rv ng_rv d) as Hc. cbn zeta in Hc.
  pose proof (session_trace tls_rv (bool_decide (d = OUTBOUND))) as Hs.
  pose proof (fun r io => made_track sys tls_rv ng_rv r io d) as Hm.
  destruct (make_session tls_rv _) as [ts rs]. destruct Hs as (Hrs & Hpos & _).
  destruct (init_events sys) as [ti [io| | | |]]; try (destruct Hc as [? Hu]; destruct (Connection_new _ _ _ _); cbn in Hu; subst; by auto).
  cbn [fst snd] in *. destruct (ng_rv =? 0) eqn:Eng; cbn [negb] in Hc; bools;
    [|destruct (Connection_new _ _ _ _); cbn in Hc; subst; by auto].
  rewrite Hc, !app_assoc. rewrite !app_assoc in Hm. destruct Hrs as [->| ->].
  - intros pend strs creds_last res Hcut. pose proof (Connection_destroy_outcome pend strs io creds_last) as Hd. rewrite Hcut in Hd.
    destruct Hd as (es & -> & _). eexists. split; [done|]. rewrite <- app_assoc, track_app, (Hm res io) by done. cbn [mbind option_bind].
    rewrite (proj2 (Z.ltb_ge _ _) (Hpos eq_refl)), track_app, (track_unrelated _ _ _ res _ [ONgTls]) by (by repeat constructor; destruct res).
    cbn [mbind option_bind]. rewrite track_app, track_unrelated by apply streams_unrelated. by apply members_track.
  - split; [done|]. split.
    + intros res Hne. rewrite track_app, (Hm res io) by done. cbn [mbind option_bind]. by apply members_track; destruct res.
    + rewrite track_app, (Hm RSession io) by done. by destruct io, (negb _).
Qed.

(** ** Endpoints *)

(** The calls that were made for a connection, or by the endpoint itself. *)
Definition own (o : option (Z * list Z)) (t : list (option (Z * list Z) * own_call)) : list own_call :=
  map snd (filter (fun x => x.1 = o) t).
Definition fate_cut_off (f : fate) : bool :=
  match f with FDestroyed pend strs _ _ => cut_off (pend ++ strs) | _ => false end.

Lemma own_app o a b : own o (a ++ b) = own o a ++ own o b.
Proof. unfold own. by rewrite filter_app, map_app. Qed.

Lemma own_pair o o' t : own o (map (pair o') t) = if decide (o = o') then t else [].
Proof.
  unfold own. case_decide as Ho.
  - subst. induction t as [|c t IH]; [done|]. cbn [map]. rewrite filter_cons, decide_True by done. cbn [map snd]. by rewrite IH.
  - induction t as [|c t IH]; [done|]. cbn [map]. rewrite filter_cons, decide_False; [done|]. cbn. congruence.
Qed.

Lemma release_conn_ok f : fate_cut_off f = false -> (release_conn f).2 = Ok tt.
Proof.
  destruct f as [| |pend strs io cl]; [done..|]. cbn. intros Hc. pose proof (Connection_destroy_outcome pend strs io cl) as H.
  rewrite Hc in H. by destruct H as (e & -> & _).
Qed.

Lemma release_conns_outcome l :
  NoDup (map fst l) -> Forall (fun x => fate_cut_off x.2 = false) l ->
  exists t, release_conns l = (t, Ok tt) /\ own None t = [] /\
    (forall key, key ∉ map fst l -> own (Some key) t = []) /\
    (forall key f, (key, f) ∈ l -> own (Some key) t = (release_conn f).1).
Proof.
  intros Hnd Hl. induction Hl as [|[key f] l Hf _ IH]; cbn [release_conns map fst] in *.
  { exists []. split_and!; try done. by intros ? ? ?%not_elem_of_nil. }
  apply NoDup_cons in Hnd as [Hni Hnd]. destruct (IH Hnd) as (t & Et & Hn & Hout & Hin). pose proof (release_conn_ok f Hf) as Ho.
  destruct (release_conn f) as [tf rf] eqn:Ef. cbn in Ho. subst rf. unfold relabel, tbind. cbn. rewrite Et. eexists. split; [done|]. split_and!.
  - by rewrite own_app, own_pair, Hn.
  - intros key' [Hne Hk]%not_elem_of_cons. rewrite own_app, own_pair, decide_False by congruence. by apply Hout.
  - intros key' f' [[= -> ->]|Hk]%elem_of_cons; rewrite own_app, own_pair.
    + by rewrite decide_True, Hout, app_nil_r, Ef.
    + rewrite decide_False; [by apply Hin|]. intros [= ->]. apply Hni. apply list_elem_of_In, in_map_iff. exists (key, f'). split; [done|]. by apply list_elem_of_In.
Qed.

Lemma endpoint_plan_track sys sockname tls_rv ng_rv addr r :
  events_made sys -> socket_fd sys addr <> -1 ->
  track sys tls_rv ng_rv r false (map OSys (endpoint_plan sys sockname addr)) =
    Some (match r with REvent (EvRead | EvWrite | EvExpiry) | RFd => true | _ => false end).
Proof.
  intros He Hfd. assert (forall e fd p, (sys (SEventNew e fd p)).1 =? 0 = false) as Hev by (intros; by apply Z.eqb_neq).
  unfold endpoint_plan, socket_plan, set_ecn_call. unfold socket_fd in *. unfold socket_call in *.
  destruct r as [[]| | |]; cbn; repeat destruct (is_ipv6 _); cbn; rewrite ?Hev; cbn; rewrite ?(proj2 (Z.eqb_neq _ _) Hfd); done.
Qed.

(** What is held when a call of the plan failed: the descriptor, if there is one, and no event. *)
Lemma failed_plan_track sys sockname tls_rv ng_rv addr a c b x r :
  endpoint_plan sys sockname addr = a ++ c :: b -> sys_fails sys c = Some x ->
  (exists code, x = system_error code) /\
  track sys tls_rv ng_rv r false (map OSys (a ++ [c])) = Some (match r with RFd => negb (socket_fd sys addr =? -1) | _ => false end).
Proof.
  intros Hp Hc. assert (fatal c = true /\ exists code, x = system_error code) as [Hf Hx].
  { unfold sys_fails in Hc. destruct (fatal c); [|done]. cbn in Hc. destruct (_ =? _); [|done]. injection Hc as <-. eauto. }
  split; [exact Hx|]. unfold endpoint_plan, socket_plan, set_ecn_call, socket_fd in *. unfold socket_call in *. cbn [app] in Hp.
  do 5 (destruct a as [|? a]; [injection Hp as <- <-;
    destruct r as [[]| | |]; cbn; repeat destruct (is_ipv6 _); cbn; repeat destruct (_ =? _); done|injection Hp as <- Hp]).
  repeat (destruct a as [|? a]; [injection Hp as <- <-; by repeat destruct (is_ipv6 _)|injection Hp as <- Hp]). by destruct a.
Qed.

(** C22: an endpoint gives back what it took.  If the constructor returns, then after the destructor the descriptor of
    its socket and its three events are released, each once and never before it was acquired, and each connection
    only it held is destroyed by exactly the calls of its destructor, before the socket is closed; the
    descriptor is closed while the socket's events still exist.  If the constructor throws, no event is held, but the
    descriptor of a socket that could be opened stays open. *)
Theorem endpoint_lifecycle {C : Type} (sys : sys_call -> Z * Z) (sockname : Z -> list Z) (tls_rv : tls_call -> Z) (ng_rv : Z)
    (addr : Address) :
  events_made sys ->
  let fd := socket_fd sys addr in
  let '(t, r) := Endpoint_new (C := C) sys sockname true addr in
  match r with
  | Ok _ => forall inbound_last outbound_last l, NoDup (map fst l) -> Forall (fun x => fate_cut_off x.2 = false) l ->
      exists t1 t2, Endpoint_destroy fd true inbound_last outbound_last l = (t1 ++ t2, Ok tt) /\
        t2 = map (fun c => (None, OSys c)) [SClose fd; SEventFree EvWrite; SEventFree EvRead; SEventFree EvExpiry] /\
        (forall res, track sys tls_rv ng_rv res false (map OSys t ++ own None (t1 ++ t2)) = Some false) /\
        (forall key f, (key, f) ∈ l -> own (Some key) t1 = (release_conn f).1)
  | Throw x => (exists code, x = system_error code) /\
      (forall e, track sys tls_rv ng_rv (REvent e) false (map OSys t) = Some false) /\
      track sys tls_rv ng_rv RFd false (map OSys t) = Some (negb (fd =? -1))
  | _ => False
  end.
Proof.
  intros He fd. rewrite endpoint_new_plan by done. unfold plan.
  destruct (run_calls_cases (sys_fails sys) (endpoint_plan sys sockname addr)) as [[Hall ->]|(a & c & b & x & Hp & _ & Hc & ->)];
    cbn [obind].
  2:{ pose proof (failed_plan_track sys sockname tls_rv ng_rv addr a c b x) as Hf. split; [by eapply (Hf RFd)|].
      split; [intros e|]; by eapply Hf. }
  intros inbound_last outbound_last l Hnd Hl. assert (fd <> -1) as Hfd.
  { intros E. assert (sys_fails sys (socket_call addr) = None) as Hs by (apply Hall; left). unfold sys_fails in Hs.
    change (sys (socket_call addr)).1 with fd in Hs. by rewrite E in Hs. }
  destruct (release_conns_outcome l Hnd Hl) as (t0 & Et & Hn & _ & Hin).
  set (creds := (if inbound_last then [(None : option (Z * list Z), OTls CFreeCredentials)] else []) ++
                (if outbound_last then [(None, OTls CFreeCredentials)] else [])).
  exists (t0 ++ creds), (map (fun c => (None, OSys c)) [SClose fd; SEventFree EvWrite; SEventFree EvRead; SEventFree EvExpiry]).
  split; [|split; [done|split]].
  - unfold Endpoint_destroy. rewrite Et. unfold creds. by destruct inbound_last, outbound_last; cbn; rewrite <- app_assoc.
  - intros res. rewrite !own_app, Hn, track_app, endpoint_plan_track by done. cbn [mbind option_bind app].
    by destruct inbound_last, outbound_last, res as [[]| | |].
  - intros key f Hk. rewrite own_app, (Hin _ _ Hk). by destruct inbound_last, outbound_last; cbn; rewrite app_nil_r.
Qed.

(** ** Worked examples *)

(** A connection on which two chunks of three are queued on one stream, and another stream is idle. *)
Definition sending (id : Z) : chunk_state :=
  match send_chunks (fun n => if (n <? 3)%nat then [Z.of_nat n; 0] else []) true 2 (mkCS (set_ready (Stream_new None None id)) []) with
  | Ok (st, _) => st
  | _ => mkCS (Stream_new None None id) []
  end.
Definition silent (id : Z) : chunk_state := mkCS (set_ready (Stream_new None (Some (UserCloseCb 3)) id)) [].
Definition conn_of (l : list (Z * chunk_state)) : conn unit := mkC (with_streams (new_connection empty_context OUTBOUND) l []) tt.
Definition holding (k : conn unit) : Endpoint unit unit := mkEp (Some tt) false None None {[ cid_key (source_cid (cn k)) := Some k ]} [] [].


Lemma connection_lifecycle_witness :
  let c := Connection_new sys_all_ok (fun _ => 0) 0 OUTBOUND in
  exists io t', c.2 = Ok io /\ Connection_destroy [] [(silent 4, true)] io false = (t', Ok tt) /\
    track sys_all_ok (fun _ => 0) 0 RSession false (c.1 ++ t') = Some false.
Proof.
  pose proof (connection_lifecycle sys_all_ok (fun _ => 0) 0 OUTBOUND) as H. cbv zeta.
  destruct (Connection_new sys_all_ok (fun _ => 0) 0 OUTBOUND) as [t r] eqn:E. assert (r = Ok true) as -> by (injection E as _ <-; reflexivity).
  destruct (H [] [(silent 4, true)] false RSession eq_refl) as (t' & Ht & Htr). exists true, t'. split; [reflexivity|]. split; [exact Ht|exact Htr].
Defined.

(** An endpoint with two connections, one of them also held by the application; and one whose address is taken. *)
Lemma endpoint_lifecycle_witness :
  (exists t1 t2, Endpoint_destroy 7 true true false [((20, [1]), FDestroyed [] [(silent 4, true)] true false); ((20, [2]), FHeld)] =
     (t1 ++ t2, Ok tt) /\
   track sys_all_ok (fun _ => 0) 0 RFd false
     (map OSys (Endpoint_new (C := unit) sys_all_ok sockname_loopback true Address_default).1 ++ own None (t1 ++ t2)) = Some false) /\
  track sys_bind_fails (fun _ => 0) 0 RFd false
    (map OSys (Endpoint_new (C := unit) sys_bind_fails sockname_loopback true Address_default).1) = Some true.
Proof.
  split.
  - pose proof (endpoint_lifecycle (C := unit) sys_all_ok sockname_loopback (fun _ => 0) 0 Address_default ltac:(intros ev fd p; done)) as H.
    cbn zeta in H. destruct (Endpoint_new (C := unit) sys_all_ok sockname_loopback true Address_default) as [t r] eqn:E.
    destruct r as [e| | | |]; try (vm_compute in E; discriminate E).
    destruct (H true false [((20, [1]), FDestroyed [] [(silent 4, true)] true false); ((20, [2]), FHeld)]) as (t1 & t2 & Hd & _ & Htr & _).
    + apply (bool_decide_unpack _). vm_compute. exact I.
    + repeat constructor.
    + exists t1, t2. split; [exact Hd|apply Htr].
  - apply (endpoint_lifecycle (C := unit) sys_bind_fails sockname_loopback (fun _ => 0) 0 Address_default). intros ev fd p. done.
Defined.
