(* ===== verification/Reactor.v ===== *)
(** * The event loop's handlers, and the parts they connect

    What libevent runs for an endpoint: the socket became readable ([UDPSocket::receive] hands its
    packets to [Endpoint::handle_packet]), a connection's [io_trigger] or [retransmit_timer] fired
    (the lambdas of [Connection::init]), and the shutdown of a network, which closes the
    connections of real endpoints. *)
From S2P Require Import Prelude StdMap Utils Stream Udp Sender EndpointSend Context Connection Flush Lifetime Endpoint Network.
Import Cid Addr Io.

(** [ngtcp2_conn_handle_expiry] at a time. *)
Class Ngtcp2Expiry (C : Type) := { ng_handle_expiry : C -> Z -> C * Z }.

Module React.
Section reactor.
Context `{NgtcpConsts} {C : Type} `{Ngtcp2 C} `{Ngtcp2Ep C} `{Ngtcp2Expiry C} {S : Type} `{Sender S}.

(** What the handling of one packet draws from its environment: random ids, the first byte of a
    version negotiation packet, the uninitialised array of a connection id and the time. *)
Record pkt_env := mkPE { pe_rnd : nat -> list Z; pe_first : Z; pe_fresh : list Z; pe_now : Z }.

(** The receive callback of [Endpoint::Endpoint], called for each packet in turn. *)
Fixpoint handle_packets (fuel retry : nat) (l : list (pkt_env * list Z)) (e : Endpoint C S) : outcome (Endpoint C S) :=
  match l with
  | [] => Ok e
  | (v, pkt) :: l' =>
      let* e1 := handle_packet fuel (pe_rnd v) retry (pe_first v) (pe_fresh v) (pe_now v) pkt e in
      handle_packets fuel retry l' e1
  end.

(** The handler of [rev_]: [receive], delivering to the endpoint; [env i] is for the [i]-th packet,
    [mmsg] says whether the build uses recvmmsg. *)
Definition delivered (env : nat -> pkt_env) (ps : list Packet) : list (pkt_env * list Z) :=
  imap (fun i p => (env i, pkt_data p)) ps.
Definition on_readable (mmsg : bool) (fuel retry : nat) (bound : Address) (resps : list recv_resp) (env : nat -> pkt_env)
    (e : Endpoint C S) : outcome (Endpoint C S * io_result) :=
  let* (r, ps, _) := UDPSocket_receive mmsg bound resps in
  let* e1 := handle_packets fuel retry (delivered env ps) e in
  Ok (e1, r).

(** The handler of [io_trigger] of the connection under [key]; the retransmission timer it sets. *)
Definition io_triggered (mode : send_mode) (resend fuel mid : nat) (ts_ns : Z) (key : Z * list Z) (e : Endpoint C S) :
    outcome (Endpoint C S * option timer) :=
  match conns e !! key with
  | Some (Some k) =>
      let* (f, t) := on_io_ready mode resend fuel mid ts_ns (ng k) (cn k) (socket e) in
      Ok (with_socket (set_conn (mkC (f_conn f) (f_ng f)) e) (f_sock f), Some t)
  | _ => Undefined
  end.

(** The handler of [retransmit_timer]. *)
Definition retransmit_fired (mode : send_mode) (retry resend fuel mid : nat) (ts_ns : Z) (key : Z * list Z) (e : Endpoint C S) :
    outcome (Endpoint C S * option timer) :=
  match conns e !! key with
  | Some (Some k) =>
      let '(g, rv) := ng_handle_expiry (ng k) ts_ns in
      let k1 := mkC (cn k) g in
      let e1 := set_conn k1 e in
      if negb (rv =? 0) then let* e2 := close_connection retry k1 rv e1 in Ok (e2, None)
      else io_triggered mode resend fuel mid ts_ns key e1
  | _ => Undefined
  end.

(** [Network::close_all] on the endpoints of the table, [eps], each with the iteration order of its
    connections, and the [close_final] that follows in the same job. *)
Fixpoint close_all_conns (retry : nat) (order : nat -> list (Z * list Z)) (m : list (Address * option nat))
    (eps : gmap nat (Endpoint C S)) : outcome (gmap nat (Endpoint C S)) :=
  match m with
  | [] => Ok eps
  | (_, None) :: _ => Undefined
  | (_, Some i) :: m' =>
      match eps !! i with
      | None => Undefined
      | Some e => let* e' := close_conns retry None (order i) e in close_all_conns retry order m' (<[i := e']> eps)
      end
  end.
Definition close_all_endpoints (retry prom : nat) (order : nat -> list (Z * list Z)) (n : Network) (eps : gmap nat (Endpoint C S)) :
    outcome (Network * gmap nat (Endpoint C S)) :=
  let* eps' := close_all_conns retry order (endpoint_map n) eps in
  let* n' := close_all prom n in
  Ok (n', eps').
End reactor.
End React.
Export React.

(** ** Demultiplexing *)

Section demux.
Context `{NgtcpConsts} {C : Type} `{Ngtcp2Ep C} {S : Type} `{SenderLaws S}.
Implicit Types (e : Endpoint C S) (k : conn C).

(** The connection under a key, if there is one. *)
Definition conn_at (key : Z * list Z) e : option (conn C) :=
  match conns e !! key with Some o => o | None => None end.

(** Whom a packet is for. *)
Definition dest (v : pkt_env) (pkt : list Z) : option (Z * list Z) :=
  let '(rv, vid) := ng_decode_version_cid (C := C) pkt in
  if (rv =? NGTCP2_ERR_VERSION_NEGOTIATION) || negb (rv =? 0) || (NGTCP2_MAX_CIDLEN <? v_dcidlen vid) then None
  else match ConnectionID_copy (pe_fresh v) (v_dcid vid) (v_dcidlen vid) with
       | Ok cid => Some (cid_key cid)
       | _ => None
       end.

(** What a connection on its own makes of a close, and of a packet. *)
Definition conn_close (code : Z) k : option (conn C) :=
  if closing (cn k) || Conn.draining (cn k) then Some k
  else if code =? NGTCP2_ERR_IDLE_CLOSE then None
  else let '(g, written, _) := ng_write_connection_close (ng k) code in
       if written <=? 0 then None else Some (mkC (cn k) g).
Definition conn_drain k : conn C :=
  if Conn.draining (cn k) then k else mkC (drain (call_closing (cn k)).1) (ng k).
Definition conn_packet k (pkt : list Z) : option (conn C) :=
  if ng_in_closing_period (ng k) then None
  else
    let '(g, c, _, rv) := ng_read_pkt (ng k) (cn k) pkt in
    if rv =? 0 then Some (mkC c g)
    else if rv =? NGTCP2_ERR_DRAINING then Some (conn_drain (mkC c g))
    else if rv =? NGTCP2_ERR_PROTO then conn_close rv (mkC c g)
    else if (rv =? NGTCP2_ERR_DROP_CONN) || (rv =? NGTCP2_ERR_CRYPTO) then None
    else conn_close rv (mkC c g).
Definition conn_packets (o : option (conn C)) (l : list (list Z)) : option (conn C) :=
  fold_left (fun o pkt => match o with Some k => conn_packet k pkt | None => None end) l o.

(** Handling packets neither starts listening nor loses the socket. *)
Definition same_mode e e' : Prop :=
  (accepting_inbound e', inbound_ctx e') = (accepting_inbound e, inbound_ctx e) /\ (is_Some (socket e) -> is_Some (socket e')).
#[local] Instance same_mode_preorder : PreOrder same_mode.
Proof. split; [done|]. intros e1 e2 e3 [H1' H2'] [H3' H4']. split; [congruence|auto]. Qed.

Lemma send_one_mode retry buf cb e e' q :
  send_one retry buf cb e = Ok (e', q) -> same_mode e e' /\ (is_Some (socket e) -> forall r, q <> QCallback r).
Proof.
  unfold send_one. intros ([s q'] & Hs & [= <- <-])%obind_ok. unfold send_or_queue_packet in Hs.
  destruct (socket e) as [s0|] eqn:Es; [|simplify_eq; split; [split; [done|]; rewrite Es|]; by intros []].
  apply obind_ok in Hs as (r & Hr & Hs).
  assert (is_Some (sp_socket r)) as Hsp.
  { unfold Endpoint_send_packets in Hr. apply assert_then_ok in Hr as [_ ([[s1 ret] n] & _ & Hr)%obind_ok].
    destruct (failure ret && _); [by simplify_eq|]. destruct (n <? _); [|by simplify_eq]. destruct (n =? 0); by simplify_eq. }
  destruct Hsp as [s1 Hs1]. rewrite Hs1 in Hs. by destruct (blocked (sp_ret r)); simplify_eq.
Qed.

Lemma delete_connection_at cid e e' :
  delete_connection cid e = Ok e' -> same_mode e e' /\ conn_at (cid_key cid) e' = None.
Proof.
  unfold delete_connection, conn_at. destruct (conns e !! cid_key cid) as [[k|]|] eqn:Hf; [|done|].
  - destruct (call_closing (cn k)) as [c cb]. intros [= <-]. split; [done|]. cbn. by rewrite lookup_delete_eq.
  - intros [= <-]. by rewrite Hf.
Qed.

Lemma set_conn_at k e : conn_at (cid_key (source_cid (cn k))) (set_conn k e) = Some k.
Proof. unfold conn_at. cbn. by rewrite lookup_insert_eq. Qed.

Lemma close_connection_at retry k code e e' :
  is_Some (socket e) -> conn_at (cid_key (source_cid (cn k))) e = Some k -> close_connection retry k code e = Ok e' ->
  same_mode e e' /\ conn_at (cid_key (source_cid (cn k))) e' = conn_close code k.
Proof.
  intros Hso Hk. unfold close_connection, conn_close.
  destruct (closing (cn k) || Conn.draining (cn k)); [by intros [= <-]|].
  destruct (code =? NGTCP2_ERR_IDLE_CLOSE); [apply delete_connection_at|].
  destruct (ng_write_connection_close (ng k) code) as [[g w] bs].
  destruct (w <=? 0); [by intros [? ?]%delete_connection_at|].
  intros [_ ([e2 q] & Hsend & Hr)%obind_ok]%assert_then_ok.
  destruct (send_one_mode _ _ _ _ _ _ Hsend) as [Hm Hq]. destruct (send_one_frame _ _ _ _ _ _ Hsend) as (Hc & _).
  assert (e2 = e') as <- by (destruct q as [r| |r|]; try (by injection Hr as <-); by destruct (Hq Hso r)).
  split; [done|]. unfold conn_at. rewrite Hc. cbn. by rewrite lookup_insert_eq.
Qed.

Lemma drain_connection_at now k e :
  conn_at (cid_key (source_cid (cn k))) e = Some k ->
  same_mode e (drain_connection now k e) /\
  conn_at (cid_key (source_cid (cn k))) (drain_connection now k e) = Some (conn_drain k).
Proof.
  intros Hk. unfold drain_connection, conn_drain. destruct (Conn.draining (cn k)); [done|].
  unfold call_closing. destruct (on_closing (cn k)); (split; [done|]); unfold conn_at; cbn; by rewrite lookup_insert_eq.
Qed.

Lemma handle_conn_packet_at retry now k pkt e e' :
  read_keeps_id (C := C) -> is_Some (socket e) -> handle_conn_packet retry now k pkt e = Ok e' ->
  same_mode e e' /\ conn_at (cid_key (source_cid (cn k))) e' = conn_packet k pkt.
Proof.
  intros Hrd Hso. unfold handle_conn_packet, conn_packet.
  destruct (ng_in_closing_period (ng k)); [apply delete_connection_at|].
  intros ([e1 r] & Hr & [= <-])%obind_ok. unfold read_packet in Hr.
  specialize (Hrd (ng k) (cn k) pkt). destruct (ng_read_pkt (ng k) (cn k) pkt) as [[[g c] eff] rv].
  apply obind_ok in Hr as (e2 & Hx & [= <- <-]). rewrite <- Hrd.
  set (e0 := emit (set_conn (mkC c g) e) _) in Hx.
  assert (conn_at (cid_key (source_cid c)) e0 = Some (mkC c g)) as He0 by apply (set_conn_at (mkC c g) e).
  assert (same_mode e e0) as Hm by done. assert (is_Some (socket e0)) as Hs0 by done.
  destruct (rv =? 0); [by injection Hx as <-|].
  destruct (rv =? NGTCP2_ERR_DRAINING); [injection Hx as <-; apply (drain_connection_at now (mkC c g) e0 He0)|].
  destruct (rv =? NGTCP2_ERR_PROTO); [by apply (close_connection_at retry (mkC c g)) in Hx|].
  destruct (rv =? NGTCP2_ERR_DROP_CONN); [by apply delete_connection_at in Hx|].
  destruct (rv =? NGTCP2_ERR_CRYPTO); [by apply delete_connection_at in Hx|].
  by apply (close_connection_at retry (mkC c g)) in Hx.
Qed.

Lemma read_ok_keeps_id : read_ok (C := C) -> read_keeps_id (C := C).
Proof. intros Hrd g c p. specialize (Hrd g c p). by destruct (ng_read_pkt g c p) as [[[? ?] ?] ?], Hrd. Qed.

(** One packet: the connection it is for handles it on its own, and no other connection changes. *)
Lemma handle_packet_at fuel retry v pkt e e' key :
  read_ok (C := C) -> ep_inv e -> is_Some (socket e) -> accepting_inbound e = false ->
  handle_packet fuel (pe_rnd v) retry (pe_first v) (pe_fresh v) (pe_now v) pkt e = Ok e' ->
  same_mode e e' /\
  conn_at key e' = if bool_decide (dest v pkt = Some key) then conn_packets (conn_at key e) [pkt] else conn_at key e.
Proof.
  intros Hrd Hi Hso Ha Hh. unfold handle_packet, handle_packet_connid in Hh. unfold dest.
  assert (read_keeps_id (C := C)) as Hrk by by apply read_ok_keeps_id.
  destruct (ng_decode_version_cid pkt) as [rv vid].
  destruct (rv =? NGTCP2_ERR_VERSION_NEGOTIATION); cbn [orb].
  { rewrite obind_assoc in Hh. apply obind_ok in Hh as (e1 & Hv & [= <-]). rewrite bool_decide_false by done.
    unfold send_version_negotiation in Hv. destruct (ng_write_version_negotiation _ _ _) as [nw bs].
    destruct (nw <=? 0); [by injection Hv as <-|]. apply obind_ok in Hv as ([e2 q] & Hs & [= <-]).
    destruct (send_one_mode _ _ _ _ _ _ Hs) as [Hm _]. destruct (send_one_frame _ _ _ _ _ _ Hs) as (Hc & _).
    split; [done|]. unfold conn_at. by rewrite Hc. }
  destruct (negb (rv =? 0)); cbn [orb]; [injection Hh as <-; by rewrite bool_decide_false|].
  destruct (NGTCP2_MAX_CIDLEN <? v_dcidlen vid); [injection Hh as <-; by rewrite bool_decide_false|].
  rewrite obind_assoc in Hh. apply obind_ok in Hh as (dcid & -> & Hh). cbn [obind] in Hh.
  unfold get_conn in Hh. destruct (conns e !! cid_key dcid) as [[k|]|] eqn:Hf.
  - pose proof (proj1 (proj1 Hi _ _ Hf)) as Hkey.
    destruct (handle_conn_packet_at _ _ _ _ _ _ Hrk Hso Hh) as [Hm Hat]. apply handle_conn_packet_touches in Hh; [|done].
    split; [done|]. rewrite Hkey in *. case_bool_decide as Hd.
    + injection Hd as <-. rewrite Hat. unfold conn_at. by rewrite Hf.
    + unfold conn_at. rewrite Hh; [done|]. by intros ->.
  - rewrite Ha in Hh. injection Hh as <-. split; [done|]. case_bool_decide as Hd; [|done]. injection Hd as <-.
    unfold conn_at. by rewrite Hf.
  - rewrite Ha in Hh. injection Hh as <-. split; [done|]. case_bool_decide as Hd; [|done]. injection Hd as <-.
    unfold conn_at. by rewrite Hf.
Qed.

(** What ngtcp2 documents of the packets it writes: they fit the buffer they are given. *)
Definition writes_fit : Prop :=
  (forall (g : C) code, let '(_, w, bs) := ng_write_connection_close g code in w <= max_payload_size /\ (0 < w -> zlen bs = w)) /\
  (forall first vid vs, let '(w, bs) := ng_write_version_negotiation (C := C) first vid vs in 0 < w -> zlen bs <= max_payload_size).

Lemma send_payload_total retry bs cb e :
  0 < max_payload_size < 2 ^ 16 -> socket_ready e -> zlen bs <= max_payload_size ->
  exists e' q, send_one retry (payload_buffer bs) cb e = Ok (e', q) /\ socket_ready e'.
Proof.
  intros Hm Hr Hb. destruct (send_one_ready retry (payload_buffer bs) cb e Hr) as (e' & q & ? & ? & _); [|by exists e', q].
  rewrite payload_buffer_len; done.
Qed.

Lemma delete_connection_total cid e :
  conn_at (cid_key cid) e <> None -> socket_ready e -> exists e', delete_connection cid e = Ok e' /\ socket_ready e'.
Proof.
  unfold delete_connection, conn_at. intros Hc Hr. destruct (conns e !! cid_key cid) as [[k|]|]; [|done..].
  destruct (call_closing (cn k)). by eexists.
Qed.

Lemma close_connection_total retry k code e :
  0 < max_payload_size < 2 ^ 16 -> writes_fit -> socket_ready e -> conn_at (cid_key (source_cid (cn k))) e = Some k ->
  exists e', close_connection retry k code e = Ok e' /\ socket_ready e'.
Proof.
  intros Hm [Hw _] Hr Hk. unfold close_connection.
  destruct (closing (cn k) || Conn.draining (cn k)); [by eexists|].
  destruct (code =? NGTCP2_ERR_IDLE_CLOSE); [apply delete_connection_total; [by rewrite Hk|done]|].
  specialize (Hw (ng k) code). destruct (ng_write_connection_close (ng k) code) as [[g w] bs]. destruct Hw as [Hw Hbs].
  destruct (w <=? 0) eqn:Ew; bools.
  { apply (delete_connection_total (source_cid (cn k))); [|done].
    pose proof (set_conn_at (mkC (cn k) g) e) as Hat. cbn [cn] in Hat. by rewrite Hat. }
  rewrite (proj2 (Z.leb_le _ _) Hw). cbn [assert_then].
  destruct (send_payload_total retry bs true (set_conn (mkC (cn k) g) e) Hm) as (e' & q & Hs & Hr'); [done|lia|].
  rewrite Hs. cbn [obind]. destruct (send_one_mode _ _ _ _ _ _ Hs) as [_ Hq]. exists e'.
  destruct Hr as (s & Hso & _). destruct q as [r| |r|]; try done. destruct (Hq ltac:(eexists; exact Hso) r eq_refl).
Qed.

Lemma handle_conn_packet_total retry now k pkt e :
  0 < max_payload_size < 2 ^ 16 -> writes_fit -> read_keeps_id (C := C) -> socket_ready e ->
  conn_at (cid_key (source_cid (cn k))) e = Some k ->
  exists e', handle_conn_packet retry now k pkt e = Ok e' /\ socket_ready e'.
Proof.
  intros Hm Hw Hrd Hr Hk. unfold handle_conn_packet, read_packet.
  destruct (ng_in_closing_period (ng k)); [apply delete_connection_total; [by rewrite Hk|done]|].
  destruct (ng_read_pkt (ng k) (cn k) pkt) as [[[g c] eff] rv].
  set (e0 := emit (set_conn (mkC c g) e) _).
  assert (conn_at (cid_key (source_cid c)) e0 = Some (mkC c g)) as He0 by apply (set_conn_at (mkC c g) e).
  assert (socket_ready e0) as Hr0 by done.
  assert (exists e2, (if rv =? 0 then Ok (emit e0 [XIoReady (source_cid c)])
    else if rv =? NGTCP2_ERR_DRAINING then Ok (drain_connection now (mkC c g) e0)
    else if rv =? NGTCP2_ERR_PROTO then close_connection retry (mkC c g) rv e0
    else if rv =? NGTCP2_ERR_DROP_CONN then delete_connection (source_cid c) e0
    else if rv =? NGTCP2_ERR_CRYPTO then delete_connection (source_cid c) e0
    else close_connection retry (mkC c g) rv e0) = Ok e2 /\ socket_ready e2) as (e2 & -> & Hr2); [|by exists e2].
  destruct (rv =? 0); [by eexists|]. destruct (rv =? NGTCP2_ERR_DRAINING).
  { eexists. split; [done|]. unfold drain_connection. cbn [cn]. destruct (Conn.draining c); [done|].
    unfold call_closing. by destruct (on_closing c). }
  destruct (rv =? NGTCP2_ERR_PROTO); [by apply close_connection_total|].
  destruct (rv =? NGTCP2_ERR_DROP_CONN); [apply delete_connection_total; [by rewrite He0|done]|].
  destruct (rv =? NGTCP2_ERR_CRYPTO); [apply delete_connection_total; [by rewrite He0|done]|].
  by apply close_connection_total.
Qed.

Lemma handle_packet_total fuel retry v pkt e :
  0 < max_payload_size < 2 ^ 16 -> writes_fit -> read_keeps_id (C := C) -> ep_inv e -> socket_ready e ->
  accepting_inbound e = false ->
  exists e', handle_packet fuel (pe_rnd v) retry (pe_first v) (pe_fresh v) (pe_now v) pkt e = Ok e' /\ socket_ready e'.
Proof.
  intros Hm Hw Hrd Hi Hr Ha. unfold handle_packet, handle_packet_connid.
  destruct (ng_decode_version_cid pkt) as [rv vid].
  destruct (rv =? NGTCP2_ERR_VERSION_NEGOTIATION).
  { unfold send_version_negotiation. pose proof (proj2 Hw (pe_first v) vid versions) as Hv.
    destruct (ng_write_version_negotiation _ _ _) as [nw bs]. destruct (nw <=? 0) eqn:En; bools; [by eexists|].
    destruct (send_payload_total retry bs false e Hm Hr) as (e1 & q & -> & Hr1); [auto|]. by exists e1. }
  destruct (negb (rv =? 0)); [by eexists|]. destruct (NGTCP2_MAX_CIDLEN <? v_dcidlen vid) eqn:El; [by eexists|]. bools.
  unfold ConnectionID_copy. rewrite (proj2 (Z.leb_le _ _) El). cbn [assert_then obind]. unfold get_conn.
  destruct (conns e !! _) as [[k|]|] eqn:Hf; [|rewrite Ha; by eexists..].
  apply handle_conn_packet_total; try done. rewrite (proj1 (proj1 Hi _ _ Hf)). unfold conn_at. by rewrite Hf.
Qed.

(** Packets at an endpoint that does not accept connections. *)
Lemma handle_packets_quiet fuel retry (l : list (pkt_env * list Z)) e :
  0 < max_payload_size < 2 ^ 16 -> writes_fit -> read_ok (C := C) -> ep_inv e -> socket_ready e ->
  accepting_inbound e = false ->
  exists e', handle_packets fuel retry l e = Ok e' /\
    forall key, conn_at key e' = conn_packets (conn_at key e) (map snd (filter (fun p => dest p.1 p.2 = Some key) l)).
Proof.
  intros Hm Hw Hrd. revert e. induction l as [|[v pkt] l IH]; intros e Hi Hr Ha; cbn [handle_packets]; [by eexists|].
  assert (read_keeps_id (C := C)) as Hrk by by apply read_ok_keeps_id.
  destruct (handle_packet_total fuel retry v pkt e Hm Hw Hrk Hi Hr Ha) as (e1 & Hx & Hr1). rewrite Hx. cbn [obind].
  assert (is_Some (socket e)) as Hso by (destruct Hr as (s & -> & _); by eexists).
  destruct (IH e1) as (e' & He' & Hkey); [by eapply inv_handle_packet|done| |].
  { destruct (handle_packet_at _ _ _ _ _ _ (0, []) Hrd Hi Hso Ha Hx) as [[[= Hacc _] _] _]. congruence. }
  exists e'. split; [done|]. intros key. destruct (handle_packet_at _ _ _ _ _ _ key Hrd Hi Hso Ha Hx) as [_ Hat].
  rewrite Hkey, Hat. case_bool_decide as Hd; [by rewrite filter_cons_True|by rewrite filter_cons_False].
Qed.

(** C7: an endpoint that does not accept connections is a family of independent connections: whatever
    the socket receives when it becomes readable, interleaved for any number of connections, is
    handled without error, and each connection is then what it would be had it been handed just
    the packets addressed to it, in order; packets that cannot be decoded or are addressed to
    nobody change no connection. *)
Theorem packets_demultiplexed (mmsg : bool) fuel retry (bound : Address) (resps : list recv_resp) (env : nat -> pkt_env)
    (r : io_result) (ps : list Packet) (count : Z) e :
  0 < max_payload_size < 2 ^ 16 -> writes_fit -> read_ok (C := C) -> ep_inv e -> socket_ready e ->
  accepting_inbound e = false -> UDPSocket_receive mmsg bound resps = Ok (r, ps, count) ->
  exists e', on_readable mmsg fuel retry bound resps env e = Ok (e', r) /\
    forall key, conn_at key e' =
      conn_packets (conn_at key e) (map snd (filter (fun p => dest p.1 p.2 = Some key) (delivered env ps))).
Proof.
  intros Hm Hw Hrd Hi Hr Ha Hrecv. unfold on_readable. rewrite Hrecv. cbn [obind].
  destruct (handle_packets_quiet fuel retry (delivered env ps) e Hm Hw Hrd Hi Hr Ha) as (e' & -> & Hk). by exists e'.
Qed.

(** ** Strangers *)

Lemma touches_size key e e' : only_touches key e e' -> (size (conns e') <= size (conns e) + 1)%nat.
Proof.
  intros Ht. rewrite <- !size_dom. assert (dom (conns e') ⊆ {[key]} ∪ dom (conns e)) as Hs.
  { intros key' [v Hv]%elem_of_dom. destruct (decide (key' = key)) as [->|Hne]; [set_solver|].
    rewrite Ht in Hv by done. apply elem_of_union_r, elem_of_dom. by eexists. }
  apply subseteq_size in Hs. rewrite size_union_alt, size_singleton in Hs.
  pose proof (subseteq_size (dom (conns e) ∖ {[key]}) (dom (conns e)) ltac:(set_solver)). lia.
Qed.

(** The endpoint listens, and a connection can be made for a packet that asks for one. *)
Definition can_accept e : Prop :=
  accepting_inbound e = true /\
  exists ctx, inbound_ctx e = Some ctx /\ forall scid dc, exists k, make_conn (C := C) scid dc ctx INBOUND = Ok k.

(** What became of an endpoint that handled [pkt]: of the connections whose ids were not among the
    first [n] draws, the one the packet is for handled it on its own, and the others are
    unchanged. *)
Definition not_drawn (n : nat) (v : pkt_env) (key : Z * list Z) : Prop := forall i, (i < n)%nat -> key <> drawn (pe_rnd v) i.
Record handled (n : nat) (v : pkt_env) (pkt : list Z) e e' : Prop := {
  h_ready : socket_ready e';
  h_mode : same_mode e e';
  h_size : (size (conns e') <= size (conns e) + 1)%nat;
  h_at : forall key, not_drawn n v key ->
    conn_at key e' = if bool_decide (dest v pkt = Some key) then conn_packets (conn_at key e) [pkt] else conn_at key e;
}.

(** Nobody to hand the packet to. *)
Lemma handled_nobody n v pkt e e' :
  socket_ready e' -> same_mode e e' -> (size (conns e') <= size (conns e) + 1)%nat ->
  (forall key, dest v pkt = Some key -> conn_at key e = None) ->
  (forall key, not_drawn n v key -> conn_at key e' = conn_at key e) -> handled n v pkt e e'.
Proof.
  intros Hr Hm Hs Hd Hat. split; [done..|]. intros key Hk. rewrite Hat by done. case_bool_decide as Hb; [|done].
  by rewrite (Hd key Hb).
Qed.

Lemma handled_dropped n v pkt e :
  socket_ready e -> (forall key, dest v pkt = Some key -> conn_at key e = None) -> handled n v pkt e e.
Proof. intros Hr Hd. apply handled_nobody; [done|done|lia|done|done]. Qed.

Lemma handled_known n retry v pkt k e :
  0 < max_payload_size < 2 ^ 16 -> writes_fit -> read_keeps_id (C := C) -> ep_inv e -> socket_ready e ->
  dest v pkt = Some (cid_key (source_cid (cn k))) -> conn_at (cid_key (source_cid (cn k))) e = Some k ->
  exists e', handle_conn_packet retry (pe_now v) k pkt e = Ok e' /\ handled n v pkt e e'.
Proof.
  intros Hm Hw Hrk Hi Hr Hd Hk. destruct (handle_conn_packet_total retry (pe_now v) k pkt e Hm Hw Hrk Hr Hk) as (e' & Hh & Hr').
  assert (is_Some (socket e)) as Hso by (destruct Hr as (s & -> & _); by eexists).
  destruct (handle_conn_packet_at _ _ _ _ _ _ Hrk Hso Hh) as [Hmode Hat]. pose proof (handle_conn_packet_touches _ _ _ _ _ _ Hrk Hh) as Ht.
  exists e'. split; [done|]. split; [done|done|by eapply touches_size|]. intros key _. rewrite Hd. case_bool_decide as Hb.
  - injection Hb as <-. by rewrite Hat, Hk.
  - unfold conn_at. rewrite Ht; [done|]. by intros ->.
Qed.

(** A packet for nobody, at an endpoint that listens: it is refused, or a connection is made for it. *)
Lemma handled_stranger fuel retry v pkt e :
  0 < max_payload_size < 2 ^ 16 -> writes_fit -> read_keeps_id (C := C) -> socket_ready e -> can_accept e ->
  fresh_draws fuel (pe_rnd v) -> (size (conns e) < fuel)%nat -> (forall key, dest v pkt = Some key -> conn_at key e = None) ->
  exists e', (let* (e2, ko) := accept_initial_connection fuel (pe_rnd v) pkt e in
              match ko with None => Ok e2 | Some k => handle_conn_packet retry (pe_now v) k pkt e2 end) = Ok e' /\
    handled fuel v pkt e e'.
Proof.
  intros Hm Hw Hrk Hr (_ & ctx & Hctx & Hmk) Hfr Hfuel Hd. pose proof (handled_dropped fuel v pkt e Hr Hd) as Hdrop.
  unfold accept_initial_connection. destruct (ng_accept pkt) as [arv hdr].
  destruct (arv <? 0); [by exists e|]. destruct (hd_type hdr =? NGTCP2_PKT_0RTT); [by exists e|]. destruct (_ && _); [by exists e|].
  rewrite Hctx. destruct (emplace_conn_fresh fuel (pe_rnd v) (fun _ => hd_scid hdr) ctx INBOUND e (fresh_draws_le (Datatypes.S (size (conns e))) fuel _ ltac:(lia) Hfr) Hfuel Hmk)
    as (e2 & k & j & -> & Hid & Hj & _ & _ & He2). cbn [obind].
  unfold drawn in He2. rewrite <- Hid in He2.
  assert (only_touches (cid_key (source_cid (cn k))) e e2) as Ht2 by (rewrite He2; intros key' Hne; cbn; by apply lookup_insert_ne).
  assert (conn_at (cid_key (source_cid (cn k))) e2 = Some k) as Hk by (rewrite He2; unfold conn_at; cbn; by rewrite lookup_insert_eq).
  assert (socket_ready e2 /\ same_mode e e2) as [Hr2 Hm2] by (by rewrite He2).
  assert (is_Some (socket e2)) as Hso by (destruct Hr2 as (s & -> & _); by eexists).
  destruct (handle_conn_packet_total retry (pe_now v) k pkt e2 Hm Hw Hrk Hr2 Hk) as (e' & Hh & Hr'). exists e'. split; [done|].
  destruct (handle_conn_packet_at _ _ _ _ _ _ Hrk Hso Hh) as [Hmode _]. apply handle_conn_packet_touches in Hh; [|done].
  assert (only_touches (cid_key (source_cid (cn k))) e e') as Ht by by etransitivity.
  apply handled_nobody; [done|by etransitivity|by eapply touches_size|done|].
  intros key Hkey. unfold conn_at. rewrite Ht; [done|]. rewrite Hid. apply Hkey. lia.
Qed.

Lemma handle_packet_listening fuel retry v pkt e :
  0 < max_payload_size < 2 ^ 16 -> writes_fit -> read_ok (C := C) -> ep_inv e -> socket_ready e -> can_accept e ->
  fresh_draws fuel (pe_rnd v) -> (size (conns e) < fuel)%nat ->
  exists e', handle_packet fuel (pe_rnd v) retry (pe_first v) (pe_fresh v) (pe_now v) pkt e = Ok e' /\ handled fuel v pkt e e'.
Proof.
  intros Hm Hw Hrd Hi Hr Hacc Hinj Hfuel. pose proof (read_ok_keeps_id Hrd) as Hrk.
  pose proof (handled_dropped fuel v pkt e Hr) as Hdrop. pose proof (handled_known fuel retry v pkt) as Hknown.
  pose proof (handled_stranger fuel retry v pkt e Hm Hw Hrk Hr Hacc Hinj Hfuel) as Hstr.
  pose proof (handled_nobody fuel v pkt e) as Hnob.
  unfold handle_packet, handle_packet_connid, dest in *. destruct (ng_decode_version_cid pkt) as [rv vid].
  destruct (rv =? NGTCP2_ERR_VERSION_NEGOTIATION); cbn [orb] in *.
  { unfold send_version_negotiation. pose proof (proj2 Hw (pe_first v) vid versions) as Hv.
    destruct (ng_write_version_negotiation _ _ _) as [nw bs]. destruct (nw <=? 0) eqn:En; bools; [exists e; split; [done|by apply Hdrop]|].
    destruct (send_payload_total retry bs false e Hm Hr) as (e1 & q & Hs & Hr1); [auto|]. rewrite Hs. cbn [obind].
    destruct (send_one_mode _ _ _ _ _ _ Hs) as [Hmode _]. destruct (send_one_frame _ _ _ _ _ _ Hs) as (Hc & _).
    exists e1. split; [done|]. apply Hnob; [done..|by rewrite Hc; lia|done|]. intros key _. unfold conn_at. by rewrite Hc. }
  destruct (negb (rv =? 0)); cbn [orb] in *; [exists e; split; [done|by apply Hdrop]|].
  destruct (NGTCP2_MAX_CIDLEN <? v_dcidlen vid) eqn:El; [exists e; split; [done|by apply Hdrop]|]. bools.
  unfold ConnectionID_copy in *. rewrite (proj2 (Z.leb_le _ _) El) in *. cbn [assert_then obind] in *.
  set (dcid := mkCID _ _) in *. unfold get_conn. destruct (conns e !! cid_key dcid) as [[k|]|] eqn:Hf.
  - pose proof (proj1 (proj1 Hi _ _ Hf)) as Hkey. apply Hknown; try done; rewrite Hkey; [done|]. unfold conn_at. by rewrite Hf.
  - rewrite (proj1 Hacc). apply Hstr. intros key [= <-]. unfold conn_at. by rewrite Hf.
  - rewrite (proj1 Hacc). apply Hstr. intros key [= <-]. unfold conn_at. by rewrite Hf.
Qed.

(** C26: strangers cannot disturb the connections of an endpoint that listens and can make the
    connections asked for ([can_accept]): any batch of received packets, be they for existing
    connections, undecodable or from anyone who asks for a new connection, is handled without error,
    and every connection there was at the start is then what it would be had it been handed just
    the packets addressed to it, in order.  The ids drawn for one packet are different 20-byte ids,
    as many as the fuel of the search, which is more than there are connections and packets, and a
    connection of which this is said has an id that is not among them. *)
Theorem strangers_isolated fuel retry (l : list (pkt_env * list Z)) e :
  0 < max_payload_size < 2 ^ 16 -> writes_fit -> read_ok (C := C) -> ep_inv e -> socket_ready e -> can_accept e ->
  Forall (fun p => fresh_draws fuel (pe_rnd p.1)) l -> (size (conns e) + length l < fuel)%nat ->
  exists e', handle_packets fuel retry l e = Ok e' /\
    forall key, Forall (fun p => not_drawn fuel p.1 key) l ->
      conn_at key e' = conn_packets (conn_at key e) (map snd (filter (fun p => dest p.1 p.2 = Some key) l)).
Proof.
  intros Hm Hw Hrd. revert e. induction l as [|[v pkt] l IH]; intros e Hi Hr Hacc Hdr Hfuel; cbn [handle_packets]; [by eexists|].
  inversion Hdr as [|? ? Hv Hdr']; subst. cbn [length fst] in *.
  destruct (handle_packet_listening fuel retry v pkt e Hm Hw Hrd Hi Hr Hacc Hv) as (e1 & Hx & [Hr1 Hm1 Hs1 Hat1]); [lia|].
  rewrite Hx. cbn [obind]. destruct (IH e1) as (e' & He' & Hkey); [by eapply inv_handle_packet|done| |done|lia|].
  { destruct Hm1 as [[= E1 E2] _]. destruct Hacc as (? & ctx & ? & ?). split; [congruence|]. exists ctx. by rewrite E2. }
  exists e'. split; [done|]. intros key Hk. inversion Hk as [|? ? Hk1 Hk2]; subst. cbn [fst] in *.
  rewrite (Hkey key Hk2), (Hat1 key Hk1). case_bool_decide as Hd; [by rewrite filter_cons_True|by rewrite filter_cons_False].
Qed.
End demux.

(** ** Timers *)

Section frame.
Context `{NgtcpConsts} {C : Type} `{Ngtcp2 C} {S : Type} `{Sender S}.
Context (mode : send_mode) (resend : nat).

(** The fields of a connection that producing and sending packets leaves alone. *)
Definition identity (c : Connection) := (source_cid c, context c, dir c, on_closing c, Conn.draining c, closing c).

Lemma flush_identity fuel mid ts_ns g c (so : option S) (f : fstate C S) t :
  on_io_ready mode resend fuel mid ts_ns g c so = Ok (f, t) -> identity (f_conn f) = identity c.
Proof.
  intros ([f' upd] & Hf%flush_frame & [= <- <-])%obind_ok. unfold identity. by injection Hf as -> -> -> -> -> -> _ _.
Qed.
End frame.

Section expiry.
Context `{NgtcpConsts} {C : Type} `{Ngtcp2 C} `{Ngtcp2Ep C} `{Ngtcp2Expiry C} {S : Type} `{SenderLaws S}.
Context (mode : send_mode) (retry resend fuel mid : nat).
Implicit Types (e : Endpoint C S) (k : conn C).

(** A connection's [io_trigger]: the connection, ngtcp2's state and the socket are what the flush made of
    them ([final] says what that is), and the timer is set. *)
Lemma io_triggered_spec ts_ns key k e s :
  conns e !! key = Some (Some k) -> cid_key (source_cid (cn k)) = key -> socket e = Some s ->
  flushable mode (ng k) (cn k) s -> n_packets (cn k) = 0%nat -> (flush_fuel (ng k) (cn k) <= fuel)%nat ->
  exists e' f t, io_triggered mode resend fuel mid ts_ns key e = Ok (e', Some t) /\
    on_io_ready mode resend fuel mid ts_ns (ng k) (cn k) (Some s) = Ok (f, t) /\
    t = schedule_retransmit (ng_expiry (f_ng f)) ts_ns /\ final mode resend (streams (cn k)) s f /\
    conns e' = <[key := Some (mkC (f_conn f) (f_ng f))]> (conns e) /\ socket e' = f_sock f /\
    identity (f_conn f) = identity (cn k) /\ events e' = events e.
Proof.
  intros Hk Hkey Hs Hf Hn Hfuel. unfold io_triggered. rewrite Hk, Hs.
  destruct (flush_streams_spec mode resend mid _ _ _ fuel Hf Hn Hfuel) as (f & upd & Hfl & Hfin & _).
  assert (on_io_ready mode resend fuel mid ts_ns (ng k) (cn k) (Some s) = Ok (f, schedule_retransmit (ng_expiry (f_ng f)) ts_ns)) as Hio
    by (unfold on_io_ready; by rewrite Hfl).
  pose proof (flush_identity _ _ _ _ _ _ _ _ _ _ Hio) as Hid. rewrite Hio. cbn [obind].
  eexists _, f, _. split_and!; [reflexivity|done..| |done|done|done]. cbn. rewrite <- Hkey.
  unfold identity in Hid. by injection Hid as -> _ _ _ _ _.
Qed.

(** What closing a connection of the table for an error other than the idle timeout comes to: a
    draining connection is left alone; a live one for which ngtcp2 writes a close packet keeps its
    entry and hands the socket that one packet; a live one for which ngtcp2 writes none is
    removed, its closing callback runs, and the socket is not touched. *)
Definition error_closed (key : Z * list Z) k (code : Z) e e' : Prop :=
  if Conn.draining (cn k) then
    conns e' = <[key := Some k]> (conns e) /\ events e' = events e /\ socket e' = socket e
  else
    let '(g, written, bs) := ng_write_connection_close (ng k) code in
    if written <=? 0 then
      conns e' = base.delete key (conns e) /\ events e' = events e ++ closing_event (on_closing (cn k)) /\ socket e' = socket e
    else
      conns e' = <[key := Some (mkC (cn k) g)]> (conns e) /\
      exists q, (q = QQueued \/ exists r, q = QDone r) /\ events e' = events e ++ [XPacket (payload_buffer bs) q] /\
        wired retry [XPacket (payload_buffer bs) q] e e'.

Lemma delete_connection_spec cid k e :
  conns e !! cid_key cid = Some (Some k) ->
  exists e', delete_connection cid e = Ok e' /\ conns e' = base.delete (cid_key cid) (conns e) /\
    events e' = events e ++ closing_event (on_closing (cn k)) /\ socket e' = socket e.
Proof. intros Hk. unfold delete_connection, call_closing. rewrite Hk. destruct (on_closing (cn k)); by eexists. Qed.

Lemma close_connection_error key k code e :
  0 < max_payload_size < 2 ^ 16 -> writes_fit (C := C) -> socket_ready e -> cid_key (source_cid (cn k)) = key ->
  closing (cn k) = false -> code <> NGTCP2_ERR_IDLE_CLOSE ->
  exists e', close_connection retry k code (set_conn k e) = Ok e' /\ error_closed key k code e e'.
Proof.
  intros Hm Hw Hr Hkey Hcl Hne. unfold error_closed. destruct (Conn.draining (cn k)) eqn:Ed.
  { unfold close_connection. rewrite Hcl, Ed. eexists. split; [done|]. cbn. by rewrite Hkey. }
  pose proof (proj1 Hw (ng k) code) as Hwr. destruct (ng_write_connection_close (ng k) code) as [[g w] bs] eqn:Ew.
  destruct Hwr as [Hle Hbs]. destruct (w <=? 0) eqn:Ez; bools.
  - unfold close_connection. rewrite Hcl, Ed, (proj2 (Z.eqb_neq _ _) Hne), Ew, (proj2 (Z.leb_le _ _) Ez). cbn [orb].
    destruct (delete_connection_spec (source_cid (cn k)) (mkC (cn k) g) (set_conn (mkC (cn k) g) (set_conn k e)))
      as (e' & -> & Hc & Hev & Hs); [cbn; by rewrite lookup_insert_eq|].
    exists e'. split_and!; [done| |exact Hev|exact Hs]. rewrite Hc. cbn. by rewrite Hkey, !delete_insert_eq.
  - destruct (close_connection_sends retry k code (set_conn k e) w g bs Hm) as (e' & q & Hc & _ & Hq & Hev & Hcn & _ & Hwd);
      [unfold live; by rewrite Hcl, Ed|done|done|split_and!; [done|lia|lia|auto]|].
    exists e'. split; [done|]. rewrite Hcn. cbn. rewrite Hkey, insert_insert_eq. split; [done|]. by exists q.
Qed.

(** C18: what the retransmission timer of a connection leads to.  While ngtcp2 reports no error, the
    handler does what the [io_trigger] does: the flush runs on the state after the expiry, and its
    packets are on the wire or left in the batch, in order ([final]); the timer is set again from
    the new expiry.  When the idle timeout has passed, a live connection is removed and its closing
    callback runs, without a packet.  On any other error a live connection hands the socket exactly
    one datagram, the close packet ngtcp2 wrote, and stays in the table (if ngtcp2 writes
    none it is removed, with its callback), and the timer is not set; a draining connection sends
    nothing.  No other connection is touched. *)
Theorem retransmit_outcomes (ts_ns : Z) (key : Z * list Z) k e s (g : C) (rv : Z) :
  0 < max_payload_size < 2 ^ 16 -> NGTCP2_ERR_IDLE_CLOSE <> 0 -> writes_fit (C := C) ->
  conns e !! key = Some (Some k) -> ep_inv e -> socket e = Some s -> flushable mode g (cn k) s ->
  n_packets (cn k) = 0%nat -> (flush_fuel g (cn k) <= fuel)%nat -> ng_handle_expiry (ng k) ts_ns = (g, rv) ->
  exists e' t, retransmit_fired mode retry resend fuel mid ts_ns key e = Ok (e', t) /\ only_touches key e e' /\
    (rv = 0 -> exists f t', on_io_ready mode resend fuel mid ts_ns g (cn k) (Some s) = Ok (f, t') /\
       t = Some t' /\ t' = schedule_retransmit (ng_expiry (f_ng f)) ts_ns /\ final mode resend (streams (cn k)) s f /\
       conns e' = <[key := Some (mkC (f_conn f) (f_ng f))]> (conns e) /\ socket e' = f_sock f /\
       identity (f_conn f) = identity (cn k) /\ events e' = events e) /\
    (rv <> 0 -> t = None) /\
    (rv <> 0 -> rv <> NGTCP2_ERR_IDLE_CLOSE -> error_closed key (mkC (cn k) g) rv e e') /\
    (rv = NGTCP2_ERR_IDLE_CLOSE -> socket e' = socket e /\
       if Conn.draining (cn k) then conns e' = <[key := Some (mkC (cn k) g)]> (conns e) /\ events e' = events e
       else conns e' = base.delete key (conns e) /\ events e' = events e ++ closing_event (on_closing (cn k))).
Proof.
  intros Hm Hidle Hw Hk Hi Hs Hf Hn Hfuel Hx. destruct (proj1 Hi _ _ Hk) as [Hkey Hcl].
  unfold retransmit_fired. rewrite Hk, Hx. set (k1 := mkC (cn k) g).
  assert (conns (set_conn k1 e) = <[key := Some k1]> (conns e)) as Hc1 by (cbn; by rewrite Hkey).
  destruct (rv =? 0) eqn:Erv; bools; cbn [negb].
  { destruct (io_triggered_spec ts_ns key k1 (set_conn k1 e) s) as (e' & f & t & -> & Hio & Ht & Hfin & Hc' & Hso & Hid & Hev);
      [by rewrite Hc1, lookup_insert_eq|done..|].
    rewrite Hc1, insert_insert_eq in Hc'. exists e', (Some t). split; [done|]. split_and!; [|intros _|done|done|intros ->; lia].
    - intros key' Hne. rewrite Hc'. by apply lookup_insert_ne.
    - exists f, t. split_and!; done. }
  assert (socket_ready e) as Hr.
  { destruct Hf as (_ & _ & _ & _ & _ & Hg & Hmax). exists s. split_and!; [done..|]. rewrite Hmax. apply MAX_BATCH_bounds. }
  destruct (decide (rv = NGTCP2_ERR_IDLE_CLOSE)) as [Hrv|Hrv].
  - unfold close_connection. cbn [cn k1]. rewrite Hcl. cbn [orb]. rewrite Hrv, Z.eqb_refl. destruct (Conn.draining (cn k)) eqn:Ed.
    + exists (set_conn k1 e), None. split; [done|]. split_and!; try done; intros key' Hne; rewrite Hc1; by apply lookup_insert_ne.
    + destruct (delete_connection_spec (source_cid (cn k)) k1 (set_conn k1 e)) as (e' & -> & Hc & Hev & Hso); [by rewrite Hc1, Hkey, lookup_insert_eq|].
      rewrite Hc1, Hkey, delete_insert_eq in Hc. exists e', None. split; [done|].
      split_and!; try done; intros key' Hne; rewrite Hc; by apply lookup_delete_ne.
  - destruct (close_connection_error key k1 rv e Hm Hw Hr Hkey Hcl Hrv) as (e' & He' & Hec). rewrite He'. cbn [obind].
    exists e', None. split; [done|]. split_and!; try done. apply close_connection_touches in He'. cbn [cn k1] in He'. rewrite Hkey in He'.
    etransitivity; [|exact He']. intros key' Hne. rewrite Hc1. by apply lookup_insert_ne.
Qed.
End expiry.

(** ** Shutdown *)

Section shutdown.
Context `{NgtcpConsts} {C : Type} `{Ngtcp2 C} `{Ngtcp2Ep C} {S : Type} `{SenderLaws S}.
Implicit Types (e : Endpoint C S).

(** An endpoint that can be closed: [order] lists each connection of its table once, none of the
    entries is null, and ngtcp2 can write a close packet for each live connection. *)
Definition closeable (order : list (Z * list Z)) e : Prop :=
  socket_ready e /\ ep_inv e /\ NoDup order /\ (forall key, key ∈ order <-> is_Some (conns e !! key)) /\
  (forall key, conns e !! key <> Some None) /\
  (forall key k, conns e !! key = Some (Some k) -> live k = true -> exists written g bs, close_written k NGTCP2_NO_ERROR written g bs).

(** What closing did to an endpoint: [sent] pairs each live connection with one event, the close
    packet written for it and what the socket made of it; other connections are unchanged; the
    wire has grown by the packets the socket took, and those that found it full wait for it. *)
Definition closed_with (retry : nat) e e' : Prop :=
  exists sent, events e' = events e ++ map snd sent /\ NoDup (map fst sent) /\
    (forall key, key ∈ map fst sent <-> exists k, conns e !! key = Some (Some k) /\ live k = true) /\
    Forall (fun p => closed_one e e' p.1 p.2) sent /\
    (forall key, key ∉ map fst sent -> conns e' !! key = conns e !! key) /\ wired retry (map snd sent) e e'.

Lemma close_conns_closeable retry order e :
  0 < max_payload_size < 2 ^ 16 -> NGTCP2_NO_ERROR <> NGTCP2_ERR_IDLE_CLOSE -> closeable order e ->
  exists e', close_conns retry None order e = Ok e' /\ closed_with retry e e'.
Proof.
  intros Hm Hne (Hr & Hi & Hnd & Hord & Hnn & Hw).
  assert (forall key, to_close None e key = true <-> exists k, conns e !! key = Some (Some k) /\ live k = true) as Htc.
  { intros key. unfold to_close. destruct (conns e !! key) as [[k|]|]; cbn; naive_solver. }
  destruct (close_conns_sends_all retry None order e Hm Hne Hr Hnd) as (e' & He & sent & Hs & Hev & Hall & Hoth & _ & Hwd).
  - intros key [[k|] Hk]%Hord; [by exists k|]. by destruct (Hnn key).
  - done.
  - intros key k _ Hk Ht. apply (Hw key k Hk). apply Htc in Ht as (k' & Hk' & ?). congruence.
  - exists e'. split; [done|]. exists sent. rewrite Hs in *. split_and!; try done; [by apply NoDup_filter|].
    intros key. rewrite list_elem_of_filter, Htc. split; [by intros [? _]|]. intros (k & Hk & Hl). split; [by exists k|]. apply Hord. by eexists.
Qed.

Lemma close_all_conns_spec retry order m (eps : gmap nat (Endpoint C S)) :
  0 < max_payload_size < 2 ^ 16 -> NGTCP2_NO_ERROR <> NGTCP2_ERR_IDLE_CLOSE ->
  NoDup (map snd m) -> (forall o, o ∈ map snd m -> exists i e, o = Some i /\ eps !! i = Some e /\ closeable (order i) e) ->
  exists eps', close_all_conns retry order m eps = Ok eps' /\
    (forall i e, Some i ∈ map snd m -> eps !! i = Some e -> exists e', eps' !! i = Some e' /\ closed_with retry e e') /\
    (forall i, Some i ∉ map snd m -> eps' !! i = eps !! i).
Proof.
  intros Hm Hne. revert eps. induction m as [|[a o] m IH]; intros eps Hnd Hall; cbn [close_all_conns map snd] in *.
  { exists eps. split_and!; [done| |done]. by intros i e ?%not_elem_of_nil. }
  apply NoDup_cons in Hnd as [Hni Hnd]. destruct (Hall o) as (i & e & -> & Hi & Hcl); [by left|]. rewrite Hi.
  destruct (close_conns_closeable retry (order i) e Hm Hne Hcl) as (e' & -> & Hcw). cbn [obind].
  destruct (IH (<[i := e']> eps) Hnd) as (eps' & Hr' & Hin & Hout).
  { intros o Ho. destruct (Hall o) as (j & e1 & -> & Hj & Hc); [by right|]. exists j, e1. split_and!; [done| |done].
    rewrite lookup_insert_ne; [done|]. by intros ->. }
  exists eps'. split_and!; [done|..].
  - intros j e1 [[= ->]|Hj]%elem_of_cons Hj'.
    + rewrite Hi in Hj'. injection Hj' as <-. exists e'. rewrite Hout by done. by rewrite lookup_insert_eq.
    + apply Hin; [done|]. rewrite lookup_insert_ne; [done|]. by intros ->.
  - intros j [Hne' Hj]%not_elem_of_cons. rewrite Hout by done. apply lookup_insert_ne. by intros ->.
Qed.

(** C17: a graceful close on the event loop, with real endpoints that can be closed ([closeable]):
    every live connection of every endpoint gets exactly one close packet, the one ngtcp2 wrote for it,
    and keeps its entry; the wire of each socket has grown by exactly the packets it took, the
    packets that found it full wait for it, and those whose send failed with another error are
    gone (their event says so); connections that are draining are unchanged.  In the same
    job, before any socket can become writeable again, the endpoints are dropped, the loop is told
    to exit if the network owns it, and the promise is fulfilled. *)
Theorem graceful_close_packets (retry prom : nat) (order : nat -> list (Z * list Z)) (n : Network) (eps : gmap nat (Endpoint C S)) :
  0 < max_payload_size < 2 ^ 16 -> NGTCP2_NO_ERROR <> NGTCP2_ERR_IDLE_CLOSE ->
  NoDup (map snd (endpoint_map n)) ->
  (forall o, o ∈ map snd (endpoint_map n) -> exists i e, o = Some i /\ eps !! i = Some e /\ closeable (order i) e) ->
  exists n' eps', close_all_endpoints retry prom order n eps = Ok (n', eps') /\
    (forall i e, Some i ∈ map snd (endpoint_map n) -> eps !! i = Some e ->
       exists e', eps' !! i = Some e' /\ closed_with retry e e') /\
    (forall i, Some i ∉ map snd (endpoint_map n) -> eps' !! i = eps !! i) /\
    endpoint_map n' = [] /\ nlog n' = nlog n ++ map (fun m => NCloseConns (default 0%nat (snd m))) (endpoint_map n) ++
      (if has_loop_thread n then [NLoopExit] else []) ++ [NFulfilled prom].
Proof.
  intros Hm Hne Hnd Hall. unfold close_all_endpoints, close_all.
  destruct (close_all_conns_spec retry order _ eps Hm Hne Hnd Hall) as (eps' & -> & Hin & Hout). cbn [obind].
  rewrite close_endpoints_ok.
  - cbn [obind]. do 2 eexists. split; [reflexivity|]. split_and!; [done|done|done|]. cbn. by rewrite <- app_assoc.
  - apply Forall_forall. intros [a o] Ho. destruct (Hall o) as (i & e & -> & _); [by apply (list_elem_of_fmap_2 snd) in Ho|]. by eexists.
Qed.
End shutdown.

(** ** Worked examples *)

Lemma toy_writes_fit : @writes_fit ngtcp2_consts _ (toy_ep 30 false).
Proof. split; [intros g code|intros first vid vs]; cbn; [split; [done|]|]; done. Qed.

Lemma example_ep2_inv k : @ep_inv Z udp_state (example_ep2 k).
Proof.
  split; [|constructor]. intros key c. cbn.
  intros [[<- [= <-]]|[_ [[<- [= <-]]|[_ Hx]]%lookup_insert_Some]]%lookup_insert_Some; [done..|by rewrite lookup_empty in Hx].
Qed.

Definition example_pe : pkt_env := mkPE toy_rnd 0 (replicate 20 0) 1000.

(** Four packets, for the two connections in turn and for nobody. *)
Definition example_resps : list recv_resp :=
  [RMsgs (map (fun bs => mkRaw bs ([2; 0; 21; 124; 127; 0; 0; 1] ++ replicate 8 0) 16 0 (fun _ => []))
            [toy_rnd 1; toy_rnd 0; toy_rnd 7; toy_rnd 1])].

Lemma packets_demultiplexed_witness :
  exists e' r, @on_readable ngtcp2_consts _ (toy_ep 30 false) _ udp_Sender true 9 5 Address_default example_resps (fun _ => example_pe)
      (example_ep2 kernel_all) = Ok (e', r) /\
    conn_at (cid_key (mkCID (toy_rnd 1) 20)) e' = @conn_packets ngtcp2_consts _ (toy_ep 30 false) (Some (example_k 1)) [toy_rnd 1; toy_rnd 1].
Proof.
  assert (exists ps, UDPSocket_receive true Address_default example_resps = Ok (io_errno 0, ps, 4) /\
    map pkt_data ps = [toy_rnd 1; toy_rnd 0; toy_rnd 7; toy_rnd 1]) as (ps & Hrecv & Hps) by (eexists; split; vm_compute; reflexivity).
  destruct (@packets_demultiplexed ngtcp2_consts _ (toy_ep 30 false) udp_state _ _ true 9 5 Address_default example_resps (fun _ => example_pe)
    (io_errno 0) ps 4 (example_ep2 kernel_all)) as (e' & He & Hk).
  - done.
  - exact toy_writes_fit.
  - intros g c pkt. done.
  - apply example_ep2_inv.
  - apply example_socket_ready. by eexists.
  - reflexivity.
  - exact Hrecv.
  - exists e', (io_errno 0). split; [exact He|]. rewrite (Hk (cid_key (mkCID (toy_rnd 1) 20))).
    vm_compute in Hrecv. injection Hrecv as <-. vm_compute. reflexivity.
Defined.

(** A listening endpoint; new connections draw ids from 10 on. *)
Definition listening_pe : pkt_env := mkPE (fun i => toy_rnd (10 + i)) 0 (replicate 20 0) 1000.
Definition example_listening : Endpoint Z udp_state := listen [OptTls 4] (example_ep2 kernel_all).

Lemma strangers_isolated_witness :
  exists e', @handle_packets ngtcp2_consts _ (toy_ep 30 false) _ udp_Sender 9 5
      (map (pair listening_pe) [toy_rnd 1; toy_rnd 7; toy_rnd 1]) example_listening = Ok e' /\
    size (conns e') = 3%nat /\
    conn_at (cid_key (mkCID (toy_rnd 1) 20)) e' =
      @conn_packets ngtcp2_consts _ (toy_ep 30 false) (Some (example_k 1)) [toy_rnd 1; toy_rnd 1].
Proof.
  assert (@fresh_draws ngtcp2_consts 9 (pe_rnd listening_pe)) as Hdr by (apply toy_fresh_draws; lia).
  destruct (@strangers_isolated ngtcp2_consts _ (toy_ep 30 false) udp_state _ _ 9 5
    (map (pair listening_pe) [toy_rnd 1; toy_rnd 7; toy_rnd 1]) example_listening) as (e' & He & Hk).
  - done.
  - exact toy_writes_fit.
  - intros g c pkt. done.
  - apply (example_ep2_inv kernel_all).
  - eexists. split; [reflexivity|]. split; [exact kernel_all_ok|vm_compute; lia].
  - split; [reflexivity|]. eexists. split; [reflexivity|]. intros scid dc. by eexists.
  - repeat (constructor; [exact Hdr|]). constructor.
  - vm_compute. lia.
  - exists e'. split; [exact He|]. split.
    + assert (match @handle_packets ngtcp2_consts _ (toy_ep 30 false) _ udp_Sender 9 5
          (map (pair listening_pe) [toy_rnd 1; toy_rnd 7; toy_rnd 1]) example_listening
        with Ok e => size (conns e) | _ => 0%nat end = 3%nat) as Hs by (vm_compute; reflexivity).
      rewrite He in Hs. exact Hs.
    + rewrite (Hk (cid_key (mkCID (toy_rnd 1) 20))); [vm_compute; reflexivity|].
      assert (@not_drawn ngtcp2_consts 9 listening_pe (cid_key (mkCID (toy_rnd 1) 20))) as Hne
        by (intros i Hi Heq; pose proof (toy_rnd_inj 1 (10 + i) ltac:(lia) ltac:(lia) Heq); lia).
      repeat (constructor; [exact Hne|]). constructor.
Defined.

(** The toy ngtcp2 of the stream examples, as an endpoint uses it, with an expiry that reports [rv]. *)
Definition toy_ep_zz : Ngtcp2Ep (Z * Z) := {|
  ng_in_closing_period := fun _ => false;
  ng_pto := fun _ => 100;
  ng_decode_version_cid := fun pkt => (0, mkVid pkt (zlen pkt) [] 0);
  ng_accept := fun _ => (0, mkHd 16 0 (mkCID (replicate 20 1) 20));
  ng_read_pkt := fun g c _ => (g, c, [], 0);
  ng_write_connection_close := fun g _ => (g, 30, replicate 30 1);
  ng_write_version_negotiation := fun _ _ _ => (1, [5]);
  ng_conn_new := fun _ _ _ => (0, (0, 8));
  tls_session_fails := fun _ _ => false;
|}.
Definition toy_expiry (rv : Z) : Ngtcp2Expiry (Z * Z) := {| ng_handle_expiry := fun g _ => (g, rv) |}.

Definition example_key : Z * list Z := cid_key (source_cid example_conn).
Definition example_ep3 : Endpoint (Z * Z) udp_state :=
  set_conn (mkC example_conn (0, 8)) (mkEp (Some example_sock) false None None ∅ [] []).

(** The idle timeout passes: the connection is gone.  Another error: one close packet on the wire. *)
Lemma retransmit_outcomes_witness :
  let fired rv := @retransmit_fired ngtcp2_consts _ toy_ngtcp2 toy_ep_zz (toy_expiry rv) _ udp_Sender SEND_GSO 5 9 30 1 7000 example_key example_ep3 in
  (exists e', fired (@NGTCP2_ERR_IDLE_CLOSE ngtcp2_consts) = Ok (e', None) /\ conns e' = ∅ /\ events e' = []) /\
  (exists e' q, fired (-1) = Ok (e', None) /\ events e' = [XPacket (@payload_buffer ngtcp2_consts (replicate 30 1)) q]).
Proof.
  assert (0 < @max_payload_size ngtcp2_consts < 2 ^ 16) as Hmp by done. assert (@NGTCP2_ERR_IDLE_CLOSE ngtcp2_consts <> 0) as Hni by done.
  assert (ep_inv example_ep3) as Hi.
  { split; [|constructor]. intros key k. cbn [conns with_conns set_conn example_ep3 cn].
    intros [[<- [= <-]]|[_ Hx]]%lookup_insert_Some; [done|by rewrite lookup_empty in Hx]. }
  assert (@writes_fit ngtcp2_consts _ toy_ep_zz) as Hfit by (split; [intros g code|intros first vid vs]; cbn; [split; [done|]|]; done).
  assert (conns example_ep3 !! example_key = Some (Some (mkC example_conn (0, 8)))) as Hk
    by (unfold example_ep3, set_conn; cbn [conns with_conns cn]; apply lookup_insert_eq).
  assert (@flushable ngtcp2_consts _ toy_ngtcp2 udp_state _ SEND_GSO (0, 8) example_conn example_sock) as Hfl by (apply example_flushable; by left).
  assert (@flush_fuel _ toy_ngtcp2 (0, 8)%Z example_conn <= 30)%nat as Hfuel by (vm_compute; lia).
  pose proof (fun rv => @retransmit_outcomes ngtcp2_consts _ toy_ngtcp2 toy_ep_zz (toy_expiry rv) udp_state _ _ SEND_GSO 5 9 30 1 7000
     example_key (mkC example_conn (0, 8)) example_ep3 example_sock (0, 8) rv) as Hout.
  intros fired. split.
  - destruct (Hout (@NGTCP2_ERR_IDLE_CLOSE ngtcp2_consts)) as (e' & t & He & _ & _ & Hne & _ & Hidle);
      [exact Hmp|exact Hni|exact Hfit|exact Hk|exact Hi|reflexivity|exact Hfl|reflexivity|exact Hfuel|reflexivity|].
    rewrite (Hne Hni) in He. destruct (Hidle eq_refl) as (_ & Hc & Hev). exists e'. split_and!; [exact He| |exact Hev].
    rewrite Hc. unfold example_ep3, set_conn. cbn [conns with_conns cn]. by rewrite delete_insert_eq, delete_empty.
  - destruct (Hout (-1)) as (e' & t & He & _ & _ & Hne & Herr & _);
      [exact Hmp|exact Hni|exact Hfit|exact Hk|exact Hi|reflexivity|exact Hfl|reflexivity|exact Hfuel|reflexivity|]. rewrite (Hne ltac:(discriminate)) in He.
    destruct (Herr ltac:(discriminate) ltac:(discriminate)) as (_ & q & _ & Hev & _). exists e', q. split; [exact He|exact Hev].
Defined.

(** Two connections on a blocked socket: both close packets are left waiting, nothing is on the
    wire, and the network is closed. *)
Definition example_net : Network := with_world (network_new 1 true) true [(Address_default, Some 3%nat)] [].
Definition example_order (i : nat) : list (Z * list Z) :=
  [cid_key (source_cid (cn (example_k 0))); cid_key (source_cid (cn (example_k 1)))].

Lemma graceful_close_packets_witness :
  exists n' eps' e', @close_all_endpoints ngtcp2_consts _ (toy_ep 30 false) _ udp_Sender 5 40 example_order example_net
      {[ 3%nat := example_ep2 kernel_blocked ]} = Ok (n', eps') /\ endpoint_map n' = [] /\ NFulfilled 40 ∈ nlog n' /\
    eps' !! 3%nat = Some e' /\ (exists l, events e' = l /\ length l = 2%nat /\ to_retry 5 l = [5%nat; 5%nat] /\
      snd_wire <$> socket e' = Some []).
Proof.
  destruct (@graceful_close_packets ngtcp2_consts _ (toy_ep 30 false) udp_state _ _ 5 40 example_order example_net
    {[ 3%nat := example_ep2 kernel_blocked ]}) as (n' & eps' & Hr & Hin & _ & Hm & Hl).
  - done.
  - done.
  - apply (bool_decide_unpack _). vm_compute. exact I.
  - intros o [->|[]%not_elem_of_nil]%elem_of_cons. exists 3%nat, (example_ep2 kernel_blocked). split_and!; [done|done|].
    split_and!; [|apply example_ep2_inv|apply (bool_decide_unpack _); vm_compute; exact I|..].
    + eexists. split; [reflexivity|]. split; [intros i msgs; done|vm_compute; lia].
    + intros key. unfold example_order. rewrite !elem_of_cons. cbn [example_ep2 set_conn conns with_conns example_ep]. split.
      * intros [->|[->|[]%elem_of_nil]]; rewrite ?lookup_insert_is_Some; auto.
      * intros [<-|[_ [<-|[_ [x Hx]]]%lookup_insert_is_Some]]%lookup_insert_is_Some; auto. by rewrite lookup_empty in Hx.
    + intros key. cbn [example_ep2 set_conn conns with_conns example_ep].
      intros [[_ ?]|[_ [[_ ?]|[_ Hx]]%lookup_insert_Some]]%lookup_insert_Some; [done..|by rewrite lookup_empty in Hx].
    + intros key k _ _. exists 30, (ng k), (replicate 30 1). split_and!; done.
  - destruct (Hin 3%nat (example_ep2 kernel_blocked)) as (e' & He' & _); [by left|done|].
    exists n', eps', e'. split_and!; [exact Hr|exact Hm|rewrite Hl; cbn; set_solver|exact He'|].
    vm_compute in Hr. injection Hr as <- <-. vm_compute in He'. injection He' as <-.
    eexists. split; [reflexivity|]. vm_compute. done.
Defined.
