(* ===== verification/Whole.v ===== *)
(** * An endpoint over its whole life

    Everything the event loop runs for an endpoint (packets, connecting, closing, timeouts, io triggers,
    retransmission timers, a writeable socket, the application's operations on streams) as steps of
    one system on the endpoint of Endpoint.v, and the proof that every run of it is a run of the
    connections of Traffic.v.  So what holds there of every connection and stream holds of those in
    an endpoint's table. *)
From S2P Require Import Prelude StdMap Utils Stream Udp Sender EndpointSend Context Connection Flush Lifetime Traffic Endpoint Network Reactor.
Import Cid Addr Io.

(** Names of writeable callbacks: [retry] for one-shot packets, and one for each connection, by its id.  (The
    lambda of [Connection::send] holds [this]; ids are not used twice, see [new_ids].) *)
Class Naming (retry : nat) := {
  lab : Z * list Z -> nat;
  unlab : nat -> option (Z * list Z);
  unlab_lab : forall key, unlab (lab key) = Some key;
  lab_retry : forall key, lab key <> retry;
}.

#[export] Instance code_naming : Naming 0 := {|
  lab := fun key => Datatypes.S (encode_nat key);
  unlab := fun n => match n with O => None | Datatypes.S m => decode_nat m end;
  unlab_lab := fun key => decode_encode_nat key;
  lab_retry := fun key => Nat.neq_succ_0 (encode_nat key);
|}.

(** The one-shot packets that were queued, and the connections that were made, among some events. *)
Definition queued_bufs (l : list ep_event) : list (list Z) :=
  concat (map (fun x => match x with XPacket buf QQueued => [buf] | _ => [] end) l).
Definition io_ids (l : list ep_event) : list (Z * list Z) :=
  concat (map (fun x => match x with XIoReady cid => [cid_key cid] | _ => [] end) l).
Arguments queued_bufs : simpl never.
Arguments io_ids : simpl never.

Lemma queued_bufs_app l1 l2 : queued_bufs (l1 ++ l2) = queued_bufs l1 ++ queued_bufs l2.
Proof. unfold queued_bufs. by rewrite map_app, concat_app. Qed.
Lemma io_ids_app l1 l2 : io_ids (l1 ++ l2) = io_ids l1 ++ io_ids l2.
Proof. unfold io_ids. by rewrite map_app, concat_app. Qed.

(** ** What changes a connection between the calls of this library *)

Section conn_steps.
Context `{NgtcpConsts} {C : Type} `{Ngtcp2 C}.

(** ngtcp2 changes its own state, and the connection only through the callbacks registered in [Connection::init].
    It acknowledges only bytes it was given; a data callback operates on its stream. *)
Inductive callback_step : C * Connection -> C * Connection -> Prop :=
  | call_ngtcp2 g g' c : callback_step (g, c) (g', c)
  | call_receive id data fin ops threw st st' es g c c' e rv :
      map_find id (streams c) = Some st -> run_ops ops st = Ok (st', es) -> in_memory st' ->
      (data_callback (cs_stream st) = None -> ops = []) ->
      stream_receive (fun _ _ _ => (st', concat es, threw)) id data fin c = Ok (c', e, rv) ->
      callback_step (g, c) (g, c')
  | call_acked stale id n st g c c' e rv :
      map_find id (streams c) = Some st -> 0 <= n <= unacked (cs_stream st) ->
      stream_ack stale (ack_fuel n st) id n c = Ok (c', e, rv) ->
      (forall st', map_find id (streams c') = Some st' -> in_memory st') ->
      callback_step (g, c) (g, c')
  | call_opened id code g c c' e rv : stream_opened id code c = Ok (c', e, rv) -> callback_step (g, c) (g, c')
  | call_closed last id code g c c' e : stream_closed last id code g c = Ok (c', e) -> callback_step (g, c) (g, c')
  | call_extend g g' c c' : extend_max_local_streams_bidi g c = (g', c') -> callback_step (g, c) (g', c').

(** What the application does with a connection. *)
Inductive user_step : C * Connection -> C * Connection -> Prop :=
  | user_op id op st st' e g c :
      map_find id (streams c) = Some st -> run_op op st = Ok (st', e) -> in_memory st' ->
      user_step (g, c) (g, with_streams c (map_update id (fun _ => st') (streams c)) (pending_streams c))
  | user_pending i op st st' e g c :
      pending_streams c !! i = Some st -> run_op op st = Ok (st', e) -> in_memory st' ->
      user_step (g, c) (g, with_streams c (streams c) (<[i := st']> (pending_streams c)))
  | user_new dcb ccb g g' c c' id : get_new_stream dcb ccb g c = (g', c', id) -> user_step (g, c) (g', c').

(** These keep the id of the connection and its flags. *)
Definition marks (c : Connection) := (source_cid c, on_closing c, Conn.draining c, closing c).

Lemma extend_marks g c g' c' : extend_max_local_streams_bidi g c = (g', c') -> marks c' = marks c.
Proof.
  unfold extend_max_local_streams_bidi, check_pending_streams. destruct (0 <? _); [|by intros [= <- <-]].
  destruct (check_pending_loop _ _ _ _ _) as [[g1 m1] p1]. by intros [= <- <-].
Qed.

Lemma callback_marks x y : callback_step x y -> marks y.2 = marks x.2.
Proof.
  intros Hs. destruct Hs as [g g' c|id data fin ops threw st st' es g c c' e rv Hf _ _ _ Hr|stale id n st g c c' e rv Hf _ Hr _
    |id code g c c' e rv Hr|last id code g c c' e Hr|g g' c c' Hr]; cbn [snd].
  - done.
  - unfold stream_receive, get_stream in Hr. rewrite Hf in Hr. cbn [obind] in Hr.
    destruct (match data_callback (cs_stream st) with Some _ => _ | None => _ end) as [[st1 e1] good].
    destruct (negb good); [destruct (Stream_close _ _)|]; by simplify_eq.
  - unfold stream_ack in Hr. rewrite Hf in Hr. by apply obind_ok in Hr as ([[st' e'] ub] & _ & [= <- <- <-]).
  - unfold stream_opened in Hr. destruct (match stream_open_cb _ with Some _ => _ | None => _ end) as [eo ac].
    destruct (negb _); [destruct (Stream_close _ _); by simplify_eq|]. destruct (map_emplace _ _ _) as [m ins].
    by apply assert_then_ok in Hr as [_ [= <- <- <-]].
  - by apply stream_closed_erases in Hr as [->| ->].
  - by eapply extend_marks.
Qed.

Lemma user_marks x y : user_step x y -> marks y.2 = marks x.2.
Proof.
  intros Hs. destruct Hs as [| |dcb ccb g g' c c' id Hr]; [done..|]. cbn [snd]. unfold get_new_stream in Hr.
  destruct (ng_open_bidi_stream g) as [g1 [rv1 id1]]. by destruct (rv1 =? 0); simplify_eq.
Qed.

Lemma marks_id c c' : marks c' = marks c -> source_cid c' = source_cid c.
Proof. by intros [= ? _ _ _]. Qed.
Lemma user_id x y : user_step x y -> source_cid y.2 = source_cid x.2.
Proof. intros Hs. by apply marks_id, user_marks. Qed.

(** They are steps of the system of Lifetime.v, whatever its observers have seen. *)
Definition reaches {W} (Y : Sys C W) (g : C) (c : Connection) : Prop :=
  exists Y', rtc sys_local Y Y' /\ y_ng Y' = g /\ y_conn Y' = c.

Lemma callback_reaches {W} (Y : Sys C W) y : callback_step (y_ng Y, y_conn Y) y -> reaches Y y.1 y.2.
Proof.
  intros Hs. remember (y_ng Y, y_conn Y) as x eqn:Ex.
  destruct Hs as [g g' c|id data fin ops threw st st' es g c c' e rv Hf Ho Hm Hcb Hr|stale id n st g c c' e rv Hf Hn Hr Hm
    |id code g c c' e rv Hr|last id code g c c' e Hr|g g' c c' Hr]; injection Ex as -> ->; cbn.
  - eexists. split; [apply rtc_once, (sys_ngtcp2 g')|done].
  - eexists. split; [apply rtc_once; by eapply sys_receive|done].
  - eexists. split; [apply rtc_once; by eapply sys_ack|done].
  - eexists. split; [apply rtc_once; by eapply sys_opened|done].
  - eexists. split; [apply rtc_once; by eapply sys_closed|done].
  - unfold extend_max_local_streams_bidi in Hr. destruct (0 <? _); [|injection Hr as <- <-; by exists Y].
    destruct (ghost_pending (i32 (ng_streams_bidi_left (y_ng Y))) 0 (y_pend Y) (y_ng Y) (y_gh Y)) as [G P] eqn:EG.
    eexists. split; [apply rtc_once; by eapply sys_pending|done].
Qed.

Lemma user_reaches {W} (Y : Sys C W) y :
  length (y_pend Y) = length (pending_streams (y_conn Y)) -> user_step (y_ng Y, y_conn Y) y -> reaches Y y.1 y.2.
Proof.
  intros Hl Hs. remember (y_ng Y, y_conn Y) as x eqn:Ex.
  destruct Hs as [id op st st' e g c Hf Ho Hm|i op st st' e g c Hf Ho Hm|dcb ccb g g' c c' id Hr]; injection Ex as -> ->; cbn.
  - eexists. split; [apply rtc_once; by eapply (sys_user id op st st' e Y)|done].
  - destruct (lookup_lt_is_Some_2 (y_pend Y) i) as [gh Hgh]; [rewrite Hl; by eapply lookup_lt_Some|].
    eexists. split; [apply rtc_once; by eapply (sys_user_pending i op st st' e gh Y)|done].
  - eexists. split; [apply rtc_once; by eapply (sys_new dcb ccb g' c' id Y)|]. by destruct id.
Qed.

Lemma callbacks_reach {W} (Y : Sys C W) x y :
  rtc callback_step x y -> x = (y_ng Y, y_conn Y) -> reaches Y y.1 y.2.
Proof.
  intros Hr. revert Y. induction Hr as [x|x x1 y Hs _ IH]; intros Y ->; [by exists Y|].
  apply callback_reaches in Hs as (Y1 & Hr1 & Hg & Hc). destruct (IH Y1) as (Y2 & Hr2 & H2'); [by destruct x1; cbn in *; subst|].
  exists Y2. split; [by etransitivity|done].
Qed.

(** What is relied on of reading a packet. *)
Definition reads_by_callbacks `{!Ngtcp2Ep C} : Prop :=
  forall g c pkt, let '(g', c', _, _) := ng_read_pkt g c pkt in rtc callback_step (g, c) (g', c').

Lemma callbacks_marks x y : rtc callback_step x y -> marks y.2 = marks x.2.
Proof. induction 1 as [|x y z Hs _ IH]; [done|]. by rewrite IH, (callback_marks _ _ Hs). Qed.
Lemma callbacks_id x y : rtc callback_step x y -> source_cid y.2 = source_cid x.2.
Proof. intros Hs. by apply marks_id, callbacks_marks. Qed.
End conn_steps.

(** ** The system *)

Record whole (C S : Type) := mkW {
  w_ep : Endpoint C S;
  w_pkts : list (list Z);     (* the one-shot packets held by waiting callbacks, in order *)
}.
Arguments mkW {C S}.
Arguments w_ep {C S}.
Arguments w_pkts {C S}.

Module Wh.
Section whole.
Context `{NgtcpConsts} {C : Type} `{Ngtcp2 C} `{Ngtcp2Ep C} `{Ngtcp2Expiry C} {S : Type} `{Sender S} `{!Wakeable S}.
Context (mode : send_mode) (retry : nat) `{!Naming retry}.
Implicit Types (W : whole C S) (e : Endpoint C S).

(** A handler left the endpoint as [e]; packets it could not send are in its callbacks now. *)
Definition after e W : whole C S :=
  mkW e (w_pkts W ++ queued_bufs (drop (length (events (w_ep W))) (events e))).

(** A callback of the writeable socket, and all that wait.  The lambda of [Connection::send] holds the connection by [this].
    The endpoint is taken to hold the only reference to its connections: one that has left the table is gone (as
    Teardown.v shows it destroyed), and its callback goes through a dangling pointer.  Of a connection that the application
    keeps alive beyond that, nothing is said here. *)
Definition whole_callback (cb : nat) (env : cb_env) W : outcome (whole C S) :=
  let e := w_ep W in
  if (cb =? retry)%nat then
    match w_pkts W with
    | [] => Undefined
    | buf :: rest => let* (e', _) := send_one retry buf true e in Ok (after e' (mkW e rest))
    end
  else match unlab cb with
  | None => Undefined
  | Some key =>
      match conns e !! key with
      | Some (Some k) =>
          let* (f, _) := resend_lambda mode cb (ce_fuel env) (ce_mid env) (ce_ts env) (ng k) (cn k) (socket e) in
          Ok (after (with_socket (set_conn (mkC (f_conn f) (f_ng f)) e) (f_sock f)) W)
      | _ => Undefined
      end
  end.

Fixpoint whole_callbacks (cbs : list nat) (env : nat -> cb_env) W : outcome (whole C S) :=
  match cbs with
  | [] => Ok W
  | cb :: cbs' => let* W1 := whole_callback cb (env cb) W in whole_callbacks cbs' env W1
  end.

Definition on_wakeup (env : nat -> cb_env) W : outcome (whole C S) :=
  match socket (w_ep W) with
  | None => Undefined
  | Some s => let '(cbs, s') := snd_wake s in whole_callbacks cbs env (mkW (with_socket (w_ep W) (Some s')) (w_pkts W))
  end.

(** The ids drawn were not used before. *)
Definition new_ids (rnd : nat -> list Z) W : Prop :=
  forall j, cid_key (ConnectionID_random (rnd j)) ∉ io_ids (events (w_ep W)).

Definition fits (fuel : nat) (k : conn C) : Prop := (flush_fuel (ng k) (cn k) <= fuel)%nat.

Inductive whole_step : whole C S -> whole C S -> Prop :=
  | wh_packet fuel rnd first fresh now pkt e' W :
      new_ids rnd W -> handle_packet fuel rnd retry first fresh now pkt (w_ep W) = Ok e' -> whole_step W (after e' W)
  | wh_connect fuel rnd dcid opts e' m W :
      new_ids rnd W -> connect fuel rnd dcid opts (w_ep W) = Ok (e', m) -> whole_step W (after e' W)
  | wh_listen opts W : whole_step W (after (listen opts (w_ep W)) W)
  | wh_timeouts now e' W : check_timeouts now (w_ep W) = Ok e' -> whole_step W (after e' W)
  | wh_close d order e' W : close_conns retry d order (w_ep W) = Ok e' -> whole_step W (after e' W)
  | wh_io fuel mid ts key k e' t W :
      conns (w_ep W) !! key = Some (Some k) -> fits fuel k ->
      io_triggered mode (lab key) fuel mid ts key (w_ep W) = Ok (e', t) -> whole_step W (after e' W)
  | wh_retransmit fuel mid ts key k e' t W :
      conns (w_ep W) !! key = Some (Some k) -> fits fuel (mkC (cn k) (ng_handle_expiry (ng k) ts).1) ->
      retransmit_fired mode retry (lab key) fuel mid ts key (w_ep W) = Ok (e', t) -> whole_step W (after e' W)
  | wh_user key k g c W :
      conns (w_ep W) !! key = Some (Some k) -> user_step (ng k, cn k) (g, c) ->
      whole_step W (after (set_conn (mkC c g) (w_ep W)) W)
  | wh_writeable env W W' :
      (forall key k, conns (w_ep W) !! key = Some (Some k) -> fits (ce_fuel (env (lab key))) k) ->
      on_wakeup env W = Ok W' -> whole_step W W'.
End whole.
End Wh.
Export Wh.

(** ** Every run is a run of the connections that share the socket *)

Section simulation.
Context `{NgtcpConsts} {C : Type} `{Ngtcp2 C} `{Ngtcp2Ep C} `{Ngtcp2Expiry C} {S : Type} `{SenderLaws S} `{!Wakeable S, !WakeableLaws S}.
Context (mode : send_mode) (retry : nat) `{!Naming retry}.
Context (Hwv : writev_ok) (Hqn : quantum_ok).
Implicit Types (W : whole C S) (e : Endpoint C S) (T : traffic C S) (k : conn C).

Notation tstep := (traffic_step mode retry).

(** The member of the shared system that stands for a connection. *)
Definition stands T key k : Prop :=
  exists M, tr_objs T !! lab key = Some (Live M) /\ y_conn M = cn k /\ y_ng M = ng k.

(** The endpoint and the system agree; [base] are the events before the handler that runs, [pkts] the packets
    that were waiting then, and [cbs] the callbacks it has still to call. *)
Record sim (base : list ep_event) (pkts : list (list Z)) (cbs : list nat) e T : Prop := {
  sm_inv : traffic_inv mode retry cbs T;
  sm_sock : socket e = Some (tr_sock T);
  sm_events : exists l, events e = base ++ l /\ tr_pkts T = pkts ++ queued_bufs l;
  sm_conn : forall key k, conns e !! key = Some (Some k) -> stands T key k /\ cid_key (source_cid (cn k)) = key;
  sm_live : forall i M, tr_objs T !! i = Some (Live M) -> exists key k, i = lab key /\ conns e !! key = Some (Some k);
  sm_used : forall i o, tr_objs T !! i = Some o -> exists key, i = lab key /\ key ∈ io_ids (events e);
}.

(** [e'] is what [e] became, by steps of the shared system. *)
Definition advances base pkts e e' : Prop :=
  forall T, sim base pkts [] e T -> exists T', rtc tstep T T' /\ sim base pkts [] e' T'.

#[local] Instance advances_preorder base pkts : PreOrder (advances base pkts).
Proof.
  split; [intros e T Hs; by exists T|]. intros e1 e2 e3 H12 H23 T Hs. destruct (H12 T Hs) as (T1 & Hr1 & Hs1).
  destruct (H23 T1 Hs1) as (T2 & Hr2 & Hs2). exists T2. split; [by etransitivity|done].
Qed.

Lemma lab_inj key1 key2 : lab key1 = lab key2 -> key1 = key2.
Proof. intros E. pose proof (unlab_lab key1) as E1. rewrite E, unlab_lab in E1. congruence. Qed.

Lemma inv_rtc T T' : traffic_inv mode retry [] T -> rtc tstep T T' -> traffic_inv mode retry [] T'.
Proof. intros Hi Hr. revert Hi. induction Hr as [|T1 T2 T3 Hst _ IH]; [done|]. intros Hi. apply IH. by eapply traffic_inv_step. Qed.

(** Changes that no connection and no packet is part of. *)
Lemma adv_frame base pkts e e' l :
  conns e' = conns e -> socket e' = socket e -> events e' = events e ++ l -> queued_bufs l = [] -> advances base pkts e e'.
Proof.
  intros Hc Hs He Hq T [Hi Hso (l0 & Hl & Hp) Hcn Hlv Hus]. exists T. split; [done|]. split; rewrite ?Hc, ?Hs; try done.
  - exists (l0 ++ l). rewrite He, Hl, <- app_assoc, queued_bufs_app, Hq, app_nil_r. done.
  - intros i o Ho. destruct (Hus i o Ho) as (key & -> & Hin). exists key. split; [done|]. rewrite He, io_ids_app. apply elem_of_app. by left.
Qed.

(** A connection changed by steps of its own. *)
Lemma locals_step T i M M' :
  tr_objs T !! i = Some (Live M) -> rtc sys_local M M' -> rtc tstep T (with_objs T (<[i := Live M']> (tr_objs T))).
Proof.
  intros Ho Hr. revert T Ho. induction Hr as [M|M M1 M2 Hs _ IH]; intros T Ho.
  - rewrite insert_id by done. by destruct T.
  - eapply rtc_l; [by eapply (tr_local mode retry i M M1)|].
    assert (with_objs T (<[i := Live M2]> (tr_objs T)) =
      with_objs (with_objs T (<[i := Live M1]> (tr_objs T))) (<[i := Live M2]> (tr_objs (with_objs T (<[i := Live M1]> (tr_objs T)))))) as ->
      by (unfold with_objs; cbn; by rewrite insert_insert_eq).
    apply IH. cbn. by rewrite lookup_insert_eq.
Qed.

(** The object of a connection was replaced, and perhaps the socket. *)
Lemma sim_replace base pkts cbs cbs' key k k' e T T' M' s' :
  sim base pkts cbs e T -> conns e !! key = Some (Some k) -> source_cid (cn k') = source_cid (cn k) ->
  traffic_inv mode retry cbs' T' -> tr_objs T' = <[lab key := Live M']> (tr_objs T) -> tr_pkts T' = tr_pkts T ->
  y_conn M' = cn k' -> y_ng M' = ng k' -> tr_sock T' = s' ->
  sim base pkts cbs' (with_socket (set_conn k' e) (Some s')) T'.
Proof.
  intros [Hi Hso Hev Hcn Hlv Hus] Hk Hid Hi' HT Hp Hc' Hg' <-. destruct (Hcn _ _ Hk) as [_ Hkey].
  assert (cid_key (source_cid (cn k')) = key) as Hkey' by congruence.
  split; cbn; rewrite ?Hkey'; try done; [by rewrite Hp|..]; rewrite ?HT.
  - intros key0 k0. intros [[<- [= <-]]|[Hne Hk0]]%lookup_insert_Some.
    + split; [|done]. exists M'. by rewrite HT, lookup_insert_eq.
    + destruct (Hcn _ _ Hk0) as [(M0 & Ho0 & HM0) Hkey0]. split; [|done]. exists M0.
      rewrite HT, lookup_insert_ne; [done|]. by intros E%lab_inj.
  - intros i M0. intros [[<- _]|[Hne Ho0]]%lookup_insert_Some; [exists key, k'; by rewrite lookup_insert_eq|].
    destruct (Hlv _ _ Ho0) as (key0 & k0 & -> & Hk0). exists key0, k0. split; [done|]. rewrite lookup_insert_ne; [done|]. congruence.
  - intros i o. intros [[<- _]|[_ Ho0]]%lookup_insert_Some; [|by eapply Hus].
    destruct (Hcn _ _ Hk) as [(M & Ho & _) _]. by eapply Hus.
Qed.

Lemma adv_set base pkts key k k' e :
  conns e !! key = Some (Some k) -> source_cid (cn k') = source_cid (cn k) ->
  (forall M : Sys C (list (list Z)), member_inv mode M -> y_conn M = cn k -> y_ng M = ng k -> reaches M (ng k') (cn k')) ->
  advances base pkts e (set_conn k' e).
Proof.
  intros Hk Hid Hre T Hsim. destruct (sm_conn _ _ _ _ _ Hsim _ _ Hk) as [(M & Ho & Hc & Hg) Hkey].
  pose proof (sm_inv _ _ _ _ _ Hsim) as Hi. destruct (Hre M (proj1 (ti_live _ _ _ _ Hi _ _ Ho)) Hc Hg) as (M' & Hr & Hg' & Hc').
  pose proof (locals_step T _ _ _ Ho Hr) as Hst. eexists. split; [exact Hst|].
  assert (set_conn k' e = with_socket (set_conn k' e) (Some (tr_sock T))) as ->
    by (unfold with_socket, set_conn, with_conns; cbn; by rewrite (sm_sock _ _ _ _ _ Hsim)).
  eapply sim_replace; try done. by eapply inv_rtc.
Qed.

(** A connection leaves the table and is destroyed. *)
Lemma adv_remove base pkts key k e : conns e !! key = Some (Some k) -> advances base pkts e (with_conns e (base.delete key (conns e))).
Proof.
  intros Hk T [Hi Hso Hev Hcn Hlv Hus]. destruct (Hcn _ _ Hk) as [(M & Ho & Hc & Hg) Hkey].
  eexists. split; [apply rtc_once; by eapply (tr_destroy mode retry)|]. split; cbn; try done.
  - eapply traffic_inv_step; [done..|]. by eapply (tr_destroy mode retry).
  - intros key0 k0 [Hne Hk0]%lookup_delete_Some. destruct (Hcn _ _ Hk0) as [(M0 & Ho0 & HM0) Hkey0]. split; [|done]. exists M0. cbn.
    rewrite lookup_insert_ne; [done|]. by intros E%lab_inj.
  - intros i M0 [[_ ?]|[Hne Ho0]]%lookup_insert_Some; [done|]. destruct (Hlv _ _ Ho0) as (key0 & k0 & -> & Hk0). exists key0, k0.
    split; [done|]. rewrite lookup_delete_ne; [done|]. congruence.
  - intros i o [[<- _]|[_ Ho0]]%lookup_insert_Some; by eapply Hus.
Qed.

(** Entries of the table that are not connections. *)
Lemma adv_null base pkts key e :
  conns e !! key = None -> advances base pkts e (with_conns e (<[key := None]> (conns e))).
Proof.
  intros Hk T [Hi Hso Hev Hcn Hlv Hus]. exists T. split; [done|]. split; cbn; try done.
  - intros key0 k0 [[_ ?]|[_ Hk0]]%lookup_insert_Some; [done|eauto].
  - intros i M Ho. destruct (Hlv _ _ Ho) as (key0 & k0 & -> & Hk0). exists key0, k0. split; [done|]. rewrite lookup_insert_ne; congruence.
Qed.

(** A connection just made. *)
Lemma adv_new base pkts k e :
  let key := cid_key (source_cid (cn k)) in
  conns e !! key = None -> key ∉ io_ids (events e) -> fresh_conn mode (cn k) ->
  advances base pkts e (emit (with_conns e (<[key := Some k]> (conns e))) [XIoReady (source_cid (cn k))]).
Proof.
  intros key Hn Hnew Hf T [Hi Hso (l0 & Hl & Hp) Hcn Hlv Hus].
  assert (tr_objs T !! lab key = None) as Ho.
  { destruct (tr_objs T !! lab key) as [o|] eqn:Ho; [|done]. destruct (Hus _ _ Ho) as (key' & ->%lab_inj & Hin). done. }
  assert (tstep T (with_objs T (<[lab key := Live (newborn (cn k) (ng k))]> (tr_objs T)))) as Hst
    by (apply tr_new; [apply lab_retry|done..]).
  eexists. split; [by apply rtc_once|]. split; cbn; try done.
  - by eapply traffic_inv_step.
  - exists (l0 ++ [XIoReady (source_cid (cn k))]). rewrite Hl, <- app_assoc, queued_bufs_app. split; [done|]. by rewrite app_nil_r.
  - intros key0 k0 [[<- [= <-]]|[Hne Hk0]]%lookup_insert_Some.
    + split; [|done]. exists (newborn (cn k) (ng k)). cbn. by rewrite lookup_insert_eq.
    + destruct (Hcn _ _ Hk0) as [(M0 & Ho0 & HM0) Hkey0]. split; [|done]. exists M0. cbn.
      rewrite lookup_insert_ne; [done|]. by intros E%lab_inj.
  - intros i M0 [[<- _]|[Hne Ho0]]%lookup_insert_Some; [exists key, k; by rewrite lookup_insert_eq|].
    destruct (Hlv _ _ Ho0) as (key0 & k0 & -> & Hk0). exists key0, k0. split; [done|]. rewrite lookup_insert_ne; [done|]. congruence.
  - assert (forall key0, key0 ∈ io_ids (events e ++ [XIoReady (source_cid (cn k))]) <-> key0 ∈ io_ids (events e) \/ key0 = key) as Hids
      by (intros key0; rewrite io_ids_app, elem_of_app; unfold io_ids at 2; cbn; rewrite list_elem_of_singleton; done).
    intros i o [[<- _]|[_ Ho0]]%lookup_insert_Some; [exists key; split; [done|apply Hids; by right]|].
    destruct (Hus _ _ Ho0) as (key0 & -> & Hin). exists key0. split; [done|]. apply Hids. by left.
Qed.

(** A one-shot packet. *)
Lemma send_one_sim base pkts cbs buf cb e T e' q :
  sim base pkts cbs e T -> small buf -> send_one retry buf cb e = Ok (e', q) ->
  exists T', run_packet retry buf T = Ok T' /\ sim base pkts cbs e' T'.
Proof.
  intros [Hi Hso (l0 & Hl & Hp) Hcn Hlv Hus] Hb. unfold send_one. rewrite Hso.
  destruct (run_packet_ok mode retry cbs buf T Hb Hi) as (T' & HT & Hi' & Ho).
  change (send_or_queue_packet (Some (tr_sock T)) buf 0 cb retry) with (send_or_queue_packet (Some (tr_sock T)) buf 0 true retry).
  unfold run_packet in HT. destruct (send_or_queue_packet (Some (tr_sock T)) buf 0 true retry) as [[so q']| | | |] eqn:Es; [|done..].
  cbn [obind] in HT |- *. destruct so as [s'|]; [|done]. intros [= <- <-]. exists T'. unfold run_packet. rewrite Es. cbn [obind]. split; [done|].
  injection HT as <-. cbn in Ho. split; cbn; try done.
  - exists (l0 ++ [XPacket buf q']). rewrite Hl, <- app_assoc, queued_bufs_app. split; [done|].
    destruct q'; unfold queued_bufs at 2; cbn; rewrite ?app_nil_r, ?app_assoc, Hp; done.
  - intros i o Hoi. destruct (Hus _ _ Hoi) as (key & -> & Hin). exists key. split; [done|]. rewrite io_ids_app. apply elem_of_app. by left.
Qed.

Lemma adv_send base pkts buf cb e e' q : small buf -> send_one retry buf cb e = Ok (e', q) -> advances base pkts e e'.
Proof.
  intros Hb Hs T Hsim. destruct (send_one_sim _ _ _ _ _ _ _ _ _ Hsim Hb Hs) as (T' & HT & Hsim').
  exists T'. split; [apply rtc_once; by eapply tr_packet|done].
Qed.

(** *** The operations of the endpoint *)

Lemma adv_delete base pkts cid e e' : delete_connection cid e = Ok e' -> advances base pkts e e'.
Proof.
  unfold delete_connection. destruct (conns e !! cid_key cid) as [[k|]|] eqn:Hk; [|done|by intros [= <-]].
  destruct (call_closing (cn k)) as [c cb]. intros [= <-]. etransitivity; [by eapply adv_remove|].
  eapply (adv_frame _ _ _ _ (closing_event cb)); [done..|]. by destruct cb.
Qed.

Lemma flags_reach (M : Sys C (list (list Z))) c oc d cl : y_conn M = c -> reaches M (y_ng M) (with_flags c oc d cl).
Proof. intros <-. eexists. split; [apply rtc_once, (sys_flags oc d cl)|done]. Qed.

Lemma adv_drain base pkts now key k e :
  conns e !! key = Some (Some k) -> advances base pkts e (drain_connection now k e).
Proof.
  intros Hk. unfold drain_connection. destruct (Conn.draining (cn k)); [done|].
  destruct (call_closing (cn k)) as [c1 cb] eqn:Ec.
  assert (exists oc, drain c1 = with_flags (cn k) oc true (closing (cn k)) /\ source_cid c1 = source_cid (cn k)) as (oc & Hd & Hid)
    by (unfold call_closing in Ec; destruct (on_closing (cn k)) eqn:Eo; injection Ec as <- <-; unfold drain; cbn; rewrite ?Eo; by eexists).
  etransitivity; [eapply (adv_frame _ _ e (emit e (closing_event cb)) (closing_event cb)); [done..|by destruct cb]|].
  etransitivity; [eapply (adv_set _ _ key k (mkC (drain c1) (ng k))); [done|by rewrite Hd|]|].
  - intros M _ Hc Hg. cbn. rewrite Hd, <- Hg. by apply flags_reach.
  - eapply (adv_frame _ _ _ _ []); try done. cbn. by rewrite app_nil_r.
Qed.

Context (Hmax : 0 < max_payload_size < 2 ^ 16) (Hfit : writes_fit (C := C)) (Hread : reads_by_callbacks (C := C)).

Lemma small_payload bs : zlen bs <= max_payload_size -> small (payload_buffer bs).
Proof. intros Hb. unfold small. by rewrite payload_buffer_len. Qed.

(** ngtcp2's own state changes. *)
Lemma adv_ng base pkts key k g e : conns e !! key = Some (Some k) -> advances base pkts e (set_conn (mkC (cn k) g) e).
Proof.
  intros Hk. eapply (adv_set _ _ key k); [done..|]. intros M _ Hc Hg. eexists. split; [apply rtc_once, (sys_ngtcp2 g)|]. done.
Qed.

Lemma adv_close base pkts code key k e e' :
  conns e !! key = Some (Some k) -> close_connection retry k code e = Ok e' -> advances base pkts e e'.
Proof.
  intros Hk. unfold close_connection. destruct (_ || _); [by intros [= <-]|]. destruct (code =? _); [apply adv_delete|].
  pose proof (proj1 Hfit (ng k) code) as Hw. destruct (ng_write_connection_close (ng k) code) as [[g w] bs]. destruct Hw as [Hw Hbs].
  pose proof (adv_ng base pkts key k g e Hk) as Hng. destruct (w <=? 0) eqn:Ew; bools.
  { intros Hd. etransitivity; [exact Hng|by eapply adv_delete]. }
  intros [_ ([e2 q] & Hs & Hr)%obind_ok]%assert_then_ok.
  assert (advances base pkts e e2) as H2' by (etransitivity; [exact Hng|]; eapply adv_send; [|done]; apply small_payload; lia).
  destruct q as [r| |r|]; try (by injection Hr as <-).
  destruct (failure r); [etransitivity; [exact H2'|by eapply adv_delete]|by injection Hr as <-].
Qed.

Lemma adv_close_conns base pkts d order e e' : close_conns retry d order e = Ok e' -> advances base pkts e e'.
Proof.
  revert e. induction order as [|key order IH]; intros e; cbn [close_conns]; [by intros [= <-]|].
  destruct (conns e !! key) as [[k|]|] eqn:Hk; [|done..]. destruct (dir_matches d k); [|by apply IH].
  intros (e1 & H1' & Hr)%obind_ok. apply (adv_close base pkts _ _ _ _ _ Hk) in H1'.
  destruct (conns e1 !! key); [|done]. etransitivity; [exact H1'|by apply IH].
Qed.

Lemma adv_conn_packet base pkts now key k pkt e e' :
  conns e !! key = Some (Some k) -> cid_key (source_cid (cn k)) = key -> handle_conn_packet retry now k pkt e = Ok e' ->
  advances base pkts e e'.
Proof.
  intros Hk Hkey. unfold handle_conn_packet. destruct (ng_in_closing_period _); [apply adv_delete|].
  intros ([e1 r] & Hr & [= <-])%obind_ok. unfold read_packet in Hr. specialize (Hread (ng k) (cn k) pkt).
  destruct (ng_read_pkt (ng k) (cn k) pkt) as [[[g c] eff] rv]. apply obind_ok in Hr as (e2 & H2' & [= <- <-]).
  pose proof (callbacks_id _ _ Hread) as Hid. cbn in Hid.
  set (e0 := emit (set_conn (mkC c g) e) [XConn (source_cid c) eff]) in H2'.
  assert (advances base pkts e e0) as He0.
  { etransitivity; [eapply (adv_set _ _ key k (mkC c g)); [done..|]|by eapply (adv_frame _ _ _ _ [XConn (source_cid c) eff])].
    intros M _ Hc Hg. apply (callbacks_reach M (ng k, cn k) (g, c)); [done|by rewrite Hc, Hg]. }
  assert (conns e0 !! key = Some (Some (mkC c g))) as Hk0 by (cbn; by rewrite Hid, Hkey, lookup_insert_eq).
  etransitivity; [exact He0|].
  destruct (rv =? 0); [injection H2' as <-; by eapply (adv_frame _ _ _ _ [XIoReady (source_cid c)])|].
  destruct (rv =? NGTCP2_ERR_DRAINING); [injection H2' as <-; by eapply adv_drain|].
  destruct (rv =? NGTCP2_ERR_PROTO); [by eapply adv_close|].
  destruct (rv =? NGTCP2_ERR_DROP_CONN); [by eapply adv_delete|].
  destruct (rv =? NGTCP2_ERR_CRYPTO); [by eapply adv_delete|by eapply adv_close].
Qed.

Lemma make_conn_fresh scid dcid ctx d k : make_conn scid dcid ctx d = Ok k -> fresh_conn mode (cn k).
Proof.
  unfold make_conn. destruct (ng_conn_new d scid dcid) as [rv g]. destruct (tls_creds ctx); [|done].
  destruct (negb _); [done|]. destruct (tls_session_fails _ _); [done|]. intros [= <-].
  split_and!; try done. unfold queue_ok. cbn -[replicate]. change (zsum (take 0 _)) with 0. unfold zlen. rewrite !length_replicate.
  unfold max_payload_size in Hmax. split_and!; (done || constructor || lia).
Qed.

Lemma adv_emplace base pkts fuel rnd i dcid ctx d e e' m :
  (forall j, cid_key (ConnectionID_random (rnd j)) ∉ io_ids (events e)) ->
  emplace_conn fuel rnd i dcid ctx d e = Ok (e', m) -> advances base pkts e e'.
Proof.
  intros Hnew. revert i. induction fuel as [|fuel IH]; intros i; cbn [emplace_conn]; [done|].
  destruct (conns e !! cid_key (ConnectionID_random (rnd i))) eqn:Hn; [apply IH|].
  destruct (make_conn _ (dcid i) ctx d) as [k| | |x|] eqn:Hm; intros [= <- <-]; [|by eapply adv_null].
  pose proof (make_conn_fresh _ _ _ _ _ Hm) as Hf. apply make_conn_fields in Hm as (Hid & _). rewrite <- Hid in *.
  apply adv_new; [done| |done]. rewrite Hid. apply Hnew.
Qed.

(** The table keeps connections under their own ids, in every state that is simulated. *)
Lemma advances_keyed base pkts e e' :
  (forall T, sim base pkts [] e T -> (forall key k, conns e !! key = Some (Some k) -> cid_key (source_cid (cn k)) = key) ->
     exists T', rtc tstep T T' /\ sim base pkts [] e' T') -> advances base pkts e e'.
Proof. intros Ha T Hs. apply Ha; [done|]. intros key k Hk. by apply (sm_conn _ _ _ _ _ Hs). Qed.

Lemma adv_handle_packet base pkts fuel rnd first fresh now pkt e e' :
  (forall j, cid_key (ConnectionID_random (rnd j)) ∉ io_ids (events e)) ->
  handle_packet fuel rnd retry first fresh now pkt e = Ok e' -> advances base pkts e e'.
Proof.
  intros Hnew ([e1 o] & H1' & Hr)%obind_ok. unfold handle_packet_connid, send_version_negotiation in H1'.
  destruct (ng_decode_version_cid pkt) as [rv vid]. destruct (rv =? NGTCP2_ERR_VERSION_NEGOTIATION).
  { apply obind_ok in H1' as (e2 & H2' & [= <- <-]). injection Hr as <-. pose proof (proj2 Hfit first vid versions) as Hv.
    destruct (ng_write_version_negotiation first vid versions) as [nw bs]. destruct (nw <=? 0) eqn:En; bools; [by injection H2' as <-|].
    apply obind_ok in H2' as ([e3 q] & Hs & [= <-]). eapply adv_send; [|done]. apply small_payload. auto. }
  assert (e1 = e) as ->.
  { destruct (negb (rv =? 0)); [by simplify_eq|]. destruct (NGTCP2_MAX_CIDLEN <? v_dcidlen vid); [by simplify_eq|].
    by apply obind_ok in H1' as (? & _ & [= <- <-]). }
  destruct o as [dcid|]; [|by injection Hr as <-]. apply advances_keyed. intros T Hs Hkeyed. revert T Hs. change (advances base pkts e e').
  destruct (get_conn dcid e) as [k|] eqn:Hg.
  - unfold get_conn in Hg. destruct (conns e !! cid_key dcid) as [[k'|]|] eqn:Hf; simplify_eq. eapply adv_conn_packet; [done| |done]. by apply Hkeyed.
  - destruct (accepting_inbound e); [|by injection Hr as <-]. apply obind_ok in Hr as ([e2 ko] & Ha & Hr).
    unfold accept_initial_connection in Ha. destruct (ng_accept pkt) as [arv hdr].
    destruct (arv <? 0); [by simplify_eq|]. destruct (hd_type hdr =? NGTCP2_PKT_0RTT); [by simplify_eq|].
    destruct (_ && _); [by simplify_eq|]. destruct (inbound_ctx e) as [ctx|]; [|done].
    apply obind_ok in Ha as ([e3 m] & Hem & Ha). destruct m as [k|x]; [|done]. simplify_eq.
    etransitivity; [by eapply adv_emplace|]. apply emplace_conn_emplaced in Hem as (key & _ & _ & _ & Hk & Hkey & _). by eapply adv_conn_packet.
Qed.

Lemma adv_erase base pkts key e : advances base pkts e (with_conns e (base.delete key (conns e))).
Proof.
  destruct (conns e !! key) as [[k|]|] eqn:Hk; [by eapply adv_remove|..].
  - intros T [Hi Hso Hev Hcn Hlv Hus]. exists T. split; [done|]. split; cbn; try done.
    + intros key0 k0 [_ Hk0]%lookup_delete_Some. eauto.
    + intros i M Ho. destruct (Hlv _ _ Ho) as (key0 & k0 & -> & Hk0). exists key0, k0. split; [done|]. rewrite lookup_delete_ne; congruence.
  - rewrite delete_id by done. by destruct e.
Qed.

Lemma adv_timeouts base pkts fuel now f e e' : timeouts_loop fuel now f e = Ok e' -> advances base pkts e e'.
Proof.
  revert f e. induction fuel as [|fuel IH]; intros f e; cbn [timeouts_loop];
    (destruct (bool_decide (draining e = [])); [by intros [= <-]|]);
    (destruct f as [t|]; [|done]); (destruct (map_find t (draining e)) as [cid|]; [|done]);
    (destruct (t <? now); [|by intros [= <-]]); [done|].
  intros Hr. apply IH in Hr. etransitivity; [apply (adv_erase _ _ (cid_key cid))|]. etransitivity; [|exact Hr].
  eapply (adv_frame _ _ _ _ []); try done. cbn. by rewrite app_nil_r.
Qed.

(** The io trigger. *)
Lemma adv_io base pkts fuel mid ts key k e e' t :
  conns e !! key = Some (Some k) -> fits fuel k ->
  io_triggered mode (lab key) fuel mid ts key e = Ok (e', t) -> advances base pkts e e'.
Proof.
  intros Hk Hfuel. unfold io_triggered. rewrite Hk. intros ([f tm] & Hio & [= <- <-])%obind_ok T Hsim.
  destruct (sm_conn _ _ _ _ _ Hsim _ _ Hk) as [(M & Ho & Hc & Hg) Hkey]. pose proof (sm_inv _ _ _ _ _ Hsim) as Hi.
  rewrite (sm_sock _ _ _ _ _ Hsim), <- Hc, <- Hg in Hio.
  assert (enough (mkCE fuel mid ts) M) as He by (unfold enough; cbn; by rewrite Hc, Hg).
  destruct (run_flush_ok mode retry [] (lab key) (mkCE fuel mid ts) M T Hwv Hqn Hi Ho He) as (T' & HT & Hi' & _).
  exists T'. split; [apply rtc_once; by eapply tr_flush|]. unfold run_flush in HT. cbn [ce_fuel ce_mid ce_ts] in HT. rewrite Hio in HT.
  cbn [obind] in HT. destruct (f_sock f) as [s'|]; [|done]. injection HT as <-.
  eapply (sim_replace base pkts [] [] key k); try done. cbn.
  apply obind_ok in Hio as ([f0 upd] & Hfl%flush_frame & [= -> _]). injection Hfl as E _. by rewrite E, Hc.
Qed.

Lemma adv_retransmit base pkts fuel mid ts key k e e' t :
  conns e !! key = Some (Some k) -> fits fuel (mkC (cn k) (ng_handle_expiry (ng k) ts).1) ->
  retransmit_fired mode retry (lab key) fuel mid ts key e = Ok (e', t) -> advances base pkts e e'.
Proof.
  intros Hk Hfuel. unfold retransmit_fired. rewrite Hk. destruct (ng_handle_expiry (ng k) ts) as [g rv]. cbn in Hfuel.
  intros Hr. apply advances_keyed. intros T Hs Hkeyed. revert T Hs. change (advances base pkts e e').
  assert (conns (set_conn (mkC (cn k) g) e) !! key = Some (Some (mkC (cn k) g))) as Hk1
    by (cbn; rewrite (Hkeyed _ _ Hk); apply lookup_insert_eq).
  etransitivity; [by apply (adv_ng _ _ key k g)|].
  destruct (negb (rv =? 0)); [|by eapply adv_io]. apply obind_ok in Hr as (e2 & Hc & [= <- <-]). by eapply adv_close.
Qed.

Lemma adv_user base pkts key k g c e :
  conns e !! key = Some (Some k) -> user_step (ng k, cn k) (g, c) -> advances base pkts e (set_conn (mkC c g) e).
Proof.
  intros Hk Hu. eapply (adv_set _ _ key k); [done|exact (user_id _ _ Hu)|]. intros M (_ & _ & _ & _ & _ & Hp & _) Hc Hg.
  apply (user_reaches M (g, c)); [|by rewrite Hc, Hg]. symmetry. by eapply Forall2_length.
Qed.

(** *** The writeable socket *)

Lemma resend_marks i fuel mid ts g c (so : option S) f tm :
  resend_lambda mode i fuel mid ts g c so = Ok (f, tm) -> marks (f_conn f) = marks c.
Proof.
  unfold resend_lambda. intros ([[[c2 s2] ok] cancel] & Hs%send_frame & Hr)%obind_ok.
  assert (marks c2 = marks c) as <- by (unfold marks; by injection Hs as -> _ _ -> -> -> _ _).
  destruct ok; [|by injection Hr as <- _]. apply obind_ok in Hr as ([f0 t0] & Hio & [= -> _]).
  apply flush_identity in Hio. unfold marks. by injection Hio as -> _ _ -> -> ->.
Qed.

(** The endpoint and the shared system agree between handlers, or between callbacks. *)
Definition holds W cbs T : Prop := sim (events (w_ep W)) (w_pkts W) cbs (w_ep W) T.

Lemma after_holds W e cbs T : sim (events (w_ep W)) (w_pkts W) cbs e T -> holds (after e W) cbs T.
Proof.
  intros [Hi Hso (l & Hl & Hp) Hcn Hlv Hus]. split; cbn; try done. exists []. rewrite app_nil_r, Hl, drop_app_length, Hp. by rewrite app_nil_r.
Qed.

Lemma holds_pkts W cbs T : holds W cbs T -> tr_pkts T = w_pkts W.
Proof.
  intros [_ _ (l & Hl & ->) _ _ _]. assert (l = []) as -> by (apply (f_equal length) in Hl; rewrite length_app in Hl; destruct l; cbn in Hl; [done|lia]).
  by rewrite app_nil_r.
Qed.

Lemma callback_agree cb cbs env W T :
  holds W (cb :: cbs) T -> (forall M, tr_objs T !! cb = Some (Live M) -> enough env M) ->
  (dangling T cb /\ whole_callback mode retry cb env W = Undefined) \/
  (exists T1 W1, run_callback mode retry cb env T = Ok T1 /\ whole_callback mode retry cb env W = Ok W1 /\
     holds W1 cbs T1 /\ keeps_others cb T T1).
Proof.
  intros Hh He. pose proof (sm_inv _ _ _ _ _ Hh) as Hi. unfold run_callback, whole_callback.
  destruct (Nat.eqb_spec cb retry) as [->|Hne].
  - right. destruct (inv_pop mode retry cbs T Hi) as (buf & rest & Hp & Hb & Hi0). rewrite <- (holds_pkts _ _ _ Hh), Hp.
    assert (sim (events (w_ep W)) rest cbs (w_ep W) (pop rest T)) as Hs0.
    { destruct Hh as [_ Hso _ Hcn Hlv Hus]. split; try done. exists []. cbn. by rewrite !app_nil_r. }
    destruct (send_one_ready retry buf true (w_ep W)) as (e' & q & Hs & _).
    { exists (tr_sock T). pose proof (ti_sock _ _ _ _ Hi) as [Hg Hm]. split_and!; [by apply Hh|done|]. rewrite Hm. apply MAX_BATCH_bounds. }
    { exact Hb. }
    destruct (send_one_sim _ _ _ _ _ _ _ _ _ Hs0 Hb Hs) as (T1 & HT & Hs1). rewrite Hs. cbn [obind].
    eexists T1, _. split; [exact HT|]. split; [reflexivity|]. split; [by apply (after_holds (mkW (w_ep W) rest))|].
    destruct (run_packet_ok mode retry cbs buf _ Hb Hi0) as (T1' & HT' & _ & Ho). assert (T1' = T1) as -> by congruence.
    intros j _. by rewrite Ho.
  - assert (exists o, tr_objs T !! cb = Some o /\ o <> Dead false) as (o & Ho & Hnd).
    { pose proof (ti_waiting _ _ _ _ Hi cb) as Hwt. cbn [app] in Hwt. rewrite occurs_cons, decide_True in Hwt by done.
      unfold expected in Hwt. rewrite decide_False in Hwt by done. destruct (tr_objs T !! cb) as [o|]; [|done]. exists o. split; [done|]. by intros ->. }
    destruct (sm_used _ _ _ _ _ Hh _ _ Ho) as (key & -> & _). rewrite unlab_lab. destruct o as [M|b].
    + right. destruct (sm_live _ _ _ _ _ Hh _ _ Ho) as (key' & k & ->%lab_inj & Hk). rewrite Hk, Ho.
      destruct (sm_conn _ _ _ _ _ Hh _ _ Hk) as [(M' & Ho' & Hc & Hg) Hkey]. rewrite Ho in Ho'. injection Ho' as <-.
      destruct (run_resend_ok mode retry cbs (lab key') env M T Hwv Hqn Hi Ho (He _ Ho)) as (T1 & HT & Hi1 & Hk1).
      unfold run_resend in HT |- *. rewrite Hc, Hg in HT |- *. rewrite (sm_sock _ _ _ _ _ Hh).
      destruct (resend_lambda mode (lab key') (ce_fuel env) (ce_mid env) (ce_ts env) (ng k) (cn k) (Some (tr_sock T)))
        as [[f tm]| | | |] eqn:Er; [|done..]. cbn [obind] in HT |- *. destruct (f_sock f) as [s'|]; [|done].
      eexists T1, _. split; [exact HT|]. split; [reflexivity|]. split; [|done]. injection HT as <-. apply after_holds.
      eapply (sim_replace _ _ (lab key' :: cbs) cbs key' k); try done. cbn. by eapply marks_id, resend_marks.
    + left. destruct b; [|done]. destruct (conns (w_ep W) !! key) as [[k|]|] eqn:Hk; [|done..].
      destruct (sm_conn _ _ _ _ _ Hh _ _ Hk) as [(M & HM & _) _]. congruence.
Qed.

Lemma callbacks_agree cbs env W T :
  holds W cbs T -> all_enough env cbs T ->
  (run_callbacks mode retry cbs env T = Undefined /\ whole_callbacks mode retry cbs env W = Undefined) \/
  (exists T1 W1, run_callbacks mode retry cbs env T = Ok T1 /\ whole_callbacks mode retry cbs env W = Ok W1 /\ holds W1 [] T1).
Proof.
  revert W T. induction cbs as [|cb cbs IH]; intros W T Hh He; cbn [run_callbacks whole_callbacks]; [right; by exists T, W|].
  destruct (callback_agree cb cbs (env cb) W T Hh) as [(Hd & ->)|(T1 & W1 & -> & -> & Hh1 & Hk)].
  - intros M. apply He. by left.
  - left. split; [|done]. unfold dangling in Hd. unfold run_callback. rewrite Hd.
    by destruct (Nat.eqb_spec cb retry) as [->|]; [rewrite (ti_retry _ _ _ _ (sm_inv _ _ _ _ _ Hh)) in Hd|].
  - cbn [obind]. apply IH; [done|]. exact (callback_enough mode retry cbs cb env T T1 (sm_inv _ _ _ _ _ Hh) (sm_inv _ _ _ _ _ Hh1) Hk He).
Qed.

Lemma holds_enough env W T :
  holds W [] T -> (forall key k, conns (w_ep W) !! key = Some (Some k) -> fits (ce_fuel (env (lab key))) k) ->
  forall i M, tr_objs T !! i = Some (Live M) -> enough (env i) M.
Proof.
  intros Hh He i M Ho. destruct (sm_live _ _ _ _ _ Hh _ _ Ho) as (key & k & -> & Hk).
  destruct (sm_conn _ _ _ _ _ Hh _ _ Hk) as [(M' & Ho' & Hc & Hg) _]. rewrite Ho in Ho'. injection Ho' as <-.
  unfold enough. rewrite Hc, Hg. by apply He.
Qed.

Lemma wakeup_agree env W T :
  holds W [] T -> (forall key k, conns (w_ep W) !! key = Some (Some k) -> fits (ce_fuel (env (lab key))) k) ->
  (writeable_fired mode retry env T = Undefined /\ on_wakeup mode retry env W = Undefined) \/
  (exists T1 W1, writeable_fired mode retry env T = Ok T1 /\ on_wakeup mode retry env W = Ok W1 /\ holds W1 [] T1).
Proof.
  intros Hh He. pose proof (holds_enough env W T Hh He) as He'. pose proof (inv_wake mode retry T (sm_inv _ _ _ _ _ Hh)) as Hk.
  unfold writeable_fired, on_wakeup. rewrite (sm_sock _ _ _ _ _ Hh). destruct (snd_wake (tr_sock T)) as [cbs s]. destruct Hk as [-> Hi].
  apply callbacks_agree; [|intros i M _; apply He']. destruct Hh as [_ _ Hev Hcn Hlv Hus]. split; try done.
Qed.

Lemma whole_step_simulated W W' T :
  holds W [] T -> whole_step mode retry W W' -> exists T', rtc tstep T T' /\ holds W' [] T'.
Proof.
  intros Hh Hst.
  assert (forall e', advances (events (w_ep W)) (w_pkts W) (w_ep W) e' -> exists T', rtc tstep T T' /\ holds (after e' W) [] T') as Hadv.
  { intros e' Ha. destruct (Ha T Hh) as (T' & Hr & Hs). exists T'. split; [done|by apply after_holds]. }
  destruct Hst as [fuel rnd first fresh now pkt e' W Hn Hx|fuel rnd dcid opts e' m W Hn Hx|opts W|now e' W Hx|d order e' W Hx
    |fuel mid ts key k e' t W Hk Hf Hx|fuel mid ts key k e' t W Hk Hf Hx|key k g c W Hk Hu|env W W' He Hx].
  - apply Hadv. by eapply adv_handle_packet.
  - apply Hadv. unfold connect in Hx. etransitivity; [|eapply adv_emplace; [|exact Hx]; done].
    eapply (adv_frame _ _ _ _ []); try done. cbn. by rewrite app_nil_r.
  - apply Hadv. eapply (adv_frame _ _ _ _ []); try done. cbn. by rewrite app_nil_r.
  - apply Hadv. by eapply adv_timeouts.
  - apply Hadv. by eapply adv_close_conns.
  - apply Hadv. by eapply adv_io.
  - apply Hadv. by eapply adv_retransmit.
  - apply Hadv. by eapply adv_user.
  - destruct (wakeup_agree env W T Hh He) as [(_ & Hu)|(T1 & W1 & HT & HW & Hh1)]; [congruence|].
    exists T1. split; [|congruence]. apply rtc_once, (tr_writeable mode retry env); [|done]. by eapply holds_enough.
Qed.

(** An endpoint just made. *)
Definition fresh_endpoint e (s : S) : Prop :=
  socket e = Some s /\ fresh_sock mode s /\ conns e = ∅ /\ events e = [].

Lemma whole_simulated e s W :
  fresh_endpoint e s -> rtc (whole_step mode retry) (mkW e []) W ->
  exists T, rtc tstep (traffic_initial s) T /\ holds W [] T.
Proof.
  intros (Hs & Hf & Hc & He) Hr.
  assert (holds (mkW e []) [] (traffic_initial s)) as Hh.
  { split; cbn; try done; [|by exists []; rewrite app_nil_r|by intros key k; rewrite Hc, lookup_empty].
    apply (traffic_reachable_inv mode retry s); try done. }
  remember (mkW e []) as W0 eqn:E0. clear E0. assert (exists T0, rtc tstep (traffic_initial s) T0 /\ holds W0 [] T0) as Hex by by eexists.
  clear Hh. induction Hr as [W0|W0 W1 W2 Hst _ IH]; [done|]. apply IH. destruct Hex as (T0 & Hr0 & Hh0).
  destruct (whole_step_simulated _ _ _ Hh0 Hst) as (T1 & Hr1 & Hh1). exists T1. split; [by etransitivity|done].
Qed.
End simulation.

(** ** Properties of endpoints *)

(** C3: an endpoint refines the system of connections that share a socket: whatever it does (packets from anyone,
    connecting, listening, closing, timeouts, timers, a blocked and a writeable socket, the application's
    operations), the shared system can do too, ending with the same socket, the same one-shot packets waiting, and
    a live connection in the same state for each connection of the table and for nothing else. *)
Theorem endpoint_refines_shared `{NgtcpConsts} {C : Type} `{Ngtcp2 C} `{Ngtcp2Ep C} `{Ngtcp2Expiry C} {S : Type} `{SenderLaws S}
    `{!Wakeable S, !WakeableLaws S} (mode : send_mode) (retry : nat) `{!Naming retry}
    (e : Endpoint C S) (s : S) (W : whole C S) :
  writev_ok -> quantum_ok -> 0 < max_payload_size < 2 ^ 16 -> writes_fit (C := C) -> reads_by_callbacks (C := C) ->
  fresh_endpoint mode e s -> rtc (whole_step mode retry) (mkW e []) W ->
  exists T, rtc (traffic_step mode retry) (traffic_initial s) T /\
    socket (w_ep W) = Some (tr_sock T) /\ w_pkts W = tr_pkts T /\
    (forall key k, conns (w_ep W) !! key = Some (Some k) ->
       exists M, tr_objs T !! lab key = Some (Live M) /\ y_conn M = cn k /\ y_ng M = ng k) /\
    (forall i M, tr_objs T !! i = Some (Live M) -> exists key k, i = lab key /\ conns (w_ep W) !! key = Some (Some k)).
Proof.
  intros Hwv Hqn Hm Hw Hrd Hf Hr. destruct (whole_simulated mode retry Hwv Hqn Hm Hw Hrd e s W Hf Hr) as (T & HT & Hh).
  exists T. split; [exact HT|]. split_and!; [apply Hh|by rewrite (holds_pkts _ _ _ _ _ Hh)| |apply Hh].
  intros key k Hk. apply (sm_conn _ _ _ _ _ _ _ Hh _ _ Hk).
Qed.

(** C4: in every state an endpoint can get into, each connection of its table is sound: it is filed under its id, its
    stream table is ordered and complete, its batch is one the socket accepts, its callback waits on the socket
    exactly once while there are packets in the batch and not otherwise, and on each stream [pending] offers exactly
    the bytes queued and not yet written. *)
Theorem endpoint_connections_sound `{NgtcpConsts} {C : Type} `{Ngtcp2 C} `{Ngtcp2Ep C} `{Ngtcp2Expiry C} {S : Type} `{SenderLaws S}
    `{!Wakeable S, !WakeableLaws S} (mode : send_mode) (retry : nat) `{!Naming retry}
    (e : Endpoint C S) (s : S) (W : whole C S) (key : Z * list Z) (k : conn C) :
  writev_ok -> quantum_ok -> 0 < max_payload_size < 2 ^ 16 -> writes_fit (C := C) -> reads_by_callbacks (C := C) ->
  fresh_endpoint mode e s -> rtc (whole_step mode retry) (mkW e []) W -> conns (w_ep W) !! key = Some (Some k) ->
  cid_key (source_cid (cn k)) = key /\ table_inv (cn k) /\ queue_ok mode (cn k) /\
  (exists s', socket (w_ep W) = Some s' /\
     occurs (lab key) (snd_waiting s') = (if (0 <? n_packets (cn k))%nat then 1 else 0)%nat /\
     occurs retry (snd_waiting s') = length (w_pkts W)) /\
  (forall id st, map_find id (streams (cn k)) = Some st ->
     stream_ok (cs_stream st) /\
     exists vs, pending (cs_stream st) = Ok vs /\ concat vs = zdrop (unacked_size (cs_stream st)) (content (cs_stream st))).
Proof.
  intros Hwv Hqn Hm Hw Hrd Hf Hr Hk. destruct (whole_simulated mode retry Hwv Hqn Hm Hw Hrd e s W Hf Hr) as (T & HT & Hh).
  destruct (sm_conn _ _ _ _ _ _ _ Hh _ _ Hk) as [(M & Ho & Hc & Hg) Hkey]. pose proof (sm_inv _ _ _ _ _ _ _ Hh) as Hi.
  destruct (ti_live _ _ _ _ Hi _ _ Ho) as [(Htab & Hq & _ & _ & Htr & _ & _ & _ & Harm) _]. rewrite Hc in Htab, Hq, Htr, Harm.
  split; [exact Hkey|]. split; [exact Htab|]. split; [exact Hq|]. split.
  - exists (tr_sock T). split; [apply Hh|]. pose proof (ti_waiting _ _ _ _ Hi) as Hwt. cbn [app] in Hwt. rewrite !Hwt. unfold expected.
    rewrite decide_False, Ho, Harm by apply lab_retry. rewrite decide_True, (holds_pkts _ _ _ _ _ Hh) by done. by destruct (0 <? _)%nat.
  - intros id st Hst. pose proof (tracks_bounds _ _ (Htr _ _ Hst)) as (_ & _ & _ & Hok & _). split; [exact Hok|].
    destruct Hok as [Hinv Hm']. destruct (pending_content _ Hinv Hm') as (vs & Hp & Hvs & _). by exists vs.
Qed.

(** C5: no state an endpoint can reach is stuck in its handlers for sending: with the stated fuel the io trigger of
    every connection in the table returns; and when the socket becomes writeable, the handler returns exactly if all the
    connections whose callbacks wait are still in the table; if one was removed while the socket was blocked, the
    handler goes through its dangling pointer. *)
Theorem endpoint_sending_progress `{NgtcpConsts} {C : Type} `{Ngtcp2 C} `{Ngtcp2Ep C} `{Ngtcp2Expiry C} {S : Type} `{SenderLaws S}
    `{!Wakeable S, !WakeableLaws S} (mode : send_mode) (retry : nat) `{!Naming retry}
    (e : Endpoint C S) (s : S) (W : whole C S) (env : nat -> cb_env) :
  writev_ok -> quantum_ok -> 0 < max_payload_size < 2 ^ 16 -> writes_fit (C := C) -> reads_by_callbacks (C := C) ->
  fresh_endpoint mode e s -> rtc (whole_step mode retry) (mkW e []) W ->
  (forall key k, conns (w_ep W) !! key = Some (Some k) -> fits (ce_fuel (env (lab key))) k) ->
  (forall key k mid ts, conns (w_ep W) !! key = Some (Some k) ->
     exists e' t, io_triggered mode (lab key) (ce_fuel (env (lab key))) mid ts key (w_ep W) = Ok (e', t)) /\
  exists s', socket (w_ep W) = Some s' /\
    ((forall key, lab key ∈ snd_waiting s' -> is_Some (conn_at key (w_ep W))) -> exists W', on_wakeup mode retry env W = Ok W') /\
    (forall key, lab key ∈ snd_waiting s' -> conn_at key (w_ep W) = None -> on_wakeup mode retry env W = Undefined).
Proof.
  intros Hwv Hqn Hm Hw Hrd Hf Hr He. destruct (whole_simulated mode retry Hwv Hqn Hm Hw Hrd e s W Hf Hr) as (T & HT & Hh).
  pose proof (sm_inv _ _ _ _ _ _ _ Hh) as Hi. split.
  - intros key k mid ts Hk. destruct (sm_conn _ _ _ _ _ _ _ Hh _ _ Hk) as [(M & Ho & Hc & Hg) _].
    assert (enough (mkCE (ce_fuel (env (lab key))) mid ts) M) as Hen by (unfold enough; cbn; rewrite Hc, Hg; by apply He).
    destruct (run_flush_ok mode retry [] (lab key) _ M T Hwv Hqn Hi Ho Hen) as (T' & HT' & _).
    unfold io_triggered. rewrite Hk, (sm_sock _ _ _ _ _ _ _ Hh), <- Hc, <- Hg. unfold run_flush in HT'. cbn [ce_fuel ce_mid ce_ts] in HT'.
    apply obind_ok in HT' as ([f t] & -> & _). cbn [obind]. eauto.
  - exists (tr_sock T). split; [apply Hh|].
    destruct (wakeup_agree mode retry Hwv Hqn env W T Hh He) as [(HT' & HW)|(T1 & W1 & HT' & HW & _)]; rewrite HW.
    + split; [|done]. intros Hall. exfalso.
      destruct (writeable_outcome_inv mode retry env T Hwv Hqn Hi) as [(Hex & _)|(_ & T' & HT2 & _)]; [by eapply holds_enough| |congruence].
      apply Exists_exists in Hex as (i & Hin & Hd). destruct (sm_used _ _ _ _ _ _ _ Hh _ _ Hd) as (key & -> & _).
      destruct (Hall key Hin) as [k Hk]. unfold conn_at in Hk. destruct (conns (w_ep W) !! key) as [o|] eqn:Hc; simplify_eq.
      destruct (sm_conn _ _ _ _ _ _ _ Hh _ _ Hc) as [(M & Ho & _) _]. rewrite Hd in Ho. done.
    + split; [by eexists|]. intros key Hin Hn. exfalso. pose proof (ti_waiting _ _ _ _ Hi (lab key)) as Hwt. cbn [app] in Hwt.
      assert (0 < occurs (lab key) (snd_waiting (tr_sock T)))%nat as Hoc
        by (apply list_elem_of_split in Hin as (l1 & l2 & ->); rewrite occurs_app, occurs_cons, decide_True by done; lia).
      unfold expected in Hwt. rewrite decide_False in Hwt by apply lab_retry. destruct (tr_objs T !! lab key) as [[M|b]|] eqn:Ho; [..|lia].
      * destruct (sm_live _ _ _ _ _ _ _ Hh _ _ Ho) as (key' & k & E & Hk). apply (lab_inj retry) in E as <-. unfold conn_at in Hn. by rewrite Hk in Hn.
      * destruct b; [|cbn in Hwt; lia].
        destruct (writeable_outcome_inv mode retry env T Hwv Hqn Hi) as [(_ & Hu)|(Hall & _)]; [by eapply holds_enough|congruence|].
        rewrite Forall_forall in Hall. by apply (Hall (lab key) Hin).
Qed.

(** ** A worked example: an endpoint listens, a stranger's packet makes a connection, and the application sends on it *)
Section example.
#[local] Existing Instances ngtcp2_consts toy_ngtcp2 toy_ep_zz.
#[local] Instance quiet_expiry : Ngtcp2Expiry (Z * Z) := toy_expiry 0.

Definition lonely (k : kernel) : Endpoint (Z * Z) udp_state := mkEp (Some (shared_sock k)) false None None ∅ [] [].
Definition life_step := whole_step (C := Z * Z) (S := udp_state) SEND_GSO 0.
Definition first_packet (e : Endpoint (Z * Z) udp_state) : outcome (Endpoint (Z * Z) udp_state) :=
  handle_packet 9 toy_rnd 0 0 (replicate 20 0) 1000 (toy_rnd 7) e.
Definition first_key : Z * list Z := cid_key (ConnectionID_random (toy_rnd 0)).

Lemma toy_ep_zz_fits : writes_fit (C := Z * Z).
Proof. split; [intros g code|intros first vid vs]; cbn; done. Qed.
Lemma toy_ep_zz_reads : reads_by_callbacks (C := Z * Z).
Proof. intros g c pkt. cbn. apply rtc_refl. Qed.
Lemma lonely_fresh k : kernel_ok k -> fresh_endpoint SEND_GSO (lonely k) (shared_sock k).
Proof. intros Hk. split_and!; [done|by apply shared_sock_fresh|done..]. Qed.

Lemma example_accepted kr :
  exists W k, rtc life_step (mkW (lonely kr) []) W /\ conns (w_ep W) !! first_key = Some (Some k) /\
    streams (cn k) = [] /\ ng k = (0, 8) /\ source_cid (cn k) = ConnectionID_random (toy_rnd 0) /\
    (forall key k', conns (w_ep W) !! key = Some (Some k') -> k' = k).
Proof.
  pose (W1 := after (listen [OptTls 4] (lonely kr)) (mkW (lonely kr) [])).
  destruct (ok_test (first_packet (w_ep W1)) (fun e => match conns e !! first_key with
      | Some (Some k) => bool_decide (map_keys (streams (cn k)) = []) && bool_decide (ng k = (0, 8)) &&
                         bool_decide (data (source_cid (cn k)) = toy_rnd 0 /\ datalen (source_cid (cn k)) = 20) &&
                         bool_decide (size (conns e) = 1%nat)
      | _ => false end)) as (e2 & He2 & Ht); [vm_compute; reflexivity|].
  destruct (conns e2 !! first_key) as [[k|]|] eqn:Hk; [|done..]. apply andb_true_iff in Ht as [[[Hs Hg]%andb_true_iff Hid]%andb_true_iff Hsz].
  apply bool_decide_eq_true in Hs, Hg, Hid, Hsz. exists (after e2 W1), k. split_and!; [|exact Hk|by destruct (streams (cn k))|exact Hg|..].
  - eapply rtc_l; [apply (wh_listen SEND_GSO 0 [OptTls 4])|]. apply rtc_once.
    apply (wh_packet SEND_GSO 0 9 toy_rnd 0 (replicate 20 0) 1000 (toy_rnd 7)); [|exact He2]. intros j. cbn. by intros ?%elem_of_nil.
  - destruct (source_cid (cn k)). cbn in Hid. by destruct Hid as [-> ->].
  - intros key k' Hk'. cbn in Hk'. destruct (decide (key = first_key)) as [->|Hne]; [congruence|].
    assert (size (base.delete first_key (conns e2)) = 0%nat) as H0 by (rewrite map_size_delete_Some, Hsz by (by eexists); done).
    apply map_size_empty_inv in H0. rewrite <- (lookup_delete_ne _ first_key) in Hk' by done. by rewrite H0, lookup_empty in Hk'.
Qed.

Lemma example_sending kr :
  exists W k st, rtc life_step (mkW (lonely kr) []) W /\ conns (w_ep W) !! first_key = Some (Some k) /\
    map_find 0 (streams (cn k)) = Some st /\ content (cs_stream st) = replicate 2500 7.
Proof.
  destruct (example_accepted kr) as (W & k & Hr & Hk & Hs & Hg & Hid & _).
  pose (s1 := mkCS (set_ready (with_id (Stream_new (stream_data_cb (context (cn k))) None (-1)) 0)) []).
  pose (c1 := with_streams (cn k) [(0, s1)] (pending_streams (cn k))).
  pose (s2 := mkCS (Stream_send (cs_stream s1) (replicate 2500 7) (KUser 1)).1 []).
  pose (c2 := with_streams c1 [(0, s2)] (pending_streams c1)).
  assert (exists g1, get_new_stream None None (ng k) (cn k) = (g1, c1, Some 0)) as [g1 H1]
    by (unfold get_new_stream; rewrite Hg, Hs; cbn; by eexists).
  pose (W1 := after (set_conn (mkC c1 g1) (w_ep W)) W). pose (W2 := after (set_conn (mkC c2 g1) (w_ep W1)) W1).
  assert (forall (c : Connection) (g : Z * Z) (e : Endpoint (Z * Z) udp_state), source_cid c = ConnectionID_random (toy_rnd 0) ->
    conns (set_conn (mkC c g) e) !! first_key = Some (Some (mkC c g))) as Hset.
  { intros c g e Hc. unfold first_key. rewrite <- Hc. apply lookup_insert_eq. }
  assert (life_step W W1) as S1 by (apply (wh_user SEND_GSO 0 first_key k g1 c1 W Hk); exact (user_new None None _ _ _ _ _ H1)).
  assert (conns (w_ep W1) !! first_key = Some (Some (mkC c1 g1))) as Hk1 by (apply Hset; exact Hid).
  assert (life_step W1 W2) as S2.
  { apply (wh_user SEND_GSO 0 first_key (mkC c1 g1) g1 c2 W1 Hk1).
    refine (user_op 0 (USend (replicate 2500 7) 1) s1 s2 _ g1 c1 eq_refl eq_refl _). vm_compute. reflexivity. }
  exists W2, (mkC c2 g1), s2. split_and!; [|apply Hset; exact Hid|done|].
  - eapply rtc_r; [eapply rtc_r; [exact Hr|exact S1]|exact S2].
  - unfold s2. cbn [cs_stream Stream_send append_buffer fst]. rewrite content_app. cbn -[replicate]. by rewrite app_nil_r.
Qed.
End example.

Lemma endpoint_refines_shared_witness :
  exists W T M st, rtc life_step (mkW (lonely kernel_blocked) []) W /\
    rtc (@traffic_step ngtcp2_consts _ toy_ngtcp2 _ udp_Sender udp_Wakeable SEND_GSO 0) (traffic_initial (shared_sock kernel_blocked)) T /\
    tr_objs T !! lab first_key = Some (Live M) /\ map_find 0 (streams (y_conn M)) = Some st /\ content (cs_stream st) = replicate 2500 7.
Proof.
  destruct (example_sending kernel_blocked) as (W & k & st & Hr & Hk & Hst & Hc).
  destruct (@endpoint_refines_shared ngtcp2_consts _ toy_ngtcp2 toy_ep_zz (toy_expiry 0) udp_state _ _ _ _ SEND_GSO 0 _
    (lonely kernel_blocked) (shared_sock kernel_blocked) W toy_writev_ok toy_quantum_ok ltac:(split; reflexivity) toy_ep_zz_fits toy_ep_zz_reads
    (lonely_fresh _ kernel_blocked_ok) Hr) as (T & HT & _ & _ & Hin & _).
  destruct (Hin _ _ Hk) as (M & Ho & Hcn & _). exists W, T, M, st. split; [exact Hr|]. split; [exact HT|]. split; [exact Ho|].
  rewrite Hcn. split; [exact Hst|exact Hc].
Defined.

Lemma endpoint_connections_sound_witness :
  exists W k st vs, rtc life_step (mkW (lonely kernel_blocked) []) W /\ conns (w_ep W) !! first_key = Some (Some k) /\
    @table_inv (cn k) /\ map_find 0 (streams (cn k)) = Some st /\ pending (cs_stream st) = Ok vs /\
    concat vs = zdrop (unacked_size (cs_stream st)) (replicate 2500 7).
Proof.
  destruct (example_sending kernel_blocked) as (W & k & st & Hr & Hk & Hst & Hc).
  destruct (@endpoint_connections_sound ngtcp2_consts _ toy_ngtcp2 toy_ep_zz (toy_expiry 0) udp_state _ _ _ _ SEND_GSO 0 _
    (lonely kernel_blocked) (shared_sock kernel_blocked) W first_key k toy_writev_ok toy_quantum_ok ltac:(split; reflexivity)
    toy_ep_zz_fits toy_ep_zz_reads (lonely_fresh _ kernel_blocked_ok) Hr Hk) as (_ & Ht & _ & _ & Hall).
  destruct (Hall _ _ Hst) as (_ & vs & Hp & Hvs). rewrite Hc in Hvs. exists W, k, st, vs. split_and!; assumption.
Defined.

Lemma endpoint_sending_progress_witness :
  exists W e' t, rtc life_step (mkW (lonely kernel_blocked) []) W /\
    @io_triggered ngtcp2_consts _ toy_ngtcp2 _ udp_Sender SEND_GSO (lab first_key) 30 1 77 first_key (w_ep W) = Ok (e', t).
Proof.
  destruct (example_accepted kernel_blocked) as (W & k & Hr & Hk & Hs & Hg & _ & Honly).
  assert (forall key k', conns (w_ep W) !! key = Some (Some k') -> @fits _ toy_ngtcp2 (ce_fuel ((fun _ => example_env) (lab key))) k') as Hfits.
  { intros key k' ->%Honly. unfold fits, flush_fuel. rewrite Hs. vm_compute. lia. }
  destruct (@endpoint_sending_progress ngtcp2_consts _ toy_ngtcp2 toy_ep_zz (toy_expiry 0) udp_state _ _ _ _ SEND_GSO 0 _
    (lonely kernel_blocked) (shared_sock kernel_blocked) W (fun _ => example_env) toy_writev_ok toy_quantum_ok ltac:(split; reflexivity)
    toy_ep_zz_fits toy_ep_zz_reads (lonely_fresh _ kernel_blocked_ok) Hr Hfits) as (Hio & _).
  destruct (Hio first_key k 1%nat 77 Hk) as (e' & t & He'). exists W, e', t. split; [exact Hr|exact He'].
Defined.
