(* ===== verification/Tables.v ===== *)
(** * The tables of an endpoint

    An endpoint keeps its connections in [conns] and, for those that are draining, the time of their
    removal in [draining].  Here it is shown, over every run of the system of Whole.v, that the two
    tables agree: what is scheduled for removal is draining, so that a timeout never removes a
    connection in use. *)
From S2P Require Import Prelude StdMap Utils Stream Udp Sender EndpointSend Context Connection Flush Lifetime Traffic Endpoint Network Reactor Whole.
Import Cid Addr Io.

Section tables.
Context `{NgtcpConsts} {C : Type} `{Ngtcp2 C} `{Ngtcp2Ep C} `{Ngtcp2Expiry C} {S : Type} `{Sender S} `{!Wakeable S}.
Context (mode : send_mode) (retry : nat) `{!Naming retry}.
Context (Hread : reads_by_callbacks (C := C)).
Implicit Types (W : whole C S) (e : Endpoint C S) (k : conn C).

(** Reading packets keeps the id and the closing flag, since the callbacks do. *)
Lemma reads_ok : read_ok (C := C).
Proof.
  intros g c pkt. specialize (Hread g c pkt). destruct (ng_read_pkt g c pkt) as [[[g' c'] eff] rv].
  apply callbacks_marks in Hread. by injection Hread as -> _ _ ->.
Qed.

(** A connection is filed under its own id, which was announced when it was made; it is never marked as
    closing, and once it is draining its closing callback is gone.  What the draining table names is
    draining, if it is still there; ids are not used twice, so nobody else is named. *)
Record tables_inv e : Prop := {
  tb_conn : forall key k, conns e !! key = Some (Some k) ->
    cid_key (source_cid (cn k)) = key /\ closing (cn k) = false /\ (Conn.draining (cn k) = true -> on_closing (cn k) = None) /\
    key ∈ io_ids (events e);
  tb_sorted : sorted_keys (draining e);
  tb_named : forall t cid, map_find t (draining e) = Some cid ->
    cid_key cid ∈ io_ids (events e) /\ forall k, conns e !! cid_key cid = Some (Some k) -> Conn.draining (cn k) = true;
}.

(** So what the theorems of Reactor.v about received packets assume of an endpoint holds wherever it can get. *)
Lemma tables_ep_inv e : tables_inv e -> ep_inv e.
Proof. intros [Hc Hs _]. split; [|done]. intros key k Hk. by destruct (Hc _ _ Hk) as (? & ? & _). Qed.

(** *** Changes to one part *)

Lemma tb_frame e e' l :
  conns e' = conns e -> draining e' = draining e -> events e' = events e ++ l -> tables_inv e -> tables_inv e'.
Proof.
  intros Ec Ed Ee [Hc Hs Hn]. assert (forall key, key ∈ io_ids (events e) -> key ∈ io_ids (events e')) as Hin
    by (intros key Hk; rewrite Ee, io_ids_app; apply elem_of_app; by left).
  split; rewrite ?Ec, ?Ed; [|done|].
  - intros key k Hk. destruct (Hc _ _ Hk) as (? & ? & ? & ?). auto.
  - intros t cid Ht. destruct (Hn _ _ Ht) as [? ?]. auto.
Qed.

Lemma tb_set key k k' e :
  conns e !! key = Some (Some k) -> marks (cn k') = marks (cn k) -> tables_inv e -> tables_inv (set_conn k' e).
Proof.
  intros Hk Hm [Hc Hs Hn]. unfold marks in Hm. injection Hm as E1 E2 E3 E4. destruct (Hc _ _ Hk) as (Hkey & Hcl & Hoc & Hin).
  assert (cid_key (source_cid (cn k')) = key) as Hkey' by congruence. unfold set_conn. rewrite Hkey'. split; cbn; [|done|].
  - intros key0 k0 [[<- [= <-]]|[_ Hx0]]%lookup_insert_Some; [|by apply Hc]. rewrite E2, E3, E4. done.
  - intros t cid Ht. destruct (Hn _ _ Ht) as [Hi Hd]. split; [done|].
    intros k0 [[E [= <-]]|[_ Hx0]]%lookup_insert_Some; [|by apply Hd]. rewrite E3. apply Hd. by rewrite <- E.
Qed.

Lemma tb_erase key e : tables_inv e -> tables_inv (with_conns e (base.delete key (conns e))).
Proof.
  intros [Hc Hs Hn]. split; cbn; [|done|].
  - intros key0 k0 [_ Hx0]%lookup_delete_Some. by apply Hc.
  - intros t cid Ht. destruct (Hn _ _ Ht) as [Hi Hd]. split; [done|]. intros k0 [_ Hx0]%lookup_delete_Some. by apply Hd.
Qed.

Lemma tb_delete cid e e' : delete_connection cid e = Ok e' -> tables_inv e -> tables_inv e'.
Proof.
  unfold delete_connection. destruct (conns e !! cid_key cid) as [[k|]|]; [|done|by intros [= <-]].
  destruct (call_closing (cn k)) as [c cb]. intros [= <-] Hi. by eapply (tb_frame (with_conns e _)), tb_erase.
Qed.

(** Draining: the connection is marked, its callback taken, and its id named. *)
Lemma tb_drain now key k e : conns e !! key = Some (Some k) -> tables_inv e -> tables_inv (drain_connection now k e).
Proof.
  intros Hk Hi. pose proof (tb_conn _ Hi _ _ Hk) as (Hkey & Hcl & _ & Hin). unfold drain_connection.
  destruct (Conn.draining (cn k)); [done|]. destruct (call_closing (cn k)) as [c1 cb] eqn:Ec.
  assert (source_cid c1 = source_cid (cn k) /\ on_closing c1 = None /\ closing c1 = false) as (E1 & E2 & E3)
    by (unfold call_closing in Ec; destruct (on_closing (cn k)) eqn:Eo; injection Ec as <- <-; done).
  assert (tables_inv (emit e (closing_event cb))) as [Hc Hs Hn] by (by eapply (tb_frame e)).
  assert (key ∈ io_ids (events e ++ closing_event cb)) as Hin' by (rewrite io_ids_app; apply elem_of_app; by left).
  unfold set_conn. cbn [cn source_cid drain with_flags]. change (source_cid (drain c1)) with (source_cid c1). rewrite E1, Hkey. split; cbn.
  - intros key0 k0 [[<- [= <-]]|[_ Hx0]]%lookup_insert_Some; [|by apply Hc]. cbn. rewrite E1. done.
  - by apply sorted_emplace.
  - intros t cid Ht. assert (cid = source_cid (cn k) \/ map_find t (draining e) = Some cid) as [->|Hold].
    { unfold map_emplace in Ht. cbn in Ht. destruct (map_find (drain_time now (ng k)) (draining e)); [by right|]. cbn in Ht.
      destruct (decide (t = drain_time now (ng k))) as [->|Hne]; [rewrite map_find_assign_eq in Ht; left; congruence|].
      right. by rewrite map_find_assign_ne in Ht. }
    + rewrite Hkey. split; [done|]. intros k0. rewrite lookup_insert_eq. by intros [= <-].
    + destruct (Hn t cid Hold) as [Hi' Hd]. split; [done|]. intros k0 [[_ [= <-]]|[_ Hx0]]%lookup_insert_Some; [done|by apply Hd].
Qed.

(** A connection just made, and an entry that stayed null. *)
Lemma tb_emplace fuel rnd i dcid ctx d e e' m :
  (forall j, cid_key (ConnectionID_random (rnd j)) ∉ io_ids (events e)) ->
  emplace_conn fuel rnd i dcid ctx d e = Ok (e', m) -> tables_inv e -> tables_inv e'.
Proof.
  intros Hnew. revert i. induction fuel as [|fuel IH]; intros i; cbn [emplace_conn]; [done|].
  destruct (conns e !! cid_key (ConnectionID_random (rnd i))) eqn:Hno; [apply IH|].
  destruct (make_conn _ (dcid i) ctx d) as [k| | |x|] eqn:Hm; intros [= <- <-] [Hc Hs Hn].
  - assert (on_closing (cn k) = None) as Hoc.
    { unfold make_conn in Hm. destruct (ng_conn_new _ _ _) as [rv g]. destruct (tls_creds ctx); [|done]. destruct (negb _); [done|].
      destruct (tls_session_fails _ _); [done|]. by injection Hm as <-. }
    apply make_conn_fields in Hm as (Hid & _ & _ & Hcl & _).
    assert (forall key, key ∈ io_ids (events e) \/ key = cid_key (ConnectionID_random (rnd i)) ->
      key ∈ io_ids (events e ++ [XIoReady (ConnectionID_random (rnd i))])) as Hids
      by (intros key; rewrite io_ids_app, elem_of_app; unfold io_ids at 3; cbn; rewrite list_elem_of_singleton; done).
    split; cbn; [|done|].
    + intros key0 k0 [[<- [= <-]]|[_ Hx0]]%lookup_insert_Some; [rewrite Hid; split_and!; auto|]. destruct (Hc _ _ Hx0) as (? & ? & ? & ?). split_and!; auto.
    + intros t cid Ht. destruct (Hn _ _ Ht) as [Hi Hd]. split; [auto|].
      intros k0 [[E _]|[_ Hx0]]%lookup_insert_Some; [|by apply Hd]. destruct (Hnew i). by rewrite E.
  - split; cbn; [|done|].
    + intros key0 k0 [[_ ?]|[_ Hx0]]%lookup_insert_Some; [done|by apply Hc].
    + intros t cid Ht. destruct (Hn _ _ Ht) as [Hi Hd]. split; [done|]. intros k0 [[_ ?]|[_ Hx0]]%lookup_insert_Some; [done|by apply Hd].
Qed.

(** *** The operations of the endpoint *)

Lemma tb_close key k code e e' :
  conns e !! key = Some (Some k) -> close_connection retry k code e = Ok e' -> tables_inv e -> tables_inv e'.
Proof.
  intros Hk. unfold close_connection. destruct (_ || _); [by intros [= <-]|]. destruct (code =? _); [apply tb_delete|].
  destruct (ng_write_connection_close (ng k) code) as [[g w] bs]. intros Hr Hi.
  assert (tables_inv (set_conn (mkC (cn k) g) e)) as Hi1 by (by eapply tb_set). destruct (w <=? 0); [by eapply tb_delete|].
  apply assert_then_ok in Hr as [_ ([e2 q] & Hs & Hr)%obind_ok]. destruct (send_one_frame _ _ _ _ _ _ Hs) as (Ec & Ed & Ee).
  assert (tables_inv e2) as Hi2 by (by eapply tb_frame). destruct q as [r| |r|]; try (by injection Hr as <-).
  destruct (failure r); [by eapply tb_delete|by injection Hr as <-].
Qed.

Lemma tb_close_conns d order e e' : close_conns retry d order e = Ok e' -> tables_inv e -> tables_inv e'.
Proof.
  revert e. induction order as [|key order IH]; intros e; cbn [close_conns]; [by intros [= <-]|].
  destruct (conns e !! key) as [[k|]|] eqn:Hk; [|done..]. destruct (dir_matches d k); [|by apply IH].
  intros (e1 & Hc & Hr)%obind_ok Hi. apply (tb_close _ _ _ _ _ Hk) in Hc; [|done]. destruct (conns e1 !! key); [by eapply IH|done].
Qed.

Lemma tb_conn_packet now key k pkt e e' :
  conns e !! key = Some (Some k) -> handle_conn_packet retry now k pkt e = Ok e' -> tables_inv e -> tables_inv e'.
Proof.
  intros Hk. unfold handle_conn_packet. destruct (ng_in_closing_period _); [apply tb_delete|].
  intros ([e1 r] & Hr & [= <-])%obind_ok Hi. unfold read_packet in Hr. specialize (Hread (ng k) (cn k) pkt).
  destruct (ng_read_pkt (ng k) (cn k) pkt) as [[[g c] eff] rv]. apply obind_ok in Hr as (e2 & Hx & [= <- <-]).
  pose proof (callbacks_marks _ _ Hread) as Hm. cbn [snd] in Hm. set (e0 := emit (set_conn (mkC c g) e) _) in Hx.
  assert (tables_inv e0) as Hi0 by (eapply (tb_frame (set_conn (mkC c g) e)); [done..|]; by eapply (tb_set key k)).
  assert (conns e0 !! key = Some (Some (mkC c g))) as Hk0.
  { cbn. rewrite (marks_id _ _ Hm). rewrite (proj1 (tb_conn _ Hi _ _ Hk)). apply lookup_insert_eq. }
  destruct (rv =? 0); [injection Hx as <-; by eapply (tb_frame e0)|].
  destruct (rv =? NGTCP2_ERR_DRAINING); [injection Hx as <-; by eapply tb_drain|].
  destruct (rv =? NGTCP2_ERR_PROTO); [by eapply tb_close|].
  destruct (rv =? NGTCP2_ERR_DROP_CONN); [by eapply tb_delete|].
  destruct (rv =? NGTCP2_ERR_CRYPTO); [by eapply tb_delete|by eapply tb_close].
Qed.

Lemma tb_handle_packet fuel rnd first fresh now pkt e e' :
  (forall j, cid_key (ConnectionID_random (rnd j)) ∉ io_ids (events e)) ->
  handle_packet fuel rnd retry first fresh now pkt e = Ok e' -> tables_inv e -> tables_inv e'.
Proof.
  intros Hnew ([e1 o] & Hc & Hr)%obind_ok Hi. unfold handle_packet_connid, send_version_negotiation in Hc.
  destruct (ng_decode_version_cid pkt) as [rv vid]. destruct (rv =? NGTCP2_ERR_VERSION_NEGOTIATION).
  { apply obind_ok in Hc as (e2 & Hx & [= <- <-]). injection Hr as <-.
    destruct (ng_write_version_negotiation first vid versions) as [nw bs]. destruct (nw <=? 0); [by injection Hx as <-|].
    apply obind_ok in Hx as ([e3 q] & (Ec & Ed & Ee)%send_one_frame & [= <-]). by eapply tb_frame. }
  assert (e1 = e) as ->.
  { destruct (negb (rv =? 0)); [by simplify_eq|]. destruct (NGTCP2_MAX_CIDLEN <? v_dcidlen vid); [by simplify_eq|].
    by apply obind_ok in Hc as (? & _ & [= <- <-]). }
  destruct o as [dcid|]; [|by injection Hr as <-]. destruct (get_conn dcid e) as [k|] eqn:Hg.
  - unfold get_conn in Hg. destruct (conns e !! cid_key dcid) as [[k'|]|] eqn:Hf; simplify_eq. by eapply tb_conn_packet.
  - destruct (accepting_inbound e); [|by injection Hr as <-]. apply obind_ok in Hr as ([e2 ko] & Ha & Hr).
    unfold accept_initial_connection in Ha. destruct (ng_accept pkt) as [arv hdr].
    destruct (arv <? 0); [by simplify_eq|]. destruct (hd_type hdr =? NGTCP2_PKT_0RTT); [by simplify_eq|].
    destruct (_ && _); [by simplify_eq|]. destruct (inbound_ctx e) as [ctx|]; [|done].
    apply obind_ok in Ha as ([e3 m] & Hem & Ha). pose proof (tb_emplace _ _ _ _ _ _ _ _ _ Hnew Hem Hi) as Hi3.
    destruct m as [k|x]; [|done]. simplify_eq. apply emplace_conn_emplaced in Hem as (key & _ & _ & _ & Hk & _). by eapply tb_conn_packet.
Qed.

(** A timeout removes what the draining table names: never a connection that is not draining. *)
Lemma tb_timeouts fuel now f e e' :
  timeouts_loop fuel now f e = Ok e' -> tables_inv e ->
  tables_inv e' /\ forall key k, conns e !! key = Some (Some k) -> Conn.draining (cn k) = false -> conns e' !! key = Some (Some k).
Proof.
  revert f e. induction fuel as [|fuel IH]; intros f e; cbn [timeouts_loop];
    (destruct (bool_decide (draining e = [])); [by intros [= <-]|]);
    (destruct f as [t|]; [|done]); (destruct (map_find t (draining e)) as [cid|] eqn:Ht; [|done]);
    (destruct (t <? now); [|by intros [= <-]]); [done|].
  intros Hr Hi. set (e1 := with_draining (with_conns e (base.delete (cid_key cid) (conns e))) (map_erase t (draining e))) in Hr.
  assert (tables_inv e1) as Hi1.
  { destruct (tb_erase (cid_key cid) e Hi) as [Hc Hs Hn]. split; [exact Hc|by apply sorted_erase|]. intros t' cid' Ht'. apply (Hn t').
    cbn in Ht' |- *. destruct (decide (t = t')) as [<-|Hne]; [|by rewrite map_find_erase_ne in Ht'].
    rewrite map_find_erase_eq in Ht'; [done|exact (tb_sorted _ Hi)]. }
  destruct (IH _ _ Hr Hi1) as [Hi' Hkeep]. split; [done|]. intros key k Hk Hd. apply Hkeep; [|done]. cbn.
  rewrite lookup_delete_ne; [done|]. intros <-. by rewrite (proj2 (tb_named _ Hi _ _ Ht) k Hk) in Hd.
Qed.

Lemma tb_io resend fuel mid ts key k e e' t :
  conns e !! key = Some (Some k) -> io_triggered mode resend fuel mid ts key e = Ok (e', t) -> tables_inv e -> tables_inv e'.
Proof.
  intros Hk. unfold io_triggered. rewrite Hk. intros ([f tm] & Hio%flush_identity & [= <- <-])%obind_ok Hi.
  eapply (tb_frame (set_conn (mkC (f_conn f) (f_ng f)) e) _ []); [done|done|cbn; by rewrite app_nil_r|].
  eapply (tb_set key k); [done| |done]. unfold marks. cbn. by injection Hio as -> _ _ -> -> ->.
Qed.

Lemma tb_retransmit resend fuel mid ts key k e e' t :
  conns e !! key = Some (Some k) -> retransmit_fired mode retry resend fuel mid ts key e = Ok (e', t) -> tables_inv e -> tables_inv e'.
Proof.
  intros Hk. unfold retransmit_fired. rewrite Hk. destruct (ng_handle_expiry (ng k) ts) as [g rv]. intros Hr Hi.
  assert (tables_inv (set_conn (mkC (cn k) g) e)) as Hi1 by (by eapply (tb_set key k)).
  assert (conns (set_conn (mkC (cn k) g) e) !! key = Some (Some (mkC (cn k) g))) as Hk1
    by (cbn; rewrite (proj1 (tb_conn _ Hi _ _ Hk)); apply lookup_insert_eq).
  destruct (negb (rv =? 0)); [|by eapply tb_io]. apply obind_ok in Hr as (e2 & Hc & [= <- <-]). by eapply tb_close.
Qed.

Lemma tb_callbacks cbs env W W' : whole_callbacks mode retry cbs env W = Ok W' -> tables_inv (w_ep W) -> tables_inv (w_ep W').
Proof.
  revert W. induction cbs as [|cb cbs IH]; intros W; cbn [whole_callbacks]; [by intros [= <-]|].
  intros (W1 & Hc & Hr)%obind_ok Hi. apply (IH W1 Hr). clear Hr IH. unfold whole_callback in Hc. destruct (cb =? retry)%nat.
  - destruct (w_pkts W) as [|buf rest]; [done|]. apply obind_ok in Hc as ([e1 q] & (Ec & Ed & Ee)%send_one_frame & [= <-]). by eapply tb_frame.
  - destruct (unlab cb) as [key|]; [|done]. destruct (conns (w_ep W) !! key) as [[k|]|] eqn:Hk; [|done..].
    apply obind_ok in Hc as ([f tm] & Hf%resend_marks & [= <-]). cbn [w_ep after].
    eapply (tb_frame (set_conn (mkC (f_conn f) (f_ng f)) (w_ep W)) _ []); [done|done|cbn; by rewrite app_nil_r|]. by eapply (tb_set key k).
Qed.

Lemma tables_step W W' : whole_step mode retry W W' -> tables_inv (w_ep W) -> tables_inv (w_ep W').
Proof.
  intros Hst Hi. destruct Hst as [fuel rnd first fresh now pkt e' W Hn Hx|fuel rnd dcid opts e' m W Hn Hx|opts W|now e' W Hx|d order e' W Hx
    |fuel mid ts key k e' t W Hk Hf Hx|fuel mid ts key k e' t W Hk Hf Hx|key k g c W Hk Hu|env W W' He Hx]; cbn [w_ep after] in *.
  - by eapply tb_handle_packet.
  - unfold connect in Hx. eapply tb_emplace; [|exact Hx|]; [exact Hn|]. eapply (tb_frame (w_ep W) _ []); [done|done|cbn; by rewrite app_nil_r|done].
  - eapply (tb_frame (w_ep W) _ []); [done|done|cbn; by rewrite app_nil_r|done].
  - exact (proj1 (tb_timeouts _ _ _ _ _ Hx Hi)).
  - by eapply tb_close_conns.
  - by eapply tb_io.
  - by eapply tb_retransmit.
  - eapply (tb_set key k); [done|exact (user_marks _ _ Hu)|done].
  - unfold on_wakeup in Hx. destruct (socket (w_ep W)) as [s|]; [|done]. destruct (snd_wake s) as [cbs s']. eapply tb_callbacks; [exact Hx|].
    eapply (tb_frame (w_ep W) _ []); [done|done|cbn; by rewrite app_nil_r|done].
Qed.

Lemma tables_reachable e W :
  conns e = ∅ -> draining e = [] -> rtc (whole_step mode retry) (mkW e []) W -> tables_inv (w_ep W).
Proof.
  intros Hc Hd Hr. assert (tables_inv (w_ep (mkW e []))) as Hi.
  { split; cbn; rewrite ?Hc, ?Hd; [by intros key k; rewrite lookup_empty|constructor|done]. }
  revert Hi. induction Hr as [|W1 W2 W3 Hst _ IH]; [done|]. intros Hi. apply IH. by eapply tables_step.
Qed.

(** C15: the tables of an endpoint agree, in every state it can reach from an empty one by packets from anyone,
    connecting, listening, timeouts, closing, timers, a blocked and a writeable socket and the application's
    operations, in any order, provided that drawn ids are never drawn again.  Each connection is filed under its
    own id and is never marked as closing (so that the [is_closing] test of [close_connection] never holds), and
    once it is draining its closing callback has been taken, so that it runs at most once.  The draining
    table is ordered by time, and every connection it names is draining; hence a timeout never removes
    a connection that is not. *)
Theorem endpoint_tables_agree e W :
  conns e = ∅ -> draining e = [] -> rtc (whole_step mode retry) (mkW e []) W ->
  (forall key k, conns (w_ep W) !! key = Some (Some k) ->
     cid_key (source_cid (cn k)) = key /\ closing (cn k) = false /\ (Conn.draining (cn k) = true -> on_closing (cn k) = None)) /\
  sorted_keys (draining (w_ep W)) /\
  (forall t cid k, map_find t (draining (w_ep W)) = Some cid -> conns (w_ep W) !! cid_key cid = Some (Some k) ->
     Conn.draining (cn k) = true) /\
  (forall now e' key k, check_timeouts now (w_ep W) = Ok e' -> conns (w_ep W) !! key = Some (Some k) ->
     Conn.draining (cn k) = false -> conns e' !! key = Some (Some k)).
Proof.
  intros Hc Hd Hr. pose proof (tables_reachable e W Hc Hd Hr) as Hi. split_and!.
  - intros key k Hk. by destruct (tb_conn _ Hi _ _ Hk) as (? & ? & ? & _).
  - apply Hi.
  - intros t cid k Ht Hk. by apply (proj2 (tb_named _ Hi _ _ Ht)).
  - intros now e' key k Ht Hk Hnd. unfold check_timeouts in Ht. by eapply (tb_timeouts _ _ _ _ _ Ht Hi).
Qed.
End tables.

(** A connection is made and stays in use: no timeout removes it. *)
Lemma endpoint_tables_agree_witness :
  exists W k, rtc life_step (mkW (lonely kernel_blocked) []) W /\ conns (w_ep W) !! first_key = Some (Some k) /\
    closing (cn k) = false /\ forall now e', check_timeouts now (w_ep W) = Ok e' -> Conn.draining (cn k) = false -> conns e' !! first_key = Some (Some k).
Proof.
  destruct (example_sending kernel_blocked) as (W & k & st & Hr & Hk & _).
  destruct (@endpoint_tables_agree ngtcp2_consts _ toy_ngtcp2 toy_ep_zz (toy_expiry 0) udp_state _ _ SEND_GSO 0 _ toy_ep_zz_reads
    (lonely kernel_blocked) W eq_refl eq_refl Hr) as (Hall & _ & _ & Ht).
  exists W, k. split_and!; [exact Hr|exact Hk|apply (Hall _ _ Hk)|]. intros now e' He Hd. by eapply Ht.
Defined.
