(* ===== verification/Speedtest.v ===== *)
(** * The speed test programs

    Models what tests/speedtest-client.cpp and tests/speedtest-server.cpp do with the library: the client
    sends, on each of its streams, eight bytes of size and then that many bytes of data, in chunks that live in a
    ring of buffers; the server adds up what it receives, in whatever pieces it comes, and answers with a
    hash and a checksum, which the client compares with its own.

    The random generator and the hash of GnuTLS are parameters (classes [Rng] and [Hasher]).  Loads of
    eight bytes at any address are taken to work, as on the CPUs the programs are run on. *)
From S2P Require Import Prelude StdMap Utils Stream Endpoint.
Import Cid.

(** ** Checksums *)

(** A byte of a 64-bit value in memory. *)
Definition byte_of (w : Z) (i : nat) : Z := Z.land (Z.shiftr w (8 * Z.of_nat i)) 255.
Definition load64 (data : list Z) (i : nat) : Z := le_load (sub_bytes (8 * i) 8 data).

Module Sum.
(** The loop over words, the loop over the bytes of its result, and the loop over the bytes left. *)
Definition csum_words (data : list Z) : Z :=
  foldl (fun csum i => Z.lxor csum (load64 data i)) 0 (seq 0 (length data / 8)).
Definition fold_word (checksum csum : Z) : Z := foldl (fun c i => Z.lxor c (byte_of csum i)) checksum (seq 0 8).
Definition checksum_tail (checksum : Z) (data : list Z) : Z := foldl Z.lxor checksum (drop (length data / 8 * 8) data).
Definition update_checksum (checksum : Z) (data : list Z) : Z :=
  checksum_tail (fold_word checksum (csum_words data)) data.
End Sum.
Export Sum.

(** The bytes of a value. *)
Fixpoint le_bytes (n : nat) (z : Z) : list Z :=
  match n with
  | O => []
  | S n' => z mod 2 ^ 8 :: le_bytes n' (z / 2 ^ 8)
  end.

Lemma le_bytes_length n z : length (le_bytes n z) = n.
Proof. revert z. induction n as [|n IH]; intros z; cbn; [done|]. by rewrite IH. Qed.

Lemma le_bytes_u8 n z : Forall is_u8 (le_bytes n z).
Proof. revert z. induction n as [|n IH]; intros z; cbn [le_bytes]; constructor; [|apply IH]. unfold is_u8. apply Z.mod_pos_bound. lia. Qed.

Lemma le_load_bytes n z : 0 <= z < 2 ^ (8 * Z.of_nat n) -> le_load (le_bytes n z) = z.
Proof.
  revert z. induction n as [|n IH]; intros z Hz; cbn [le_bytes le_load].
  - change (2 ^ (8 * Z.of_nat 0)) with 1 in Hz. lia.
  - rewrite IH; [pose proof (Z.div_mod z (2 ^ 8)); lia|].
    replace (8 * Z.of_nat (S n)) with (8 + 8 * Z.of_nat n) in Hz by lia. rewrite Z.pow_add_r in Hz by lia.
    split; [apply Z.div_pos; lia|]. apply Z.div_lt_upper_bound; lia.
Qed.

Lemma le_load_bound l : Forall is_u8 l -> 0 <= le_load l < 2 ^ (8 * zlen l).
Proof.
  induction 1 as [|b l Hb Hl IH]; cbn [le_load]; [done|]. unfold is_u8 in Hb. rewrite zlen_cons.
  replace (8 * (1 + zlen l)) with (8 + 8 * zlen l) by lia. rewrite Z.pow_add_r; pose proof (zlen_nonneg l); lia.
Qed.

(** The exclusive or of all bytes. *)
Definition xor_bytes (l : list Z) : Z := foldl Z.lxor 0 l.

Lemma foldl_lxor_pull {A} (g : A -> Z) l acc : foldl (fun c x => Z.lxor c (g x)) acc l = Z.lxor acc (foldl (fun c x => Z.lxor c (g x)) 0 l).
Proof.
  revert acc. induction l as [|x l IH]; intros acc; cbn; [by rewrite Z.lxor_0_r|].
  rewrite IH, (IH (Z.lxor 0 _)), Z.lxor_0_l. by rewrite Z.lxor_assoc.
Qed.

Lemma xor_bytes_acc acc l : foldl Z.lxor acc l = Z.lxor acc (xor_bytes l).
Proof. apply (foldl_lxor_pull (fun x => x)). Qed.

Lemma xor_bytes_app a b : xor_bytes (a ++ b) = Z.lxor (xor_bytes a) (xor_bytes b).
Proof. unfold xor_bytes. by rewrite foldl_app, xor_bytes_acc. Qed.

Lemma byte_of_lxor a b i : byte_of (Z.lxor a b) i = Z.lxor (byte_of a i) (byte_of b i).
Proof.
  unfold byte_of. apply Z.bits_inj'. intros n Hn. rewrite Z.lxor_spec, !Z.land_spec, !Z.shiftr_spec, Z.lxor_spec by done.
  by destruct (Z.testbit a _), (Z.testbit b _), (Z.testbit 255 n).
Qed.

Lemma fold_word_lxor c a b : fold_word c (Z.lxor a b) = Z.lxor (fold_word c a) (fold_word 0 b).
Proof.
  unfold fold_word. rewrite (foldl_lxor_pull _ _ c), (foldl_lxor_pull (byte_of a) _ c), Z.lxor_assoc. f_equal.
  generalize (seq 0 8). intros l. induction l as [|i l IH]; cbn; [done|].
  rewrite (foldl_lxor_pull _ l (Z.lxor 0 _)), (foldl_lxor_pull (byte_of a) l (Z.lxor 0 _)), (foldl_lxor_pull (byte_of b) l (Z.lxor 0 _)), IH.
  rewrite !Z.lxor_0_l, byte_of_lxor. rewrite !Z.lxor_assoc. f_equal. rewrite <- !Z.lxor_assoc. f_equal. apply Z.lxor_comm.
Qed.

(** Byte [i] of a loaded word is the byte at [i]. *)
Lemma byte_of_load l i b : Forall is_u8 l -> l !! i = Some b -> byte_of (le_load l) i = b.
Proof.
  intros Hl. revert i. induction Hl as [|x l Hx Hl IH]; intros i; [done|]. unfold is_u8 in Hx. change (2 ^ 8) with 256 in Hx.
  unfold byte_of in *. change 255 with (Z.ones 8) in *. rewrite Z.land_ones, Z.shiftr_div_pow2 by lia. destruct i as [|i]; cbn [lookup list_lookup].
  - intros [= ->]. cbn [le_load]. change (8 * Z.of_nat 0) with 0. rewrite Z.div_1_r. change (2 ^ 8) with 256.
    rewrite Z.mul_comm, Z_mod_plus_full. by apply Z.mod_small.
  - intros Hi. specialize (IH _ Hi). rewrite Z.land_ones, Z.shiftr_div_pow2 in IH by lia. rewrite <- IH. f_equal. cbn [le_load].
    replace (8 * Z.of_nat (S i)) with (8 + 8 * Z.of_nat i) by lia. rewrite Z.pow_add_r by lia. rewrite <- Z.div_div by lia. f_equal.
    rewrite Z.mul_comm, Z.div_add by lia. change (2 ^ 8) with 256. by rewrite Z.div_small.
Qed.

Lemma fold_word_load c l : length l = 8%nat -> Forall is_u8 l -> fold_word c (le_load l) = Z.lxor c (xor_bytes l).
Proof.
  intros Hl Hb. unfold fold_word. do 9 (destruct l as [|? l]; try discriminate Hl). cbn [seq foldl].
  rewrite !(byte_of_load _ _ _ Hb) by reflexivity. unfold xor_bytes. cbn [foldl]. rewrite Z.lxor_0_l. by rewrite !Z.lxor_assoc.
Qed.

Lemma fold_words c data n :
  (8 * n <= length data)%nat -> Forall is_u8 data ->
  fold_word c (foldl (fun csum i => Z.lxor csum (load64 data i)) 0 (seq 0 n)) = Z.lxor c (xor_bytes (take (8 * n) data)).
Proof.
  intros Hn Hb. induction n as [|n IH].
  - replace (take (8 * 0) data) with (@nil Z) by done. unfold fold_word, byte_of. cbn. by rewrite Z.shiftr_0_l, !Z.lxor_0_r.
  - rewrite seq_S, foldl_app. cbn [foldl Nat.add]. rewrite fold_word_lxor, IH by lia. unfold load64.
    rewrite fold_word_load; [|unfold sub_bytes; rewrite length_take, length_drop; lia|by apply Forall_take, Forall_drop].
    rewrite Z.lxor_0_l, Z.lxor_assoc, <- xor_bytes_app. do 2 f_equal. unfold sub_bytes.
    replace (8 * S n)%nat with (8 * n + 8)%nat by lia. by rewrite take_take_drop.
Qed.

Lemma update_checksum_bytes c l : Forall is_u8 l -> update_checksum c l = foldl Z.lxor c l.
Proof.
  intros Hl. unfold update_checksum, checksum_tail, csum_words. pose proof (Nat.Div0.mul_div_le (length l) 8).
  rewrite fold_words by (done || lia). rewrite (xor_bytes_acc (Z.lxor _ _)), Z.lxor_assoc, <- xor_bytes_app.
  rewrite (Nat.mul_comm (length l / 8)), take_drop. by rewrite <- xor_bytes_acc.
Qed.

Lemma checksum_by_words_pieces c a b :
  Forall is_u8 a -> Forall is_u8 b -> update_checksum (update_checksum c a) b = update_checksum c (a ++ b).
Proof. intros Ha Hb. rewrite !update_checksum_bytes; [|by apply Forall_app|done..]. by rewrite foldl_app. Qed.

(** The checksum loop by words of both programs is the exclusive or byte by byte; so it does not matter how the data is
    cut into pieces. *)
Theorem checksum_by_words (checksum : Z) (data more : list Z) :
  Forall is_u8 data -> Forall is_u8 more ->
  update_checksum checksum data = foldl Z.lxor checksum data /\
  update_checksum (update_checksum checksum data) more = update_checksum checksum (data ++ more).
Proof.
  intros Hd Hm. split; [by apply update_checksum_bytes|by apply checksum_by_words_pieces].
Qed.

Lemma checksum_by_words_witness :
  update_checksum 3 [1; 2; 3; 4; 5; 6; 7; 8; 200] = foldl Z.lxor 3 [1; 2; 3; 4; 5; 6; 7; 8; 200] /\
  update_checksum (update_checksum 3 [1; 2; 3; 4; 5; 6; 7; 8; 200]) [9] = update_checksum 3 ([1; 2; 3; 4; 5; 6; 7; 8; 200] ++ [9]).
Proof. apply checksum_by_words; repeat (constructor; [unfold is_u8; lia|]); constructor. Defined.

(** ** The hash and the random generator *)

Class Hasher (H : Type) := {
  hash_init : H;
  hash_update : H -> list Z -> H;        (* gnutls_hash *)
  hash_output : H -> list Z;             (* gnutls_hash_output, after which the state is that of [hash_init] *)
}.
Class HasherLaws (H : Type) `{Hasher H} : Prop := {
  hash_update_nil : forall h, hash_update h [] = h;
  hash_update_app : forall h a b, hash_update (hash_update h a) b = hash_update h (a ++ b);
  hash_output_length : forall h, length (hash_output h) = 32%nat;
}.
Class Rng (R : Type) := {
  rng_seed : Z -> R;                     (* std::mt19937_64 *)
  rng_next : R -> R * Z;                 (* its operator(), whose results are 64 bits *)
}.

(** ** The server *)

Module Server.
Section server.
Context {H : Type} `{Hasher H}.
Variables no_hash no_checksum : bool.

Record stream_info := mkInfo { expected : Z; received : Z; checksum : Z; hasher : H }.
Definition info_new (size : Z) : stream_info := mkInfo size 0 0 hash_init.

(** The data callback on one stream, whose entry is [it], if there is one: the new entry, and what it sends. *)
Definition count_data (data : list Z) (info : stream_info) : stream_info * option (list Z) :=
  let need_more := received info <? expected info in
  let got := u64 (received info + zlen data) in
  let too_much := expected info <? got in
  if too_much && negb need_more then (mkInfo (expected info) got (checksum info) (hasher info), None)
  else
    let data := if too_much then ztake (zlen data - u64 (got - expected info)) data else data in
    let sum := if no_checksum then checksum info else update_checksum (checksum info) data in
    let h := if no_hash then hasher info else hash_update (hasher info) data in
    if expected info <=? got then (mkInfo (expected info) got sum hash_init, Some (hash_output h ++ [sum]))
    else (mkInfo (expected info) got sum h, None).
Definition stream_piece (data : list Z) (it : option stream_info) : option stream_info * option (list Z) :=
  match it with
  | Some info => let '(i, r) := count_data data info in (Some i, r)
  | None =>
      if zlen data <? 8 then (None, None)
      else let '(i, r) := count_data (zdrop 8 data) (info_new (le_load (ztake 8 data))) in (Some i, r)
  end.

(** The callback, over the table of streams of each connection. *)
Definition server_stream_data (scid : ConnectionID) (id : Z) (data : list Z) (csd : gmap (Z * list Z) (list (Z * stream_info))) :
    gmap (Z * list Z) (list (Z * stream_info)) * option (list Z) :=
  let sd := default [] (csd !! cid_key scid) in
  let '(it, r) := stream_piece data (map_find id sd) in
  (<[cid_key scid := match it with Some i => map_assign id i sd | None => sd end]> csd, r).

(** What a stream's entry becomes over the pieces that arrive, and all answers. *)
Fixpoint stream_pieces (pieces : list (list Z)) (it : option stream_info) : option stream_info * list (list Z) :=
  match pieces with
  | [] => (it, [])
  | p :: ps =>
      let '(it1, r) := stream_piece p it in
      let '(it2, rs) := stream_pieces ps it1 in
      (it2, option_list r ++ rs)
  end.

(** The pieces that arrive on all streams of all connections, in order, and the answers. *)
Fixpoint serve (events : list (ConnectionID * Z * list Z)) (csd : gmap (Z * list Z) (list (Z * stream_info))) :
    gmap (Z * list Z) (list (Z * stream_info)) * list (ConnectionID * Z * list Z) :=
  match events with
  | [] => (csd, [])
  | (scid, id, data) :: es =>
      let '(csd1, r) := server_stream_data scid id data csd in
      let '(csd2, rs) := serve es csd1 in
      (csd2, map (fun a => (scid, id, a)) (option_list r) ++ rs)
  end.
End server.
Arguments stream_info : clear implicits.
Arguments mkInfo {H}.
End Server.
Export Server.

Section server.
Context {H : Type} `{HasherLaws H}.
Context (no_hash no_checksum : bool).
Implicit Types (B p : list Z).

Definition sum_of B : Z := if no_checksum then 0 else update_checksum 0 B.
Definition hash_of B : H := if no_hash then hash_init else hash_update hash_init B.
Definition answer B : list Z := hash_output (hash_of B) ++ [sum_of B].

(** The entry of a stream that announced [size] bytes and of whose data [B] has come. *)
Definition entry (size : Z) B : stream_info H :=
  mkInfo size (zlen B) (sum_of (ztake size B)) (if size <=? zlen B then hash_init else hash_of B).

Lemma sum_of_app a b : Forall is_u8 a -> Forall is_u8 b -> (if no_checksum then sum_of a else update_checksum (sum_of a) b) = sum_of (a ++ b).
Proof. intros Ha Hb. unfold sum_of. destruct no_checksum; [done|]. by apply checksum_by_words_pieces. Qed.
Lemma hash_of_app a b : (if no_hash then hash_of a else hash_update (hash_of a) b) = hash_of (a ++ b).
Proof. unfold hash_of. destruct no_hash; [done|]. apply hash_update_app. Qed.

Lemma count_step size B p :
  0 < size -> Forall is_u8 (B ++ p) -> zlen (B ++ p) < 2 ^ 64 -> size < 2 ^ 64 -> p <> [] \/ zlen B < size ->
  count_data no_hash no_checksum p (entry size B) =
    (entry size (B ++ p),
     if (zlen B <? size) && (size <=? zlen (B ++ p)) then Some (answer (ztake size (B ++ p))) else None).
Proof.
  intros Hs [HB Hp]%Forall_app Hl Hs64 Hne. pose proof (zlen_nonneg B) as HzB. pose proof (zlen_nonneg p) as HzP. rewrite zlen_app in *.
  assert (p <> [] -> 0 < zlen p) as Hpos by (unfold zlen; destruct p; cbn; [done|lia]).
  unfold count_data, entry. cbn [received expected checksum hasher]. rewrite zlen_app, (u64_small (zlen B + zlen p)) by (unfold is_u64; lia).
  destruct (zlen B <? size) eqn:Eb; bools; cbn [negb andb].
  - rewrite andb_false_r. rewrite (proj2 (Z.leb_gt size (zlen B))) by lia.
    assert (ztake size B = B) as HtB by (unfold ztake; rewrite take_ge; [done|unfold zlen in *; lia]). rewrite HtB.
    destruct (size <=? zlen B + zlen p) eqn:Ed; bools.
    + set (q := if size <? zlen B + zlen p then ztake (zlen p - u64 (zlen B + zlen p - size)) p else p).
      assert (q = ztake (size - zlen B) p) as Hq.
      { subst q. destruct (size <? zlen B + zlen p) eqn:Et; bools.
        - rewrite u64_small by (unfold is_u64; lia). f_equal. lia.
        - unfold ztake. rewrite take_ge; [done|]. unfold zlen in *. lia. }
      assert (ztake size (B ++ p) = B ++ q) as HtBp.
      { rewrite Hq. unfold ztake. rewrite take_app. unfold zlen in *. rewrite take_ge by lia. do 2 f_equal. lia. }
      assert (Forall is_u8 q) as Hq8 by (rewrite Hq; by apply Forall_take).
      rewrite HtBp. unfold answer. by rewrite sum_of_app, hash_of_app.
    + rewrite (proj2 (Z.ltb_ge size _)) by lia.
      assert (ztake size (B ++ p) = B ++ p) as -> by (unfold ztake; rewrite take_ge; [done|unfold zlen in *; rewrite length_app; lia]).
      by rewrite sum_of_app, hash_of_app.
  - destruct Hne as [Hne|]; [|lia]. specialize (Hpos Hne). rewrite (proj2 (Z.ltb_lt size _)), (proj2 (Z.leb_le size _)), (proj2 (Z.leb_le size _)) by lia.
    cbn [andb]. do 2 f_equal. unfold ztake. rewrite take_app_le by (unfold zlen in *; lia). done.
Qed.

Lemma info_new_entry size : 0 < size -> info_new size = entry size [].
Proof.
  intros Hs. unfold info_new, entry, hash_of, sum_of. rewrite (proj2 (Z.leb_gt size (zlen []))) by (unfold zlen; cbn; lia).
  unfold ztake. rewrite take_nil, hash_update_nil. f_equal; [by destruct no_checksum|by destruct no_hash].
Qed.

Lemma pieces_step size B ps :
  0 < size < 2 ^ 64 -> Forall is_u8 (B ++ concat ps) -> zlen (B ++ concat ps) < 2 ^ 64 -> Forall (fun p => p <> []) ps ->
  stream_pieces no_hash no_checksum ps (Some (entry size B)) =
    (Some (entry size (B ++ concat ps)),
     if (zlen B <? size) && (size <=? zlen (B ++ concat ps)) then [answer (ztake size (B ++ concat ps))] else []).
Proof.
  intros Hs. revert B. induction ps as [|p ps IH]; intros B Hb Hl Hne; cbn [concat stream_pieces].
  { rewrite app_nil_r. destruct (zlen B <? size) eqn:E1, (size <=? zlen B) eqn:E2; bools; try done. lia. }
  inversion_clear Hne as [|? ? Hp Hps]. cbn [concat] in *. rewrite app_assoc in *. pose proof Hb as [HBp _]%Forall_app.
  pose proof Hl as Hl2. rewrite zlen_app in Hl2. pose proof (zlen_nonneg (concat ps)) as Hz. cbn [stream_piece].
  rewrite count_step by (done || lia || by left). rewrite IH by done. f_equal.
  pose proof (zlen_app B p) as Hbp. pose proof (zlen_nonneg p) as Hzp. rewrite (zlen_app (B ++ p)) in *.
  destruct (zlen B <? size) eqn:E1; cbn [andb]; bools.
  - destruct (size <=? zlen (B ++ p)) eqn:E2; bools; cbn [option_list app].
    + rewrite (proj2 (Z.ltb_ge (zlen (B ++ p)) size)) by lia. cbn [andb]. rewrite (proj2 (Z.leb_le size _)) by lia.
      by rewrite (ztake_app_le size (B ++ p)) by lia.
    + by rewrite (proj2 (Z.ltb_lt (zlen (B ++ p)) size)) by lia.
  - by rewrite (proj2 (Z.ltb_ge (zlen (B ++ p)) size)) by lia.
Qed.

Lemma server_pieces size first rest :
  0 < size -> size = le_load (ztake 8 first) -> 8 <= zlen first -> Forall is_u8 (first ++ concat rest) ->
  zlen (first ++ concat rest) < 2 ^ 64 -> Forall (fun p => p <> []) rest ->
  let body := zdrop 8 (first ++ concat rest) in
  stream_pieces no_hash no_checksum (first :: rest) None =
    (Some (entry size body), if size <=? zlen body then [answer (ztake size body)] else []).
Proof.
  intros Hs Hsize Hf Hb Hl Hne body. assert (body = zdrop 8 first ++ concat rest) as Hbody by (apply zdrop_app_le; lia).
  assert (size < 2 ^ 64) as Hs64.
  { rewrite Hsize. replace (2 ^ 64) with (2 ^ (8 * zlen (ztake 8 first))) by (by rewrite zlen_ztake by lia).
    apply le_load_bound. apply Forall_take. by apply Forall_app in Hb as [? _]. }
  assert (Forall is_u8 body) as Hb8 by (by apply Forall_drop). assert (zlen body < 2 ^ 64) as Hlb.
  { unfold body. rewrite zlen_zdrop; [lia|]. rewrite zlen_app. pose proof (zlen_nonneg (concat rest)). lia. }
  cbn [stream_pieces stream_piece]. rewrite (proj2 (Z.ltb_ge (zlen first) 8)), <- Hsize, info_new_entry by lia.
  pose proof Hb8 as Hb8'. rewrite Hbody in Hb8'. apply Forall_app in Hb8' as [Hf8 _]. rewrite Hbody, zlen_app in Hlb. pose proof (zlen_nonneg (concat rest)) as Hzr.
  rewrite count_step; [|done|done|cbn [app]; lia|done|right; unfold zlen; cbn; lia]. cbn [app].
  rewrite pieces_step; [|done|by rewrite <- Hbody|rewrite zlen_app; lia|done]. rewrite <- Hbody. f_equal.
  change (zlen (@nil Z)) with 0. rewrite (proj2 (Z.ltb_lt 0 size)) by done. cbn [andb].
  destruct (size <=? zlen (zdrop 8 first)) eqn:E; bools; cbn [option_list app].
  - rewrite (proj2 (Z.ltb_ge _ size)) by lia. cbn [andb]. rewrite Hbody, (proj2 (Z.leb_le size _)) by (rewrite zlen_app; lia).
    by rewrite (ztake_app_le size (zdrop 8 first)) by lia.
  - by rewrite (proj2 (Z.ltb_lt _ size)) by lia.
Qed.

(** What belongs to one stream of one connection. *)
Definition of_stream (scid : ConnectionID) (id : Z) (l : list (ConnectionID * Z * list Z)) : list (list Z) :=
  omap (fun x => if decide (cid_key x.1.1 = cid_key scid /\ x.1.2 = id) then Some x.2 else None) l.
Definition entry_of (scid : ConnectionID) (id : Z) (csd : gmap (Z * list Z) (list (Z * stream_info H))) : option (stream_info H) :=
  map_find id (default [] (csd !! cid_key scid)).

Lemma entry_of_server_data scid id data csd scid' id' :
  entry_of scid' id' (server_stream_data no_hash no_checksum scid id data csd).1 =
    if decide (cid_key scid = cid_key scid' /\ id = id') then (stream_piece no_hash no_checksum data (entry_of scid id csd)).1
    else entry_of scid' id' csd.
Proof.
  unfold server_stream_data, entry_of. destruct (stream_piece _ _ data _) as [it r] eqn:Hp. cbn [fst].
  destruct (decide (cid_key scid = cid_key scid')) as [E|E].
  - rewrite E, lookup_insert_eq. cbn [default]. rewrite E in Hp. destruct (decide (id = id')) as [->|Hid].
    + rewrite decide_True by done. destruct it as [i|]; cbn; [apply map_find_assign_eq|].
      destruct (map_find id' _) as [i|] eqn:Hf; [|done]. cbn [stream_piece] in Hp. by destruct (count_data _ _ _ _).
    + rewrite decide_False by naive_solver. destruct it; [|done]. cbn. by rewrite map_find_assign_ne.
  - rewrite lookup_insert_ne, decide_False by naive_solver. done.
Qed.

(** The streams do not disturb each other. *)
Lemma serve_stream scid id events csd :
  let '(csd', answers) := serve no_hash no_checksum events csd in
  stream_pieces no_hash no_checksum (of_stream scid id events) (entry_of scid id csd) = (entry_of scid id csd', of_stream scid id answers).
Proof.
  revert csd. induction events as [|[[c i] d] es IH]; intros csd; cbn [serve]; [done|].
  pose proof (entry_of_server_data c i d csd scid id) as He. destruct (server_stream_data no_hash no_checksum c i d csd) as [csd1 r] eqn:Hd.
  specialize (IH csd1). destruct (serve _ _ es csd1) as [csd2 rs]. cbn [fst] in He. unfold of_stream. rewrite omap_app. cbn [omap list_omap fst snd].
  fold (of_stream scid id es) (of_stream scid id rs). destruct (decide (cid_key c = cid_key scid /\ i = id)) as [[Ec ->]|Hn].
  - unfold server_stream_data in Hd. unfold entry_of in He, IH |- *. rewrite Ec in Hd, He. destruct (stream_piece no_hash no_checksum d _) as [it r'] eqn:Hp.
    cbn [stream_pieces]. rewrite Hp. cbn [fst] in He. rewrite He in IH. rewrite IH. injection Hd as _ ->. destruct r; cbn; rewrite ?decide_True by done; done.
  - rewrite He in IH. rewrite IH. f_equal. destruct r; cbn; rewrite ?decide_False by done; done.
Qed.

Lemma serve_answers scid id size events first rest :
  of_stream scid id events = first :: rest -> 8 <= zlen first -> size = le_load (ztake 8 first) -> 0 < size ->
  Forall is_u8 (first ++ concat rest) -> zlen (first ++ concat rest) < 2 ^ 64 -> Forall (fun p => p <> []) rest ->
  let body := zdrop 8 (first ++ concat rest) in
  of_stream scid id (serve no_hash no_checksum events ∅).2 = if size <=? zlen body then [answer (ztake size body)] else [].
Proof.
  intros He Hf Hs Hpos Hb Hl Hne body. pose proof (serve_stream scid id events ∅) as Hsv. destruct (serve _ _ events ∅) as [csd rs].
  unfold entry_of in Hsv at 1. rewrite lookup_empty, He in Hsv. cbn [default map_find] in Hsv.
  rewrite (server_pieces size) in Hsv by done. by injection Hsv as _ Hsv.
Qed.

(** The server answers a stream exactly once, when the announced number of bytes has come, with the hash and the checksum
    of exactly these bytes, however the data is cut into pieces (the first of at least the eight bytes of the size, no piece
    after it empty), whatever follows the data, and whatever comes in between on other streams and connections. *)
Theorem server_answers_once (scid : ConnectionID) (id size : Z) (events : list (ConnectionID * Z * list Z)) (first : list Z) (rest : list (list Z)) :
  of_stream scid id events = first :: rest -> 8 <= zlen first -> size = le_load (ztake 8 first) -> 0 < size ->
  Forall is_u8 (first ++ concat rest) -> zlen (first ++ concat rest) < 2 ^ 64 -> Forall (fun p => p <> []) rest ->
  let body := zdrop 8 (first ++ concat rest) in
  of_stream scid id (serve no_hash no_checksum events ∅).2 = if size <=? zlen body then [answer (ztake size body)] else [].
Proof. apply serve_answers. Qed.

(** The limits of this: what comes before the entry is made is lost if it is shorter than the size, and an empty piece
    after the answer makes a second one, now with the hash of nothing. *)
Lemma server_short_first p ps :
  zlen p < 8 -> stream_pieces no_hash no_checksum (p :: ps) None = stream_pieces no_hash no_checksum ps None.
Proof. intros Hp. cbn. rewrite (proj2 (Z.ltb_lt (zlen p) 8)) by done. by destruct (stream_pieces _ _ ps None). Qed.

Lemma server_answers_again size B :
  0 < size < 2 ^ 64 -> zlen B = size ->
  stream_piece no_hash no_checksum [] (Some (entry size B)) = (Some (entry size B), Some (hash_output hash_init ++ [sum_of B])).
Proof.
  intros Hs Hz. cbn [stream_piece]. unfold count_data, entry. cbn [received expected checksum hasher]. change (zlen (@nil Z)) with 0.
  rewrite Z.add_0_r, u64_small by (unfold is_u64; lia). rewrite (proj2 (Z.ltb_ge size (zlen B))), (proj2 (Z.leb_le size (zlen B))) by lia.
  rewrite andb_false_l, hash_update_nil. replace (update_checksum (sum_of (ztake size B)) []) with (sum_of (ztake size B)) by
    (unfold update_checksum, checksum_tail, fold_word, csum_words, byte_of; cbn; by rewrite !Z.lxor_0_r).
  replace (ztake size B) with B by (unfold ztake; rewrite take_ge; [done|unfold zlen in *; lia]). by destruct no_checksum, no_hash.
Qed.
End server.

(** ** The client *)

Module Client.
Section client.
Context {H R : Type} `{Hasher H} `{Rng R}.
Variables no_hash no_checksum : bool.

(** A stream's state, but for the stream itself and [recv_hasher], which is not used; [running] says that
    [run_prom] was given its value. *)
Record stream_data := mkData {
  remaining : Z;
  rng : R;
  bufs : list (list Z);
  done_sending : bool;
  done : bool;
  running : bool;
  failed : bool;
  next_buf : nat;
  hash : list Z;
  checksum : Z;
  sent_hasher : H;
}.

(** [std::vector<std::byte>::resize]. *)
Definition resize (n : Z) (l : list Z) : outcome (list Z) :=
  if 2 ^ 63 - 1 <? n then Throw length_error else Ok (ztake n l ++ replicate (Z.to_nat (n - zlen l)) 0).
Definition data_new (total_size seed chunk_size : Z) (chunk_num : nat) : outcome stream_data :=
  let* buf := resize chunk_size [] in
  Ok (mkData total_size (rng_seed seed) (replicate chunk_num buf) false false false false 0 [] 0 hash_init).

(** The checksum of the client: the loop over the bytes left starts at a masked size. *)
Definition gen_checksum (checksum : Z) (data : list Z) : Z :=
  foldl Z.lxor (fold_word checksum (csum_words data)) (zdrop (Z.land (zlen data) (u64 (Z.lnot 7))) data).

(** [n] numbers of the generator, and the loop that writes them into memory. *)
Fixpoint rng_words (n : nat) (r : R) : R * list Z :=
  match n with
  | O => (r, [])
  | S n' => let '(r1, w) := rng_next r in let '(r2, ws) := rng_words n' r1 in (r2, w :: ws)
  end.
Definition store_words (words data : list Z) : list Z :=
  concat (map (le_bytes 8) words) ++ drop (8 * length words) data.

Definition gen_data (r : R) (size : Z) (data : list Z) (hasher : H) (checksum : Z) : outcome (R * list Z * H * Z) :=
  assert_then (0 <? size)
    (let rng_size := 8 in
     let rng_chunks := u64 (u64 (size + rng_size) - 1) / rng_size in
     let size_data := u64 (rng_chunks * rng_size) in
     let* data := resize size_data data in
     let '(r, words) := rng_words (Z.to_nat rng_chunks) r in
     let* data := resize size (store_words words data) in
     let checksum := if no_checksum then checksum else gen_checksum checksum data in
     let hasher := if no_hash then hasher else hash_update hasher data in
     Ok (r, data, hasher, checksum)).

(** The callback of [send_chunks]; the pointer it returns is the index of the buffer it points to. *)
Definition chunk_callback (chunk_size : Z) (sd : stream_data) : outcome (stream_data * option nat) :=
  match bufs sd !! next_buf sd with
  | None => Undefined
  | Some data =>
      let next := (S (next_buf sd) mod length (bufs sd))%nat in
      let size := Z.min (remaining sd) chunk_size in
      if size =? 0 then
        Ok (mkData (remaining sd) (rng sd) (bufs sd) (done_sending sd) (done sd) (running sd) (failed sd) next (hash sd) (checksum sd)
              (sent_hasher sd), None)
      else
        let* (r, data, h, sum) := gen_data (rng sd) size data (sent_hasher sd) (checksum sd) in
        let left := u64 (remaining sd - size) in
        Ok (mkData left r (<[next_buf sd := data]> (bufs sd)) (if left =? 0 then true else done_sending sd) (done sd) (running sd)
              (failed sd) next (if left =? 0 then hash_output h else hash sd) sum (if left =? 0 then hash_init else h),
            Some (next_buf sd))
  end.

(** The state after [n] calls, and what the next call gives [send_chunks] to send. *)
Fixpoint after_calls (chunk_size : Z) (n : nat) (sd : stream_data) : outcome stream_data :=
  match n with
  | O => Ok sd
  | S n' => let* sd1 := after_calls chunk_size n' sd in let* (sd2, _) := chunk_callback chunk_size sd1 in Ok sd2
  end.
Definition chunk_view (o : outcome (stream_data * option nat)) : list Z :=
  match o with Ok (sd, Some b) => default [] (bufs sd !! b) | _ => [] end.
Definition chunk_of (chunk_size : Z) (sd : stream_data) (n : nat) : list Z :=
  chunk_view (let* sd1 := after_calls chunk_size n sd in chunk_callback chunk_size sd1).

(** The size of each stream's data, and the making of a stream's state, with its data if it is made beforehand. *)
Definition my_data (size parallel i : Z) : Z := u64 (size / parallel + (if i =? 0 then size mod parallel else 0)).
Definition pregenerated (total : Z) (sd : stream_data) : outcome stream_data :=
  match bufs sd !! 0%nat with
  | None => Undefined
  | Some data =>
      let* (r, data, h, sum) := gen_data (rng sd) total data (sent_hasher sd) (checksum sd) in
      Ok (mkData (remaining sd) r (<[0%nat := data]> (bufs sd)) (done_sending sd) (done sd) (running sd) (failed sd) (next_buf sd)
            (hash_output h) sum hash_init)
  end.
Definition make_stream (pregenerate : bool) (size parallel seed chunk_size : Z) (chunk_num : nat) (i : Z) : outcome stream_data :=
  let my := my_data size parallel i in
  let* sd := data_new my (u64 (seed + i)) (if pregenerate then my else chunk_size) (if pregenerate then 1%nat else chunk_num) in
  if pregenerate then pregenerated my sd else Ok sd.
Fixpoint make_streams (pregenerate : bool) (size parallel seed chunk_size : Z) (chunk_num : nat) (idx : list nat) : outcome (list stream_data) :=
  match idx with
  | [] => Ok []
  | i :: idx' =>
      let* sd := make_stream pregenerate size parallel seed chunk_size chunk_num (Z.of_nat i) in
      let* sds := make_streams pregenerate size parallel seed chunk_size chunk_num idx' in
      Ok (sd :: sds)
  end.

(** Starting a stream: the size, and then all data, or the chunks. *)
Definition start_stream (pregenerate : bool) (chunk_size : Z) (chunk_num : nat) (sd : stream_data) (st : chunk_state) :
    outcome (stream_data * chunk_state * list effect) :=
  let '(s1, e1) := Stream_send_string (cs_stream st) (le_bytes 8 (remaining sd)) 0 in
  if pregenerate then
    match bufs sd !! 0%nat with
    | None => Undefined
    | Some data =>
        let '(s2, e2) := Stream_send s1 data KNone in
        Ok (mkData 0 (rng sd) (bufs sd) true (done sd) (running sd) (failed sd) (next_buf sd) (hash sd) (checksum sd) (sent_hasher sd),
            mkCS s2 (cs_senders st), e1 ++ e2)
    end
  else
    let* (st2, e2) := send_chunks (chunk_of chunk_size sd) false (i32 (Z.of_nat chunk_num)) (mkCS s1 (cs_senders st)) in
    Ok (sd, st2, e1 ++ e2).

(** The data callback. *)
Definition judge (data : list Z) (sd : stream_data) : stream_data :=
  if done sd then sd
  else
    let bad :=
      if negb (done_sending sd) then true
      else if negb (zlen data =? 33) then true
      else if negb (bool_decide (take 32 data = hash sd)) then true
      else if negb (nth 32 data 0 =? checksum sd) then true
      else false in
    mkData (remaining sd) (rng sd) (bufs sd) (done_sending sd) true true bad (next_buf sd) (hash sd) (checksum sd) (sent_hasher sd).
Definition on_stream_data (parallel id : Z) (data : list Z) (streams : list stream_data) : outcome (list stream_data) :=
  let i := u64 (Z.shiftr id 2) in
  if parallel <=? i then Ok streams
  else match streams !! Z.to_nat i with
       | None => Undefined
       | Some sd => Ok (<[Z.to_nat i := judge data sd]> streams)
       end.

(** The end of [main]: whether it still waits, and its verdict. *)
Definition all_done (streams : list stream_data) : bool := forallb done streams.
Definition all_good (streams : list stream_data) : bool := forallb (fun sd => negb (failed sd)) streams.
End client.
Arguments stream_data : clear implicits.
Arguments mkData {H R}.
End Client.

(** ** A stream with one chunk sender *)

(** The sender has given the first [m] chunks. *)
Definition progress (f : nat -> list Z) (senders : list chunk_sender) (m : nat) : Prop :=
  exists cs, senders = [cs] /\ (forall i, (i < m)%nat -> f i <> []) /\
    match next_chunk cs with Some g => g = f /\ calls cs = m | None => calls cs = S m /\ f m = [] end.
(** Some effects advance it. *)
Definition advances (f : nat -> list Z) (s : list chunk_sender) (e : list effect) (s' : list chunk_sender) : Prop :=
  forall m, progress f s m -> exists n, progress f s' (m + n) /\ chunk_bytes e = concat (map f (seq m n)).

Lemma advances_refl f s e : chunk_bytes e = [] -> advances f s e s.
Proof. intros He m Hp. exists 0%nat. by rewrite Nat.add_0_r. Qed.

Lemma advances_trans f s1 e1 s2 e2 s3 : advances f s1 e1 s2 -> advances f s2 e2 s3 -> advances f s1 (e1 ++ e2) s3.
Proof.
  intros H12 H23 m Hp. destruct (H12 _ Hp) as (n1 & Hp1 & E1). destruct (H23 _ Hp1) as (n2 & Hp2 & E2).
  exists (n1 + n2)%nat. rewrite Nat.add_assoc. split; [done|]. by rewrite chunk_bytes_app, E1, E2, seq_app, map_app, concat_app.
Qed.

Lemma queue_next_chunk_advances f k st : advances f (cs_senders st) (queue_next_chunk k st).2 (cs_senders (queue_next_chunk k st).1).
Proof.
  intros m Hp. unfold queue_next_chunk. destruct (cs_senders st !! k) as [cs|] eqn:Hk; [|by apply advances_refl].
  destruct (next_chunk cs) as [g|] eqn:Hg; [|by apply advances_refl]. pose proof Hp as (cs' & Hs & Hne & Hc). rewrite Hs in Hk.
  apply list_lookup_singleton_Some in Hk as [-> ->]. rewrite Hg in Hc. destruct Hc as [-> Hm]. rewrite Hs, Hm. case_bool_decide as Hf.
  - exists 0%nat. rewrite Nat.add_0_r. split; [eexists; cbn; by split_and!|]. cbn. rewrite Hf. by destruct (has_done cs).
  - exists 1%nat. rewrite Nat.add_1_r. split; [|cbn; by destruct (ready (cs_stream st))]. eexists. cbn. split_and!; [done| |done..].
    intros i [Hi| ->]%Nat.lt_succ_r%Nat.le_lteq; [by apply Hne|done].
Qed.

Lemma pop_front_advances f st : advances f (cs_senders st) (pop_front st).2 (cs_senders (pop_front st).1).
Proof.
  unfold pop_front. destruct (user_buffers (cs_stream st)) as [|[b [|u|k]] rest]; [by apply advances_refl..|].
  apply (queue_next_chunk_advances f k (mkCS _ (cs_senders st))).
Qed.

Lemma ack_loop_advances f stale fuel bytes st b st' e ub :
  ack_loop stale fuel bytes st = Ok (b, st', e, ub) -> advances f (cs_senders st) e (cs_senders st').
Proof.
  apply (ack_loop_closed (fun s e s' => advances f (cs_senders s) e (cs_senders s'))); [by intros; apply advances_refl|apply pop_front_advances|].
  intros. by eapply advances_trans.
Qed.

Lemma acknowledge_advances f stale fuel bytes st st' e ub :
  acknowledge stale fuel bytes st = Ok (st', e, ub) -> advances f (cs_senders st) e (cs_senders st').
Proof.
  unfold acknowledge. intros [_ Ha]%assert_then_ok. apply obind_ok in Ha as ([[[b st2] e2] ub2] & Hl%(ack_loop_advances f) & Ha).
  destruct (b =? 0); [by simplify_eq|]. destruct (user_buffers (cs_stream st2)) as [|[fr ka] rest]; by simplify_eq.
Qed.

Lemma queue_initial_advances f n k st : advances f (cs_senders st) (queue_initial n k st).2 (cs_senders (queue_initial n k st).1).
Proof.
  revert st. induction n as [|n IH]; intros st; cbn [queue_initial]; [by apply advances_refl|].
  pose proof (queue_next_chunk_advances f k st) as Hq. destruct (queue_next_chunk k st) as [st1 e1].
  specialize (IH st1). destruct (queue_initial n k st1) as [st2 e2]. by eapply advances_trans.
Qed.

Section client.
Context {H R : Type} `{HasherLaws H} `{Rng R}.
Context (no_hash no_checksum : bool).
Implicit Types (sd : Client.stream_data H R).
Import Client.

Lemma mask_size n : is_u64 n -> Z.land n (u64 (Z.lnot 7)) = n / 8 * 8.
Proof.
  intros Hn. unfold u64, wrap. rewrite <- Z.land_ones by lia. rewrite (Z.land_comm (Z.lnot 7)), Z.land_assoc, (Z.land_ones n) by lia.
  rewrite Z.mod_small by done. change 7 with (Z.ones 3). rewrite <- Z.ldiff_land, Z.ldiff_ones_r by lia.
  by rewrite Z.shiftr_div_pow2, Z.shiftl_mul_pow2 by lia.
Qed.

Lemma gen_checksum_update c l : zlen l < 2 ^ 64 -> gen_checksum c l = update_checksum c l.
Proof.
  intros Hl. unfold gen_checksum, update_checksum, checksum_tail. rewrite mask_size by (split; [apply zlen_nonneg|done]).
  f_equal. unfold zdrop, zlen. f_equal. change 8 with (Z.of_nat 8). rewrite <- Nat2Z.inj_div, <- Nat2Z.inj_mul. apply Nat2Z.id.
Qed.

Lemma resize_ok n l : 0 <= n <= 2 ^ 63 - 1 -> exists l', resize n l = Ok l' /\ zlen l' = n /\ (n <= zlen l -> l' = ztake n l).
Proof.
  intros Hn. unfold resize. rewrite (proj2 (Z.ltb_ge _ n)) by lia. eexists. split; [done|]. pose proof (zlen_nonneg l) as Hz. split.
  - unfold zlen, ztake in *. rewrite length_app, length_take, length_replicate. lia.
  - intros Hle. replace (Z.to_nat (n - zlen l)) with 0%nat by lia. by rewrite app_nil_r.
Qed.

Lemma stored_words words data :
  length data = (8 * length words)%nat -> zlen (store_words words data) = 8 * zlen words /\ Forall is_u8 (store_words words data).
Proof.
  intros Hl. unfold store_words. rewrite drop_ge, app_nil_r by lia. clear Hl. split.
  - rewrite zlen_concat, map_map. induction words as [|w ws IH]; [done|]. unfold zsum in *. cbn [map foldr] in *.
    rewrite IH, zlen_cons. unfold zlen at 1. rewrite le_bytes_length. lia.
  - induction words as [|w ws IH]; cbn [map concat]; [done|]. apply Forall_app. split; [apply le_bytes_u8|done].
Qed.

Lemma rng_words_length n (r : R) : length (rng_words n r).2 = n.
Proof. revert r. induction n as [|n IH]; intros r; cbn; [done|]. destruct (rng_next r) as [r1 w]. specialize (IH r1). destruct (rng_words n r1). cbn in *. by rewrite IH. Qed.

Lemma gen_data_ok (r : R) size data (h : H) c :
  0 < size <= 2 ^ 63 - 8 ->
  exists r' d, gen_data no_hash no_checksum r size data h c =
      Ok (r', d, if no_hash then h else hash_update h d, if no_checksum then c else update_checksum c d) /\
    zlen d = size /\ Forall is_u8 d.
Proof.
  intros Hs. unfold gen_data. rewrite (proj2 (Z.ltb_lt 0 size)) by lia. cbn [assert_then].
  rewrite (u64_small (size + 8)), (u64_small (size + 8 - 1)) by (unfold is_u64; lia). set (n := (size + 8 - 1) / 8).
  assert (size <= n * 8 <= size + 7) as Hn by (subst n; pose proof (Z.div_mod (size + 8 - 1) 8 ltac:(lia)); pose proof (Z.mod_pos_bound (size + 8 - 1) 8); lia).
  rewrite u64_small by (unfold is_u64; lia). destruct (resize_ok (n * 8) data) as (d1 & -> & Hd1 & _); [lia|]. cbn [obind].
  pose proof (rng_words_length (Z.to_nat n) r) as Hw. destruct (rng_words (Z.to_nat n) r) as [r' ws]. cbn [snd] in Hw.
  destruct (stored_words ws d1) as [Hz H8]; [unfold zlen in *; lia|]. assert (zlen ws = n) as Hzw by (unfold zlen; lia).
  destruct (resize_ok size (store_words ws d1)) as (d2 & -> & Hd2 & Ht); [lia|]. cbn [obind].
  assert (Forall is_u8 d2) by (rewrite Ht by lia; by apply Forall_take).
  exists r', d2. rewrite gen_checksum_update by lia. done.
Qed.

Lemma judge_accepts sd D :
  done sd = false -> done_sending sd = true -> hash sd = hash_output (hash_of no_hash D) -> checksum sd = sum_of no_checksum D ->
  done (judge (answer no_hash no_checksum D) sd) = true /\ failed (judge (answer no_hash no_checksum D) sd) = false.
Proof.
  intros Hd Hds Hh Hc. unfold judge, answer. rewrite Hd, Hds, Hh, Hc. cbn [done failed negb].
  pose proof (hash_output_length (hash_of no_hash D)) as Hl. unfold zlen. rewrite length_app, Hl. cbn [length Nat.add]. change (Z.of_nat 33) with 33.
  rewrite take_app_length' by done. rewrite bool_decide_eq_true_2 by done. cbn [negb]. rewrite app_nth2, Hl by lia. cbn [nth Nat.sub].
  by rewrite !Z.eqb_refl.
Qed.

(** ** The chunks of the client *)

Section chunks.
Context (chunk_size total : Z) (chunk_num : nat) (sd0 : Client.stream_data H R).
Context (Hcs : 0 < chunk_size) (Htotal : 0 < total <= 2 ^ 63 - 8) (Hnum : (0 < chunk_num)%nat).
Context (seed : Z) (Hnew : data_new total seed chunk_size chunk_num = Ok sd0).

Notation f := (chunk_of no_hash no_checksum chunk_size sd0).
(** What the first [i] calls gave. *)
Definition sent_by (i : nat) : list Z := concat (map f (seq 0 i)).

(** The state after [i] calls. *)
Record at_call (i : nat) sd : Prop := {
  ac_left : remaining sd = total - zlen (sent_by i);
  ac_bound : zlen (sent_by i) <= total;
  ac_u8 : Forall is_u8 (sent_by i);
  ac_bufs : length (bufs sd) = chunk_num;
  ac_next : next_buf sd = (i mod chunk_num)%nat;
  ac_sum : checksum sd = sum_of no_checksum (sent_by i);
  ac_sending : done_sending sd = (zlen (sent_by i) =? total);
  ac_hash : zlen (sent_by i) = total -> hash sd = hash_output (hash_of no_hash (sent_by i));
  ac_hasher : zlen (sent_by i) < total -> sent_hasher sd = hash_of no_hash (sent_by i);
  ac_open : done sd = false /\ running sd = false /\ failed sd = false;
  ac_slots : forall s, (s < chunk_num)%nat -> ring_memory f chunk_num i s <> [] -> bufs sd !! s = Some (ring_memory f chunk_num i s);
}.

Lemma sent_by_S i : sent_by (S i) = sent_by i ++ f i.
Proof. unfold sent_by. rewrite seq_S, map_app, concat_app. cbn. by rewrite app_nil_r. Qed.

Lemma at_call_0 : at_call 0 sd0.
Proof.
  unfold data_new in Hnew. destruct (resize chunk_size []) as [b| | | |]; try done. injection Hnew as <-.
  assert (zlen (sent_by 0) = 0) as Hz by done. split; cbn [remaining bufs next_buf checksum done_sending hash sent_hasher]; rewrite ?Hz; try done; try lia.
  - apply length_replicate.
  - by rewrite Nat.Div0.mod_0_l.
  - unfold sum_of. by destruct no_checksum.
  - intros _. unfold hash_of. destruct no_hash; [done|]. by rewrite hash_update_nil.
Qed.

Lemma next_slot i : (S (i mod chunk_num) mod chunk_num = S i mod chunk_num)%nat.
Proof. rewrite <- (Nat.add_1_r i), <- Nat.add_1_r. apply Nat.Div0.add_mod_idemp_l. Qed.

(** One call. *)
Lemma at_call_step i sd :
  after_calls no_hash no_checksum chunk_size i sd0 = Ok sd -> at_call i sd ->
  (exists sd', after_calls no_hash no_checksum chunk_size (S i) sd0 = Ok sd' /\ at_call (S i) sd') /\
  zlen (f i) = Z.min (total - zlen (sent_by i)) chunk_size.
Proof.
  intros Ha [Hleft Hb H8 Hbufs Hnext Hsum Hsend Hhash Hhasher Hopen Hslots]. pose proof (zlen_nonneg (sent_by i)) as Hz.
  pose proof (Nat.mod_upper_bound i chunk_num ltac:(lia)) as Hlt.
  assert (is_Some (bufs sd !! next_buf sd)) as [data Hd] by (apply lookup_lt_is_Some; lia).
  assert (f i = chunk_view (chunk_callback no_hash no_checksum chunk_size sd)) as Hf by (unfold chunk_of; by rewrite Ha).
  cbn [after_calls]. rewrite Ha. cbn [obind]. unfold chunk_callback in *. rewrite Hd in *. rewrite Hleft in *.
  destruct (Z.min (total - zlen (sent_by i)) chunk_size =? 0) eqn:Es; bools.
  - cbn [chunk_view] in Hf. assert (sent_by (S i) = sent_by i) as HS by (by rewrite sent_by_S, Hf, app_nil_r). split; [|rewrite Hf, Es; done].
    eexists. split; [done|]. split; rewrite ?HS; cbn [remaining bufs next_buf checksum done_sending hash sent_hasher done running failed]; try done.
    + rewrite Hnext, Hbufs. apply next_slot.
    + cbn [ring_memory]. by rewrite Hf.
  - destruct (gen_data_ok (rng sd) (Z.min (total - zlen (sent_by i)) chunk_size) data (sent_hasher sd) (checksum sd)) as (r' & d & Hg & Hdl & Hd8); [lia|].
    rewrite Hg in *. cbn [obind] in *. cbn [chunk_view bufs] in Hf. rewrite list_lookup_insert_eq in Hf by lia. change (f i = d) in Hf.
    assert (sent_by (S i) = sent_by i ++ d) as HS by (by rewrite sent_by_S, Hf). split; [|by rewrite Hf].
    assert (zlen (sent_by (S i)) = zlen (sent_by i) + zlen d) as Hl by (by rewrite HS, zlen_app).
    rewrite u64_small by (unfold is_u64; lia). assert (zlen (sent_by i) < total) as Hlt2 by lia. rewrite (Hhasher Hlt2), Hsum, hash_of_app, sum_of_app by done.
    rewrite <- HS. eexists. split; [done|]. split; cbn [remaining bufs next_buf checksum done_sending hash sent_hasher done running failed].
    + lia.
    + lia.
    + rewrite HS. by apply Forall_app.
    + by rewrite length_insert.
    + rewrite Hnext, Hbufs. apply next_slot.
    + done.
    + destruct (_ - _ =? 0) eqn:E0; bools; symmetry; [apply Z.eqb_eq; lia|]. rewrite Hsend. rewrite (proj2 (Z.eqb_neq (zlen (sent_by i)) total)) by lia. apply Z.eqb_neq. lia.
    + intros He. by rewrite (proj2 (Z.eqb_eq _ 0)) by lia.
    + intros He. by rewrite (proj2 (Z.eqb_neq _ 0)) by lia.
    + done.
    + intros s Hs. cbn [ring_memory]. rewrite Hf. rewrite Hnext. destruct (negb _ && (s =? i mod chunk_num)%nat) eqn:E.
      * apply andb_true_iff in E as [_ ->%Nat.eqb_eq]. intros _. by rewrite list_lookup_insert_eq by lia.
      * intros Hne. assert (s <> i mod chunk_num)%nat as Hsn.
        { intros ->. rewrite Nat.eqb_refl, andb_true_r in E. rewrite bool_decide_eq_false_2 in E; [done|]. intros ->. change (zlen (@nil Z)) with 0 in Hdl. lia. }
        rewrite list_lookup_insert_ne by congruence. by apply Hslots.
Qed.

Lemma reach_call i : exists sd, after_calls no_hash no_checksum chunk_size i sd0 = Ok sd /\ at_call i sd.
Proof.
  induction i as [|i (sd & Ha & Hi)]; [exists sd0; split; [done|apply at_call_0]|]. by apply (at_call_step i sd).
Qed.

(** Chunk [i] is as long as the chunk size allows. *)
Lemma chunk_length i : zlen (f i) = Z.min (total - zlen (sent_by i)) chunk_size.
Proof. destruct (reach_call i) as (sd & Ha & Hi). by eapply at_call_step. Qed.

Lemma sent_by_bound i : zlen (sent_by i) <= total /\ Forall is_u8 (sent_by i).
Proof. destruct (reach_call i) as (sd & Ha & Hi). by destruct Hi. Qed.

Lemma chunk_empty i : f i = [] <-> zlen (sent_by i) = total.
Proof.
  pose proof (chunk_length i) as Hl. pose proof (sent_by_bound i). split; intros Hf; [rewrite Hf in Hl; change (zlen (@nil Z)) with 0 in Hl; lia|].
  apply nil_length_inv. unfold zlen in *. lia.
Qed.

(** The number of chunks. *)
Lemma sent_by_length i : zlen (sent_by i) = Z.min total (Z.of_nat i * chunk_size).
Proof.
  induction i as [|i IH]; [unfold sent_by, zlen; cbn; lia|]. rewrite sent_by_S, zlen_app, chunk_length, IH. lia.
Qed.

(** The life of the client's stream, from its start: writes, acknowledgements, and the flags. *)
Inductive client_run : chunk_state -> list Z -> Z -> Prop :=
  | cr_start dcb ccb id sd st e :
      start_stream no_hash no_checksum false chunk_size chunk_num sd0 (mkCS (Stream_new dcb ccb id) []) = Ok (sd, st, e) ->
      zlen (content (cs_stream st)) < 2 ^ 64 -> client_run st (le_bytes 8 (remaining sd0) ++ chunk_bytes e) 0
  | cr_wrote st hist acked n :
      client_run st hist acked -> 0 <= n <= unsent (cs_stream st) ->
      client_run (mkCS (Stream_wrote (cs_stream st) n) (cs_senders st)) hist acked
  | cr_ack st hist acked stale n st' e ub :
      client_run st hist acked -> 0 <= n <= unacked (cs_stream st) ->
      acknowledge stale (ack_fuel n st) n st = Ok (st', e, ub) -> zlen (content (cs_stream st')) < 2 ^ 64 ->
      client_run st' (hist ++ chunk_bytes e) (acked + n)
  | cr_ready st hist acked b :
      client_run st hist acked -> client_run (mkCS (with_ready (cs_stream st) b) (cs_senders st)) hist acked.

Lemma remaining_0 : remaining sd0 = total.
Proof. unfold data_new in Hnew. destruct (resize chunk_size []); try done. by injection Hnew as <-. Qed.

Context (Hnum_max : (chunk_num <= 100)%nat).

Lemma client_run_stream st hist acked : client_run st hist acked -> stream_run st hist acked [(f, Z.of_nat chunk_num)].
Proof.
  induction 1 as [dcb ccb id sd st e Hs Hm|st hist acked n Hr IH Hn|st hist acked stale n st' e ub Hr IH Hn Hack Hm|st hist acked b Hr IH];
    [|by apply run_wrote|by eapply run_ack|by apply run_ready].
  unfold start_stream in Hs. cbn [Stream_send_string Stream_send_view Stream_send append_buffer] in Hs. cbn [ready Stream_new cs_stream] in Hs.
  rewrite i32_small in Hs by lia. apply obind_ok in Hs as ([st2 e2] & Hs & [= <- <- <-]). cbn [app].
  eapply (run_chunks (mkCS _ []) _ 0 [] f false _ st2 e2); [|exact Hs|done].
  apply (run_send (mkCS (Stream_new dcb ccb id) []) [] 0 [] (le_bytes 8 (remaining sd0)) 0); [constructor|].
  unfold zlen. rewrite le_bytes_length. done.
Qed.

(** What was queued so far: the size and the first [m] chunks. *)
Lemma client_run_hist st hist acked : client_run st hist acked -> exists m, progress f (cs_senders st) m /\ hist = le_bytes 8 total ++ sent_by m.
Proof.
  induction 1 as [dcb ccb id sd st e Hs Hm|st hist acked n Hr IH Hn|st hist acked stale n st' e ub Hr (m & Hp & ->) Hn Hack Hm|st hist acked b Hr IH];
    [|done| |done].
  - unfold start_stream in Hs. cbn [Stream_send_string Stream_send_view Stream_send append_buffer] in Hs. cbn [ready Stream_new cs_stream] in Hs.
    apply obind_ok in Hs as ([st2 e2] & Hs & [= <- <- <-]). cbn [app]. unfold send_chunks in Hs. destruct (_ <? 1); [done|]. injection Hs as Hs.
    match type of Hs with queue_initial ?n ?k ?s = _ => pose proof (queue_initial_advances f n k s 0%nat) as Hq; rewrite Hs in Hq end.
    destruct Hq as (m & Hp & Hcb); [eexists; cbn; split_and!; [done|lia|done..]|]. cbn in Hp, Hcb. rewrite Hcb. exists m. rewrite remaining_0. done.
  - destruct (acknowledge_advances f _ _ _ _ _ _ _ Hack _ Hp) as (n' & Hp' & ->). exists (m + n')%nat. split; [done|].
    unfold sent_by. by rewrite seq_app, map_app, concat_app, app_assoc.
Qed.

(** Once all is queued, the client is ready for the answer. *)
Lemma queued_all_ready st m : progress f (cs_senders st) m -> zlen (sent_by m) = total ->
  exists cs sd, cs_senders st = [cs] /\ after_calls no_hash no_checksum chunk_size (calls cs) sd0 = Ok sd /\
    done (judge (answer no_hash no_checksum (sent_by m)) sd) = true /\ failed (judge (answer no_hash no_checksum (sent_by m)) sd) = false.
Proof.
  intros (cs & Hs & Hne & Hc) Hall. destruct (reach_call (calls cs)) as (sd & Ha & Hi). exists cs, sd. split; [done|]. split; [done|].
  assert (sent_by (calls cs) = sent_by m) as Heq.
  { destruct (next_chunk cs); destruct Hc as [Hc Hf]; [by rewrite Hf|]. by rewrite Hc, sent_by_S, Hf, app_nil_r. }
  destruct Hi as [_ _ _ _ _ Hsum Hsend Hhash _ (Hd & _) _]. rewrite Heq in *. apply judge_accepts; [done|..|by apply Hhash|done].
  rewrite Hsend. by apply Z.eqb_eq.
Qed.

Lemma received_prefix pieces m :
  8 <= zlen pieces -> pieces `prefix_of` le_bytes 8 total ++ sent_by m ->
  ztake 8 pieces = le_bytes 8 total /\ zdrop 8 pieces `prefix_of` sent_by m.
Proof.
  intros Hl [k Hk]. assert (ztake 8 (pieces ++ k) = le_bytes 8 total) as Ht.
  { rewrite <- Hk. unfold ztake. by rewrite take_app_length' by (by rewrite le_bytes_length). }
  rewrite ztake_app_le in Ht by done. split; [done|]. exists k. rewrite <- zdrop_app_le by lia. rewrite <- Hk. unfold zdrop.
  by rewrite drop_app_length' by (by rewrite le_bytes_length).
Qed.

Lemma client_answered st hist acked scid id events first rest :
  client_run st hist acked -> of_stream scid id events = first :: rest -> first ++ concat rest `prefix_of` hist ->
  8 <= zlen first -> Forall (fun p => p <> []) rest ->
  let answers := of_stream scid id (serve no_hash no_checksum events ∅).2 in
  (zlen (first ++ concat rest) < 8 + total /\ answers = []) \/
  (first ++ concat rest = hist /\ zlen hist = 8 + total /\ exists a cs sd, answers = [a] /\ cs_senders st = [cs] /\
     after_calls no_hash no_checksum chunk_size (calls cs) sd0 = Ok sd /\ done (judge a sd) = true /\ failed (judge a sd) = false).
Proof.
  intros (m & Hp & ->)%client_run_hist He Hpre Hf Hne answers. destruct (sent_by_bound m) as [Hb H8].
  assert (zlen (le_bytes 8 total) = 8) as Hl8 by (unfold zlen; by rewrite le_bytes_length).
  assert (8 <= zlen (first ++ concat rest)) as Hl by (rewrite zlen_app; pose proof (zlen_nonneg (concat rest)); lia).
  destruct (received_prefix _ _ Hl Hpre) as [Ht [k Hk]].
  assert (zlen (zdrop 8 (first ++ concat rest)) + zlen k = zlen (sent_by m)) as Hlen by (by rewrite <- zlen_app, <- Hk).
  rewrite zlen_zdrop in Hlen by lia. pose proof (zlen_nonneg k) as Hzk.
  assert (total = le_load (ztake 8 first)) as Hsize by (rewrite <- (ztake_app_le 8 first (concat rest)) by done; rewrite Ht, le_load_bytes by lia; done).
  assert (Forall is_u8 (first ++ concat rest)) as Hb8.
  { destruct Hpre as [k2 Hk2]. assert (Forall is_u8 (le_bytes 8 total ++ sent_by m)) as Hall by (apply Forall_app; split; [apply le_bytes_u8|done]).
    rewrite Hk2 in Hall. by apply Forall_app in Hall as [? _]. }
  pose proof (serve_answers no_hash no_checksum scid id total events first rest He Hf Hsize ltac:(lia) Hb8 ltac:(lia) Hne) as Ha.
  fold answers in Ha. cbv zeta in Ha. rewrite zlen_zdrop in Ha by lia. destruct (total <=? _) eqn:Et in Ha; bools; [right|left; split; [lia|done]].
  assert (k = []) as -> by (apply nil_length_inv; unfold zlen in *; lia). rewrite app_nil_r in Hk.
  assert (ztake total (sent_by m) = sent_by m) as Htk by (unfold ztake; rewrite take_ge; [done|unfold zlen in *; lia]).
  rewrite <- Hk, Htk in Ha. split; [rewrite <- (ztake_zdrop 8 (first ++ concat rest)); by rewrite Ht, <- Hk|].
  split; [rewrite zlen_app; lia|]. destruct (queued_all_ready st m Hp ltac:(lia)) as (cs & sd & Hcs' & Hsd & Hdone & Hfail). by exists (answer no_hash no_checksum (sent_by m)), cs, sd.
Qed.

(** When everything queued is acknowledged, everything there is was queued. *)
Lemma client_completes st hist acked :
  client_run st hist acked -> acked = zlen hist -> zlen hist = 8 + total.
Proof.
  intros Hr Hacked. pose proof (client_run_stream _ _ _ Hr) as Hrun. destruct (client_run_hist _ _ _ Hr) as (m & (cs & Hs & Hne & Hc) & ->).
  pose proof (stream_run_simulates _ _ _ _ Hrun) as (_ & _ & _ & Hcont). rewrite Hacked in Hcont.
  assert (content (cs_stream st) = []) as Hempty by (rewrite Hcont; unfold zdrop, zlen; by rewrite drop_ge by lia). clear Hcont.
  rewrite zlen_app. unfold zlen at 1. rewrite le_bytes_length. destruct (next_chunk cs) as [g|] eqn:Hg.
  - exfalso. pose proof (stream_run_busy _ _ _ _ 0 _ _ Hrun eq_refl cs) as Hbusy. rewrite Hs, Hg, Nat2Z.id in Hbusy. specialize (Hbusy eq_refl ltac:(done)).
    destruct (stream_run_window _ _ _ _ 0 _ _ Hrun eq_refl) as (cs1 & first & _ & Hq & _).
    destruct (queued_chunks 0 (user_buffers (cs_stream st))) as [|b l] eqn:Hb; [cbn in Hbusy; lia|]. inversion Hq as [|? ? ? ? [_ Hbne] _]; subst.
    assert (b ∈ user_buffers (cs_stream st)) as Hin by (apply (list_elem_of_filter (fun b => b.2 = KChunk 0)); unfold queued_chunks in Hb; rewrite Hb; left).
    apply Hbne. unfold content in Hempty. apply concat_nil_Forall in Hempty. rewrite Forall_map, Forall_forall in Hempty. by apply Hempty.
  - destruct Hc as [_ Hf]. apply chunk_empty in Hf. lia.
Qed.

(** The views that the stream holds are of buffers that still hold their chunks. *)
Lemma client_ring st hist acked :
  client_run st hist acked ->
  exists cs sd first, cs_senders st = [cs] /\ after_calls no_hash no_checksum chunk_size (calls cs) sd0 = Ok sd /\
    Forall2 (fun b i => exists buf, bufs sd !! (i mod chunk_num)%nat = Some buf /\ b.1 `suffix_of` buf)
      (queued_chunks 0 (user_buffers (cs_stream st))) (seq first (inflight 0 (cs_stream st))).
Proof.
  intros Hr. destruct (client_run_hist _ _ _ Hr) as (m & (cs & Hs & _) & _). pose proof (client_run_stream _ _ _ Hr) as Hrun.
  pose proof (stream_run_window _ _ _ _ 0 _ _ Hrun eq_refl) as (cs1 & first & Hk & Hq & Hne & Hc). pose proof (stream_run_inflight _ _ _ _ 0 _ _ Hrun eq_refl) as Hi.
  rewrite Hs in Hk. injection Hk as <-. destruct (reach_call (calls cs)) as (sd & Ha & Hat). exists cs, sd, first. split; [done|]. split; [done|].
  unfold inflight in *. fold (queued_chunks 0 (user_buffers (cs_stream st))) in *. set (q := queued_chunks _ _) in *.
  apply Forall2_same_length_lookup_2; [by rewrite length_seq|]. intros j b i Hb Hi2. pose proof (Forall2_lookup_lr _ _ _ _ _ _ Hq Hb Hi2) as [Hsuf _].
  apply lookup_seq in Hi2 as [-> Hlt]. cbn beta in *. exists (f (first + j)%nat). split; [|done].
  rewrite <- (window_memory f chunk_num cs first (length q) (first + j)) by (done || lia).
  apply (ac_slots _ _ Hat); [apply Nat.mod_upper_bound; lia|]. rewrite window_memory with (first := first) (len := length q) by (done || lia). apply Hne. lia.
Qed.
End chunks.

(** With all data made beforehand. *)
Lemma pregenerated_stream total seed sd sd0 sd1 dcb ccb id st e :
  0 < total <= 2 ^ 63 - 8 -> data_new total seed total 1 = Ok sd -> pregenerated no_hash no_checksum total sd = Ok sd0 ->
  start_stream no_hash no_checksum true 0 1 sd0 (mkCS (Stream_new dcb ccb id) []) = Ok (sd1, st, e) ->
  exists D, content (cs_stream st) = le_bytes 8 total ++ D /\ zlen D = total /\ Forall is_u8 D /\
    done (judge (answer no_hash no_checksum D) sd1) = true /\ failed (judge (answer no_hash no_checksum D) sd1) = false.
Proof.
  intros Ht Hn Hp Hs. unfold data_new in Hn. destruct (resize total []) as [b| | | |]; try done. injection Hn as <-.
  unfold pregenerated in Hp. cbn [bufs replicate lookup list_lookup] in Hp.
  destruct (gen_data_ok (rng_seed seed) total b hash_init 0 Ht) as (r & D & Hg & Hl & H8). cbn [rng sent_hasher checksum] in Hp. rewrite Hg in Hp.
  injection Hp as <-. unfold start_stream in Hs. cbn [bufs replicate lookup list_lookup insert list_insert remaining] in Hs. injection Hs as <- <- _.
  exists D. split; [unfold content; cbn [cs_stream user_buffers with_buffers Stream_new app map fst concat]; by rewrite app_nil_r|]. split; [done|]. split; [done|].
  by apply judge_accepts.
Qed.

(** A stream that gets no data, because there are more streams than bytes: the server answers at once, and the
    client takes that as a failure; with the data made beforehand it stops at an assertion. *)
Lemma empty_stream_fails seed chunk_size chunk_num sd0 sd :
  0 < chunk_size -> (0 < chunk_num)%nat -> data_new 0 seed chunk_size chunk_num = Ok sd0 ->
  after_calls no_hash no_checksum chunk_size 1 sd0 = Ok sd ->
  chunk_of no_hash no_checksum chunk_size sd0 0 = [] /\
  (stream_pieces no_hash no_checksum [le_bytes 8 0] None).2 = [answer no_hash no_checksum []] /\
  failed (judge (answer no_hash no_checksum []) sd) = true /\
  pregenerated no_hash no_checksum 0 sd0 = AssertFail.
Proof.
  intros Hcs Hnum Hn Ha. unfold data_new in Hn. destruct (resize chunk_size []) as [b| | | |]; try done. injection Hn as <-.
  destruct chunk_num as [|n]; [lia|]. unfold after_calls, chunk_callback in Ha. cbn [obind bufs next_buf replicate lookup list_lookup remaining] in Ha.
  rewrite Z.min_l in Ha by lia. injection Ha as <-. split_and!; try done.
  - unfold chunk_of, after_calls, chunk_callback. cbn [obind bufs next_buf replicate lookup list_lookup remaining]. by rewrite Z.min_l by lia.
Qed.
End client.

(** ** The test as a whole *)

(** The streams' parts add up to what was asked for. *)
Lemma my_data_total size parallel :
  0 < parallel -> is_u64 size -> zsum (map (fun i => Client.my_data size parallel (Z.of_nat i)) (seq 0 (Z.to_nat parallel))) = size.
Proof.
  intros Hp Hs. unfold is_u64 in Hs. pose proof (Z.div_mod size parallel ltac:(lia)) as Hd. pose proof (Z.mod_pos_bound size parallel Hp) as Hm.
  assert (0 <= size / parallel) as Hq by (apply Z.div_pos; lia). assert (size / parallel <= parallel * (size / parallel)) as Hq2 by nia.
  assert (forall i, Client.my_data size parallel (Z.of_nat i) = size / parallel + if (i =? 0)%nat then size mod parallel else 0) as Hi.
  { intros i. unfold Client.my_data. replace (Z.of_nat i =? 0) with (i =? 0)%nat by (by destruct i).
    apply u64_small. unfold is_u64. destruct (i =? 0)%nat; lia. }
  assert (forall n, zsum (map (fun i => Client.my_data size parallel (Z.of_nat i)) (seq 0 (S n))) = Z.of_nat (S n) * (size / parallel) + size mod parallel) as Hsum.
  { induction n as [|n IH]; [cbn [seq map zsum foldr]; rewrite (Hi 0%nat); cbn; lia|]. rewrite seq_S, map_app.
    rewrite zsum_app, IH. cbn [map zsum foldr]. rewrite (Hi (0 + S n)%nat). cbn [Nat.add Nat.eqb]. lia. }
  destruct (Z.to_nat parallel) as [|n] eqn:Hn; [lia|]. rewrite Hsum. replace (Z.of_nat (S n)) with parallel by lia. lia.
Qed.

(** C33: a stream of the speed test that has data to send ([0 < total]), in chunks of at least one byte, comes to the right end,
    whatever has been acknowledged so far, if the server's first piece of the stream holds the 8 bytes of the size and no later piece
    is empty: in whatever such pieces the server has received a prefix of the client's bytes, between pieces of other streams, it has
    answered if and only if it has everything, and then once, and the client, whose callbacks are then all done, takes this answer as
    a success; and once all that was queued is acknowledged, that was everything.  (Without these conditions it need not:
    [empty_stream_fails], [server_short_first], [server_answers_again].) *)
Theorem speedtest_succeeds {H R : Type} `{HasherLaws H} `{Rng R} (no_hash no_checksum : bool)
    (size parallel seed chunk_size total id : Z) (chunk_num i : nat) (sd0 sd : Client.stream_data H R) (streams : list (Client.stream_data H R))
    (st : chunk_state) (cs : chunk_sender) (hist : list Z) (acked : Z) (scid : ConnectionID) (events : list (ConnectionID * Z * list Z)) (first : list Z) (rest : list (list Z)) :
  parallel = zlen streams -> total = Client.my_data size parallel (Z.of_nat i) -> id = 4 * Z.of_nat i ->
  0 < chunk_size -> (1 <= chunk_num <= 100)%nat -> parallel <= 32 -> 0 < total <= 2 ^ 63 - 8 ->
  Client.make_stream no_hash no_checksum false size parallel seed chunk_size chunk_num (Z.of_nat i) = Ok sd0 ->
  client_run no_hash no_checksum chunk_size chunk_num sd0 st hist acked ->
  cs_senders st = [cs] -> Client.after_calls no_hash no_checksum chunk_size (calls cs) sd0 = Ok sd -> streams !! i = Some sd ->
  of_stream scid id events = first :: rest -> first ++ concat rest `prefix_of` hist -> 8 <= zlen first -> Forall (fun p => p <> []) rest ->
  let answers := of_stream scid id (serve no_hash no_checksum events ∅).2 in
  (acked = zlen hist -> zlen hist = 8 + total) /\
  ((zlen (first ++ concat rest) < 8 + total /\ answers = []) \/
   (zlen (first ++ concat rest) = 8 + total /\
    exists a sd', answers = [a] /\ Client.on_stream_data parallel id a streams = Ok (<[i := sd']> streams) /\
      Client.done sd' = true /\ Client.failed sd' = false)).
Proof.
  intros Hp Htot Hid Hcs Hnum Hpar Ht Hmk Hr Hs Ha Hst He Hpre Hf Hne answers. unfold Client.make_stream in Hmk.
  apply obind_ok in Hmk as (sd0' & Hnew & [= ->]). rewrite <- Htot in Hnew.
  split; [apply (client_completes no_hash no_checksum chunk_size total chunk_num sd0 Hcs Ht ltac:(lia) _ Hnew ltac:(lia) st hist acked Hr)|].
  destruct (client_answered no_hash no_checksum chunk_size total chunk_num sd0 Hcs Ht ltac:(lia) _ Hnew ltac:(lia) st hist acked scid id events first rest
    Hr He Hpre Hf Hne) as [Hno|(-> & Hlen & a & cs' & sd' & Hans & Hs' & Ha' & Hd & Hfl)]; [by left|right].
  rewrite Hs in Hs'. injection Hs' as <-. rewrite Ha in Ha'. injection Ha' as <-. split; [done|].
    exists a, (Client.judge a sd). split_and!; try done. unfold Client.on_stream_data. pose proof (lookup_lt_Some _ _ _ Hst) as Hlt.
    assert (u64 (Z.shiftr id 2) = Z.of_nat i) as ->.
    { rewrite Hid, Z.shiftr_div_pow2 by lia. change (2 ^ 2) with 4. rewrite Z.mul_comm, Z.div_mul by lia. apply u64_small.
      unfold is_u64, zlen in *. lia. }
    rewrite (proj2 (Z.leb_gt parallel _)) by (rewrite Hp; unfold zlen; lia). by rewrite Nat2Z.id, Hst.
Qed.

(** ** Examples *)

(** A hash that keeps the first bytes, and a linear generator. *)
#[local] Instance toy_hasher : Hasher (list Z) :=
  { hash_init := []; hash_update h d := h ++ d; hash_output h := take 32 (h ++ replicate 32 0) }.
#[local] Instance toy_hasher_laws : HasherLaws (list Z).
Proof.
  split; cbn [hash_update hash_output toy_hasher]; [apply app_nil_r|intros; by rewrite app_assoc|]. intros h. rewrite length_take, length_app, length_replicate. lia.
Qed.
#[local] Instance toy_rng : Rng Z := { rng_seed s := s; rng_next r := (u64 (r * 6364136223846793005 + 1442695040888963407), r) }.

(** Two connections; seven bytes in three pieces, and three more that were not announced. *)
Definition example_events : list (ConnectionID * Z * list Z) :=
  let a := mkCID [1] 1 in let b := mkCID [2] 1 in
  [(a, 0, [7; 0; 0; 0; 0; 0; 0; 0; 1; 2]); (b, 0, [1; 2; 3]); (a, 4, [1; 0; 0; 0; 0; 0; 0; 0]); (a, 0, [3; 4; 5]); (a, 0, [6; 7; 8; 9; 10])].

Lemma server_answers_once_witness :
  of_stream (mkCID [1] 1) 0 (serve false false example_events ∅).2 = [[1; 2; 3; 4; 5; 6; 7] ++ replicate 25 0 ++ [0]].
Proof.
  rewrite (server_answers_once (H := list Z) false false (mkCID [1] 1) 0 7 example_events
    [7; 0; 0; 0; 0; 0; 0; 0; 1; 2] [[3; 4; 5]; [6; 7; 8; 9; 10]]); [vm_compute; reflexivity|reflexivity|done|reflexivity|done| |done|].
  - repeat (constructor; [unfold is_u8; lia|]); constructor.
  - repeat constructor; discriminate.
Defined.

(** Seven bytes in chunks of three, two at a time: the first two chunks are sent and acknowledged, then the third. *)
Definition round (n : Z) (x : chunk_state * list Z) : outcome (chunk_state * list Z) :=
  let st1 := mkCS (Stream_wrote (cs_stream x.1) n) (cs_senders x.1) in
  let* (st2, e, _) := acknowledge 0 (ack_fuel n st1) n st1 in
  assert_then ((0 <=? n) && (n <=? unsent (cs_stream x.1)) && (n <=? unacked (cs_stream st1)) && (zlen (content (cs_stream st2)) <? 2 ^ 64))
    (Ok (st2, x.2 ++ chunk_bytes e)).
Definition client_life (size seed chunk_size : Z) (chunk_num : nat) (n1 n2 : Z) :
    outcome (Client.stream_data (list Z) Z * chunk_state * chunk_sender * Client.stream_data (list Z) Z * list Z) :=
  let* sd0 := Client.make_stream (R := Z) false false false size 1 seed chunk_size chunk_num 0 in
  let* (_, st, e) := Client.start_stream false false false chunk_size chunk_num sd0 (mkCS (Stream_new None None 0) []) in
  assert_then (zlen (content (cs_stream st)) <? 2 ^ 64)
    (let* x := round n1 (st, le_bytes 8 (Client.remaining sd0) ++ chunk_bytes e) in
     let* (st, hist) := round n2 x in
     match cs_senders st with
     | [cs] => let* sd := Client.after_calls false false chunk_size (calls cs) sd0 in Ok (sd0, st, cs, sd, hist)
     | _ => Undefined
     end).

Lemma round_run chunk_size chunk_num sd0 n st hist acked st' hist' :
  client_run (H := list Z) (R := Z) false false chunk_size chunk_num sd0 st hist acked -> round n (st, hist) = Ok (st', hist') ->
  client_run false false chunk_size chunk_num sd0 st' hist' (acked + n).
Proof.
  intros Hr Hn. unfold round in Hn. cbn [fst snd] in Hn. apply obind_ok in Hn as ([[st2 e] ub] & Hack & [Hb [= <- <-]]%assert_then_ok).
  repeat apply andb_true_iff in Hb as [Hb ?]. bools. eapply cr_ack; [by apply cr_wrote|cbn in *; lia|exact Hack|done].
Qed.

Lemma client_life_run size seed chunk_size chunk_num n1 n2 sd0 st cs sd hist :
  client_life size seed chunk_size chunk_num n1 n2 = Ok (sd0, st, cs, sd, hist) ->
  Client.make_stream (R := Z) false false false size 1 seed chunk_size chunk_num 0 = Ok sd0 /\
  client_run false false chunk_size chunk_num sd0 st hist (0 + n1 + n2) /\ cs_senders st = [cs] /\
  Client.after_calls false false chunk_size (calls cs) sd0 = Ok sd.
Proof.
  intros (sd0' & Hmk & Hex)%obind_ok. apply obind_ok in Hex as ([[sd1 st1] e1] & Hstart & Hex).
  apply assert_then_ok in Hex as [Hm Hex]. apply obind_ok in Hex as ([st2 h2] & H2 & Hex). apply obind_ok in Hex as ([st3 h3] & H3 & Hex).
  destruct (cs_senders st3) as [|cs' [|? ?]] eqn:Hs; try discriminate Hex. apply obind_ok in Hex as (sd' & Ha & Hex).
  injection Hex as -> -> -> -> ->. bools. split; [exact Hmk|]. split; [|done].
  eapply round_run; [|exact H3]. eapply round_run; [|exact H2]. by eapply cr_start.
Qed.

Lemma example_life_ok : exists x, client_life 7 42 3 2 14 1 = Ok x /\ (zlen x.2 =? 15) = true.
Proof. apply (ok_test (client_life 7 42 3 2 14 1) (fun x => zlen x.2 =? 15)). vm_compute. reflexivity. Qed.

Lemma speedtest_succeeds_witness :
  exists (sd0 sd : Client.stream_data (list Z) Z) st cs hist,
    client_run false false 3 2 sd0 st hist 15 /\ zlen hist = 8 + 7 /\
    cs_senders st = [cs] /\ Client.after_calls false false 3 (calls cs) sd0 = Ok sd /\
    exists a sd', of_stream (mkCID [1] 1) 0 (serve false false [(mkCID [1] 1, 0, ztake 10 hist); (mkCID [1] 1, 0, zdrop 10 hist)] ∅).2 = [a] /\
      Client.on_stream_data 1 0 a [sd] = Ok [sd'] /\ Client.done sd' = true /\ Client.failed sd' = false.
Proof.
  destruct example_life_ok as ([[[[sd0 st] cs] sd] hist] & (Hmk & Hr & Hs & Ha)%client_life_run & Hl%Z.eqb_eq). cbn [snd] in Hl. exists sd0, sd, st, cs, hist.
  split; [exact Hr|]. split; [exact Hl|]. split; [exact Hs|]. split; [exact Ha|].
  destruct (speedtest_succeeds (H := list Z) (R := Z) false false 7 1 42 3 7 0 2 0 sd0 sd [sd] st cs hist 15 (mkCID [1] 1)
    [(mkCID [1] 1, 0, ztake 10 hist); (mkCID [1] 1, 0, zdrop 10 hist)] (ztake 10 hist) [zdrop 10 hist]) as [_ [[Hno _]|(_ & a & sd' & Hans & Hd)]];
    try done; try lia.
  - cbn [concat]. rewrite app_nil_r, ztake_zdrop. done.
  - rewrite zlen_ztake; lia.
  - constructor; [|constructor]. intros Hz. apply (f_equal zlen) in Hz. rewrite zlen_zdrop in Hz by lia. change (zlen (@nil Z)) with 0 in Hz. lia.
  - cbn [concat] in Hno. rewrite app_nil_r, ztake_zdrop in Hno. lia.
  - exists a, sd'. done.
Defined.
